(** * Storage devices: path resolution, SigV4 signing, chunked uploads

    A shallow embedding of the TypeScript sources [src/device.ts] (abstract
    [Device]) and [src/device/s3.ts] (classes [S3] and [Local]).

    Conventions of the embedding.
    - A JavaScript string is a [string]: a sequence of code units below 256.
    - A [Buffer] is a [string] as well, one character per byte.
    - A JavaScript number that holds an integer is a [Z].
    - An [async] method is a function in the monad [M] below: it threads the
      world (file system, object heap, network) and may throw.
    - A path on a [Local] device is a canonical absolute path, held as the
      list of its segments; what the methods do with other strings (a
      trailing separator, [.] or [..] segments) is not modelled. *)

From Stdlib Require Import ZArith NArith Lia Bool Ascii String List.
From stdpp Require Import gmap strings list pretty sorting.

Local Open Scope Z_scope.

(** ** JavaScript string primitives *)

Module Js.

(** [s.split(sep)] for a one-character separator. *)
Fixpoint split (sep : ascii) (s : string) : list string :=
  match s with
  | EmptyString => [EmptyString]
  | String a s' =>
      if Ascii.eqb a sep then EmptyString :: split sep s'
      else match split sep s' with
           | h :: t => String a h :: t
           | [] => [String a EmptyString]
           end
  end.

(** [parts.join(sep)]. *)
Fixpoint join (sep : string) (l : list string) : string :=
  match l with
  | [] => EmptyString
  | [x] => x
  | x :: rest => x +:+ sep +:+ join sep rest
  end.

(** [s.replace(/[/\\]/g, '/')]. *)
Definition is_slash (a : ascii) : bool :=
  Ascii.eqb a "/"%char || Ascii.eqb a "\"%char.

Fixpoint replace_slashes (s : string) : string :=
  match s with
  | EmptyString => EmptyString
  | String a s' => String (if is_slash a then "/"%char else a) (replace_slashes s')
  end.

(** [arr.filter(part => part.length > 0)]. *)
Definition nonempty (s : string) : bool :=
  match s with EmptyString => false | _ => true end.


(** [s.toLowerCase()] on code units below 256. *)
Definition lower_char (a : ascii) : ascii :=
  let n := N_of_ascii a in
  if ((65 <=? n) && (n <=? 90) || (192 <=? n) && (n <=? 222) && negb (n =? 215))%N
  then ascii_of_N (n + 32) else a.

Fixpoint toLowerCase (s : string) : string :=
  match s with
  | EmptyString => EmptyString
  | String a s' => String (lower_char a) (toLowerCase s')
  end.

(** [s.trim()]: white space and line terminators below 256. *)
Definition is_space (a : ascii) : bool :=
  let n := N_of_ascii a in
  ((9 <=? n) && (n <=? 13) || (n =? 32) || (n =? 160))%N.

Fixpoint trimStart (s : string) : string :=
  match s with
  | EmptyString => EmptyString
  | String a s' => if is_space a then trimStart s' else s
  end.

Fixpoint trimEnd (s : string) : string :=
  match s with
  | EmptyString => EmptyString
  | String a s' =>
      match trimEnd s' with
      | EmptyString => if is_space a then EmptyString else String a EmptyString
      | t => String a t
      end
  end.

Definition trim (s : string) : string := trimEnd (trimStart s).

(** [s.substring(0, n)]. *)
Fixpoint take (n : nat) (s : string) : string :=
  match n, s with
  | S n', String a s' => String a (take n' s')
  | _, _ => EmptyString
  end.

Definition startsWith (s pre : string) : bool := String.prefix pre s.

(** [s.replace(/pat/g, by)] for a literal, non-empty [pat]: [skip] counts the
    characters of the current match still to be dropped. *)
Fixpoint replace_go (pat by_ : string) (skip : nat) (s : string) : string :=
  match s with
  | EmptyString => EmptyString
  | String a s' =>
      match skip with
      | S k => replace_go pat by_ k s'
      | O =>
          if String.prefix pat s
          then by_ +:+ replace_go pat by_ (String.length pat - 1) s'
          else String a (replace_go pat by_ 0 s')
      end
  end.

Definition replaceAll (pat by_ s : string) : string := replace_go pat by_ 0 s.

Definition is_digit (a : ascii) : bool :=
  let n := N_of_ascii a in ((48 <=? n) && (n <=? 57))%N.

(** [iso.replace(/[:-]|\.\d{3}/g, '')]. *)
Fixpoint strip_date_go (skip : nat) (s : string) : string :=
  match s with
  | EmptyString => EmptyString
  | String a s' =>
      match skip with
      | S k => strip_date_go k s'
      | O =>
          if Ascii.eqb a ":" || Ascii.eqb a "-" then strip_date_go 0 s'
          else
            match a, s' with
            | "."%char, String d1 (String d2 (String d3 _)) =>
                if is_digit d1 && is_digit d2 && is_digit d3
                then strip_date_go 3 s'
                else String a (strip_date_go 0 s')
            | _, _ => String a (strip_date_go 0 s')
            end
      end
  end.

Definition strip_date (iso : string) : string := strip_date_go 0 iso.

(** [etag.replace(/^"|"$/g, '')]. *)
Definition dquote : ascii := ascii_of_N 34.

Fixpoint strip_last_quote (s : string) : string :=
  match s with
  | EmptyString => EmptyString
  | String a EmptyString => if Ascii.eqb a dquote then EmptyString else s
  | String a s' => String a (strip_last_quote s')
  end.

Definition strip_quotes (s : string) : string :=
  match s with
  | String a s' => if Ascii.eqb a dquote then strip_last_quote s' else strip_last_quote s
  | EmptyString => EmptyString
  end.

(** [encodeURIComponent(s)] on code units below 256. *)
Definition is_unreserved (a : ascii) : bool :=
  let n := N_of_ascii a in
  ((65 <=? n) && (n <=? 90) || (97 <=? n) && (n <=? 122) || (48 <=? n) && (n <=? 57))%N
  || existsb (Ascii.eqb a) (list_ascii_of_string "-_.!~*'()").

Definition HEX_digit (n : N) : ascii :=
  match n with
  | 0 => "0" | 1 => "1" | 2 => "2" | 3 => "3" | 4 => "4" | 5 => "5" | 6 => "6" | 7 => "7"
  | 8 => "8" | 9 => "9" | 10 => "A" | 11 => "B" | 12 => "C" | 13 => "D" | 14 => "E" | _ => "F"
  end%char%N.

Definition percent (n : N) : string :=
  String "%" (String (HEX_digit (N.shiftr n 4)) (String (HEX_digit (N.land n 15)) EmptyString)).

Fixpoint encodeURIComponent (s : string) : string :=
  match s with
  | EmptyString => EmptyString
  | String a s' =>
      let n := N_of_ascii a in
      (if is_unreserved a then String a EmptyString
       else if (n <? 128)%N then percent n
       else percent (N.lor 192 (N.shiftr n 6)) +:+ percent (N.lor 128 (N.land n 63)))
      +:+ encodeURIComponent s'
  end.

(** [arr.sort()]: ascending code-unit order. *)
Fixpoint insert_sorted (x : string) (l : list string) : list string :=
  match l with
  | [] => [x]
  | y :: l' => if String.leb x y then x :: l else y :: insert_sorted x l'
  end.

Definition sort (l : list string) : list string := foldr insert_sorted [] l.

(** [parseInt(s)]; [None] is [NaN]. *)
Definition dec_val (a : ascii) : option N :=
  if is_digit a then Some (N_of_ascii a - 48)%N else None.

Definition hex_val (a : ascii) : option N :=
  let n := N_of_ascii a in
  if is_digit a then Some (n - 48)%N
  else if ((97 <=? n) && (n <=? 102))%N then Some (n - 87)%N
  else if ((65 <=? n) && (n <=? 70))%N then Some (n - 55)%N
  else None.

Fixpoint take_digits (val : ascii → option N) (radix : N) (acc : option N) (s : string) : option N :=
  match s with
  | EmptyString => acc
  | String a s' =>
      match val a with
      | Some d => take_digits val radix (Some (radix * default 0%N acc + d)%N) s'
      | None => acc
      end
  end.

Definition parseInt (s : string) : option Z :=
  let s := trimStart s in
  let '(neg, s) :=
    match s with
    | String "-" s' => (true, s')
    | String "+" s' => (false, s')
    | _ => (false, s)
    end in
  let n :=
    match s with
    | String "0" (String "x" s') | String "0" (String "X" s') => take_digits hex_val 16 None s'
    | _ => take_digits dec_val 10 None s
    end in
  (λ n, if neg : bool then - Z.of_N n else Z.of_N n) <$> n.

(** The line feed of ["\n"]. *)
Definition nl : string := String (ascii_of_N 10) EmptyString.

(** [s.slice(1, -1)]. *)
Definition slice_inner (s : string) : string :=
  match s with
  | EmptyString => EmptyString
  | String _ s' => take (String.length s' - 1) s'
  end.

(** [`${n}`] for an integer [n]. *)
Definition str (n : Z) : string := pretty n.

End Js.

(** ** Node's [crypto] and [Buffer] primitives *)

Module Crypto.

Local Open Scope N_scope.

Definition bytes_of (s : string) : list N := map N_of_ascii (list_ascii_of_string s).
Definition string_of (l : list N) : string := string_of_list_ascii (map ascii_of_N l).

(** [Buffer.from(s, 'utf8')] on code units below 256. *)
Fixpoint utf8 (s : string) : string :=
  match s with
  | EmptyString => EmptyString
  | String c s' =>
      let n := N_of_ascii c in
      if n <? 128 then String c (utf8 s')
      else String (ascii_of_N (N.lor 192 (N.shiftr n 6)))
             (String (ascii_of_N (N.lor 128 (N.land n 63))) (utf8 s'))
  end.

Definition w32 (x : N) : N := N.land x 0xffffffff.
Definition add32 (x y : N) : N := w32 (x + y).
Definition not32 (x : N) : N := N.lxor (w32 x) 0xffffffff.
Definition rotr (n x : N) : N := N.lor (N.shiftr x n) (w32 (N.shiftl x (32 - n))).
Definition rotl (n x : N) : N := N.lor (w32 (N.shiftl x n)) (N.shiftr x (32 - n)).

(** Big-endian and little-endian packing. *)
Definition be32 (x : N) : list N :=
  [N.land (N.shiftr x 24) 255; N.land (N.shiftr x 16) 255; N.land (N.shiftr x 8) 255; N.land x 255].
Definition le32 (x : N) : list N :=
  [N.land x 255; N.land (N.shiftr x 8) 255; N.land (N.shiftr x 16) 255; N.land (N.shiftr x 24) 255].
Definition be64 (x : N) : list N := be32 (N.shiftr x 32) ++ be32 (w32 x).
Definition le64 (x : N) : list N := le32 (w32 x) ++ le32 (N.shiftr x 32).

Fixpoint words_be (l : list N) : list N :=
  match l with
  | a :: b :: c :: d :: rest =>
      (N.shiftl a 24 + N.shiftl b 16 + N.shiftl c 8 + d) :: words_be rest
  | _ => []
  end.
Fixpoint words_le (l : list N) : list N :=
  match l with
  | a :: b :: c :: d :: rest =>
      (a + N.shiftl b 8 + N.shiftl c 16 + N.shiftl d 24) :: words_le rest
  | _ => []
  end.

(** Padding to a multiple of 64 bytes: 0x80, zeros, the bit length. *)
Definition pad_zeros (len : N) : nat := N.to_nat ((119 - len mod 64) mod 64).
Definition pad (len64 : N → list N) (msg : list N) : list N :=
  let len := N.of_nat (length msg) in
  msg ++ [128] ++ repeat 0 (pad_zeros len) ++ len64 (8 * len).

Fixpoint blocks (fuel : nat) (l : list N) : list (list N) :=
  match fuel, l with
  | S fuel', _ :: _ => firstn 64 l :: blocks fuel' (skipn 64 l)
  | _, _ => []
  end.

(** *** SHA-256 (FIPS 180-4) *)

(** Words written in hexadecimal, separated by spaces. *)
Fixpoint words_hex (s : string) (word : N) : list N :=
  match s with
  | EmptyString => [word]
  | String " " s' => word :: words_hex s' 0
  | String a s' => words_hex s' (16 * word + default 0 (Js.hex_val a))
  end.

(** The round constants: the fractional parts of the cube roots of the first
    64 primes. *)
Definition K256 : list N :=
  Eval vm_compute in
    words_hex
      ("428a2f98 71374491 b5c0fbcf e9b5dba5 3956c25b 59f111f1 923f82a4 ab1c5ed5 "
       +:+ "d807aa98 12835b01 243185be 550c7dc3 72be5d74 80deb1fe 9bdc06a7 c19bf174 "
       +:+ "e49b69c1 efbe4786 0fc19dc6 240ca1cc 2de92c6f 4a7484aa 5cb0a9dc 76f988da "
       +:+ "983e5152 a831c66d b00327c8 bf597fc7 c6e00bf3 d5a79147 06ca6351 14292967 "
       +:+ "27b70a85 2e1b2138 4d2c6dfc 53380d13 650a7354 766a0abb 81c2c92e 92722c85 "
       +:+ "a2bfe8a1 a81a664b c24b8b70 c76c51a3 d192e819 d6990624 f40e3585 106aa070 "
       +:+ "19a4c116 1e376c08 2748774c 34b0bcb5 391c0cb3 4ed8aa4a 5b9cca4f 682e6ff3 "
       +:+ "748f82ee 78a5636f 84c87814 8cc70208 90befffa a4506ceb bef9a3f7 c67178f2") 0.

Record hash8 := Hash8 { ha : N; hb : N; hc : N; hd : N; he : N; hf : N; hg : N; hh : N }.

Definition sha256_init : hash8 :=
  Hash8 0x6a09e667 0xbb67ae85 0x3c6ef372 0xa54ff53a 0x510e527f 0x9b05688c 0x1f83d9ab 0x5be0cd19.

Definition sha_round (st : hash8 * list N) (k : N) : hash8 * list N :=
  let '(Hash8 a b c d e f g h, win) := st in
  let w := nth 0 win 0 in
  let s1 := N.lxor (N.lxor (rotr 6 e) (rotr 11 e)) (rotr 25 e) in
  let ch := N.lxor (N.land e f) (N.land (not32 e) g) in
  let t1 := add32 (add32 (add32 (add32 h s1) ch) k) w in
  let s0 := N.lxor (N.lxor (rotr 2 a) (rotr 13 a)) (rotr 22 a) in
  let maj := N.lxor (N.lxor (N.land a b) (N.land a c)) (N.land b c) in
  let t2 := add32 s0 maj in
  let w1 := nth 1 win 0 in
  let w14 := nth 14 win 0 in
  let g0 := N.lxor (N.lxor (rotr 7 w1) (rotr 18 w1)) (N.shiftr w1 3) in
  let g1 := N.lxor (N.lxor (rotr 17 w14) (rotr 19 w14)) (N.shiftr w14 10) in
  let nw := add32 (add32 (add32 g1 (nth 9 win 0)) g0) w in
  (Hash8 (add32 t1 t2) a b c (add32 d t1) e f g, tl win ++ [nw]).

Definition sha_block (st : hash8) (block : list N) : hash8 :=
  let '(Hash8 a b c d e f g h, _) := fold_left sha_round K256 (st, words_be block) in
  Hash8 (add32 (ha st) a) (add32 (hb st) b) (add32 (hc st) c) (add32 (hd st) d)
        (add32 (he st) e) (add32 (hf st) f) (add32 (hg st) g) (add32 (hh st) h).

Definition sha256_bytes (msg : list N) : list N :=
  let padded := pad be64 msg in
  let st := fold_left sha_block (blocks (length padded) padded) sha256_init in
  be32 (ha st) ++ be32 (hb st) ++ be32 (hc st) ++ be32 (hd st)
  ++ be32 (he st) ++ be32 (hf st) ++ be32 (hg st) ++ be32 (hh st).

(** [createHash('sha256').update(buffer).digest()]. *)
Definition sha256_raw (buffer : string) : string := string_of (sha256_bytes (bytes_of buffer)).

(** *** MD5 (RFC 1321) *)

Definition K5 : list N :=
  [ 0xd76aa478; 0xe8c7b756; 0x242070db; 0xc1bdceee;
    0xf57c0faf; 0x4787c62a; 0xa8304613; 0xfd469501;
    0x698098d8; 0x8b44f7af; 0xffff5bb1; 0x895cd7be;
    0x6b901122; 0xfd987193; 0xa679438e; 0x49b40821;
    0xf61e2562; 0xc040b340; 0x265e5a51; 0xe9b6c7aa;
    0xd62f105d; 0x02441453; 0xd8a1e681; 0xe7d3fbc8;
    0x21e1cde6; 0xc33707d6; 0xf4d50d87; 0x455a14ed;
    0xa9e3e905; 0xfcefa3f8; 0x676f02d9; 0x8d2a4c8a;
    0xfffa3942; 0x8771f681; 0x6d9d6122; 0xfde5380c;
    0xa4beea44; 0x4bdecfa9; 0xf6bb4b60; 0xbebfbc70;
    0x289b7ec6; 0xeaa127fa; 0xd4ef3085; 0x04881d05;
    0xd9d4d039; 0xe6db99e5; 0x1fa27cf8; 0xc4ac5665;
    0xf4292244; 0x432aff97; 0xab9423a7; 0xfc93a039;
    0x655b59c3; 0x8f0ccc92; 0xffeff47d; 0x85845dd1;
    0x6fa87e4f; 0xfe2ce6e0; 0xa3014314; 0x4e0811a1;
    0xf7537e82; 0xbd3af235; 0x2ad7d2bb; 0xeb86d391 ].

Definition S5 : list N :=
  [ 7; 12; 17; 22; 7; 12; 17; 22; 7; 12; 17; 22; 7; 12; 17; 22;
    5; 9; 14; 20; 5; 9; 14; 20; 5; 9; 14; 20; 5; 9; 14; 20;
    4; 11; 16; 23; 4; 11; 16; 23; 4; 11; 16; 23; 4; 11; 16; 23;
    6; 10; 15; 21; 6; 10; 15; 21; 6; 10; 15; 21; 6; 10; 15; 21 ].

Record hash4 := Hash4 { ma : N; mb : N; mc : N; md : N }.

Definition md5_init : hash4 := Hash4 0x67452301 0xefcdab89 0x98badcfe 0x10325476.

Definition md5_round (m : list N) (st : hash4) (iks : N * (N * N)) : hash4 :=
  let '(i, (k, s)) := iks in
  let '(Hash4 a b c d) := st in
  let '(f, g) :=
    if i <? 16 then (N.lor (N.land b c) (N.land (not32 b) d), i)
    else if i <? 32 then (N.lor (N.land d b) (N.land (not32 d) c), (5 * i + 1) mod 16)
    else if i <? 48 then (N.lxor (N.lxor b c) d, (3 * i + 5) mod 16)
    else (N.lxor c (N.lor b (not32 d)), (7 * i) mod 16) in
  let f' := add32 (add32 (add32 f a) k) (nth (N.to_nat g) m 0) in
  Hash4 d (add32 b (rotl s f')) b c.

Definition md5_block (st : hash4) (block : list N) : hash4 :=
  let '(Hash4 a b c d) :=
    fold_left (md5_round (words_le block)) (combine (map N.of_nat (seq 0 64)) (combine K5 S5)) st in
  Hash4 (add32 (ma st) a) (add32 (mb st) b) (add32 (mc st) c) (add32 (md st) d).

Definition md5_bytes (msg : list N) : list N :=
  let padded := pad le64 msg in
  let st := fold_left md5_block (blocks (length padded) padded) md5_init in
  le32 (ma st) ++ le32 (mb st) ++ le32 (mc st) ++ le32 (md st).

(** [createHash('md5').update(buffer).digest()]. *)
Definition md5_raw (buffer : string) : string := string_of (md5_bytes (bytes_of buffer)).

(** *** HMAC-SHA256 (RFC 2104): [createHmac('sha256', key).update(data).digest()] *)

Definition hmac_sha256_raw (key data : string) : string :=
  let k := bytes_of key in
  let k := if 64 <? N.of_nat (length k) then sha256_bytes k else k in
  let k := k ++ repeat 0 (64 - length k)%nat in
  let inner := sha256_bytes (map (N.lxor 0x36) k ++ bytes_of data) in
  string_of (sha256_bytes (map (N.lxor 0x5c) k ++ inner)).

(** *** Encodings: [digest('hex')] and [toString('base64')] *)

Definition hex_digit (n : N) : ascii :=
  match n with
  | 0 => "0" | 1 => "1" | 2 => "2" | 3 => "3" | 4 => "4" | 5 => "5" | 6 => "6" | 7 => "7"
  | 8 => "8" | 9 => "9" | 10 => "a" | 11 => "b" | 12 => "c" | 13 => "d" | 14 => "e" | _ => "f"
  end%char.

Fixpoint hex (s : string) : string :=
  match s with
  | EmptyString => EmptyString
  | String c s' =>
      let n := N_of_ascii c in
      String (hex_digit (N.shiftr n 4)) (String (hex_digit (N.land n 15)) (hex s'))
  end.

Definition b64_alphabet : list ascii :=
  list_ascii_of_string "ABCDEFGHIJKLMNOPQRSTUVWXYZabcdefghijklmnopqrstuvwxyz0123456789+/".
Definition b64_digit (n : N) : ascii := nth (N.to_nat n) b64_alphabet "="%char.

Fixpoint base64_go (l : list N) : string :=
  match l with
  | a :: b :: c :: rest =>
      String (b64_digit (N.shiftr a 2))
        (String (b64_digit (N.lor (N.shiftl (N.land a 3) 4) (N.shiftr b 4)))
           (String (b64_digit (N.lor (N.shiftl (N.land b 15) 2) (N.shiftr c 6)))
              (String (b64_digit (N.land c 63)) (base64_go rest))))
  | [a; b] =>
      String (b64_digit (N.shiftr a 2))
        (String (b64_digit (N.lor (N.shiftl (N.land a 3) 4) (N.shiftr b 4)))
           (String (b64_digit (N.shiftl (N.land b 15) 2)) "="))
  | [a] =>
      String (b64_digit (N.shiftr a 2))
        (String (b64_digit (N.shiftl (N.land a 3) 4)) "==")
  | [] => EmptyString
  end.
Definition base64 (buffer : string) : string := base64_go (bytes_of buffer).

End Crypto.

(** ** JavaScript objects used as records

    An object keeps its own keys in the order of [OrdinaryOwnPropertyKeys]:
    array-index keys first, in ascending numeric order, then the other keys in
    insertion order. [idx] tells which keys are array indices. *)

Module Obj.

Section obj.
Context {K V : Type} `{EqDecision K} (idx : K → option N).

Fixpoint get (k : K) (o : list (K * V)) : option V :=
  match o with
  | [] => None
  | (k', v) :: o' => if decide (k' = k) then Some v else get k o'
  end.

Definition has (k : K) (o : list (K * V)) : bool :=
  match get k o with Some _ => true | None => false end.

Fixpoint update (k : K) (v : V) (o : list (K * V)) : list (K * V) :=
  match o with
  | [] => []
  | (k', v') :: o' => if decide (k' = k) then (k, v) :: o' else (k', v') :: update k v o'
  end.

Fixpoint insert_index (n : N) (k : K) (v : V) (o : list (K * V)) : list (K * V) :=
  match o with
  | [] => [(k, v)]
  | (k', v') :: o' =>
      match idx k' with
      | Some n' => if (n' <? n)%N then (k', v') :: insert_index n k v o' else (k, v) :: o
      | None => (k, v) :: o
      end
  end.

(** [o[k] = v]. *)
Definition set (k : K) (v : V) (o : list (K * V)) : list (K * V) :=
  if has k o then update k v o
  else match idx k with
       | Some n => insert_index n k v o
       | None => o ++ [(k, v)]
       end.

(** [delete o[k]]. *)
Fixpoint delete (k : K) (o : list (K * V)) : list (K * V) :=
  match o with
  | [] => []
  | (k', v) :: o' => if decide (k' = k) then o' else (k', v) :: delete k o'
  end.

(** [Object.keys(o)]; [Object.entries(o)] is the list itself. *)
Definition keys (o : list (K * V)) : list K := map fst o.

End obj.

(** Array indices: canonical numeric strings below [2^32 - 1]. *)
Definition max_index : N := 4294967295.

Definition str_idx (k : string) : option N :=
  match k with
  | EmptyString => None
  | String "0" EmptyString => Some 0%N
  | String "0" _ => None
  | _ =>
      if forallb Js.is_digit (list_ascii_of_string k)
      then match Js.take_digits Js.dec_val 10 None k with
           | Some n => if (n <? max_index)%N then Some n else None
           | None => None
           end
      else None
  end.

Definition num_idx (k : Z) : option N :=
  if (0 <=? k) && (k <? Z.of_N max_index) then Some (Z.to_N k) else None.

End Obj.


(** ** [Device.getAbsolutePath] *)

(** One iteration of the [for (const part of parts)] loop; [absolutes] is the
    array, [pop] on the empty array does nothing. *)
Definition absolute_step (absolutes : list string) (part : string) : list string :=
  if String.eqb part "." then absolutes
  else if String.eqb part ".." then removelast absolutes
  else absolutes ++ [part].

Definition getAbsolutePath (path : string) : string :=
  let normalizedPath := Js.replace_slashes path in
  let parts := filter (λ part, Js.nonempty part = true) (Js.split "/"%char normalizedPath) in
  let absolutes := fold_left absolute_step parts [] in
  "/" +:+ Js.join "/" absolutes.

(** The resolver as the specification words it: split on both separators,
    drop empty and [.] segments, pop on [..], rejoin behind one [/]. *)
Module PathSpec.

Fixpoint split_any (s : string) : list string :=
  match s with
  | EmptyString => [EmptyString]
  | String a s' =>
      if Js.is_slash a then EmptyString :: split_any s'
      else match split_any s' with
           | h :: t => String a h :: t
           | [] => [String a EmptyString]
           end
  end.

Definition resolve_segment (kept : list string) (seg : string) : list string :=
  if decide (seg = "" ∨ seg = ".") then kept
  else if decide (seg = "..") then
         match kept with [] => [] | _ => removelast kept end
       else kept ++ [seg].

Definition absolutePath (path : string) : string :=
  "/" +:+ Js.join "/" (foldl resolve_segment [] (split_any path)).

End PathSpec.

(** A segment that may appear in a resolved path. *)
Definition clean_segment (s : string) : Prop :=
  s ≠ "" ∧ s ≠ "." ∧ s ≠ "..".

(** ** Data of the devices *)

(** [string | Buffer]: text is written and hashed as its UTF-8 bytes. *)
Inductive Data := Text (s : string) | Buf (b : string).

Definition to_buffer (d : Data) : string :=
  match d with Text s => Crypto.utf8 s | Buf b => b end.

(** [`${v}`] for a value that may be [undefined]. *)
Definition js_string_of (v : option string) : string := default "undefined" v.

(** [v || d] for a string that may be [undefined]. *)
Definition or_else (v : option string) (d : string) : string :=
  match v with Some (String a s) => String a s | _ => d end.

(** A [Local] device. [getMimeType] is the inherited helper that guesses a
    content type from a file name; its body is not part of these sources, so
    the device carries it. *)
Record LocalDevice := {
  l_root : string;
  l_transferChunkSize : Z;
  getMimeType : string → string
}.

(** An [S3] device ([Wasabi] differs by its host, [MinIO] by [endpointUrl] and
    its path-style [call]). [headers] and [amzHeaders] are mutated by every
    request. *)
Record S3Device := {
  accessKey : string;
  secretKey : string;
  bucket : string;
  region : string;
  acl : string;
  root : string;
  headers : list (string * string);
  amzHeaders : list (string * string);
  transferChunkSize : Z;
  endpointUrl : option string
}.

(** A device as a caller holds it: a [Local] device has no mutable state, an
    [S3] device is a reference into the store of the world. *)
Inductive Dev := OfLocal (this : LocalDevice) | OfS3 (this : nat).

(** The metadata bag [Record<string, any>] of a chunked upload. *)
Record Metadata := {
  md_content_type : option string;
  md_uploadId : option string;
  md_parts : option (list (Z * string));
  md_chunks : option Z
}.

Definition empty_metadata : Metadata :=
  {| md_content_type := None; md_uploadId := None; md_parts := None; md_chunks := None |}.

(** What [fetch] sends and what comes back. [r_xml] is the reading [xml2js]
    gives of the body ([None]: it rejects the text). *)
Record Request := {
  q_method : string;
  q_url : string;
  q_headers : list (string * string);
  q_body : option Data
}.

Record Response := {
  r_ok : bool;
  r_status : Z;
  r_headers : list (string * string);
  r_text : string;
  r_xml : option (list (string * string))
}.

(** One step of the environment: the clock readings of [new Date()] and the
    outcome of [fetch] ([None]: the promise rejects). *)
Record Reply := {
  now_iso : string;
  now_utc : string;
  response : option Response
}.

Definition offline : Reply := {| now_iso := ""; now_utc := ""; response := None |}.

(** The body [call] returns: the text, or its decoded XML. *)
Inductive Body := BText (s : string) | BXml (o : list (string * string)).

Record CallResult := {
  c_body : Body;
  c_headers : list (string * string);
  c_code : Z
}.

(** Calls recorded on entry of the methods the properties speak about. *)
Inductive Event :=
| EvUploadData (dev : Dev) (data : Data) (path contentType : string) (chunk chunks : Z) (metadata : nat)
| EvRead (dev : Dev) (path : string) (offset : Z) (length : option Z)
| EvWrite (dev : Dev) (path : string) (data : Data) (contentType : string)
| EvJoinChunks (filePath : string) (chunks : Z)
| EvComplete (dev : nat) (path : string) (uploadId : option string) (parts : list (Z * string)).

(** ** The file system *)

Inductive node := File (data : string) | Dir.

(** Node's [path] on canonical absolute paths, held as their segments: the
    names between the separators, none of them empty, [.] or [..]. *)
Module Path.

Definition show (p : list string) : string := "/" +:+ Js.join "/" p.

Definition dirname (p : list string) : list string := removelast p.

Definition basename (p : list string) : string := List.last p "".

Definition join (p : list string) (segs : list string) : list string := p ++ segs.

Fixpoint last_dot (s : string) : option nat :=
  match s with
  | EmptyString => None
  | String a s' =>
      match last_dot s' with
      | Some i => Some (S i)
      | None => if Ascii.eqb a "."%char then Some O else None
      end
  end.

(** [path.parse(p).name]: the base name without its extension. *)
Definition name (p : list string) : string :=
  let base := basename p in
  match last_dot base with
  | None | Some O => base
  | Some i => if String.eqb base ".." then base else Js.take i base
  end.

End Path.

Module Fs.

Definition lookup (fs : gmap (list string) node) (p : list string) : option node :=
  match p with [] => Some Dir | _ => fs !! p end.

Definition is_dir (fs : gmap (list string) node) (p : list string) : bool :=
  match lookup fs p with Some Dir => true | _ => false end.

Definition is_child (p q : list string) : bool :=
  bool_decide (q ≠ [] ∧ removelast q = p).

Definition children (fs : gmap (list string) node) (p : list string) : list (list string) :=
  List.filter (is_child p) (map fst (map_to_list fs)).

(** [mkdir(p, { recursive: true })]: the directories made before a failure stay. *)
Fixpoint mkdir_go (pre rest : list string) (fs : gmap (list string) node)
  : bool * gmap (list string) node :=
  match rest with
  | [] => (true, fs)
  | x :: rest' =>
      let p := pre ++ [x] in
      match fs !! p with
      | Some (File _) => (false, fs)
      | Some Dir => mkdir_go p rest' fs
      | None => mkdir_go p rest' (<[p := Dir]> fs)
      end
  end.

Definition mkdir (p : list string) (fs : gmap (list string) node) := mkdir_go [] p fs.

Definition writeFile (p : list string) (data : string) (fs : gmap (list string) node)
  : option (gmap (list string) node) :=
  if is_dir fs (Path.dirname p) then
    match lookup fs p with
    | Some Dir => None
    | _ => Some (<[p := File data]> fs)
    end
  else None.

Definition appendFile (p : list string) (data : string) (fs : gmap (list string) node)
  : option (gmap (list string) node) :=
  if is_dir fs (Path.dirname p) then
    match lookup fs p with
    | Some Dir => None
    | Some (File old) => Some (<[p := File (old +:+ data)]> fs)
    | None => Some (<[p := File data]> fs)
    end
  else None.

Definition readFile (p : list string) (fs : gmap (list string) node) : option string :=
  match lookup fs p with Some (File d) => Some d | _ => None end.

Definition unlink (p : list string) (fs : gmap (list string) node)
  : option (gmap (list string) node) :=
  match lookup fs p with Some (File _) => Some (delete p fs) | _ => None end.

Definition rmdir (p : list string) (fs : gmap (list string) node)
  : option (gmap (list string) node) :=
  match p, fs !! p with
  | _ :: _, Some Dir =>
      match children fs p with [] => Some (delete p fs) | _ => None end
  | _, _ => None
  end.

Definition move_tree (src dst : list string) (fs : gmap (list string) node)
  : gmap (list string) node :=
  list_to_map
    (map (λ e : list string * node,
            if bool_decide (src `prefix_of` e.1)
            then (dst ++ drop (length src) e.1, e.2) else e)
       (map_to_list fs)).

Definition rename (src dst : list string) (fs : gmap (list string) node)
  : option (gmap (list string) node) :=
  match src, fs !! src with
  | _ :: _, Some (File d) =>
      if is_dir fs (Path.dirname dst) then
        match lookup fs dst with
        | Some Dir => None
        | _ => Some (<[dst := File d]> (delete src fs))
        end
      else None
  | _ :: _, Some Dir =>
      if negb (is_dir fs (Path.dirname dst)) then None
      else if bool_decide (src = dst) then Some fs
      else if bool_decide (src `prefix_of` dst) then None
      else match lookup fs dst with
           | Some (File _) => None
           | Some Dir =>
               match children fs dst with
               | [] => Some (move_tree src dst fs)
               | _ => None
               end
           | None => Some (move_tree src dst fs)
           end
  | _, _ => None
  end.

(** [stat(p).size]; the size of a directory is the file system's own. *)
Definition size (n : node) : Z :=
  match n with File d => Z.of_nat (String.length d) | Dir => 4096 end.

(** [fileHandle.read(buffer, 0, size, offset)] into [Buffer.alloc(size)]: the
    bytes the file does not have stay zero. *)
Fixpoint skip (n : nat) (s : string) : string :=
  match n, s with
  | S n', String _ s' => skip n' s'
  | _, _ => s
  end.

Fixpoint zeros (n : nat) : string :=
  match n with O => EmptyString | S n' => String zero (zeros n') end.

Definition read_at (d : string) (offset size : Z) : string :=
  let got := Js.take (Z.to_nat size) (skip (Z.to_nat offset) d) in
  got +:+ zeros (Z.to_nat size - String.length got).

End Fs.

(** ** The world and the monad of [async] methods *)

Record World := {
  w_fs : gmap (list string) node;
  w_s3 : gmap nat S3Device;
  w_heap : gmap nat Metadata;
  w_net : list Reply;
  w_wire : list Request;
  w_trace : list Event
}.

Definition set_fs (fs : gmap (list string) node) (w : World) : World :=
  {| w_fs := fs; w_s3 := w_s3 w; w_heap := w_heap w; w_net := w_net w;
     w_wire := w_wire w; w_trace := w_trace w |}.

Definition set_s3 (s3 : gmap nat S3Device) (w : World) : World :=
  {| w_fs := w_fs w; w_s3 := s3; w_heap := w_heap w; w_net := w_net w;
     w_wire := w_wire w; w_trace := w_trace w |}.

Definition set_heap (heap : gmap nat Metadata) (w : World) : World :=
  {| w_fs := w_fs w; w_s3 := w_s3 w; w_heap := heap; w_net := w_net w;
     w_wire := w_wire w; w_trace := w_trace w |}.

Definition set_net (net : list Reply) (w : World) : World :=
  {| w_fs := w_fs w; w_s3 := w_s3 w; w_heap := w_heap w; w_net := net;
     w_wire := w_wire w; w_trace := w_trace w |}.

Definition set_wire (wire : list Request) (w : World) : World :=
  {| w_fs := w_fs w; w_s3 := w_s3 w; w_heap := w_heap w; w_net := w_net w;
     w_wire := wire; w_trace := w_trace w |}.

Definition set_trace (trace : list Event) (w : World) : World :=
  {| w_fs := w_fs w; w_s3 := w_s3 w; w_heap := w_heap w; w_net := w_net w;
     w_wire := w_wire w; w_trace := trace |}.

Inductive result (A : Type) : Type := Ok (a : A) | Throw (message : string).
Arguments Ok {A} a.
Arguments Throw {A} message.

Definition M (A : Type) : Type := World → result A * World.

Definition ret {A} (a : A) : M A := λ w, (Ok a, w).

Definition throw {A} (message : string) : M A := λ w, (Throw message, w).

Definition bind {A B} (m : M A) (k : A → M B) : M B :=
  λ w, match m w with
       | (Ok a, w') => k a w'
       | (Throw e, w') => (Throw e, w')
       end.

(** [try { m } catch (e) { handler(e) }]. *)
Definition try_catch {A} (m : M A) (handler : string → M A) : M A :=
  λ w, match m w with
       | (Ok a, w') => (Ok a, w')
       | (Throw e, w') => handler e w'
       end.

Notation "'let*' x ':=' m 'in' k" := (bind m (λ x, k))
  (at level 10, x name, m at level 100, k at level 200).
Notation "'do*' m 'in' k" := (bind m (λ _, k))
  (at level 10, m at level 100, k at level 200).

Definition emit (e : Event) : M unit :=
  λ w, (Ok tt, set_trace (w_trace w ++ [e]) w).

(** The [fs.promises] calls: each rejects with the system's error code. *)
Definition fs_stat (p : list string) : M node :=
  λ w, match Fs.lookup (w_fs w) p with
       | Some n => (Ok n, w)
       | None => (Throw "ENOENT", w)
       end.

Definition fs_mkdir (p : list string) : M unit :=
  λ w, match Fs.mkdir p (w_fs w) with
       | (true, fs') => (Ok tt, set_fs fs' w)
       | (false, fs') => (Throw "EEXIST", set_fs fs' w)
       end.

Definition fs_update (op : gmap (list string) node → option (gmap (list string) node))
    (code : string) : M unit :=
  λ w, match op (w_fs w) with
       | Some fs' => (Ok tt, set_fs fs' w)
       | None => (Throw code, w)
       end.

Definition fs_writeFile (p : list string) (data : Data) : M unit :=
  fs_update (Fs.writeFile p (to_buffer data)) "EWRITE".

Definition fs_appendFile (p : list string) (data : Data) : M unit :=
  fs_update (Fs.appendFile p (to_buffer data)) "EAPPEND".

Definition fs_unlink (p : list string) : M unit := fs_update (Fs.unlink p) "EUNLINK".

Definition fs_rmdir (p : list string) : M unit := fs_update (Fs.rmdir p) "ERMDIR".

Definition fs_rename (src dst : list string) : M unit := fs_update (Fs.rename src dst) "ERENAME".

Definition fs_readFile (p : list string) : M string :=
  λ w, match Fs.readFile p (w_fs w) with
       | Some d => (Ok d, w)
       | None => (Throw "EREAD", w)
       end.

Definition fs_readdir (p : list string) : M (list (list string)) :=
  λ w, if Fs.is_dir (w_fs w) p then (Ok (Fs.children (w_fs w) p), w)
       else (Throw "ENOTDIR", w).

(** The metadata bag behind a reference; one never written reads as [{}]. *)
Definition md_read (l : nat) : M Metadata :=
  λ w, (Ok (default empty_metadata (w_heap w !! l)), w).

Definition md_write (l : nat) (md : Metadata) : M unit :=
  λ w, (Ok tt, set_heap (<[l := md]> (w_heap w)) w).

(** [{ content_type: contentType }]: a new object. *)
Definition md_new (md : Metadata) : M nat :=
  λ w, let l := fresh (dom (w_heap w)) in (Ok l, set_heap (<[l := md]> (w_heap w)) w).

(** The fields of an [S3] device behind its reference. *)
Definition s3_this (this : nat) : M S3Device :=
  λ w, match w_s3 w !! this with
       | Some d => (Ok d, w)
       | None => (Throw "TypeError: no such device", w)
       end.

Definition s3_update (this : nat) (f : S3Device → S3Device) : M unit :=
  λ w, match w_s3 w !! this with
       | Some d => (Ok tt, set_s3 (<[this := f d]> (w_s3 w)) w)
       | None => (Throw "TypeError: no such device", w)
       end.

Definition with_headers (f : list (string * string) → list (string * string)) (d : S3Device)
  : S3Device :=
  {| accessKey := accessKey d; secretKey := secretKey d; bucket := bucket d;
     region := region d; acl := acl d; root := root d;
     headers := f (headers d); amzHeaders := amzHeaders d;
     transferChunkSize := transferChunkSize d; endpointUrl := endpointUrl d |}.

Definition with_amzHeaders (f : list (string * string) → list (string * string)) (d : S3Device)
  : S3Device :=
  {| accessKey := accessKey d; secretKey := secretKey d; bucket := bucket d;
     region := region d; acl := acl d; root := root d;
     headers := headers d; amzHeaders := f (amzHeaders d);
     transferChunkSize := transferChunkSize d; endpointUrl := endpointUrl d |}.

(** [this.headers[k] = v], [delete this.headers[k]] and the same on [amzHeaders]. *)
Definition set_header (this : nat) (k v : string) : M unit :=
  s3_update this (with_headers (Obj.set Obj.str_idx k v)).
Definition delete_header (this : nat) (k : string) : M unit :=
  s3_update this (with_headers (Obj.delete k)).
Definition set_amzHeader (this : nat) (k v : string) : M unit :=
  s3_update this (with_amzHeaders (Obj.set Obj.str_idx k v)).
Definition delete_amzHeader (this : nat) (k : string) : M unit :=
  s3_update this (with_amzHeaders (Obj.delete k)).

(** The next step of the environment; an exhausted script is a dead network. *)
Definition next_reply : M Reply :=
  λ w, match w_net w with
       | r :: rest => (Ok r, set_net rest w)
       | [] => (Ok offline, w)
       end.

Definition send (q : Request) : M unit :=
  λ w, (Ok tt, set_wire (w_wire w ++ [q]) w).

(** [for (const x of l) { await body(x) }] and
    [for (let i = a; i < a + n; i++) { await body(i) }]. *)
Fixpoint for_each {A} (l : list A) (body : A → M unit) : M unit :=
  match l with
  | [] => ret tt
  | x :: l' => do* body x in for_each l' body
  end.

Fixpoint for_range (n : nat) (i : Z) (body : Z → M unit) : M unit :=
  match n with
  | O => ret tt
  | S n' => do* body i in for_range n' (i + 1) body
  end.

(** ** The class [Local]

    Its methods are called with canonical absolute paths, which they hand to
    [fs] and [path] as they are; a path is held as its segments. *)

Definition Local_exists (this : LocalDevice) (filePath : list string) : M bool :=
  try_catch (do* fs_stat filePath in ret true) (λ _, ret false).

Definition Local_createDirectory (this : LocalDevice) (dirPath : list string) : M bool :=
  try_catch (do* fs_mkdir dirPath in ret true) (λ _, ret false).

Definition Local_getFiles (this : LocalDevice) (dir : list string) : M (list (list string)) :=
  try_catch (fs_readdir dir) (λ _, ret []).

Definition Local_getFileSize (this : LocalDevice) (filePath : list string) : M Z :=
  let* stats := fs_stat filePath in ret (Fs.size stats).

Definition Local_getFileMimeType (this : LocalDevice) (filePath : list string) : M string :=
  ret (getMimeType this (Path.show filePath)).

(** [delete] calls itself on the entries of a directory: [fuel] bounds the
    depth, and [Local_delete] gives more than any tree of the world has. *)
Fixpoint Local_delete_go (fuel : nat) (this : LocalDevice) (filePath : list string)
    (recursive : bool) : M bool :=
  try_catch
    (let* stats := fs_stat filePath in
     do* match stats with
         | Dir =>
             if recursive then
               match fuel with
               | O => throw "ELOOP"
               | S fuel' =>
                   let* files := Local_getFiles this filePath in
                   do* for_each files
                         (λ file, do* Local_delete_go fuel' this file true in ret tt) in
                   fs_rmdir filePath
               end
             else ret tt
         | File _ => fs_unlink filePath
         end in
     ret true)
    (λ _, ret false).

Definition Local_delete (this : LocalDevice) (filePath : list string) (recursive : bool)
  : M bool :=
  λ w, Local_delete_go (S (size (w_fs w))) this filePath recursive w.

Definition Local_read (this : LocalDevice) (filePath : list string) (offset : Z)
    (length : option Z) : M string :=
  do* emit (EvRead (OfLocal this) (Path.show filePath) offset length) in
  let* present := Local_exists this filePath in
  if negb present then throw "File Not Found"
  else
    let* stats := fs_stat filePath in
    let size := default (Fs.size stats - offset) length in
    if (size <? 0) || (offset <? 0) then throw "ERR_OUT_OF_RANGE"
    else match stats with
         | File d => ret (Fs.read_at d offset size)
         | Dir => throw "EISDIR"
         end.

Definition Local_write (this : LocalDevice) (filePath : list string) (data : Data)
    (contentType : string) : M bool :=
  do* emit (EvWrite (OfLocal this) (Path.show filePath) data contentType) in
  try_catch
    (do* Local_createDirectory this (Path.dirname filePath) in
     do* fs_writeFile filePath data in
     ret true)
    (λ _, throw ("Can't write to path " +:+ Path.show filePath)).

(** [Local.getFileHash]. *)
Definition Local_getFileHash (this : LocalDevice) (filePath : list string) : M string :=
  let* data := fs_readFile filePath in
  ret (Crypto.hex (Crypto.md5_raw data)).

(** [source === target] compares the two path strings. *)
Definition Local_move (this : LocalDevice) (source target : list string) : M bool :=
  if String.eqb (Path.show source) (Path.show target) then ret false
  else
    try_catch
      (do* Local_createDirectory this (Path.dirname target) in
       do* fs_rename source target in
       ret true)
      (λ _, ret false).

(** The chunk log [dir/tmp_<base>/<base>_chunks.log] and the part files
    [dir/tmp_<base>/<name>.part.<i>] of a target. *)
Definition chunk_log (filePath : list string) : list string :=
  Path.join (Path.dirname filePath)
    ["tmp_" +:+ Path.basename filePath; Path.basename filePath +:+ "_chunks.log"].

Definition chunk_part (filePath : list string) (i : Z) : list string :=
  Path.join (Path.dirname (chunk_log filePath))
    [Path.name filePath +:+ ".part." +:+ Js.str i].

(** [chunkLogs.trim().split("\n").length]. *)
Definition count_lines (chunkLogs : string) : Z :=
  Z.of_nat (length (Js.split (ascii_of_N 10) (Js.trim chunkLogs))).

(** The body of the loop of [joinChunks]. *)
Definition join_part (filePath : list string) (i : Z) : M unit :=
  let part := chunk_part filePath i in
  try_catch
    (let* data := fs_readFile part in
     do* fs_appendFile filePath (Buf data) in
     fs_unlink part)
    (λ _, throw ("Failed to read/append chunk " +:+ Path.show part)).

Definition Local_joinChunks (this : LocalDevice) (filePath : list string) (chunks : Z)
  : M unit :=
  do* emit (EvJoinChunks (Path.show filePath) chunks) in
  let tmp := chunk_log filePath in
  do* for_range (Z.to_nat chunks) 1 (join_part filePath) in
  do* fs_unlink tmp in
  fs_rmdir (Path.dirname tmp).

Definition Local_uploadData (this : LocalDevice) (data : Data) (filePath : list string)
    (contentType : string) (chunk chunks : Z) (metadata : nat) : M Z :=
  do* emit (EvUploadData (OfLocal this) data (Path.show filePath) contentType chunk chunks
              metadata) in
  do* Local_createDirectory this (Path.dirname filePath) in
  if chunks =? 1 then
    try_catch
      (do* fs_writeFile filePath data in ret chunks)
      (λ _, throw ("Can't write file " +:+ Path.show filePath))
  else
    let tmp := chunk_log filePath in
    do* Local_createDirectory this (Path.dirname tmp) in
    try_catch
      (do* fs_appendFile tmp (Text (Js.str chunk +:+ Js.nl)) in
       let* chunkLogs := fs_readFile tmp in
       let chunksReceived := count_lines chunkLogs in
       let chunkFilePath := chunk_part filePath chunk in
       do* fs_writeFile chunkFilePath data in
       if chunks =? chunksReceived then
         do* Local_joinChunks this filePath chunks in
         ret chunksReceived
       else ret chunksReceived)
      (λ _, throw ("Failed to write chunk " +:+ Js.str chunk)).

(** [Local.upload] moves a file of the disk into place; it takes the log
    entry only for a part file that is not there yet. *)
Definition Local_upload (this : LocalDevice) (source filePath : list string)
    (chunk chunks : Z) (metadata : nat) : M Z :=
  do* Local_createDirectory this (Path.dirname filePath) in
  if chunks =? 1 then
    try_catch
      (do* fs_rename source filePath in ret chunks)
      (λ _, throw ("Can't upload file " +:+ Path.show filePath))
  else
    let tmp := chunk_log filePath in
    do* Local_createDirectory this (Path.dirname tmp) in
    let chunkFilePath := chunk_part filePath chunk in
    let* present := Local_exists this chunkFilePath in
    do* (if negb present then
           try_catch
             (fs_appendFile tmp (Text (Js.str chunk +:+ Js.nl)))
             (λ _, throw ("Can't write chunk log " +:+ Path.show tmp))
         else ret tt) in
    try_catch
      (let* chunkLogs := fs_readFile tmp in
       let chunksReceived := count_lines chunkLogs in
       do* fs_rename source chunkFilePath in
       if chunks =? chunksReceived then
         do* Local_joinChunks this filePath chunks in
         ret chunksReceived
       else ret chunksReceived)
      (λ _, throw ("Failed to write chunk " +:+ Js.str chunk)).

Definition Local_abort (this : LocalDevice) (filePath : list string) (extra : string)
  : M bool :=
  let* present := Local_exists this filePath in
  do* (if present then fs_unlink filePath else ret tt) in
  let tmp := Path.join (Path.dirname filePath) ["tmp_" +:+ Path.basename filePath] in
  let* parent := Local_exists this (Path.dirname tmp) in
  if negb parent then
    throw ("File doesn't exist: " +:+ Path.show (Path.dirname filePath))
  else
    let* files := Local_getFiles this tmp in
    do* for_each files (λ file, do* Local_delete this file true in ret tt) in
    try_catch (do* fs_rmdir tmp in ret true) (λ _, ret false).

(** ** The class [S3] *)

Inductive Encoding := hex | binary.

Definition S3_md5 (data : Data) : string := Crypto.md5_raw (to_buffer data).

Definition S3_sha256 (data : Data) : string := Crypto.hex (Crypto.sha256_raw (to_buffer data)).

Definition S3_hmacSha256 (data key : Data) (encoding : Encoding) : Data :=
  let digest := Crypto.hmac_sha256_raw (to_buffer key) (to_buffer data) in
  match encoding with hex => Text (Crypto.hex digest) | binary => Buf digest end.

(** [`${d}`]. *)
Definition template (d : Data) : string :=
  match d with Text s => s | Buf b => b end.

(** [Buffer.from(this.md5(data)).toString('base64')]. *)
Definition content_md5 (data : Data) : string := Crypto.base64 (S3_md5 data).

(** The two loops that fill [combinedHeaders]. *)
Definition combine_headers (hs acc : list (string * string)) : list (string * string) :=
  fold_left (λ acc e, Obj.set Obj.str_idx (Js.toLowerCase e.1) (Js.trim e.2) acc) hs acc.

Definition sort_headers (combinedHeaders : list (string * string)) : list (string * string) :=
  fold_left
    (λ acc key, Obj.set Obj.str_idx key (default "" (Obj.get key combinedHeaders)) acc)
    (Js.sort (Obj.keys combinedHeaders)) [].

Definition credential_scope (amzDateStamp region service : string) : string :=
  Js.join "/" [amzDateStamp; region; service; "aws4_request"].

Definition canonical_request (method uri : string) (parameters sortedCombinedHeaders : list (string * string))
    (contentHash : option string) : string :=
  let sortedParams := Js.sort (Obj.keys parameters) in
  let queryString :=
    Js.join "&"
      (map (λ key, Js.encodeURIComponent key +:+ "="
                   +:+ Js.encodeURIComponent (js_string_of (Obj.get key parameters)))
         sortedParams) in
  Js.join Js.nl
    ([method; hd "" (Js.split "?" uri); queryString]
     ++ map (λ e : string * string, e.1 +:+ ":" +:+ e.2) sortedCombinedHeaders
     ++ [""; Js.join ";" (Obj.keys sortedCombinedHeaders); default "" contentHash]).

Definition signing_key (secretKey amzDateStamp region service : string) : Data :=
  let kSecret := "AWS4" +:+ secretKey in
  let kDate := S3_hmacSha256 (Text amzDateStamp) (Text kSecret) binary in
  let kRegion := S3_hmacSha256 (Text region) kDate binary in
  let kService := S3_hmacSha256 (Text service) kRegion binary in
  S3_hmacSha256 (Text "aws4_request") kService binary.

Definition S3_getSignatureV4 (this : S3Device) (method uri : string)
    (parameters : list (string * string)) : result string :=
  let service := "s3" in
  let algorithm := "AWS4-HMAC-SHA256" in
  match Obj.get "x-amz-date" (amzHeaders this) with
  | None => Throw "TypeError: Cannot read properties of undefined (reading 'substring')"
  | Some amzDate =>
      let amzDateStamp := Js.take 8 amzDate in
      let combinedHeaders :=
        combine_headers (amzHeaders this) (combine_headers (headers this) []) in
      let sortedCombinedHeaders := sort_headers combinedHeaders in
      let canonicalRequest :=
        canonical_request method uri parameters sortedCombinedHeaders
          (Obj.get "x-amz-content-sha256" (amzHeaders this)) in
      let credentialScope := credential_scope amzDateStamp (region this) service in
      let stringToSign :=
        Js.join Js.nl
          [algorithm; amzDate; credentialScope; S3_sha256 (Text canonicalRequest)] in
      let kSigning := signing_key (secretKey this) amzDateStamp (region this) service in
      let signature := S3_hmacSha256 (Text stringToSign) kSigning hex in
      Ok (algorithm +:+ " Credential=" +:+ accessKey this +:+ "/" +:+ credentialScope
          +:+ ",SignedHeaders=" +:+ Js.join ";" (Obj.keys sortedCombinedHeaders)
          +:+ ",Signature=" +:+ template signature)
  end.

Definition query_string (parameters : list (string * string)) : string :=
  match parameters with
  | [] => ""
  | _ =>
      "?" +:+ Js.join "&"
                (map (λ e : string * string,
                        Js.encodeURIComponent e.1 +:+ "=" +:+ Js.encodeURIComponent e.2)
                   parameters)
  end.

(** The headers of the request: the non-empty [amzHeaders], then the
    non-empty [headers]. *)
Definition request_headers (amz hs : list (string * string)) : list (string * string) :=
  let add := λ (acc : list (string * string)) (e : string * string),
    if Js.nonempty e.2 then Obj.set Obj.str_idx e.1 e.2 acc else acc in
  fold_left add hs (fold_left add amz []).

Definition lift {A} (r : result A) : M A := λ w, (r, w).

(** [call]; with an [endpointUrl] it is [MinIO]'s override, which addresses
    the bucket in the path and swaps the host header around [fetch]. *)
Definition S3_call (this : nat) (method uri : string) (data : Data)
    (parameters : list (string * string)) (decode : bool) : M CallResult :=
  let* self := s3_this this in
  let uri := getAbsolutePath uri in
  let queryString := query_string parameters in
  let originalHost := Obj.get "host" (headers self) in
  let* target :=
    match endpointUrl self, originalHost with
    | None, _ => ret ("https://" +:+ js_string_of originalHost +:+ uri +:+ queryString, uri)
    | Some endpoint, Some host =>
        let bucketName := hd "" (Js.split "."%char host) in
        do* set_header this "host" (Js.join "." (tl (Js.split "."%char host))) in
        let pathStyleUri := "/" +:+ bucketName +:+ uri in
        ret (endpoint +:+ pathStyleUri +:+ queryString, pathStyleUri)
    | Some _, None => throw "TypeError: Cannot read properties of undefined (reading 'split')"
    end in
  let* reply := next_reply in
  do* set_amzHeader this "x-amz-date" (Js.strip_date (now_iso reply)) in
  let* self1 := s3_this this in
  do* match Obj.get "x-amz-content-sha256" (amzHeaders self1) with
      | Some (String _ _) => ret tt
      | _ => set_amzHeader this "x-amz-content-sha256" (S3_sha256 data)
      end in
  do* set_header this "date" (now_utc reply) in
  let* self2 := s3_this this in
  let* authorization := lift (S3_getSignatureV4 self2 method target.2 parameters) in
  let headers :=
    Obj.set Obj.str_idx "Authorization" authorization
      (request_headers (amzHeaders self2) (headers self2)) in
  let body := if String.eqb method "PUT" || String.eqb method "POST" then Some data else None in
  do* send {| q_method := method; q_url := target.1; q_headers := headers; q_body := body |} in
  match response reply with
  | None => throw "fetch failed"
  | Some response =>
      do* match endpointUrl self with
          | Some _ => set_header this "host" (js_string_of originalHost)
          | None => ret tt
          end in
      if negb (r_ok response) then
        throw ("HTTP " +:+ Js.str (r_status response) +:+ ": " +:+ r_text response)
      else
        let responseHeaders :=
          fold_left (λ acc (e : string * string), Obj.set Obj.str_idx (Js.toLowerCase e.1) e.2 acc)
            (r_headers response) [] in
        let contentType := Obj.get "content-type" responseHeaders in
        if decode
           && (bool_decide (contentType = Some "application/xml")
               || Js.startsWith (r_text response) "<?xml"
                  && negb (bool_decide (contentType = Some "image/svg+xml")))
        then match r_xml response with
             | Some o =>
                 ret {| c_body := BXml o; c_headers := responseHeaders;
                        c_code := r_status response |}
             | None => throw "Error: the body is not XML"
             end
        else ret {| c_body := BText (r_text response); c_headers := responseHeaders;
                    c_code := r_status response |}
  end.

(** [`/${encodeURIComponent(path).replace(/%2F/g, '/')...}`]; [question] adds
    [.replace(/%3F/g, '?')]. *)
Definition object_uri (path : string) (question : bool) : string :=
  if String.eqb path "" then "/"
  else
    let encoded := Js.replaceAll "%2F" "/" (Js.encodeURIComponent path) in
    "/" +:+ (if question then Js.replaceAll "%3F" "?" encoded else encoded).

Definition S3_getInfo (this : nat) (path : string) : M (list (string * string)) :=
  do* delete_header this "content-type" in
  do* delete_amzHeader this "x-amz-acl" in
  do* delete_amzHeader this "x-amz-content-sha256" in
  do* set_header this "content-md5" (content_md5 (Text "")) in
  let uri := object_uri path false in
  let* response := S3_call this "HEAD" uri (Text "") [] true in
  ret (c_headers response).

(** [S3.exists]. *)
Definition S3_exists (this : nat) (path : string) : M bool :=
  try_catch (do* S3_getInfo this path in ret true) (λ _, ret false).

(** [S3.getFileSize], [S3.getFileMimeType] and [S3.getFileHash]; [parseInt]
    may give [NaN]. *)
Definition S3_getFileSize (this : nat) (path : string) : M (option Z) :=
  let* response := S3_getInfo this path in
  ret (Js.parseInt (or_else (Obj.get "content-length" response) "0")).

Definition S3_getFileMimeType (this : nat) (path : string) : M string :=
  let* response := S3_getInfo this path in
  ret (or_else (Obj.get "content-type" response) "").

Definition S3_getFileHash (this : nat) (path : string) : M string :=
  let* response := S3_getInfo this path in
  let etag := or_else (Obj.get "etag" response) "" in
  ret (if Js.nonempty etag then Js.slice_inner etag else etag).

(** [S3.listObjects]; [prefix.replace(/^\//, '')] drops one leading slash. *)
Definition S3_MAX_PAGE_SIZE : Z := 1000.

Definition S3_listObjects (this : nat) (prefix : string) (maxKeys : Z)
    (continuationToken : string) : M Body :=
  if S3_MAX_PAGE_SIZE <? maxKeys
  then throw ("Cannot list more than " +:+ Js.str S3_MAX_PAGE_SIZE +:+ " objects")
  else
    let uri := "/" in
    let prefix := match prefix with String "/" s => s | _ => prefix end in
    do* set_header this "content-type" "text/plain" in
    do* set_header this "content-md5" (content_md5 (Text "")) in
    do* delete_amzHeader this "x-amz-content-sha256" in
    do* delete_amzHeader this "x-amz-acl" in
    let parameters :=
      [("list-type", "2"); ("prefix", prefix); ("max-keys", Js.str maxKeys)]
      ++ (if Js.nonempty continuationToken
          then [("continuation-token", continuationToken)] else []) in
    let* response := S3_call this "GET" uri (Text "") parameters true in
    ret (c_body response).

(** [read] asks the string that [call] returned for its [arrayBuffer]: a
    string has none, so the method throws once the request has succeeded. *)
Definition S3_read (this : nat) (path : string) (offset : Z) (length : option Z) : M string :=
  do* emit (EvRead (OfS3 this) path offset length) in
  do* delete_amzHeader this "x-amz-acl" in
  do* delete_amzHeader this "x-amz-content-sha256" in
  do* delete_header this "content-type" in
  do* set_header this "content-md5" (content_md5 (Text "")) in
  let uri := object_uri path false in
  do* match length with
      | Some len =>
          let end_ := offset + len - 1 in
          set_header this "range" ("bytes=" +:+ Js.str offset +:+ "-" +:+ Js.str end_)
      | None => delete_header this "range"
      end in
  let* response := S3_call this "GET" uri (Text "") [] false in
  match c_body response with
  | BText _ | BXml _ => throw "TypeError: response.body.arrayBuffer is not a function"
  end.

Definition S3_write (this : nat) (path : string) (data : Data) (contentType : string) : M bool :=
  do* emit (EvWrite (OfS3 this) path data contentType) in
  let uri := object_uri path true in
  do* set_header this "content-type" contentType in
  do* set_header this "content-md5" (content_md5 data) in
  do* set_amzHeader this "x-amz-content-sha256" (S3_sha256 data) in
  let* self := s3_this this in
  do* set_amzHeader this "x-amz-acl" (acl self) in
  do* S3_call this "PUT" uri data [] true in
  ret true.

Definition S3_delete (this : nat) (path : string) (recursive : bool) : M bool :=
  let uri := object_uri path false in
  do* delete_header this "content-type" in
  do* delete_amzHeader this "x-amz-acl" in
  do* delete_amzHeader this "x-amz-content-sha256" in
  do* set_header this "content-md5" (content_md5 (Text "")) in
  do* S3_call this "DELETE" uri (Text "") [] true in
  ret true.

Definition S3_abort (this : nat) (path : string) (extra : string) : M bool :=
  let uri := object_uri path false in
  do* delete_header this "content-type" in
  do* set_header this "content-md5" (content_md5 (Text "")) in
  do* S3_call this "DELETE" uri (Text "") [("uploadId", extra)] true in
  ret true.

(** [response.body['UploadId']]; a text body has no such property. *)
Definition S3_createMultipartUpload (this : nat) (path contentType : string)
  : M (option string) :=
  let uri := object_uri path true in
  do* set_header this "content-md5" (content_md5 (Text "")) in
  do* delete_amzHeader this "x-amz-content-sha256" in
  do* set_header this "content-type" contentType in
  let* self := s3_this this in
  do* set_amzHeader this "x-amz-acl" (acl self) in
  let* response := S3_call this "POST" uri (Text "") [("uploads", "")] true in
  ret (match c_body response with
       | BXml o => Obj.get "UploadId" o
       | BText _ => None
       end).

Definition S3_uploadPart (this : nat) (data : Data) (path contentType : string) (chunk : Z)
    (uploadId : option string) : M (option string) :=
  let uri := object_uri path true in
  do* set_header this "content-type" contentType in
  do* set_header this "content-md5" (content_md5 data) in
  do* set_amzHeader this "x-amz-content-sha256" (S3_sha256 data) in
  do* delete_amzHeader this "x-amz-acl" in
  let* response :=
    S3_call this "PUT" uri data
      [("partNumber", Js.str chunk); ("uploadId", js_string_of uploadId)] true in
  ret (Obj.get "etag" (c_headers response)).

Definition part_xml (e : Z * string) : string :=
  "<Part><ETag>" +:+ e.2 +:+ "</ETag><PartNumber>" +:+ Js.str e.1 +:+ "</PartNumber></Part>".

Definition complete_body (parts : list (Z * string)) : string :=
  fold_left (λ body e, body +:+ part_xml e) parts "<CompleteMultipartUpload>"
  +:+ "</CompleteMultipartUpload>".

Definition S3_completeMultipartUpload (this : nat) (path : string) (uploadId : option string)
    (parts : list (Z * string)) : M bool :=
  do* emit (EvComplete this path uploadId parts) in
  let uri := object_uri path true in
  let body := complete_body parts in
  do* set_amzHeader this "x-amz-content-sha256" (S3_sha256 (Text body)) in
  do* set_header this "content-md5" (content_md5 (Text body)) in
  do* S3_call this "POST" uri (Text body) [("uploadId", js_string_of uploadId)] true in
  ret true.

Definition with_uploadId (uploadId : option string) (md : Metadata) : Metadata :=
  {| md_content_type := md_content_type md; md_uploadId := uploadId;
     md_parts := md_parts md; md_chunks := md_chunks md |}.

Definition with_parts (parts : list (Z * string)) (chunks : Z) (md : Metadata) : Metadata :=
  {| md_content_type := md_content_type md; md_uploadId := md_uploadId md;
     md_parts := Some parts; md_chunks := Some chunks |}.

Definition S3_uploadData (this : nat) (data : Data) (path contentType : string)
    (chunk chunks : Z) (metadata : nat) : M Z :=
  do* emit (EvUploadData (OfS3 this) data path contentType chunk chunks metadata) in
  if (chunk =? 1) && (chunks =? 1) then
    do* S3_write this path data contentType in
    ret 1
  else
    let* md := md_read metadata in
    let* uploadId :=
      match md_uploadId md with
      | Some (String a id) => ret (Some (String a id))
      | _ =>
          let* uploadId := S3_createMultipartUpload this path contentType in
          let* md := md_read metadata in
          do* md_write metadata (with_uploadId uploadId md) in
          ret uploadId
      end in
    let* md := md_read metadata in
    do* md_write metadata
          (with_parts (default [] (md_parts md)) (default 0 (md_chunks md)) md) in
    let* etag := S3_uploadPart this data path contentType chunk uploadId in
    match etag with
    | None => throw "TypeError: Cannot read properties of undefined (reading 'replace')"
    | Some etag =>
        let cleanETag := Js.strip_quotes etag in
        let* md := md_read metadata in
        let parts := default [] (md_parts md) in
        let received :=
          if Obj.has chunk parts then default 0 (md_chunks md)
          else default 0 (md_chunks md) + 1 in
        let parts := Obj.set Obj.num_idx chunk cleanETag parts in
        do* md_write metadata (with_parts parts received md) in
        do* (if received =? chunks then
               do* S3_completeMultipartUpload this path uploadId parts in ret tt
             else ret tt) in
        ret received
    end.

(** ** Calls through the [Device] interface *)

(** The paths a device is called with: a [Local] device is called with
    canonical absolute paths, held as their segments, as the rest of this
    development holds them; an [S3] device is called with a key. No method
    rewrites the path it is given, so neither does the dispatch. *)
Definition Place (device : Dev) : Type :=
  match device with
  | OfLocal _ => list string
  | OfS3 _ => string
  end.

Definition Device_write (device : Dev) (path : Place device) (data : Data)
    (contentType : string) : M bool :=
  match device return Place device → M bool with
  | OfLocal this => λ path, Local_write this path data contentType
  | OfS3 this => λ path, S3_write this path data contentType
  end path.

Definition Device_uploadData (device : Dev) (data : Data) (path : Place device)
    (contentType : string) (chunk chunks : Z) (metadata : nat) : M Z :=
  match device return Place device → M Z with
  | OfLocal this => λ path, Local_uploadData this data path contentType chunk chunks metadata
  | OfS3 this => λ path, S3_uploadData this data path contentType chunk chunks metadata
  end path.

Definition Device_delete (device : Dev) (path : Place device) (recursive : bool) : M bool :=
  match device return Place device → M bool with
  | OfLocal this => λ path, Local_delete this path recursive
  | OfS3 this => λ path, S3_delete this path recursive
  end path.

Definition Device_abort (device : Dev) (path : Place device) (extra : string) : M bool :=
  match device return Place device → M bool with
  | OfLocal this => λ path, Local_abort this path extra
  | OfS3 this => λ path, S3_abort this path extra
  end path.

(** ** [transfer] and [move]

    The destination device is bound before the destination path, whose type
    it fixes. *)

(** [Math.ceil(size / chunkSize)] for a non-zero chunk size. *)
Definition ceil_div (a b : Z) : Z := - ((- a) / b).

Definition content_metadata (contentType : string) : Metadata :=
  {| md_content_type := Some contentType; md_uploadId := None; md_parts := None;
     md_chunks := None |}.

(** The body of the loop of [Local.transfer]. *)
Definition Local_transfer_chunk (this : LocalDevice) (filePath : list string)
    (device : Dev) (destination : Place device) (contentType : string) (totalChunks : Z)
    (metadata : nat) (counter : Z) : M unit :=
  let start := counter * l_transferChunkSize this in
  let* data := Local_read this filePath start (Some (l_transferChunkSize this)) in
  do* Device_uploadData device (Buf data) destination contentType (counter + 1)
        totalChunks metadata in
  ret tt.

Definition Local_transfer (this : LocalDevice) (filePath : list string)
    (device : Dev) (destination : Place device) : M bool :=
  let* present := Local_exists this filePath in
  if negb present then throw "File Not Found"
  else
    let* size := Local_getFileSize this filePath in
    let* contentType := Local_getFileMimeType this filePath in
    if size <=? l_transferChunkSize this then
      let* source := Local_read this filePath 0 None in
      Device_write device destination (Buf source) contentType
    else
      let totalChunks := ceil_div size (l_transferChunkSize this) in
      let* metadata := md_new (content_metadata contentType) in
      do* for_range (Z.to_nat totalChunks) 0
            (Local_transfer_chunk this filePath device destination contentType totalChunks
               metadata) in
      ret true.

(** The body of the loop of [S3.transfer]. *)
Definition S3_transfer_chunk (this : nat) (chunkSize : Z) (path : string)
    (device : Dev) (destination : Place device) (contentType : string) (totalChunks : Z)
    (metadata : nat) (counter : Z) : M unit :=
  let start := counter * chunkSize in
  let* data := S3_read this path start (Some chunkSize) in
  do* Device_uploadData device (Buf data) destination contentType (counter + 1)
        totalChunks metadata in
  ret tt.

(** [parseInt] may give [NaN]: then no comparison holds and the loop, bounded
    by [Math.ceil(NaN)], does not run. *)
Definition S3_transfer (this : nat) (path : string) (device : Dev)
    (destination : Place device) : M bool :=
  try_catch
    (let* response := S3_getInfo this path in
     let size := Js.parseInt (or_else (Obj.get "content-length" response) "0") in
     let contentType := or_else (Obj.get "content-type" response) "" in
     let* self := s3_this this in
     if match size with Some n => n <=? transferChunkSize self | None => false end then
       let* source := S3_read this path 0 None in
       Device_write device destination (Buf source) contentType
     else
       let totalChunks := default 0 ((λ n, ceil_div n (transferChunkSize self)) <$> size) in
       let* metadata := md_new (content_metadata contentType) in
       do* for_range (Z.to_nat totalChunks) 0
             (S3_transfer_chunk this (transferChunkSize self) path device destination
                contentType totalChunks metadata) in
       ret true)
    (λ _, throw "File not found").

Definition Device_transfer (this : Dev) (path : Place this) (device : Dev)
    (destination : Place device) : M bool :=
  match this return Place this → M bool with
  | OfLocal l => λ path, Local_transfer l path device destination
  | OfS3 s => λ path, S3_transfer s path device destination
  end path.

(** The path as the device spells it: [source === target] compares these. *)
Definition device_path (device : Dev) : Place device → string :=
  match device with
  | OfLocal _ => Path.show
  | OfS3 _ => id
  end.

(** [Device.move], which [S3] inherits and [Local] overrides. *)
Definition Device_move_base (this : Dev) (source target : Place this) : M bool :=
  if String.eqb (device_path this source) (device_path this target) then ret false
  else
    let* moved := Device_transfer this source this target in
    if moved then Device_delete this source false else ret false.

Definition Device_move (this : Dev) (source target : Place this) : M bool :=
  match this return Place this → Place this → M bool with
  | OfLocal l => λ source target, Local_move l source target
  | OfS3 s => λ source target, Device_move_base (OfS3 s) source target
  end source target.

(** ** Constructors *)

Definition Local_new (root : string) (getMimeType : string → string) : LocalDevice :=
  {| l_root := root; l_transferChunkSize := 20000000; getMimeType := getMimeType |}.

Definition initial_headers (host : string) : list (string * string) :=
  [("host", host); ("date", ""); ("content-md5", ""); ("content-type", "")].

Definition S3_new (root accessKey secretKey bucket region acl endpointUrl : string) : S3Device :=
  let host :=
    if Js.nonempty endpointUrl then bucket +:+ "." +:+ endpointUrl
    else if String.eqb region "cn-north-1" || String.eqb region "cn-north-4"
            || String.eqb region "cn-northwest-1"
         then bucket +:+ ".s3." +:+ region +:+ ".amazonaws.cn"
         else bucket +:+ ".s3." +:+ region +:+ ".amazonaws.com" in
  {| accessKey := accessKey; secretKey := secretKey; bucket := bucket; region := region;
     acl := acl; root := root; headers := initial_headers host; amzHeaders := [];
     transferChunkSize := 20000000; endpointUrl := None |}.

Definition Wasabi_new (root accessKey secretKey bucket region acl : string) : S3Device :=
  with_headers (Obj.set Obj.str_idx "host" (bucket +:+ ".s3." +:+ region +:+ ".wasabisys.com"))
    (S3_new root accessKey secretKey bucket region acl "").

(** [endpoint.replace(/^https?:\/\//, "")]. *)
Definition strip_protocol (endpoint : string) : string :=
  if String.prefix "https://" endpoint then Fs.skip 8 endpoint
  else if String.prefix "http://" endpoint then Fs.skip 7 endpoint
  else endpoint.

Definition with_endpointUrl (url : string) (d : S3Device) : S3Device :=
  {| accessKey := accessKey d; secretKey := secretKey d; bucket := bucket d;
     region := region d; acl := acl d; root := root d;
     headers := headers d; amzHeaders := amzHeaders d;
     transferChunkSize := transferChunkSize d; endpointUrl := Some url |}.

Definition MinIO_new (root accessKey secretKey bucket endpoint acl : string) (useSSL : bool)
  : S3Device :=
  let protocol := if useSSL then "https" else "http" in
  let cleanEndpoint := strip_protocol endpoint in
  with_endpointUrl (protocol +:+ "://" +:+ cleanEndpoint)
    (with_headers (Obj.set Obj.str_idx "host" (bucket +:+ "." +:+ cleanEndpoint))
       (S3_new root accessKey secretKey bucket "us-east-1" acl cleanEndpoint)).

Definition empty_world : World :=
  {| w_fs := ∅; w_s3 := ∅; w_heap := ∅; w_net := []; w_wire := []; w_trace := [] |}.

(** ** Notions used in the statements *)

(** *** Strings *)

Fixpoint all_chars (f : ascii → bool) (s : string) : bool :=
  match s with
  | EmptyString => true
  | String a s' => f a && all_chars f s'
  end.

Definition is_num_char (a : ascii) : bool := Js.is_digit a || Ascii.eqb a "-".

(** A string without white space, as a decimal number is. *)
Definition solid (s : string) : Prop := s ≠ "" ∧ all_chars (λ a, negb (Js.is_space a)) s = true.

Fixpoint last_char (s : string) : option ascii :=
  match s with
  | EmptyString => None
  | String a EmptyString => Some a
  | String _ s' => last_char s'
  end.

(** A string without the character [c]. *)
Definition without (c : ascii) (s : string) : Prop :=
  all_chars (λ a, negb (Ascii.eqb a c)) s = true.

(** Lower-case hexadecimal digits. *)
Definition is_hex_char (a : ascii) : bool :=
  Js.is_digit a || ((97 <=? N_of_ascii a)%N && (N_of_ascii a <=? 102)%N).

(** [hay] begins with [needle]. *)
Fixpoint starts (needle hay : string) : bool :=
  match needle, hay with
  | EmptyString, _ => true
  | String a needle', String b hay' => Ascii.eqb a b && starts needle' hay'
  | String _ _, EmptyString => false
  end.

(** The number of places at which [needle] occurs in [hay]. *)
Fixpoint occurrences (needle hay : string) : nat :=
  match hay with
  | EmptyString => if starts needle hay then 1 else 0
  | String _ hay' => (if starts needle hay then 1 else 0) + occurrences needle hay'
  end.

(** *** Paths

    [n] times [../]. *)
Fixpoint climbs (n : nat) : string :=
  match n with O => "" | S n' => "../" +:+ climbs n' end.

(** A segment of a resolved path holds no separator. *)
Definition plain_segment (s : string) : Prop :=
  clean_segment s ∧ all_chars (λ a, negb (Js.is_slash a)) s = true.

(** A character that the path of a request may hold as it is, and a character
    of an encoded path. *)
Definition is_key_char (a : ascii) : bool := Js.is_unreserved a || Ascii.eqb a "/".

Definition is_uri_char (question : bool) (a : ascii) : bool :=
  Js.is_unreserved a || Ascii.eqb a "/" || Ascii.eqb a "%" || question && Ascii.eqb a "?".

(** *** The files of a chunked upload *)

(** The text of a chunk log: one line per entry. *)
Definition log_text (ss : list string) : string :=
  foldr (λ s acc, s +:+ Js.nl +:+ acc) "" ss.

Definition tmp_dir (filePath : list string) : list string :=
  Path.dirname filePath ++ ["tmp_" +:+ Path.basename filePath].

Definition dirs_ok (fs : gmap (list string) node) (p : list string) : Prop :=
  ∀ j, (0 < j ≤ length p)%nat → fs !! take j p = Some Dir.

Definition prepared (fs : gmap (list string) node) (p : list string) : gmap (list string) node :=
  (Fs.mkdir (tmp_dir p) (Fs.mkdir (Path.dirname p) fs).2).2.

Definition log_content (o : option node) : option string :=
  match o with
  | None => Some ""
  | Some (File L) => Some L
  | Some Dir => None
  end.

(** The parts [i .. i+n-1], joined. *)
Definition joined (P : Z → string) (i n : Z) : string :=
  foldr (λ j acc, P j +:+ acc) "" (seqZ i n).

Definition session_paths (p : list string) (k : Z) (q : list string) : Prop :=
  q = chunk_log p ∨ q = tmp_dir p ∨ q ∈ map (chunk_part p) (seqZ 1 k).

Fixpoint upload_all (device : Dev) (path : Place device) (contentType : string) (chunks : Z)
    (metadata : nat) (payload : Z → Data) (order : list Z) : M (list Z) :=
  match order with
  | [] => ret []
  | chunk :: rest =>
      let* n := Device_uploadData device (payload chunk) path contentType chunk chunks metadata in
      let* ns := upload_all device path contentType chunks metadata payload rest in
      ret (n :: ns)
  end.

(** The file system in the middle of a chunked upload to [p]: the log lists
    what has [arrived], the part files hold the payloads, everything else is
    as in [base]. *)
Definition session_inv (p : list string) (P : Z → Data) (base : gmap (list string) node)
    (arrived : list Z) (F : gmap (list string) node) : Prop :=
  log_content (F !! chunk_log p) = Some (log_text (map Js.str arrived))
  ∧ (∀ c, c ∈ arrived → F !! chunk_part p c = Some (File (to_buffer (P c))))
  ∧ (∀ q, q ≠ chunk_log p → q ∉ map (chunk_part p) arrived → F !! q = base !! q).

(** The count that [Local.uploadData] reads back: the lines of the chunk log
    once the entry of this call is appended. *)
Definition Local_received (fs : gmap (list string) node) (p : list string) (c : Z) : option Z :=
  (λ L, count_lines (L +:+ Js.str c +:+ Js.nl)) <$> log_content (prepared fs p !! chunk_log p).

(** What a call of [delete] on [p] may leave of the files [fs]. *)
Definition deleted (fs : gmap (list string) node) (p : list string) (recursive b : bool)
    (fs' : gmap (list string) node) : Prop :=
  (∀ q, ¬ p `prefix_of` q → fs' !! q = fs !! q)
  ∧ match Fs.lookup fs p with
    | Some (File _) => b = true ∧ fs' = delete p fs
    | Some Dir =>
        if recursive then b = true → fs' !! p = None ∧ Fs.children fs' p = []
        else b = true ∧ fs' = fs
    | None => b = false ∧ fs' = fs
    end.

(** *** The metadata bag of a multipart upload *)

Definition md_at (w : World) (l : nat) : Metadata := default empty_metadata (w_heap w !! l).

(** The count of a bag is the number of its parts, each listed once. *)
Definition counted (md : Metadata) : Prop :=
  default 0 (md_chunks md) = Z.of_nat (length (default [] (md_parts md)))
  ∧ NoDup (Obj.keys (default [] (md_parts md))).

(** Numeric keys in index range come out in ascending order. *)
Definition in_range (c : Z) : Prop := 0 ≤ c < Z.of_N Obj.max_index.

(** The metadata bag in the middle of a multipart upload. *)
Definition s3_inv (md : nat) (arrived : list Z) (w : World) : Prop :=
  let parts0 := default [] (md_parts (md_at w md)) in
  StronglySorted Z.lt (Obj.keys parts0)
  ∧ Obj.keys parts0 ≡ₚ arrived
  ∧ default 0 (md_chunks (md_at w md)) = Z.of_nat (length arrived).

(** *** Call logs *)

(** The calls that finalise an upload. *)
Definition is_finalization (e : Event) : bool :=
  match e with
  | EvComplete _ _ _ _ | EvJoinChunks _ _ => true
  | _ => false
  end.

Definition finalized (tr : list Event) : bool := existsb is_finalization tr.

(** The part lists that the calls of [completeMultipartUpload] in a log were given. *)
Definition completed (tr : list Event) : list (list (Z * string)) :=
  omap (λ e, match e with EvComplete _ _ _ parts => Some parts | _ => None end) tr.



(** The calls of a log without the finalisations that they start. *)
Definition plan (tr : list Event) : list Event :=
  List.filter (λ e, negb (is_finalization e)) tr.

(** The two calls of turn [counter] of the loop of [transfer]. *)
Definition turn (this : LocalDevice) (p : list string) (device : Dev)
    (destination : Place device) (ct : string) (total : Z) (md : nat) (counter : Z)
    (data : string) : list Event :=
  [EvRead (OfLocal this) (Path.show p) (counter * l_transferChunkSize this)
     (Some (l_transferChunkSize this));
   EvUploadData device (Buf data) (device_path device destination) ct (counter + 1) total md].

(** The received-count a call of [uploadData] leaves: on [Local] the lines of
    the log, on [S3] the [chunks] field of the metadata bag. *)
Definition tracked (device : Dev) (path : Place device) (c : Z) (md : nat) (w w' : World)
  : option Z :=
  match device return Place device → option Z with
  | OfLocal _ => λ path, Local_received (w_fs w) path c
  | OfS3 _ => λ _, md_chunks (md_at w' md)
  end path.

(** *** What a computation may touch *)

(** Requests leave the file system, the heap and the call log alone. *)
Definition network_only {A} (m : M A) : Prop :=
  ∀ w, w_fs (m w).2 = w_fs w ∧ w_heap (m w).2 = w_heap w ∧ w_trace (m w).2 = w_trace w.

(** A computation that leaves the call log alone. *)
Definition silent {A} (m : M A) : Prop := ∀ w, w_trace (m w).2 = w_trace w.

(** A computation that touches neither the file system nor the call log. *)
Definition at_rest {A} (m : M A) : Prop :=
  ∀ w, w_fs (m w).2 = w_fs w ∧ w_trace (m w).2 = w_trace w.

(** A computation that leaves the entry [n] at [q] alone. *)
Definition keeps {A} (q : list string) (n : node) (m : M A) : Prop :=
  ∀ w, w_fs w !! q = Some n → w_fs (m w).2 !! q = Some n.

(** Two computations that do the same to the same files. *)
Definition same_files {A} (m1 m2 : M A) : Prop :=
  ∀ w1 w2, w_fs w1 = w_fs w2 →
           (m1 w1).1 = (m2 w2).1 ∧ w_fs (m1 w1).2 = w_fs (m2 w2).2.

(** The chunk that [Local.transfer] reads for part [j] of a source [d]. *)
Definition slice (d : string) (size : Z) (j : Z) : Data :=
  Buf (Fs.read_at d ((j - 1) * size) size).

(** A computation that always throws. *)
Definition fails {A} (m : M A) : Prop := ∀ w, ∃ e, (m w).1 = Throw e.

(** A computation whose only trace is at most one read of [path] on the device
    [this]. *)
Definition reads_once {A} (this : nat) (path : string) (m : M A) : Prop :=
  ∀ w, w_fs (m w).2 = w_fs w
       ∧ (w_trace (m w).2 = w_trace w
          ∨ ∃ offset length,
              w_trace (m w).2 = w_trace w ++ [EvRead (OfS3 this) path offset length]).

(** *** One call of [uploadData] *)

(** What one call in multi-chunk mode leaves behind. *)
Inductive upload_outcome (this : nat) (data : Data) (path ct : string) (c chunks : Z) (md : nat)
    (w : World) (r : result Z) (w' : World) : Prop :=
| failed_early e :
    r = Throw e →
    w_trace w' = w_trace w ++ [EvUploadData (OfS3 this) data path ct c chunks md] →
    default [] (md_parts (md_at w' md)) = default [] (md_parts (md_at w md)) →
    default 0 (md_chunks (md_at w' md)) = default 0 (md_chunks (md_at w md)) →
    upload_outcome this data path ct c chunks md w r w'
| recorded etag :
    let parts0 := default [] (md_parts (md_at w md)) in
    let count0 := default 0 (md_chunks (md_at w md)) in
    let parts := Obj.set Obj.num_idx c (Js.strip_quotes etag) parts0 in
    let n := if Obj.has c parts0 then count0 else count0 + 1 in
    md_parts (md_at w' md) = Some parts →
    md_chunks (md_at w' md) = Some n →
    (n ≠ chunks ∧ r = Ok n
       ∧ w_trace w' = w_trace w ++ [EvUploadData (OfS3 this) data path ct c chunks md]
     ∨ n = chunks ∧ (r = Ok n ∨ ∃ e, r = Throw e)
       ∧ w_trace w' = w_trace w ++ [EvUploadData (OfS3 this) data path ct c chunks md;
                                    EvComplete this path (md_uploadId (md_at w' md)) parts]) →
    upload_outcome this data path ct c chunks md w r w'.

(** What one call of [Local.uploadData] in multi-chunk mode leaves behind. *)
Inductive local_outcome (this : LocalDevice) (data : Data) (p : list string) (ct : string)
    (c chunks : Z) (md : nat) (w : World) (r : result Z) (w' : World) : Prop :=
| local_failed_early :
    r = Throw ("Failed to write chunk " +:+ Js.str c) →
    w_trace w' = w_trace w ++ [EvUploadData (OfLocal this) data (Path.show p) ct c chunks md] →
    local_outcome this data p ct c chunks md w r w'
| local_counted n :
    Local_received (w_fs w) p c = Some n →
    n ≠ chunks →
    r = Ok n →
    w_trace w' = w_trace w ++ [EvUploadData (OfLocal this) data (Path.show p) ct c chunks md] →
    local_outcome this data p ct c chunks md w r w'
| local_joined :
    Local_received (w_fs w) p c = Some chunks →
    r = Ok chunks ∨ r = Throw ("Failed to write chunk " +:+ Js.str c) →
    w_trace w' = w_trace w ++ [EvUploadData (OfLocal this) data (Path.show p) ct c chunks md;
                               EvJoinChunks (Path.show p) chunks] →
    local_outcome this data p ct c chunks md w r w'.

(** *** One request and its reply *)

(** The reply that the next request gets. *)
Definition pending (w : World) : Reply := hd offline (w_net w).

(** The headers of a response, under lower-case names. *)
Definition lower_headers (hs : list (string * string)) : list (string * string) :=
  fold_left (λ acc (e : string * string), Obj.set Obj.str_idx (Js.toLowerCase e.1) e.2 acc) hs [].

(** The bodies that [call] hands to the XML parser. *)
Definition is_xml (r : Response) : bool :=
  let contentType := Obj.get "content-type" (lower_headers (r_headers r)) in
  bool_decide (contentType = Some "application/xml")
  || Js.startsWith (r_text r) "<?xml" && negb (bool_decide (contentType = Some "image/svg+xml")).

(** What [call] makes of a response: an error status throws, an XML body is
    decoded when [decode] asks for it, any other body comes back as text. *)
Definition decoded (decode : bool) (r : Response) : result CallResult :=
  if r_ok r then
    if decode && is_xml r then
      match r_xml r with
      | Some o => Ok {| c_body := BXml o; c_headers := lower_headers (r_headers r);
                        c_code := r_status r |}
      | None => Throw "Error: the body is not XML"
      end
    else Ok {| c_body := BText (r_text r); c_headers := lower_headers (r_headers r);
               c_code := r_status r |}
  else Throw ("HTTP " +:+ Js.str (r_status r) +:+ ": " +:+ r_text r).

(** The headers as [call] leaves them before it signs: the two dates and,
    unless the device holds one, the hash of the payload. *)
Definition dated (reply : Reply) (data : Data) (self : S3Device) : S3Device :=
  let amz := Obj.set Obj.str_idx "x-amz-date" (Js.strip_date (now_iso reply)) (amzHeaders self) in
  with_headers (Obj.set Obj.str_idx "date" (now_utc reply))
    (with_amzHeaders
       (λ _, match Obj.get "x-amz-content-sha256" amz with
             | Some (String _ _) => amz
             | _ => Obj.set Obj.str_idx "x-amz-content-sha256" (S3_sha256 data) amz
             end)
       self).

(** The request of a device whose headers are ready. *)
Definition signed_request (self : S3Device) (method url uri : string) (data : Data)
    (parameters : list (string * string)) (authorization : string) : Request :=
  {| q_method := method; q_url := url;
     q_headers := Obj.set Obj.str_idx "Authorization" authorization
                    (request_headers (amzHeaders self) (headers self));
     q_body := if String.eqb method "PUT" || String.eqb method "POST" then Some data else None |}.

(** The outcome of a request that [reply] answers. *)
Definition answer (decode : bool) (reply : Reply) : result CallResult :=
  match response reply with
  | Some r => decoded decode r
  | None => Throw "fetch failed"
  end.

(** The upload id and the entity tag that a reply carries. *)
Definition reply_uploadId (reply : Reply) : option string :=
  match answer true reply with
  | Ok {| c_body := BXml o |} => Obj.get "UploadId" o
  | _ => None
  end.

Definition reply_etag (reply : Reply) : option string :=
  match answer true reply with
  | Ok cr => Obj.get "etag" (c_headers cr)
  | Throw _ => None
  end.

(** A device that can address its bucket: [MinIO.call] takes the bucket name
    from the host header. *)
Definition callable (self : S3Device) : Prop :=
  endpointUrl self = None ∨ is_Some (Obj.get "host" (headers self)).

(** The world once the device [this], left as [self], has sent [q] and the
    next reply is used up. *)
Definition sent (this : nat) (self : S3Device) (q : Request) (w : World) : World :=
  {| w_fs := w_fs w; w_s3 := <[this := self]> (w_s3 w); w_heap := w_heap w;
     w_net := tl (w_net w); w_wire := w_wire w ++ [q]; w_trace := w_trace w |}.

(** The reply to the [PUT] of a call of [uploadData]: the first of the script
    when the bag holds an upload id, the second when the call has to ask for
    one. *)
Definition part_reply (w : World) (md : nat) : Reply :=
  match md_uploadId (md_at w md) with
  | Some (String _ _) => pending w
  | _ => hd offline (tl (w_net w))
  end.

(** The body of [completeMultipartUpload] for the parts [cs], part [c] with
    the tag [tag c]. *)
Definition part_list (tag : Z → string) (cs : list Z) : string :=
  "<CompleteMultipartUpload>"
  +:+ foldr (λ c acc, "<Part><ETag>" +:+ tag c +:+ "</ETag><PartNumber>" +:+ Js.str c
                      +:+ "</PartNumber></Part>" +:+ acc)
        "</CompleteMultipartUpload>" cs.

(** The request that carries part [c] of the upload [uploadId]. *)
Definition carries_part (uploadId : string) (c : Z) (data : Data) (q : Request) : Prop :=
  q_method q = "PUT"
  ∧ q_body q = Some data
  ∧ ∃ base, q_url q = base +:+ query_string [("partNumber", Js.str c);
                                             ("uploadId", uploadId)].

(** The reply that answers the part [c] with the tag [tag c], quoted or not. *)
Definition tagged_by (tag : Z → string) (c : Z) (r : Reply) : Prop :=
  ∃ etag, reply_etag r = Some etag ∧ tag c = Js.strip_quotes etag.

(** *** Sources and destinations *)

(** The source [p] is neither the destination nor inside the temporary
    directory of its upload; a bucket holds no file. *)
Definition clear_of (device : Dev) : Place device → list string → Prop :=
  match device with
  | OfLocal _ =>
      λ destination p,
        p ≠ destination ∧ p ≠ tmp_dir destination
        ∧ Fs.is_child (tmp_dir destination) p = false
  | OfS3 _ => λ _ _, True
  end.

(** *** The headers that are signed *)

(** [combinedHeaders] of [getSignatureV4], and the lower-cased header names. *)
Definition combined (this : S3Device) : list (string * string) :=
  combine_headers (amzHeaders this) (combine_headers (headers this) []).

Definition lowered (this : S3Device) : list string :=
  map Js.toLowerCase (Obj.keys (headers this) ++ Obj.keys (amzHeaders this)).

(** ** Concrete devices and worlds *)

Definition disk : LocalDevice := Local_new "/" (λ _, "application/octet-stream").

(** The payload of chunk [c]. *)
Definition piece (c : Z) : Data := Text ("<" +:+ Js.str c +:+ ">").

Definition bucket0 : S3Device :=
  S3_new "root" "access" "secret" "bucket" "us-east-1" "private" "".

(** A reply that accepts the request; it carries what each kind of request
    reads from it. *)
Definition accepted : Reply :=
  {| now_iso := "2023-01-01T00:00:00.000Z";
     now_utc := "Sun, 01 Jan 2023 00:00:00 GMT";
     response :=
       Some {| r_ok := true; r_status := 200;
               r_headers := [("content-type", "application/xml"); ("etag", "abc")];
               r_text := "<UploadId>u-1</UploadId>";
               r_xml := Some [("UploadId", "u-1")] |} |}.

(** A reply that accepts a part and answers it with the tag [t], in quotes
    as the service sends it. *)
Definition tagged (t : string) : Reply :=
  {| now_iso := "2023-01-01T00:00:00.000Z";
     now_utc := "Sun, 01 Jan 2023 00:00:00 GMT";
     response :=
       Some {| r_ok := true; r_status := 200;
               r_headers := [("etag", String Js.dquote (t +:+ String Js.dquote ""))];
               r_text := ""; r_xml := None |} |}.

Definition refused : Reply :=
  {| now_iso := "2023-01-01T00:00:00.000Z";
     now_utc := "Sun, 01 Jan 2023 00:00:00 GMT";
     response :=
       Some {| r_ok := false; r_status := 500; r_headers := [];
               r_text := "InternalError"; r_xml := None |} |}.

(** The reply to a [HEAD] request for an object of the given size. *)
Definition sized (n : string) : Reply :=
  {| now_iso := now_iso accepted; now_utc := now_utc accepted;
     response :=
       Some {| r_ok := true; r_status := 200; r_headers := [("content-length", n)];
               r_text := ""; r_xml := None |} |}.

Definition cloud (net : list Reply) : World :=
  {| w_fs := ∅; w_s3 := {[ 0%nat := bucket0 ]}; w_heap := ∅; w_net := net;
     w_wire := []; w_trace := [] |}.

Definition with_files (fs : gmap (list string) node) : World :=
  {| w_fs := fs; w_s3 := ∅; w_heap := ∅; w_net := []; w_wire := []; w_trace := [] |}.

(** A disk that transfers in chunks of 2 bytes. *)
Definition small_disk : LocalDevice :=
  {| l_root := "/"; l_transferChunkSize := 2; getMimeType := λ _, "text/plain" |}.

(** A disk with a source of 5 bytes, next to the bucket. *)
Definition mixed (extra : gmap (list string) node) (net : list Reply) : World :=
  {| w_fs := <[ ["src"] := Dir ]> (<[ ["src"; "a.txt"] := File "abcde" ]> extra);
     w_s3 := {[ 0%nat := bucket0 ]}; w_heap := ∅; w_net := net; w_wire := [];
     w_trace := [] |}.


(** A [MinIO] device on a local endpoint. *)
Definition minio0 : S3Device :=
  MinIO_new "root" "access" "secret" "bucket" "http://localhost:9000" "private" false.

(** A world with one device and a scripted network. *)
Definition online (device : S3Device) (net : list Reply) : World :=
  {| w_fs := ∅; w_s3 := {[ 0%nat := device ]}; w_heap := ∅; w_net := net;
     w_wire := []; w_trace := [] |}.

(** Two files waiting to be uploaded. *)
Definition inbox : gmap (list string) node :=
  {[ ["in"] := Dir; ["in"; "a"] := File "x"; ["in"; "b"] := File "y" ]}.

(** The device of the signature test: a fixed date and the hash of the empty
    payload. *)
Definition signed0 : S3Device :=
  with_amzHeaders
    (λ _, [("x-amz-date", "20230101T000000Z");
           ("x-amz-content-sha256",
            "e3b0c44298fc1c149afbf4c8996fb92427ae41e4649b934ca495991b7852b855")])
    bucket0.

(** The same with an access key that holds a marker and two headers named by
    numbers. *)
Definition forged : S3Device :=
  with_headers (λ hs, Obj.set Obj.str_idx "9" "b" (Obj.set Obj.str_idx "10" "a" hs))
    (with_amzHeaders (λ _, amzHeaders signed0)
       (S3_new "root" "Signature=" "secret" "bucket" "us-east-1" "private" "")).

(** * Part II: proofs *)

(** ** Path resolution: proofs *)

Lemma split_replace_slashes s :
  Js.split "/"%char (Js.replace_slashes s) = PathSpec.split_any s.
Proof.
  induction s as [|a s IH]; simpl; [done|].
  destruct (Js.is_slash a) eqn:Ha; simpl.
  - by rewrite IH.
  - assert (Ascii.eqb a "/"%char = false) as ->.
    { unfold Js.is_slash in Ha. by apply orb_false_iff in Ha as [? _]. }
    by rewrite IH.
Qed.

Lemma absolute_step_resolve kept seg :
  Js.nonempty seg = true →
  absolute_step kept seg = PathSpec.resolve_segment kept seg.
Proof.
  intros Hne. unfold absolute_step, PathSpec.resolve_segment.
  destruct (String.eqb_spec seg ".") as [->|Hdot].
  - by rewrite decide_True by auto.
  - rewrite decide_False; last first.
    { intros [->|?]; [done|contradiction]. }
    destruct (String.eqb_spec seg "..") as [->|Hdd].
    + rewrite decide_True by done. by destruct kept.
    + by rewrite decide_False.
Qed.

Lemma fold_resolve_filter segs kept :
  fold_left absolute_step (filter (λ part, Js.nonempty part = true) segs) kept
  = foldl PathSpec.resolve_segment kept segs.
Proof.
  revert kept. induction segs as [|seg segs IH]; intros kept; [done|].
  rewrite filter_cons. simpl. destruct (decide (Js.nonempty seg = true)) as [Hne|Hne].
  - simpl. rewrite IH. by rewrite absolute_step_resolve.
  - rewrite IH. f_equal. unfold PathSpec.resolve_segment.
    destruct seg; [|done]. by rewrite decide_True by auto.
Qed.

Lemma clean_removelast (l : list string) :
  Forall clean_segment l → Forall clean_segment (removelast l).
Proof.
  induction 1 as [|x l Hx Hl IH]; simpl; [constructor|].
  destruct l; [constructor|]. by constructor.
Qed.

Lemma resolve_segment_clean kept seg :
  Forall clean_segment kept → Forall clean_segment (PathSpec.resolve_segment kept seg).
Proof.
  intros Hk. unfold PathSpec.resolve_segment.
  destruct (decide (seg = "" ∨ seg = ".")) as [|Hn]; [done|].
  destruct (decide (seg = "..")) as [|Hdd].
  - destruct kept; [done|]. by apply clean_removelast.
  - apply Forall_app. split; [done|]. constructor; [|constructor].
    unfold clean_segment. naive_solver.
Qed.

Lemma foldl_resolve_clean segs kept :
  Forall clean_segment kept →
  Forall clean_segment (foldl PathSpec.resolve_segment kept segs).
Proof.
  revert kept. induction segs as [|seg segs IH]; intros kept Hk; [done|].
  simpl. by apply IH, resolve_segment_clean.
Qed.

(** C6: for every input string, [getAbsolutePath] splits on [/] and [\],
    discards empty and [.] segments, pops the last retained segment on [..]
    (doing nothing when there is none), and rejoins behind a single leading
    [/]; the three sample paths resolve to [/a/c], [/a/b] and [/]. *)
Theorem getAbsolutePath_spec :
  (∀ path, getAbsolutePath path = PathSpec.absolutePath path)
  ∧ (∀ path, ∃ segs, getAbsolutePath path = "/" +:+ Js.join "/" segs
                     ∧ Forall clean_segment segs)
  ∧ getAbsolutePath "/a/b/../c" = "/a/c"
  ∧ getAbsolutePath "//a//b" = "/a/b"
  ∧ getAbsolutePath "/a/.." = "/"
  ∧ getAbsolutePath "/../..\..\a" = "/a".
Proof.
  assert (∀ path, getAbsolutePath path = PathSpec.absolutePath path) as Heq.
  { intros path. unfold getAbsolutePath, PathSpec.absolutePath.
    by rewrite fold_resolve_filter, split_replace_slashes. }
  split; [done|]. split; [|by repeat split].
  intros path. rewrite Heq. eexists. split; [done|].
  by apply foldl_resolve_clean.
Qed.

(** ** Strings *)

Lemma all_chars_app f s t : all_chars f (s +:+ t) = all_chars f s && all_chars f t.
Proof. induction s as [|a s IH]; simpl; [done|]. by rewrite IH, andb_assoc. Qed.

Lemma pretty_N_char_digit x : Js.is_digit (pretty_N_char x) = true.
Proof. unfold pretty_N_char. by repeat case_match. Qed.

Lemma pretty_N_go_chars x s :
  all_chars is_num_char s = true → all_chars is_num_char (pretty_N_go x s) = true.
Proof.
  revert s. induction (N.lt_wf_0 x) as [x _ IH]; intros s Hs.
  destruct (decide (x = 0%N)) as [->|Hx]; [by rewrite pretty_N_go_0|].
  rewrite pretty_N_go_step by lia. apply IH.
  - apply N.div_lt; lia.
  - simpl. rewrite Hs, andb_true_r. unfold is_num_char.
    by rewrite pretty_N_char_digit.
Qed.

Lemma pretty_N_go_nonempty x s : s ≠ "" → pretty_N_go x s ≠ "".
Proof.
  revert s. induction (N.lt_wf_0 x) as [x _ IH]; intros s Hs.
  destruct (decide (x = 0%N)) as [->|Hx]; [by rewrite pretty_N_go_0|].
  rewrite pretty_N_go_step by lia. apply IH; [apply N.div_lt; lia|done].
Qed.

Lemma pretty_N_chars (x : N) : all_chars is_num_char (pretty x) = true ∧ pretty x ≠ "".
Proof.
  unfold pretty, pretty_N. case_decide; [done|]. split.
  - by apply pretty_N_go_chars.
  - destruct (decide (x = 0%N)) as [->|Hx]; [done|].
    rewrite pretty_N_go_step by lia. by apply pretty_N_go_nonempty.
Qed.

Lemma str_chars (c : Z) : all_chars is_num_char (Js.str c) = true ∧ Js.str c ≠ "".
Proof.
  unfold Js.str, pretty, pretty_Z. destruct c as [|x|x]; [done|..].
  - apply (pretty_N_chars (N.pos x)).
  - destruct (pretty_N_chars (N.pos x)) as [H1 H2]. split; [|done].
    simpl. exact H1.
Qed.

Lemma all_chars_impl (f g : ascii → bool) s :
  (∀ a, f a = true → g a = true) → all_chars f s = true → all_chars g s = true.
Proof.
  intros Hfg. induction s as [|a s IH]; simpl; [done|].
  intros [Ha Hs]%andb_true_iff. by rewrite (Hfg _ Ha), IH.
Qed.

Lemma num_char_not_space a : is_num_char a = true → negb (Js.is_space a) = true.
Proof.
  unfold is_num_char, Js.is_digit, Js.is_space.
  destruct (Ascii.eqb_spec a "-") as [->|_]; [done|].
  rewrite orb_false_r. intros H.
  apply andb_true_iff in H as [H1 H2]. apply N.leb_le in H1, H2.
  apply negb_true_iff. repeat (apply orb_false_iff; split).
  - apply andb_false_iff. right. apply N.leb_gt. lia.
  - apply N.eqb_neq. lia.
  - apply N.eqb_neq. lia.
Qed.

Lemma str_solid (c : Z) : solid (Js.str c).
Proof.
  destruct (str_chars c) as [H1 H2]. split; [done|].
  eapply all_chars_impl; [|exact H1]. apply num_char_not_space.
Qed.

Lemma string_app_assoc (a b c : string) : (a +:+ b) +:+ c = a +:+ (b +:+ c).
Proof. induction a as [|x a IH]; simpl; [done|]. unfold String.app in *. simpl. by rewrite IH. Qed.

Lemma string_app_nil_r (a : string) : a +:+ "" = a.
Proof. induction a as [|x a IH]; [done|]. unfold String.app in *. simpl. by rewrite IH. Qed.

Lemma string_app_cons x (a b : string) : String x a +:+ b = String x (a +:+ b).
Proof. done. Qed.

Lemma string_app_nil_l (a : string) : "" +:+ a = a.
Proof. done. Qed.

Lemma log_text_app ss ts : log_text (ss ++ ts) = log_text ss +:+ log_text ts.
Proof.
  induction ss as [|s ss IH]; simpl; [done|].
  by rewrite IH, !string_app_assoc.
Qed.

Lemma trimStart_solid s r : solid s → Js.trimStart (s +:+ r) = s +:+ r.
Proof.
  intros [Hne Hs]. destruct s as [|a s]; [done|].
  simpl in *. apply andb_true_iff in Hs as [Ha _].
  rewrite string_app_cons. simpl. by apply negb_true_iff in Ha as ->.
Qed.

Lemma trimEnd_nonspace_app s r :
  all_chars (λ a, negb (Js.is_space a)) s = true →
  Js.trimEnd (s +:+ r) = s +:+ Js.trimEnd r.
Proof.
  induction s as [|a s IH]; simpl; [done|].
  intros [Ha Hs]%andb_true_iff. rewrite !string_app_cons. simpl.
  rewrite IH by done. apply negb_true_iff in Ha as ->.
  by destruct (s +:+ Js.trimEnd r).
Qed.

Lemma trimEnd_log_text ss :
  Forall solid ss → Js.trimEnd (log_text ss) = Js.join Js.nl ss.
Proof.
  induction 1 as [|s ss [Hne Hs] Hss IH]; [done|].
  simpl log_text. rewrite trimEnd_nonspace_app by done.
  unfold Js.nl at 1. rewrite string_app_cons. simpl Js.trimEnd.
  rewrite string_app_nil_l, IH. destruct ss as [|t ss].
  - simpl. by rewrite string_app_nil_r.
  - assert (Js.join Js.nl (t :: ss) ≠ "") as Hj.
    { inversion Hss as [|?? [Ht _] _]; subst. destruct ss; simpl; [done|].
      by destruct t. }
    destruct (Js.join Js.nl (t :: ss)) eqn:E; [done|].
    simpl. by rewrite <-E.
Qed.

Lemma split_no_sep sep s r :
  all_chars (λ a, negb (Ascii.eqb a sep)) s = true →
  Js.split sep (s +:+ String sep r) = s :: Js.split sep r.
Proof.
  induction s as [|a s IH]; simpl.
  - intros _. by rewrite Ascii.eqb_refl.
  - intros [Ha Hs]%andb_true_iff.
    apply negb_true_iff in Ha as ->. by rewrite IH.
Qed.

Lemma split_no_sep_end sep s :
  all_chars (λ a, negb (Ascii.eqb a sep)) s = true → Js.split sep s = [s].
Proof.
  induction s as [|a s IH]; simpl; [done|].
  intros [Ha Hs]%andb_true_iff. apply negb_true_iff in Ha as ->. by rewrite IH.
Qed.

Lemma solid_no_nl s :
  solid s → all_chars (λ a, negb (Ascii.eqb a (ascii_of_N 10))) s = true.
Proof.
  intros [_ Hs]. eapply all_chars_impl; [|exact Hs].
  intros a Ha. apply negb_true_iff. apply negb_true_iff in Ha.
  destruct (Ascii.eqb_spec a (ascii_of_N 10)) as [->|]; [done|done].
Qed.

Lemma split_join_nl ss :
  ss ≠ [] → Forall solid ss → Js.split (ascii_of_N 10) (Js.join Js.nl ss) = ss.
Proof.
  intros Hne Hss. induction Hss as [|s ss Hs Hss IH]; [done|].
  destruct ss as [|t ss].
  - simpl. by apply split_no_sep_end, solid_no_nl.
  - change (Js.join Js.nl (s :: t :: ss)) with (s +:+ Js.nl +:+ Js.join Js.nl (t :: ss)).
    unfold Js.nl at 1. rewrite string_app_cons, string_app_nil_l.
    rewrite split_no_sep by by apply solid_no_nl.
    by rewrite IH.
Qed.

Lemma count_lines_log_text ss :
  ss ≠ [] → Forall solid ss → count_lines (log_text ss) = Z.of_nat (length ss).
Proof.
  intros Hne Hss. unfold count_lines, Js.trim.
  destruct ss as [|s ss]; [done|].
  assert (Js.trimStart (log_text (s :: ss)) = log_text (s :: ss)) as ->.
  { simpl. apply trimStart_solid. by inversion Hss. }
  rewrite trimEnd_log_text by done. by rewrite split_join_nl.
Qed.

(** ** Paths of an upload *)

Lemma removelast_snoc {A} (l : list A) (x : A) : removelast (l ++ [x]) = l.
Proof. apply removelast_last. Qed.

Lemma chunk_log_eq p : chunk_log p = tmp_dir p ++ [Path.basename p +:+ "_chunks.log"].
Proof. unfold chunk_log, tmp_dir, Path.join. by rewrite <-app_assoc. Qed.

Lemma dirname_chunk_log p : Path.dirname (chunk_log p) = tmp_dir p.
Proof. rewrite chunk_log_eq. apply removelast_snoc. Qed.

Lemma chunk_part_eq p i :
  chunk_part p i = tmp_dir p ++ [Path.name p +:+ ".part." +:+ Js.str i].
Proof. unfold chunk_part, Path.join. by rewrite dirname_chunk_log. Qed.

Lemma dirname_chunk_part p i : Path.dirname (chunk_part p i) = tmp_dir p.
Proof. rewrite chunk_part_eq. apply removelast_snoc. Qed.

Lemma dirname_tmp_dir p : Path.dirname (tmp_dir p) = Path.dirname p.
Proof. apply removelast_snoc. Qed.

Lemma last_char_app s t : t ≠ "" → last_char (s +:+ t) = last_char t.
Proof.
  intros Ht. induction s as [|a s IH]; [done|].
  rewrite string_app_cons. simpl. rewrite IH.
  destruct (s +:+ t) eqn:E; [|done].
  destruct s; [|done]. by rewrite string_app_nil_l in E.
Qed.

Lemma last_char_all f s :
  s ≠ "" → all_chars f s = true → ∃ a, last_char s = Some a ∧ f a = true.
Proof.
  induction s as [|a s IH]; [done|]. intros _ [Ha Hs]%andb_true_iff.
  destruct s as [|b s]; [by exists a|].
  destruct IH as (c & Hc & Hfc); [done|done|]. by exists c.
Qed.

Lemma chunk_part_ne_log p i : chunk_part p i ≠ chunk_log p.
Proof.
  rewrite chunk_part_eq, chunk_log_eq. intros [= H]%app_inv_head.
  destruct (str_chars i) as [Hc Hne].
  destruct (last_char_all _ _ Hne Hc) as (a & Ha & Hnum).
  assert (last_char (Path.name p +:+ ".part." +:+ Js.str i) = Some a) as H1.
  { by rewrite !last_char_app. }
  rewrite H in H1. rewrite last_char_app in H1 by done.
  simpl in H1. by simplify_eq.
Qed.

Lemma chunk_part_inj p i j : chunk_part p i = chunk_part p j → i = j.
Proof.
  rewrite !chunk_part_eq. intros [= H]%app_inv_head.
  apply String.app_inj in H. apply String.app_inj in H.
  by apply (inj pretty) in H.
Qed.

Lemma tmp_dir_nonempty p : tmp_dir p ≠ [].
Proof. unfold tmp_dir. by destruct (Path.dirname p). Qed.

Lemma chunk_log_nonempty p : chunk_log p ≠ [].
Proof. rewrite chunk_log_eq. by destruct (tmp_dir p). Qed.

Lemma chunk_part_nonempty p i : chunk_part p i ≠ [].
Proof. rewrite chunk_part_eq. by destruct (tmp_dir p). Qed.

Lemma length_dirname (p : list string) : p ≠ [] → length p = S (length (Path.dirname p)).
Proof.
  intros Hp. destruct (exists_last Hp) as (l & x & ->).
  unfold Path.dirname. rewrite removelast_snoc, length_app. simpl. lia.
Qed.

Lemma length_tmp_dir p : length (tmp_dir p) = S (length (Path.dirname p)).
Proof. unfold tmp_dir. rewrite length_app. simpl. lia. Qed.

Lemma string_length_app (s t : string) :
  String.length (s +:+ t) = (String.length s + String.length t)%nat.
Proof. induction s as [|a s IH]; simpl; [done|]. by rewrite IH. Qed.

Lemma target_ne_tmp_dir p : p ≠ tmp_dir p.
Proof.
  intros H. destruct (decide (p = [])) as [->|Hp].
  { by apply (tmp_dir_nonempty []). }
  destruct (exists_last Hp) as (l & x & ->).
  unfold tmp_dir, Path.dirname, Path.basename in H.
  rewrite removelast_snoc, last_last in H.
  apply app_inv_head in H. injection H as H.
  apply (f_equal String.length) in H. rewrite string_length_app in H. simpl in H. lia.
Qed.

Lemma target_ne_chunk_log p : p ≠ chunk_log p.
Proof.
  intros H. apply (f_equal length) in H.
  rewrite chunk_log_eq, length_app, length_tmp_dir in H. simpl in H.
  destruct (decide (p = [])) as [->|Hp]; [done|].
  rewrite (length_dirname p Hp) in H. lia.
Qed.

Lemma target_ne_chunk_part p i : p ≠ chunk_part p i.
Proof.
  intros H. apply (f_equal length) in H.
  rewrite chunk_part_eq, length_app, length_tmp_dir in H. simpl in H.
  destruct (decide (p = [])) as [->|Hp]; [done|].
  rewrite (length_dirname p Hp) in H. lia.
Qed.

Lemma tmp_dir_ne_chunk_log p : tmp_dir p ≠ chunk_log p.
Proof.
  rewrite chunk_log_eq. intros H. apply (f_equal length) in H.
  rewrite length_app in H. simpl in H. lia.
Qed.

Lemma tmp_dir_ne_chunk_part p i : tmp_dir p ≠ chunk_part p i.
Proof.
  rewrite chunk_part_eq. intros H. apply (f_equal length) in H.
  rewrite length_app in H. simpl in H. lia.
Qed.

Lemma dirname_ne_tmp_dir p : Path.dirname p ≠ tmp_dir p.
Proof.
  intros H. apply (f_equal length) in H. rewrite length_tmp_dir in H. lia.
Qed.

Create HintDb paths.
Hint Resolve chunk_part_ne_log target_ne_tmp_dir target_ne_chunk_log target_ne_chunk_part
  tmp_dir_ne_chunk_log tmp_dir_ne_chunk_part dirname_ne_tmp_dir tmp_dir_nonempty
  chunk_log_nonempty chunk_part_nonempty : paths.

Ltac paths_ne := solve [ auto with paths | apply not_eq_sym; auto with paths ].

(** ** The file system *)

Lemma lookup_nonempty (fs : gmap (list string) node) p : p ≠ [] → Fs.lookup fs p = fs !! p.
Proof. by destruct p. Qed.

Lemma mkdir_go_id (rest pre : list string) (fs : gmap (list string) node) :
  (∀ j, (0 < j ≤ length rest)%nat → fs !! (pre ++ take j rest) = Some Dir) →
  Fs.mkdir_go pre rest fs = (true, fs).
Proof.
  revert pre. induction rest as [|x rest IH]; intros pre H; [done|].
  pose proof (H 1%nat ltac:(simpl; lia)) as H1. simpl in H1. rewrite take_0 in H1.
  simpl. rewrite H1. apply IH.
  intros j Hj. rewrite <-app_assoc. apply (H (S j)). simpl. lia.
Qed.

Lemma mkdir_id fs p : dirs_ok fs p → Fs.mkdir p fs = (true, fs).
Proof. intros H. apply mkdir_go_id. intros j Hj. by apply H. Qed.

Lemma mkdir_go_spec (rest pre : list string) (fs : gmap (list string) node) :
  ((Fs.mkdir_go pre rest fs).1 = true →
     ∀ j, (0 < j ≤ length rest)%nat →
          (Fs.mkdir_go pre rest fs).2 !! (pre ++ take j rest) = Some Dir)
  ∧ (∀ q, (∀ j, (0 < j ≤ length rest)%nat → q ≠ pre ++ take j rest) →
          (Fs.mkdir_go pre rest fs).2 !! q = fs !! q)
  ∧ (∀ q n, fs !! q = Some n → (Fs.mkdir_go pre rest fs).2 !! q = Some n).
Proof.
  revert pre fs. induction rest as [|x rest IH]; intros pre fs.
  { simpl. split; [intros _ j Hj; lia|]. by split. }
  simpl. destruct (fs !! (pre ++ [x])) as [[d|]|] eqn:E; simpl.
  - split; [done|]. by split.
  - destruct (IH (pre ++ [x]) fs) as (Ha & Hb & Hc). split; [|split].
    + intros Hok [|j] Hj; [lia|]. destruct j as [|j].
      * simpl. by apply Hc.
      * change (pre ++ take (S (S j)) (x :: rest)) with (pre ++ [x] ++ take (S j) rest).
        rewrite (app_assoc pre [x]). apply Ha; [done|]. simpl in Hj. simpl. lia.
    + intros q Hq. apply Hb. intros j Hj. rewrite <-app_assoc. apply (Hq (S j)).
      simpl. lia.
    + done.
  - destruct (IH (pre ++ [x]) (<[pre ++ [x] := Dir]> fs)) as (Ha & Hb & Hc).
    split; [|split].
    + intros Hok [|j] Hj; [lia|]. destruct j as [|j].
      * simpl. apply Hc. by rewrite lookup_insert_eq.
      * change (pre ++ take (S (S j)) (x :: rest)) with (pre ++ [x] ++ take (S j) rest).
        rewrite (app_assoc pre [x]). apply Ha; [done|]. simpl in Hj. simpl. lia.
    + intros q Hq. rewrite Hb.
      * apply lookup_insert_ne. intros <-. by apply (Hq 1%nat); [simpl; lia|].
      * intros j Hj. rewrite <-app_assoc. apply (Hq (S j)). simpl. lia.
    + intros q n Hq. apply Hc. rewrite lookup_insert_ne; [done|].
      intros <-. by rewrite E in Hq.
Qed.

Lemma mkdir_dirs_ok fs p : (Fs.mkdir p fs).1 = true → dirs_ok (Fs.mkdir p fs).2 p.
Proof.
  intros H j Hj. destruct (mkdir_go_spec p [] fs) as (Ha & _). by apply Ha.
Qed.

Lemma mkdir_frame fs p q :
  (∀ j, (0 < j ≤ length p)%nat → q ≠ take j p) → (Fs.mkdir p fs).2 !! q = fs !! q.
Proof. intros H. destruct (mkdir_go_spec p [] fs) as (_ & Hb & _). by apply Hb. Qed.

Lemma mkdir_mono fs p q n : fs !! q = Some n → (Fs.mkdir p fs).2 !! q = Some n.
Proof. intros H. destruct (mkdir_go_spec p [] fs) as (_ & _ & Hc). by apply Hc. Qed.

Lemma dirs_ok_is_dir fs p : dirs_ok fs p → Fs.is_dir fs p = true.
Proof.
  intros H. unfold Fs.is_dir. destruct p as [|x p]; [done|].
  simpl. specialize (H (length (x :: p))). rewrite firstn_all in H.
  rewrite H; [done|simpl; lia].
Qed.

Lemma dirs_ok_self (fs : gmap (list string) node) p :
  p ≠ [] → dirs_ok fs p → fs !! p = Some Dir.
Proof.
  intros Hp H. specialize (H (length p)). rewrite firstn_all in H. apply H.
  destruct p; [done|simpl; lia].
Qed.

Lemma dirs_ok_dirname fs p : dirs_ok fs p → dirs_ok fs (Path.dirname p).
Proof.
  intros H. destruct (decide (p = [])) as [->|Hp]; [done|].
  destruct (exists_last Hp) as (l & x & ->).
  unfold Path.dirname. rewrite removelast_snoc. intros j Hj.
  specialize (H j). rewrite take_app_le in H by lia. apply H.
  rewrite length_app. simpl. lia.
Qed.

Lemma dirs_ok_insert fs p q n :
  (∀ j, (0 < j ≤ length p)%nat → q ≠ take j p) → dirs_ok fs p → dirs_ok (<[q := n]> fs) p.
Proof. intros Hq H j Hj. rewrite lookup_insert_ne; [by apply H|]. by apply Hq. Qed.

Lemma dirs_ok_delete fs p q :
  (∀ j, (0 < j ≤ length p)%nat → q ≠ take j p) → dirs_ok fs p → dirs_ok (delete q fs) p.
Proof. intros Hq H j Hj. rewrite lookup_delete_ne; [by apply H|]. by apply Hq. Qed.

Lemma longer_not_prefix (p q : list string) :
  (length p < length q)%nat → ∀ j, (0 < j ≤ length p)%nat → q ≠ take j p.
Proof. intros Hl j Hj ->. rewrite length_take in Hl. lia. Qed.

Lemma children_nil (fs : gmap (list string) node) p :
  (∀ q, Fs.is_child p q = true → fs !! q = None) → Fs.children fs p = [].
Proof.
  intros H. unfold Fs.children.
  destruct (List.filter (Fs.is_child p) (map fst (map_to_list fs))) as [|q l] eqn:E; [done|].
  assert (In q (List.filter (Fs.is_child p) (map fst (map_to_list fs)))) as Hin.
  { rewrite E. by left. }
  apply filter_In in Hin as [Hin Hq]. apply in_map_iff in Hin as ([q' n] & <- & Hin).
  apply list_elem_of_In, elem_of_map_to_list in Hin. simpl in *.
  rewrite (H _ Hq) in Hin. done.
Qed.

(** ** [Local.uploadData], step by step *)

Lemma utf8_ascii s :
  all_chars (λ a, (N_of_ascii a <? 128)%N) s = true → Crypto.utf8 s = s.
Proof.
  induction s as [|a s IH]; simpl; [done|].
  intros [Ha Hs]%andb_true_iff. by rewrite Ha, IH.
Qed.

Lemma num_char_ascii a : is_num_char a = true → (N_of_ascii a <? 128)%N = true.
Proof.
  unfold is_num_char, Js.is_digit.
  destruct (Ascii.eqb_spec a "-") as [->|_]; [done|].
  rewrite orb_false_r. intros [H1 H2]%andb_true_iff.
  apply N.leb_le in H2. apply N.ltb_lt. lia.
Qed.

Lemma utf8_line c : Crypto.utf8 (Js.str c +:+ Js.nl) = Js.str c +:+ Js.nl.
Proof.
  apply utf8_ascii. rewrite all_chars_app. simpl. rewrite andb_true_r.
  eapply all_chars_impl; [apply num_char_ascii|apply str_chars].
Qed.

(** Running the monad. *)

Lemma set_fs_set_fs a b w : set_fs a (set_fs b w) = set_fs a w.
Proof. done. Qed.

Lemma w_fs_set_fs a w : w_fs (set_fs a w) = a.
Proof. done. Qed.

Lemma w_fs_set_trace t w : w_fs (set_trace t w) = w_fs w.
Proof. done. Qed.

Lemma w_trace_set_fs a w : w_trace (set_fs a w) = w_trace w.
Proof. done. Qed.

Lemma w_trace_set_trace t w : w_trace (set_trace t w) = t.
Proof. done. Qed.

Lemma set_trace_set_fs t a w : set_trace t (set_fs a w) = set_fs a (set_trace t w).
Proof. done. Qed.

Lemma set_trace_set_trace t u w : set_trace t (set_trace u w) = set_trace t w.
Proof. done. Qed.

Lemma set_fs_same w : set_fs (w_fs w) w = w.
Proof. by destruct w. Qed.

Create Rewrite HintDb world.
Hint Rewrite set_fs_set_fs w_fs_set_fs w_fs_set_trace w_trace_set_fs w_trace_set_trace
  set_trace_set_fs set_trace_set_trace : world.

Lemma emit_run e w : emit e w = (Ok tt, set_trace (w_trace w ++ [e]) w).
Proof. done. Qed.

Lemma ret_run {A} (a : A) w : ret a w = (Ok a, w).
Proof. done. Qed.

Lemma throw_run {A} e w : @throw A e w = (Throw e, w).
Proof. done. Qed.

Lemma createDirectory_run this p w :
  Local_createDirectory this p w
  = (Ok (Fs.mkdir p (w_fs w)).1, set_fs (Fs.mkdir p (w_fs w)).2 w).
Proof.
  unfold Local_createDirectory, try_catch, bind, fs_mkdir, ret.
  by destruct (Fs.mkdir p (w_fs w)) as [[] ?].
Qed.

Lemma exists_run this p w :
  Local_exists this p w = (Ok (bool_decide (is_Some (Fs.lookup (w_fs w) p))), w).
Proof.
  unfold Local_exists, try_catch, bind, fs_stat, ret.
  destruct (Fs.lookup (w_fs w) p); [by rewrite bool_decide_true|].
  rewrite bool_decide_false; [done|]. by intros [].
Qed.

Lemma fs_update_ok op code w fs' :
  op (w_fs w) = Some fs' → fs_update op code w = (Ok tt, set_fs fs' w).
Proof. unfold fs_update. by intros ->. Qed.

Lemma fs_update_fail op code w :
  op (w_fs w) = None → fs_update op code w = (Throw code, w).
Proof. unfold fs_update. by intros ->. Qed.

Lemma fs_readFile_ok p w d :
  Fs.readFile p (w_fs w) = Some d → fs_readFile p w = (Ok d, w).
Proof. unfold fs_readFile. by intros ->. Qed.

Lemma appendFile_log fs p (L line : string) :
  Fs.is_dir fs (tmp_dir p) = true →
  log_content (fs !! chunk_log p) = Some L →
  Fs.appendFile (chunk_log p) line fs = Some (<[chunk_log p := File (L +:+ line)]> fs).
Proof.
  intros Hdir Hlog. unfold Fs.appendFile. rewrite dirname_chunk_log, Hdir.
  rewrite lookup_nonempty by apply chunk_log_nonempty.
  destruct (fs !! chunk_log p) as [[d|]|]; simplify_eq/=; done.
Qed.

Lemma is_dir_insert_file fs q d p :
  Fs.is_dir fs p = true → Fs.is_dir (<[q := File d]> fs) p = true ∨ q = p.
Proof.
  intros H. destruct (decide (q = p)) as [->|Hne]; [by right|left].
  unfold Fs.is_dir, Fs.lookup in *. destruct p; [done|]. by rewrite lookup_insert_ne.
Qed.

Lemma Local_uploadData_multi this data p ct c chunks md w L :
  chunks ≠ 1 →
  Fs.is_dir (prepared (w_fs w) p) (tmp_dir p) = true →
  log_content (prepared (w_fs w) p !! chunk_log p) = Some L →
  prepared (w_fs w) p !! chunk_part p c ≠ Some Dir →
  let L' := L +:+ Js.str c +:+ Js.nl in
  let w1 :=
    set_fs (<[chunk_part p c := File (to_buffer data)]>
              (<[chunk_log p := File L']> (prepared (w_fs w) p)))
      (set_trace (w_trace w ++ [EvUploadData (OfLocal this) data (Path.show p) ct c chunks md]) w) in
  Local_uploadData this data p ct c chunks md w =
    if chunks =? count_lines L' then
      match Local_joinChunks this p chunks w1 with
      | (Ok _, w2) => (Ok (count_lines L'), w2)
      | (Throw _, w2) => (Throw ("Failed to write chunk " +:+ Js.str c), w2)
      end
    else (Ok (count_lines L'), w1).
Proof.
  intros Hch Hdir Hlog Hpart L' w1.
  unfold Local_uploadData, bind, try_catch. cbv beta.
  rewrite emit_run. cbv beta iota.
  rewrite createDirectory_run. cbv beta iota.
  apply Z.eqb_neq in Hch. rewrite Hch.
  rewrite dirname_chunk_log.
  rewrite createDirectory_run. cbv beta iota.
  autorewrite with world. fold (prepared (w_fs w) p).
  unfold fs_appendFile.
  erewrite fs_update_ok; last first.
  { autorewrite with world. by apply appendFile_log. }
  cbv beta iota. autorewrite with world.
  erewrite fs_readFile_ok; last first.
  { autorewrite with world. unfold Fs.readFile.
    rewrite lookup_nonempty by apply chunk_log_nonempty. by rewrite lookup_insert_eq. }
  cbv beta iota. unfold fs_writeFile.
  erewrite fs_update_ok; last first.
  { autorewrite with world. unfold Fs.writeFile. rewrite dirname_chunk_part.
    destruct (is_dir_insert_file _ (chunk_log p) (L +:+ to_buffer (Text (Js.str c +:+ Js.nl))) _ Hdir) as [->|H].
    2:{ by destruct (tmp_dir_ne_chunk_log p). }
    rewrite lookup_nonempty by apply chunk_part_nonempty.
    rewrite lookup_insert_ne by (intros H; symmetry in H; by apply chunk_part_ne_log in H).
    destruct (prepared (w_fs w) p !! chunk_part p c) as [[?|]|]; done. }
  cbv beta iota. autorewrite with world.
  change (to_buffer (Text (Js.str c +:+ Js.nl))) with (Crypto.utf8 (Js.str c +:+ Js.nl)).
  rewrite utf8_line. fold L'. fold w1.
  destruct (chunks =? count_lines L'); [|done].
  by destruct (Local_joinChunks this p chunks w1) as [[?|?] ?].
Qed.

(** ** [joinChunks] *)

Lemma joined_cons P i n : 0 < n → joined P i n = P i +:+ joined P (i + 1) (n - 1).
Proof.
  intros Hn. unfold joined. rewrite (seqZ_cons i n) by done.
  simpl. by rewrite <-Z.add_1_r, <-Z.sub_1_r.
Qed.

Lemma joined_nil P i : joined P i 0 = "".
Proof. done. Qed.

Lemma join_part_run p i w d old :
  Fs.is_dir (w_fs w) (Path.dirname p) = true →
  p ≠ [] →
  log_content (w_fs w !! p) = Some old →
  w_fs w !! chunk_part p i = Some (File d) →
  join_part p i w
  = (Ok tt, set_fs (delete (chunk_part p i) (<[p := File (old +:+ d)]> (w_fs w))) w).
Proof.
  intros Hdir Hp Hold Hpart. unfold join_part, try_catch, bind. cbv beta.
  erewrite fs_readFile_ok; last first.
  { unfold Fs.readFile. rewrite lookup_nonempty by apply chunk_part_nonempty.
    by rewrite Hpart. }
  cbv beta iota. unfold fs_appendFile, fs_unlink.
  erewrite fs_update_ok; last first.
  { unfold Fs.appendFile. rewrite Hdir, lookup_nonempty by done.
    destruct (w_fs w !! p) as [[?|]|]; simplify_eq/=; done. }
  cbv beta iota.
  erewrite fs_update_ok; last first.
  { autorewrite with world. unfold Fs.unlink.
    rewrite lookup_nonempty by apply chunk_part_nonempty.
    rewrite lookup_insert_ne by apply target_ne_chunk_part.
    by rewrite Hpart. }
  by autorewrite with world.
Qed.

Lemma dirname_lookup_frame (fs : gmap (list string) node) p i n :
  p ≠ [] →
  Fs.is_dir fs (Path.dirname p) = true →
  Fs.is_dir (delete (chunk_part p i) (<[p := n]> fs)) (Path.dirname p) = true.
Proof.
  intros Hp. unfold Fs.is_dir, Fs.lookup.
  destruct (Path.dirname p) as [|x d] eqn:Ed; [done|].
  rewrite lookup_delete_ne, lookup_insert_ne; [done|..].
  - intros H. apply (f_equal length) in H. rewrite (length_dirname p Hp), Ed in H. lia.
  - intros H. apply (f_equal length) in H.
    rewrite chunk_part_eq, length_app, length_tmp_dir, Ed in H. simpl in H. lia.
Qed.

Lemma join_loop p P n : ∀ i w old,
  Fs.is_dir (w_fs w) (Path.dirname p) = true →
  p ≠ [] →
  log_content (w_fs w !! p) = Some old →
  (∀ j, i ≤ j < i + Z.of_nat n → w_fs w !! chunk_part p j = Some (File (P j))) →
  ∃ fs',
    for_range n i (join_part p) w = (Ok tt, set_fs fs' w)
    ∧ fs' !! p = (if decide (n = 0%nat) then w_fs w !! p
                  else Some (File (old +:+ joined P i (Z.of_nat n))))
    ∧ (∀ j, i ≤ j < i + Z.of_nat n → fs' !! chunk_part p j = None)
    ∧ (∀ q, q ≠ p → (∀ j, i ≤ j < i + Z.of_nat n → q ≠ chunk_part p j) →
            fs' !! q = w_fs w !! q).
Proof.
  induction n as [|n IH]; intros i w old Hdir Hp Hold Hparts.
  { exists (w_fs w). simpl. rewrite ret_run, set_fs_same.
    split; [done|]. split; [done|]. split; [intros; lia|done]. }
  simpl for_range. unfold bind.
  erewrite join_part_run; [|done|done|exact Hold|apply Hparts; lia].
  cbv beta iota.
  set (fs1 := delete (chunk_part p i) (<[p := File (old +:+ P i)]> (w_fs w))).
  assert (fs1 !! p = Some (File (old +:+ P i))) as Hp1.
  { unfold fs1.
    rewrite lookup_delete_ne by (by intros H; symmetry in H; apply target_ne_chunk_part in H).
    by rewrite lookup_insert_eq. }
  destruct (IH (i + 1) (set_fs fs1 w) (old +:+ P i)) as (fs' & Hrun & Hc & Hnone & Hframe).
  - autorewrite with world. by apply dirname_lookup_frame.
  - done.
  - autorewrite with world. by rewrite Hp1.
  - intros j Hj. autorewrite with world. unfold fs1.
    rewrite lookup_delete_ne by (intros H; apply chunk_part_inj in H; lia).
    rewrite lookup_insert_ne by apply target_ne_chunk_part.
    apply Hparts. lia.
  - exists fs'. rewrite Hrun. autorewrite with world. split; [done|].
    split; [|split].
    + rewrite Hc. rewrite (decide_False (P := S n = 0%nat)) by done.
      rewrite (joined_cons P i (Z.of_nat (S n))) by lia.
      replace (Z.of_nat (S n) - 1) with (Z.of_nat n) by lia.
      autorewrite with world.
      destruct (decide (n = 0%nat)) as [->|_].
      * by rewrite Hp1, joined_nil, string_app_nil_r.
      * by rewrite string_app_assoc.
    + intros j Hj. destruct (decide (j = i)) as [->|Hne].
      * rewrite Hframe; autorewrite with world.
        -- unfold fs1. by rewrite lookup_delete_eq.
        -- by intros H; symmetry in H; apply target_ne_chunk_part in H.
        -- intros j' Hj' H. apply chunk_part_inj in H. lia.
      * apply Hnone. lia.
    + intros q Hq Hqp. rewrite Hframe; autorewrite with world.
      * unfold fs1. rewrite lookup_delete_ne by (intros <-; by apply (Hqp i); [lia|]).
        by rewrite lookup_insert_ne.
      * done.
      * intros j Hj. apply Hqp. lia.
Qed.

Lemma is_child_tmp_part p i : Fs.is_child (tmp_dir p) (chunk_part p i) = true.
Proof.
  unfold Fs.is_child. apply bool_decide_eq_true. split; [apply chunk_part_nonempty|].
  apply dirname_chunk_part.
Qed.

Lemma is_child_tmp_log p : Fs.is_child (tmp_dir p) (chunk_log p) = true.
Proof.
  unfold Fs.is_child. apply bool_decide_eq_true. split; [apply chunk_log_nonempty|].
  apply dirname_chunk_log.
Qed.

Lemma not_child_target p : Fs.is_child (tmp_dir p) p = false.
Proof.
  unfold Fs.is_child. apply bool_decide_eq_false. intros [_ H].
  by apply (dirname_ne_tmp_dir p).
Qed.

Lemma in_parts p k q :
  q ∈ map (chunk_part p) (seqZ 1 k) ↔ ∃ j, 1 ≤ j ≤ k ∧ q = chunk_part p j.
Proof.
  rewrite list_elem_of_In, in_map_iff. split.
  - intros (j & <- & Hj). apply list_elem_of_In, elem_of_seqZ in Hj. exists j. split; [lia|done].
  - intros (j & Hj & ->). exists j. split; [done|].
    apply list_elem_of_In, elem_of_seqZ. lia.
Qed.

Lemma joinChunks_ok this p k P w old L :
  1 ≤ k →
  p ≠ [] →
  Fs.is_dir (w_fs w) (Path.dirname p) = true →
  log_content (w_fs w !! p) = Some old →
  (∀ j, 1 ≤ j ≤ k → w_fs w !! chunk_part p j = Some (File (P j))) →
  w_fs w !! chunk_log p = Some (File L) →
  w_fs w !! tmp_dir p = Some Dir →
  (∀ q, Fs.is_child (tmp_dir p) q = true → w_fs w !! q ≠ None →
        q = chunk_log p ∨ q ∈ map (chunk_part p) (seqZ 1 k)) →
  ∃ fs',
    Local_joinChunks this p k w
    = (Ok tt, set_fs fs' (set_trace (w_trace w ++ [EvJoinChunks (Path.show p) k]) w))
    ∧ fs' !! p = Some (File (old +:+ joined P 1 k))
    ∧ (∀ q, q ≠ p →
            fs' !! q = if decide (session_paths p k q) then None else w_fs w !! q).
Proof.
  intros Hk Hp Hdir Hold Hparts Hlog Htmp Hchildren.
  unfold Local_joinChunks, bind. rewrite emit_run. cbv beta iota.
  set (w0 := set_trace _ w).
  destruct (join_loop p P (Z.to_nat k) 1 w0 old) as (fs1 & Hrun & Hc & Hnone & Hframe);
    [done|done|done|..].
  { intros j Hj. apply Hparts. lia. }
  rewrite Hrun. cbv beta iota.
  rewrite decide_False in Hc by lia. rewrite Z2Nat.id in Hc by lia.
  assert (∀ q, q ≠ p → q ∉ map (chunk_part p) (seqZ 1 k) → fs1 !! q = w_fs w !! q) as Hframe'.
  { intros q Hq Hnp. apply Hframe; [done|]. intros j Hj ->. apply Hnp, in_parts.
    exists j. split; [lia|done]. }
  assert (∀ q, q ∈ map (chunk_part p) (seqZ 1 k) → fs1 !! q = None) as Hnone'.
  { intros q (j & Hj & ->)%in_parts. apply Hnone. lia. }
  assert (chunk_log p ∉ map (chunk_part p) (seqZ 1 k)) as Hlognp.
  { intros (j & _ & H)%in_parts. symmetry in H. by apply chunk_part_ne_log in H. }
  assert (tmp_dir p ∉ map (chunk_part p) (seqZ 1 k)) as Htmpnp.
  { intros (j & _ & H)%in_parts. by apply tmp_dir_ne_chunk_part in H. }
  unfold fs_unlink. erewrite fs_update_ok; last first.
  { autorewrite with world. unfold Fs.unlink.
    rewrite (lookup_nonempty fs1 (chunk_log p)) by paths_ne.
    rewrite (Hframe' (chunk_log p)) by (done || paths_ne).
    by rewrite Hlog. }
  cbv beta iota. rewrite dirname_chunk_log. unfold fs_rmdir.
  erewrite fs_update_ok; last first.
  { autorewrite with world. unfold Fs.rmdir.
    pose proof (tmp_dir_nonempty p) as Hne. destruct (tmp_dir p) as [|x t] eqn:Et; [done|].
    rewrite <-Et in *.
    rewrite lookup_delete_ne by paths_ne.
    rewrite Hframe' by (done || paths_ne).
    subst w0. autorewrite with world. rewrite Htmp.
    rewrite children_nil; [done|].
    intros q Hq. destruct (decide (q = chunk_log p)) as [->|Hql].
    { by rewrite lookup_delete_eq. }
    rewrite lookup_delete_ne by done.
    destruct (decide (q ∈ map (chunk_part p) (seqZ 1 k))) as [Hin|Hnin].
    { by apply Hnone'. }
    assert (q ≠ p) as Hqp.
    { intros ->. by rewrite not_child_target in Hq. }
    rewrite Hframe' by done. autorewrite with world.
    destruct (w_fs w !! q) eqn:E; [|done].
    destruct (Hchildren q Hq) as [?|?]; [by rewrite E|done..]. }
  autorewrite with world. eexists. split; [done|]. split.
  - by rewrite !lookup_delete_ne by paths_ne.
  - intros q Hq. unfold session_paths. case_decide as Hs.
    + destruct Hs as [->|[->|Hin]].
      * rewrite lookup_delete_ne by paths_ne.
        by rewrite lookup_delete_eq.
      * by rewrite lookup_delete_eq.
      * rewrite !lookup_delete_ne; [by apply Hnone'|..]; intros E; by rewrite <-E in Hin.
    + rewrite !lookup_delete_ne by (intros E; apply Hs; auto).
      rewrite Hframe'; [by subst w0|done|]. intros ?. apply Hs. auto.
Qed.

(** ** Sessions of [Local.uploadData] *)

Lemma mkdir_go_app (r1 r2 pre : list string) (fs : gmap (list string) node) :
  Fs.mkdir_go pre (r1 ++ r2) fs
  = if (Fs.mkdir_go pre r1 fs).1
    then Fs.mkdir_go (pre ++ r1) r2 (Fs.mkdir_go pre r1 fs).2
    else (false, (Fs.mkdir_go pre r1 fs).2).
Proof.
  revert pre fs. induction r1 as [|x r1 IH]; intros pre fs.
  { simpl. by rewrite app_nil_r. }
  simpl. destruct (fs !! (pre ++ [x])) as [[d|]|]; simpl; [done|..];
    rewrite IH, <-app_assoc; done.
Qed.

Lemma prepared_id fs p : dirs_ok fs (tmp_dir p) → prepared fs p = fs.
Proof.
  intros H. unfold prepared. rewrite (mkdir_id fs (Path.dirname p)).
  - simpl. by rewrite mkdir_id.
  - rewrite <-(dirname_tmp_dir p). by apply dirs_ok_dirname.
Qed.

Lemma prepared_eq fs p :
  (Fs.mkdir (tmp_dir p) fs).1 = true →
  prepared fs p = (Fs.mkdir (tmp_dir p) fs).2 ∧ (Fs.mkdir (Path.dirname p) fs).1 = true.
Proof.
  unfold prepared, Fs.mkdir, tmp_dir. rewrite !mkdir_go_app. simpl app.
  destruct (Fs.mkdir_go [] (Path.dirname p) fs) as [b fsd] eqn:E. simpl.
  destruct b; [|done]. intros H. split; [|done].
  assert (dirs_ok fsd (Path.dirname p)) as Hok.
  { pose proof (mkdir_dirs_ok fs (Path.dirname p)) as H1. unfold Fs.mkdir in H1.
    rewrite E in H1. by apply H1. }
  apply mkdir_id in Hok. unfold Fs.mkdir in Hok. by rewrite Hok.
Qed.

Lemma children_nil_inv (fs : gmap (list string) node) p q :
  Fs.children fs p = [] → Fs.is_child p q = true → fs !! q = None.
Proof.
  intros H Hq. destruct (fs !! q) as [n|] eqn:E; [|done].
  assert (In q (Fs.children fs p)) as Hin.
  { unfold Fs.children. apply filter_In. split; [|done].
    apply in_map_iff. exists (q, n). split; [done|].
    by apply list_elem_of_In, elem_of_map_to_list. }
  by rewrite H in Hin.
Qed.

Section local_session.
Variables (this : LocalDevice) (p : list string) (ct : string) (k : Z) (md : nat).
Variables (P : Z → Data) (fsB : gmap (list string) node) (old : string).
Local Abbreviation SInv := (session_inv p P fsB).
Hypothesis Hk : 2 ≤ k.
Hypothesis Hp : p ≠ [].
Hypothesis HB1 : dirs_ok fsB (tmp_dir p).
Hypothesis HB2 : ∀ q, Fs.is_child (tmp_dir p) q = true → fsB !! q = None.
Hypothesis HB3 : log_content (fsB !! p) = Some old.

Lemma short_not_part (q : list string) (l : list Z) :
  (length q ≤ length (tmp_dir p))%nat → q ∉ map (chunk_part p) l.
Proof.
  intros Hl Hin. apply list_elem_of_In, in_map_iff in Hin as (c & <- & _).
  rewrite chunk_part_eq, length_app in Hl. simpl in Hl. lia.
Qed.

Lemma short_not_log (q : list string) :
  (length q ≤ length (tmp_dir p))%nat → q ≠ chunk_log p.
Proof. intros Hl ->. rewrite chunk_log_eq, length_app in Hl. simpl in Hl. lia. Qed.

Lemma SInv_dirs_ok arrived F : SInv arrived F → dirs_ok F (tmp_dir p).
Proof.
  intros (_ & _ & Hf) j Hj. rewrite Hf; [by apply HB1|..].
  - apply short_not_log. rewrite length_take. lia.
  - apply short_not_part. rewrite length_take. lia.
Qed.

Lemma SInv_short arrived F q :
  SInv arrived F → (length q ≤ length (tmp_dir p))%nat → F !! q = fsB !! q.
Proof.
  intros (_ & _ & Hf) Hl. apply Hf; [by apply short_not_log|by apply short_not_part].
Qed.

Lemma SInv_base : SInv [] fsB.
Proof.
  split; [|split].
  - rewrite HB2; [done|apply is_child_tmp_log].
  - intros c Hc. by apply elem_of_nil in Hc.
  - done.
Qed.

Lemma SInv_step arrived F c data :
  SInv arrived F →
  (∀ c', c' ∈ arrived → c' ≠ c) →
  to_buffer data = to_buffer (P c) →
  SInv (arrived ++ [c])
    (<[chunk_part p c := File (to_buffer data)]>
       (<[chunk_log p := File (log_text (map Js.str arrived) +:+ Js.str c +:+ Js.nl)]> F)).
Proof.
  intros (H1 & H2 & H3) Hfresh Hdata. split; [|split].
  - rewrite lookup_insert_ne by paths_ne. rewrite lookup_insert_eq. simpl.
    rewrite map_app, log_text_app. simpl. by rewrite string_app_nil_r.
  - intros c' [Hc'| ->%list_elem_of_singleton]%elem_of_app.
    + rewrite lookup_insert_ne by (intros H%chunk_part_inj; by apply (Hfresh c')).
      rewrite lookup_insert_ne by paths_ne. by apply H2.
    + by rewrite lookup_insert_eq, Hdata.
  - intros q Hq Hnin. rewrite map_app in Hnin. apply not_elem_of_app in Hnin as [Hn1 Hn2].
    rewrite lookup_insert_ne by (intros <-; apply Hn2; simpl; left).
    rewrite lookup_insert_ne by done. by apply H3.
Qed.

Lemma upload_all_local_cons c rest w :
  upload_all (OfLocal this) p ct k md P (c :: rest) w
  = match Local_uploadData this (P c) p ct c k md w with
    | (Ok n, w1) =>
        match upload_all (OfLocal this) p ct k md P rest w1 with
        | (Ok ns, w2) => (Ok (n :: ns), w2)
        | (Throw e, w2) => (Throw e, w2)
        end
    | (Throw e, w1) => (Throw e, w1)
    end.
Proof. done. Qed.

Lemma local_session order : ∀ arrived w,
  SInv arrived (prepared (w_fs w) p) →
  NoDup (arrived ++ order) →
  arrived ++ order ≡ₚ seqZ 1 k →
  order ≠ [] →
  ∃ w',
    upload_all (OfLocal this) p ct k md P order w
    = (Ok (seqZ (Z.of_nat (length arrived) + 1) (Z.of_nat (length order))), w')
    ∧ w_fs w' !! p = Some (File (old +:+ joined (λ j, to_buffer (P j)) 1 k))
    ∧ (∀ q, q ≠ p →
            w_fs w' !! q = if decide (session_paths p k q) then None else fsB !! q).
Proof.
  induction order as [|c rest IH]; intros arrived w Hinv Hnd Hperm Hne; [done|].
  clear Hne. set (F := prepared (w_fs w) p) in *.
  pose proof (SInv_dirs_ok _ _ Hinv) as Hok.
  assert (Z.of_nat (length arrived) + Z.of_nat (length (c :: rest)) = k) as Hlen.
  { apply Permutation_length in Hperm. rewrite length_app, length_seqZ in Hperm. lia. }
  assert (∀ c', c' ∈ arrived → c' ≠ c) as Hfresh.
  { intros c' Hc' ->. apply NoDup_app in Hnd as (_ & Hd & _). apply (Hd c Hc'). left. }
  destruct Hinv as (H1 & H2 & H3).
  assert (F !! chunk_part p c = None) as Hpc.
  { rewrite H3; [apply HB2, is_child_tmp_part|paths_ne|].
    intros Hin. apply list_elem_of_In, in_map_iff in Hin as (c' & E & Hc').
    apply chunk_part_inj in E. subst c'. apply list_elem_of_In in Hc'.
    by apply (Hfresh c Hc'). }
  set (L' := log_text (map Js.str arrived) +:+ Js.str c +:+ Js.nl).
  assert (count_lines L' = Z.of_nat (length arrived) + 1) as Hcount.
  { unfold L'. replace (log_text (map Js.str arrived) +:+ Js.str c +:+ Js.nl)
      with (log_text (map Js.str (arrived ++ [c]))).
    - rewrite count_lines_log_text.
      + rewrite length_map, length_app. simpl. lia.
      + by destruct arrived.
      + apply Forall_forall. intros s (c' & <- & _)%list_elem_of_In%in_map_iff.
        apply str_solid.
    - rewrite map_app, log_text_app. simpl. by rewrite string_app_nil_r. }
  rewrite upload_all_local_cons.
  rewrite (Local_uploadData_multi this (P c) p ct c k md w (log_text (map Js.str arrived)));
    [|lia|by apply dirs_ok_is_dir|done|by fold F; rewrite Hpc].
  fold F. fold L'. rewrite Hcount.
  set (w1 := set_fs _ (set_trace _ w)).
  assert (SInv (arrived ++ [c]) (w_fs w1)) as Hinv1.
  { unfold w1. autorewrite with world. by apply SInv_step. }
  assert (∀ j, j ∈ arrived ++ c :: rest ↔ 1 ≤ j ≤ k) as Hmem.
  { intros j. rewrite Hperm, elem_of_seqZ. lia. }
  destruct rest as [|c2 rest].
  - (* the last chunk: the join *)
    simpl in Hlen. assert ((k =? Z.of_nat (length arrived) + 1) = true) as -> by lia.
    destruct Hinv1 as (I1 & I2 & I3).
    destruct (joinChunks_ok this p k (λ j, to_buffer (P j)) w1 old L')
      as (fs' & Hjoin & Htgt & Hrest).
    + lia.
    + done.
    + unfold Fs.is_dir, Fs.lookup. destruct (Path.dirname p) as [|x d] eqn:Ed; [done|].
      rewrite <-Ed. rewrite I3.
      * pose proof (dirs_ok_dirname _ _ HB1) as Hd. rewrite dirname_tmp_dir in Hd.
        specialize (Hd (length (Path.dirname p))). rewrite firstn_all in Hd.
        rewrite Hd; [done|]. rewrite Ed. simpl. lia.
      * apply short_not_log. rewrite length_tmp_dir. lia.
      * apply short_not_part. rewrite length_tmp_dir. lia.
    + rewrite I3; [done|paths_ne|]. apply short_not_part.
      rewrite length_tmp_dir, (length_dirname p Hp). lia.
    + intros j Hj. apply I2, Hmem. lia.
    + unfold w1. autorewrite with world. rewrite lookup_insert_ne by paths_ne.
      by rewrite lookup_insert_eq.
    + rewrite I3; [|by apply short_not_log|by apply short_not_part].
      apply dirs_ok_self; [paths_ne|done].
    + intros q Hq Hsome. destruct (decide (q = chunk_log p)) as [|Hql]; [by left|right].
      destruct (decide (q ∈ map (chunk_part p) (arrived ++ [c]))) as [Hin|Hnin].
      * apply list_elem_of_In, in_map_iff in Hin as (c' & <- & Hc').
        apply in_parts. exists c'. split; [|done].
        apply list_elem_of_In, Hmem in Hc'. lia.
      * rewrite I3 in Hsome by done. by rewrite HB2 in Hsome.
    + rewrite Hjoin. cbv beta iota. simpl upload_all. rewrite ret_run.
      eexists. split; [reflexivity|]. autorewrite with world. split; [done|].
      intros q Hq. rewrite Hrest by done. case_decide as Hs; [done|].
      apply I3.
      * intros ->. apply Hs. by left.
      * intros Hin. apply Hs. right. right.
        apply list_elem_of_In, in_map_iff in Hin as (c' & <- & Hc').
        apply in_parts. exists c'. split; [|done].
        apply list_elem_of_In, Hmem in Hc'. lia.
  - (* more chunks follow *)
    assert ((k =? Z.of_nat (length arrived) + 1) = false) as ->.
    { simpl in Hlen. lia. }
    cbv beta iota.
    destruct (IH (arrived ++ [c]) w1) as (w' & Hrun & Htgt & Hrest).
    + rewrite prepared_id; [done|]. by eapply SInv_dirs_ok.
    + by rewrite <-app_assoc.
    + by rewrite <-app_assoc.
    + done.
    + rewrite Hrun.
      exists w'. split; [|done]. f_equal. f_equal.
      rewrite length_app. simpl length.
      rewrite (seqZ_cons (Z.of_nat (length arrived) + 1)) by lia.
      f_equal. f_equal; lia.
Qed.
End local_session.

(** ** Requests leave the file system, the heap and the call log alone *)

Lemma network_only_ret {A} (a : A) : network_only (ret a).
Proof. by intros w. Qed.

Lemma network_only_throw {A} e : network_only (@throw A e).
Proof. by intros w. Qed.

Lemma network_only_lift {A} (r : result A) : network_only (lift r).
Proof. by intros w. Qed.

Lemma network_only_bind {A B} (m : M A) (k : A → M B) :
  network_only m → (∀ a, network_only (k a)) → network_only (bind m k).
Proof.
  intros Hm Hk w. unfold bind. specialize (Hm w).
  destruct (m w) as [[a|e] w1]; simpl in *; [|done].
  destruct (Hk a w1) as (? & ? & ?). destruct Hm as (? & ? & ?).
  repeat split; congruence.
Qed.

Lemma network_only_try_catch {A} (m : M A) (h : string → M A) :
  network_only m → (∀ e, network_only (h e)) → network_only (try_catch m h).
Proof.
  intros Hm Hh w. unfold try_catch. specialize (Hm w).
  destruct (m w) as [[a|e] w1]; simpl in *; [done|].
  destruct (Hh e w1) as (? & ? & ?). destruct Hm as (? & ? & ?).
  repeat split; congruence.
Qed.

Lemma network_only_s3_this this : network_only (s3_this this).
Proof. intros w. unfold s3_this. by destruct (w_s3 w !! this). Qed.

Lemma network_only_s3_update this f : network_only (s3_update this f).
Proof. intros w. unfold s3_update. by destruct (w_s3 w !! this). Qed.

Lemma network_only_next_reply : network_only next_reply.
Proof. intros w. unfold next_reply. by destruct (w_net w). Qed.

Lemma network_only_send q : network_only (send q).
Proof. by intros w. Qed.

Create HintDb net.
Hint Resolve network_only_ret network_only_throw network_only_lift network_only_s3_this
  network_only_s3_update network_only_next_reply network_only_send : net.

Ltac net_step :=
  first
    [ apply network_only_bind; [|intros ?]
    | apply network_only_try_catch; [|intros ?]
    | progress (unfold set_header, delete_header, set_amzHeader, delete_amzHeader)
    | match goal with |- network_only (match ?x with _ => _ end) => destruct x end
    | match goal with |- network_only (if ?x then _ else _) => destruct x end
    | solve [auto with net] ].

Lemma network_only_call this method uri data parameters decode :
  network_only (S3_call this method uri data parameters decode).
Proof. unfold S3_call. repeat net_step. Qed.
Hint Resolve network_only_call : net.

Lemma network_only_getInfo this path : network_only (S3_getInfo this path).
Proof. unfold S3_getInfo. repeat net_step. Qed.

Lemma network_only_delete this path recursive : network_only (S3_delete this path recursive).
Proof. unfold S3_delete. repeat net_step. Qed.

Lemma network_only_abort this path extra : network_only (S3_abort this path extra).
Proof. unfold S3_abort. repeat net_step. Qed.

Lemma network_only_create this path ct : network_only (S3_createMultipartUpload this path ct).
Proof. unfold S3_createMultipartUpload. repeat net_step. Qed.

Lemma network_only_uploadPart this data path ct c uploadId :
  network_only (S3_uploadPart this data path ct c uploadId).
Proof. unfold S3_uploadPart. repeat net_step. Qed.
Hint Resolve network_only_getInfo network_only_delete network_only_abort network_only_create
  network_only_uploadPart : net.

(** ** [S3.uploadData], case by case *)

Lemma md_read_run l w : md_read l w = (Ok (md_at w l), w).
Proof. done. Qed.

Lemma md_write_run l md w : md_write l md w = (Ok tt, set_heap (<[l := md]> (w_heap w)) w).
Proof. done. Qed.

Lemma md_at_set_heap l md w : md_at (set_heap (<[l := md]> (w_heap w)) w) l = md.
Proof. unfold md_at. simpl. by rewrite lookup_insert_eq. Qed.

Lemma run_network_only {A} (m : M A) w :
  network_only m →
  ∃ r w', m w = (r, w') ∧ w_fs w' = w_fs w ∧ w_heap w' = w_heap w ∧ w_trace w' = w_trace w.
Proof. intros H. destruct (H w) as (? & ? & ?). exists (m w).1, (m w).2. by destruct (m w). Qed.

Lemma md_at_heap w w' l : w_heap w' = w_heap w → md_at w' l = md_at w l.
Proof. unfold md_at. by intros ->. Qed.

Lemma S3_complete_run this path uploadId parts w :
  ∃ r w', S3_completeMultipartUpload this path uploadId parts w = (r, w')
          ∧ w_fs w' = w_fs w ∧ w_heap w' = w_heap w
          ∧ w_trace w' = w_trace w ++ [EvComplete this path uploadId parts].
Proof.
  unfold S3_completeMultipartUpload. unfold bind at 1. rewrite emit_run. cbv beta iota.
  match goal with |- ∃ r w', ?m ?w0 = _ ∧ _ =>
    destruct (run_network_only m w0) as (r & w' & Hrun & H1 & H2 & H3) end.
  { repeat net_step. }
  exists r, w'. by rewrite Hrun.
Qed.

Lemma S3_uploadData_multi this data path ct c chunks md w :
  (c =? 1) && (chunks =? 1) = false →
  ∀ r w', S3_uploadData this data path ct c chunks md w = (r, w') →
          upload_outcome this data path ct c chunks md w r w'.
Proof.
  intros Hmode r w'. unfold S3_uploadData. unfold bind at 1. rewrite emit_run. cbv beta iota.
  rewrite Hmode. unfold bind at 1. rewrite md_read_run. cbv beta iota.
  set (w0 := set_trace _ w).
  set (ev := EvUploadData (OfS3 this) data path ct c chunks md).
  assert (md_at w0 md = md_at w md) as Hmd0 by done.
  (* the upload id *)
  unfold bind at 1.
  assert (∃ r1 w1,
    (match md_uploadId (md_at w0 md) with
     | Some (String a id) => ret (Some (String a id))
     | _ =>
         let* uploadId := S3_createMultipartUpload this path ct in
         let* md0 := md_read md in
         do* md_write md (with_uploadId uploadId md0) in ret uploadId
     end) w0 = (r1, w1)
    ∧ w_trace w1 = w_trace w0
    ∧ md_parts (md_at w1 md) = md_parts (md_at w md)
    ∧ md_chunks (md_at w1 md) = md_chunks (md_at w md)
    ∧ (∀ u, r1 = Ok u → md_uploadId (md_at w1 md) = u))
    as (r1 & w1 & Hrun1 & Ht1 & Hp1 & Hc1 & Hu1).
  { rewrite Hmd0. destruct (md_uploadId (md_at w md)) as [[|a id]|] eqn:Eu.
    2:{ eexists _, _. split; [done|]. rewrite Hmd0. repeat split; try done.
        intros u [= <-]. done. }
    all: unfold bind at 1;
      destruct (run_network_only (S3_createMultipartUpload this path ct) w0)
        as (rc & wc & Hrun & _ & Hh & Ht); [auto with net|];
      rewrite Hrun; destruct rc as [u|e]; cbv beta iota.
    2,4: (eexists _, _; split; [done|]; rewrite (md_at_heap _ _ _ Hh), Hmd0;
         repeat split; try done; by intros u [=]).
    all: unfold bind; rewrite md_read_run; cbv beta iota; rewrite md_write_run; cbv beta iota;
      eexists _, _; (split; [done|]); rewrite md_at_set_heap, (md_at_heap _ _ _ Hh), Hmd0;
      repeat split; try done; by intros u' [= <-]. }
  rewrite Hrun1. destruct r1 as [uploadId|e]; cbv beta iota.
  2:{ intros [= <- <-]. eapply failed_early; [done|by rewrite Ht1|by rewrite Hp1|by rewrite Hc1]. }
  unfold bind at 1. rewrite md_read_run. cbv beta iota.
  unfold bind at 1. rewrite md_write_run. cbv beta iota.
  set (w2 := set_heap _ w1).
  assert (md_at w2 md
          = with_parts (default [] (md_parts (md_at w md))) (default 0 (md_chunks (md_at w md)))
              (md_at w1 md)) as Hmd2.
  { unfold w2. by rewrite md_at_set_heap, Hp1, Hc1. }
  unfold bind at 1.
  destruct (run_network_only (S3_uploadPart this data path ct c uploadId) w2)
    as (r3 & w3 & Hrun3 & _ & Hh3 & Ht3); [auto with net|].
  rewrite Hrun3. pose proof (md_at_heap _ _ md Hh3) as Hmd3.
  assert (w_trace w3 = w_trace w ++ [ev]) as Htr3.
  { rewrite Ht3. unfold w2. simpl. by rewrite Ht1. }
  destruct r3 as [[etag|]|e]; cbv beta iota.
  2,3: (intros [= <- <-]; eapply failed_early; [done|done|by rewrite Hmd3, Hmd2|by rewrite Hmd3, Hmd2]).
  unfold bind at 1. rewrite md_read_run. cbv beta iota. rewrite Hmd3, Hmd2. simpl md_parts.
  simpl md_chunks. simpl default.
  set (parts0 := default [] (md_parts (md_at w md))).
  set (count0 := default 0 (md_chunks (md_at w md))).
  set (n := if Obj.has c parts0 then count0 else count0 + 1).
  set (parts := Obj.set Obj.num_idx c (Js.strip_quotes etag) parts0).
  unfold bind at 1. rewrite md_write_run. cbv beta iota.
  set (w4 := set_heap _ w3).
  assert (md_at w4 md = with_parts parts n (with_parts parts0 count0 (md_at w1 md))) as Hmd4.
  { unfold w4. by rewrite md_at_set_heap. }
  unfold bind at 1. destruct (n =? chunks) eqn:En.
  - unfold bind at 1.
    destruct (S3_complete_run this path uploadId parts w4) as (r5 & w5 & Hrun5 & _ & Hh5 & Ht5).
    rewrite Hrun5. pose proof (md_at_heap _ _ md Hh5) as Hmd5.
    assert (md_uploadId (md_at w5 md) = md_uploadId (md_at w1 md)) as Hu5.
    { by rewrite Hmd5, Hmd4. }
    assert (md_uploadId (md_at w1 md) = uploadId) as Hu by by apply Hu1.
    assert (r = match r5 with Ok _ => Ok n | Throw e => Throw e end ∧ w' = w5 →
            upload_outcome this data path ct c chunks md w r w') as Hgoal; last first.
    { destruct r5; cbv beta iota; rewrite ?ret_run; intros [= <- <-]; by apply Hgoal. }
    intros [-> ->].
    eapply (recorded _ _ _ _ _ _ _ _ _ _ etag).
    + by rewrite Hmd5, Hmd4.
    + by rewrite Hmd5, Hmd4.
    + right. fold parts0 count0 n parts. split; [lia|].
      assert (w_trace w5
              = w_trace w ++ [ev; EvComplete this path (md_uploadId (md_at w5 md)) parts]) as Htr5.
      { rewrite Ht5. unfold w4. simpl. rewrite Htr3, <-app_assoc. simpl.
        by rewrite Hu5, Hu. }
      destruct r5; simpl; (split; [eauto|done]).
  - cbv beta iota. rewrite !ret_run. cbv beta iota. intros [= <- <-].
    eapply (recorded _ _ _ _ _ _ _ _ _ _ etag).
    + by rewrite Hmd4.
    + by rewrite Hmd4.
    + left. fold parts0 count0 n parts. split; [lia|]. split; [done|]. exact Htr3.
Qed.

(** ** Computations that return *)

Lemma bind_ok {A B} (m : M A) (k : A → M B) w b w' :
  bind m k w = (Ok b, w') → ∃ a w1, m w = (Ok a, w1) ∧ k a w1 = (Ok b, w').
Proof. unfold bind. destruct (m w) as [[a|e] w1]; [|done]. intros H. by exists a, w1. Qed.

(** ** Objects *)

Section obj_lemmas.
Context {K V : Type} `{EqDecision K} (idx : K → option N).
Implicit Types (o : list (K * V)) (k : K) (v : V).

Lemma obj_get_None k o : Obj.get k o = None ↔ k ∉ Obj.keys o.
Proof.
  induction o as [|[k' v'] o IH]; simpl.
  - split; [intros _ H; by apply elem_of_nil in H|done].
  - case_decide as E.
    + subst. split; [done|]. intros H. exfalso. apply H. left.
    + rewrite IH. split.
      * intros H [->|?]%elem_of_cons; done.
      * intros H ?. apply H. by right.
Qed.

Lemma obj_has_false k o : Obj.has k o = false ↔ k ∉ Obj.keys o.
Proof.
  unfold Obj.has. rewrite <-obj_get_None. by destruct (Obj.get k o).
Qed.

Lemma obj_has_true k o : Obj.has k o = true ↔ k ∈ Obj.keys o.
Proof.
  destruct (Obj.has k o) eqn:E.
  - split; [|done]. intros _. destruct (decide (k ∈ Obj.keys o)) as [|Hn]; [done|].
    apply obj_has_false in Hn. congruence.
  - apply obj_has_false in E. split; [done|]. intros. contradiction.
Qed.

Lemma obj_keys_update k v o : Obj.keys (Obj.update k v o) = Obj.keys o.
Proof.
  induction o as [|[k' v'] o IH]; simpl; [done|].
  case_decide; simpl; [by subst|]. by rewrite IH.
Qed.

Lemma obj_get_update_eq k v o : k ∈ Obj.keys o → Obj.get k (Obj.update k v o) = Some v.
Proof.
  induction o as [|[k' v'] o IH]; simpl.
  - intros H. by apply elem_of_nil in H.
  - intros H. case_decide as E; simpl.
    + by rewrite decide_True.
    + rewrite decide_False by done. apply IH. by apply elem_of_cons in H as [|].
Qed.

Lemma obj_get_update_ne k k' v o : k' ≠ k → Obj.get k' (Obj.update k v o) = Obj.get k' o.
Proof.
  intros Hne. induction o as [|[k2 v2] o IH]; simpl; [done|].
  case_decide as E; simpl.
  - subst. by rewrite !decide_False by done.
  - case_decide; [done|]. apply IH.
Qed.

Lemma obj_get_insert_index_eq n k v o :
  k ∉ Obj.keys o → Obj.get k (Obj.insert_index idx n k v o) = Some v.
Proof.
  induction o as [|[k' v'] o IH]; simpl.
  - intros _. by rewrite decide_True.
  - intros H. apply not_elem_of_cons in H as [Hne Hnin].
    destruct (idx k') as [n'|]; [destruct (n' <? n)%N|]; simpl.
    + rewrite decide_False by done. by apply IH.
    + by rewrite decide_True.
    + by rewrite decide_True.
Qed.

Lemma obj_get_insert_index_ne n k k' v o :
  k' ≠ k → Obj.get k' (Obj.insert_index idx n k v o) = Obj.get k' o.
Proof.
  intros Hne. induction o as [|[k2 v2] o IH]; simpl.
  - by rewrite decide_False.
  - destruct (idx k2) as [n'|]; [destruct (n' <? n)%N|]; simpl.
    + case_decide; [done|]. apply IH.
    + by rewrite (decide_False (P := k = k')) by done.
    + by rewrite (decide_False (P := k = k')) by done.
Qed.

Lemma obj_get_app_ne k k' v o : k' ≠ k → Obj.get k' (o ++ [(k, v)]) = Obj.get k' o.
Proof.
  intros Hne. induction o as [|[k2 v2] o IH]; simpl.
  - by rewrite decide_False.
  - case_decide; [done|]. apply IH.
Qed.

Lemma obj_get_app_eq k v o : k ∉ Obj.keys o → Obj.get k (o ++ [(k, v)]) = Some v.
Proof.
  induction o as [|[k2 v2] o IH]; simpl.
  - intros _. by rewrite decide_True.
  - intros [Hne Hnin]%not_elem_of_cons. rewrite decide_False by done. by apply IH.
Qed.

Lemma obj_get_set_eq k v o : Obj.get k (Obj.set idx k v o) = Some v.
Proof.
  unfold Obj.set. destruct (Obj.has k o) eqn:E.
  - apply obj_get_update_eq. by apply obj_has_true.
  - apply obj_has_false in E. destruct (idx k).
    + by apply obj_get_insert_index_eq.
    + by apply obj_get_app_eq.
Qed.

Lemma obj_get_set_ne k k' v o : k' ≠ k → Obj.get k' (Obj.set idx k v o) = Obj.get k' o.
Proof.
  intros Hne. unfold Obj.set. destruct (Obj.has k o).
  - by apply obj_get_update_ne.
  - destruct (idx k).
    + by apply obj_get_insert_index_ne.
    + by apply obj_get_app_ne.
Qed.

Lemma obj_keys_set_has k v o : Obj.has k o = true → Obj.keys (Obj.set idx k v o) = Obj.keys o.
Proof. intros H. unfold Obj.set. rewrite H. apply obj_keys_update. Qed.

End obj_lemmas.

Lemma num_idx_in_range c : in_range c → Obj.num_idx c = Some (Z.to_N c).
Proof.
  unfold in_range, Obj.num_idx. intros [H1 H2].
  apply Z.leb_le in H1. apply Z.ltb_lt in H2. by rewrite H1, H2.
Qed.

Lemma keys_insert_index (c : Z) (v : string) (o : list (Z * string)) :
  in_range c →
  Forall in_range (Obj.keys o) →
  StronglySorted Z.lt (Obj.keys o) →
  c ∉ Obj.keys o →
  StronglySorted Z.lt (Obj.keys (Obj.insert_index Obj.num_idx (Z.to_N c) c v o))
  ∧ Obj.keys (Obj.insert_index Obj.num_idx (Z.to_N c) c v o) ≡ₚ c :: Obj.keys o.
Proof.
  intros Hc. induction o as [|[k' v'] o IH]; simpl; intros Hr Hs Hnin.
  - split; [repeat constructor|done].
  - apply Forall_cons in Hr as [Hk' Hr]. apply StronglySorted_inv in Hs as [Hs Hlt].
    apply not_elem_of_cons in Hnin as [Hne Hnin].
    rewrite (num_idx_in_range k' Hk').
    destruct (Z.to_N k' <? Z.to_N c)%N eqn:E; simpl.
    + apply N.ltb_lt in E. destruct (IH Hr Hs Hnin) as [IH1 IH2]. split.
      * constructor; [done|]. rewrite IH2. constructor; [|done].
        unfold in_range in *. lia.
      * rewrite IH2. apply Permutation_swap.
    + apply N.ltb_ge in E. split; [|done].
      assert (c < k') by (unfold in_range in *; lia).
      constructor; [by constructor|]. constructor; [done|].
      eapply Forall_impl; [exact Hlt|]. simpl. intros. lia.
Qed.

Lemma keys_set_new (c : Z) (v : string) (o : list (Z * string)) :
  in_range c →
  Forall in_range (Obj.keys o) →
  StronglySorted Z.lt (Obj.keys o) →
  c ∉ Obj.keys o →
  StronglySorted Z.lt (Obj.keys (Obj.set Obj.num_idx c v o))
  ∧ Obj.keys (Obj.set Obj.num_idx c v o) ≡ₚ c :: Obj.keys o.
Proof.
  intros Hc Hr Hs Hnin. unfold Obj.set.
  assert (Obj.has c o = false) as -> by by apply obj_has_false.
  rewrite (num_idx_in_range c Hc). by apply keys_insert_index.
Qed.

Lemma sorted_seqZ m n : StronglySorted Z.lt (seqZ m n).
Proof.
  destruct (decide (0 ≤ n)) as [Hn|Hn]; last first.
  { rewrite seqZ_nil by lia. constructor. }
  rewrite <-(Z2Nat.id n) by done. generalize (Z.to_nat n). clear. intros n.
  revert m. induction n as [|n IH]; intros m; [constructor|].
  rewrite seqZ_cons by lia. constructor.
  - replace (Z.pred (Z.of_nat (S n))) with (Z.of_nat n) by lia. apply IH.
  - apply Forall_forall. intros x Hx%elem_of_seqZ. lia.
Qed.

Lemma sorted_lt_unique (l1 l2 : list Z) :
  StronglySorted Z.lt l1 → StronglySorted Z.lt l2 → l1 ≡ₚ l2 → l1 = l2.
Proof.
  apply StronglySorted_unique_strong. intros x1 x2 _ _ ??. lia.
Qed.

(** ** Fresh sessions *)

Lemma child_not_prefix (p q : list string) :
  Fs.is_child p q = true → ∀ j, (0 < j ≤ length p)%nat → q ≠ take j p.
Proof.
  intros [Hq Hd]%bool_decide_eq_true. apply longer_not_prefix.
  destruct (exists_last Hq) as (l & x & ->). rewrite removelast_snoc in Hd. subst l.
  rewrite length_app. simpl. lia.
Qed.

Lemma target_not_prefix (p : list string) :
  p ≠ [] → ∀ j, (0 < j ≤ length (tmp_dir p))%nat → p ≠ take j (tmp_dir p).
Proof.
  intros Hp j Hj E. destruct (decide (j = length (tmp_dir p))) as [->|Hne].
  - rewrite firstn_all in E. by apply (target_ne_tmp_dir p).
  - apply (f_equal length) in E. rewrite length_take in E.
    rewrite length_tmp_dir in *. rewrite (length_dirname p Hp) in E. lia.
Qed.

(** A session that starts with no temporary directory of its own. *)
Lemma local_session_fresh this p ct k md P w old order :
  2 ≤ k →
  p ≠ [] →
  (Fs.mkdir (tmp_dir p) (w_fs w)).1 = true →
  Fs.children (w_fs w) (tmp_dir p) = [] →
  log_content (w_fs w !! p) = Some old →
  order ≡ₚ seqZ 1 k →
  ∃ w',
    upload_all (OfLocal this) p ct k md P order w = (Ok (seqZ 1 k), w')
    ∧ w_fs w' !! p = Some (File (old +:+ joined (λ j, to_buffer (P j)) 1 k))
    ∧ (∀ q, q ≠ p →
            w_fs w' !! q
            = if decide (session_paths p k q) then None else prepared (w_fs w) p !! q).
Proof.
  intros Hk Hp Hmk Hch Hold Hperm.
  destruct (prepared_eq _ _ Hmk) as [Hprep _].
  assert (dirs_ok (prepared (w_fs w) p) (tmp_dir p)) as HB1.
  { rewrite Hprep. by apply mkdir_dirs_ok. }
  assert (∀ q, Fs.is_child (tmp_dir p) q = true → prepared (w_fs w) p !! q = None) as HB2.
  { intros q Hq. rewrite Hprep, mkdir_frame; [by eapply children_nil_inv|].
    by apply child_not_prefix. }
  assert (log_content (prepared (w_fs w) p !! p) = Some old) as HB3.
  { rewrite Hprep, mkdir_frame; [done|]. by apply target_not_prefix. }
  assert (length order = Z.to_nat k) as Hlen.
  { apply Permutation_length in Hperm. rewrite length_seqZ in Hperm. lia. }
  destruct (local_session this p ct k md P (prepared (w_fs w) p) old Hk Hp HB1 HB2 HB3
              order [] w) as (w' & Hrun & Hrest).
  - by apply SInv_base.
  - simpl. rewrite Hperm. apply NoDup_seqZ.
  - done.
  - intros ->. simpl in Hlen. lia.
  - exists w'. split; [|done]. rewrite Hrun. simpl length. rewrite Hlen.
    do 3 f_equal. lia.
Qed.

(** ** [S3.call], in one step *)

Lemma s3_this_run this w d : w_s3 w !! this = Some d → s3_this this w = (Ok d, w).
Proof. unfold s3_this. by intros ->. Qed.

Lemma s3_update_run this f w d :
  w_s3 w !! this = Some d →
  s3_update this f w = (Ok tt, set_s3 (<[this := f d]> (w_s3 w)) w).
Proof. unfold s3_update. by intros ->. Qed.

Lemma s3_update_bind {B} this f d (k : M B) W :
  w_s3 W !! this = Some d →
  (do* s3_update this f in k) W = k (set_s3 (<[this := f d]> (w_s3 W)) W).
Proof. intros H. unfold bind. by rewrite (s3_update_run _ _ _ _ H). Qed.

Lemma s3_this_bind {B} this d (k : S3Device → M B) W :
  w_s3 W !! this = Some d → (let* self := s3_this this in k self) W = k d W.
Proof. intros H. unfold bind. by rewrite (s3_this_run _ _ _ H). Qed.

Lemma next_reply_run w : next_reply w = (Ok (pending w), set_net (tl (w_net w)) w).
Proof.
  unfold next_reply, pending. destruct (w_net w) eqn:E; simpl; [|done].
  f_equal. destruct w. simpl in *. by subst.
Qed.

Lemma getSignatureV4_ok self method uri parameters date :
  Obj.get "x-amz-date" (amzHeaders self) = Some date →
  ∃ authorization, S3_getSignatureV4 self method uri parameters = Ok authorization.
Proof. intros H. unfold S3_getSignatureV4. rewrite H. by eexists. Qed.

Lemma dated_date reply data self :
  Obj.get "x-amz-date" (amzHeaders (dated reply data self))
  = Some (Js.strip_date (now_iso reply)).
Proof.
  unfold dated. simpl.
  destruct (Obj.get "x-amz-content-sha256" _) as [[|a s]|].
  2: apply obj_get_set_eq.
  all: rewrite obj_get_set_ne by done; apply obj_get_set_eq.
Qed.

Lemma decoded_run decode r w :
  (if negb (r_ok r) then
     throw ("HTTP " +:+ Js.str (r_status r) +:+ ": " +:+ r_text r)
   else
     let responseHeaders :=
       fold_left (λ acc (e : string * string), Obj.set Obj.str_idx (Js.toLowerCase e.1) e.2 acc)
         (r_headers r) [] in
     let contentType := Obj.get "content-type" responseHeaders in
     if decode
        && (bool_decide (contentType = Some "application/xml")
            || Js.startsWith (r_text r) "<?xml"
               && negb (bool_decide (contentType = Some "image/svg+xml")))
     then match r_xml r with
          | Some o =>
              ret {| c_body := BXml o; c_headers := responseHeaders;
                     c_code := r_status r |}
          | None => throw "Error: the body is not XML"
          end
     else ret {| c_body := BText (r_text r); c_headers := responseHeaders;
                 c_code := r_status r |}) w
  = (decoded decode r, w).
Proof.
  unfold decoded, is_xml, lower_headers. destruct (r_ok r); [|done]. cbv zeta.
  unfold negb. destruct (decode && _); [|done]. by destruct (r_xml r).
Qed.

(** From the dated headers on: sign, send, read the response. *)
Lemma call_tail this method url uri (data : Data) parameters decode reply
    (restore : S3Device → S3Device) (after : M unit) self' a W :
  w_s3 W !! this = Some self' →
  S3_getSignatureV4 self' method uri parameters = Ok a →
  (∀ W', w_s3 W' !! this = Some self' →
         after W' = (Ok tt, set_s3 (<[this := restore self']> (w_s3 W')) W')) →
  (let* self2 := s3_this this in
   let* authorization := lift (S3_getSignatureV4 self2 method uri parameters) in
   do* send {| q_method := method; q_url := url;
               q_headers := Obj.set Obj.str_idx "Authorization" authorization
                              (request_headers (amzHeaders self2) (headers self2));
               q_body := if String.eqb method "PUT" || String.eqb method "POST"
                         then Some data else None |} in
   match response reply with
   | Some response =>
       do* after in
       if negb (r_ok response) then
         throw ("HTTP " +:+ Js.str (r_status response) +:+ ": " +:+ r_text response)
       else
         let responseHeaders :=
           fold_left (λ acc (e : string * string),
                        Obj.set Obj.str_idx (Js.toLowerCase e.1) e.2 acc)
             (r_headers response) [] in
         let contentType := Obj.get "content-type" responseHeaders in
         if decode
            && (bool_decide (contentType = Some "application/xml")
                || Js.startsWith (r_text response) "<?xml"
                   && negb (bool_decide (contentType = Some "image/svg+xml")))
         then match r_xml response with
              | Some o =>
                  ret {| c_body := BXml o; c_headers := responseHeaders;
                         c_code := r_status response |}
              | None => throw "Error: the body is not XML"
              end
         else ret {| c_body := BText (r_text response); c_headers := responseHeaders;
                     c_code := r_status response |}
   | None => throw "fetch failed"
   end) W
  = let q := signed_request self' method url uri data parameters a in
    (answer decode reply,
     match response reply with
     | Some r => set_s3 (<[this := restore self']> (w_s3 W)) (set_wire (w_wire W ++ [q]) W)
     | None => set_wire (w_wire W ++ [q]) W
     end).
Proof.
  intros Hself Ha Hafter.
  unfold bind at 1. rewrite (s3_this_run _ _ _ Hself). cbv beta iota.
  unfold bind at 1. unfold lift. rewrite Ha. cbv beta iota.
  unfold bind at 1. unfold send. cbv beta iota zeta.
  fold (signed_request self' method url uri data parameters a).
  unfold answer. destruct (response reply) as [r|]; [|done].
  unfold bind at 1. rewrite Hafter by done. cbv beta iota. by rewrite decoded_run.
Qed.

(** Up to the dated headers. *)
Lemma call_dates {B} this reply (data : Data) base (k : M B) W :
  w_s3 W !! this = Some base →
  (do* set_amzHeader this "x-amz-date" (Js.strip_date (now_iso reply)) in
   let* self1 := s3_this this in
   do* match Obj.get "x-amz-content-sha256" (amzHeaders self1) with
       | Some (String _ _) => ret tt
       | _ => set_amzHeader this "x-amz-content-sha256" (S3_sha256 data)
       end in
   do* set_header this "date" (now_utc reply) in
   k) W
  = k (set_s3 (<[this := dated reply data base]> (w_s3 W)) W).
Proof.
  intros Hbase. unfold bind at 1. unfold set_amzHeader.
  erewrite s3_update_run by exact Hbase. cbv beta iota.
  unfold bind at 1. erewrite s3_this_run by apply lookup_insert_eq. cbv beta iota.
  change (amzHeaders (with_amzHeaders ?f base)) with (f (amzHeaders base)).
  unfold dated. cbv zeta.
  set (amz := Obj.set Obj.str_idx "x-amz-date" (Js.strip_date (now_iso reply)) (amzHeaders base)).
  unfold bind at 1. unfold set_header.
  destruct (Obj.get "x-amz-content-sha256" amz) as [[|c s]|] eqn:Eh.
  2: { rewrite ret_run. cbv beta iota. unfold bind at 1.
       erewrite s3_update_run by apply lookup_insert_eq.
       cbn [w_s3 set_s3]. by rewrite insert_insert_eq. }
  all: erewrite s3_update_run by apply lookup_insert_eq; cbv beta iota.
  all: unfold bind at 1; erewrite s3_update_run by apply lookup_insert_eq.
  all: cbn [w_s3 set_s3]; by rewrite !insert_insert_eq.
Qed.

Lemma S3_call_run this method uri data parameters decode w self :
  w_s3 w !! this = Some self →
  endpointUrl self = None →
  let self' := dated (pending w) data self in
  let uri' := getAbsolutePath uri in
  let url := "https://" +:+ js_string_of (Obj.get "host" (headers self)) +:+ uri'
             +:+ query_string parameters in
  ∃ authorization,
    S3_getSignatureV4 self' method uri' parameters = Ok authorization
    ∧ S3_call this method uri data parameters decode w
      = (answer decode (pending w),
         sent this self' (signed_request self' method url uri' data parameters authorization) w).
Proof.
  intros Hself Hplain self' uri' url.
  destruct (getSignatureV4_ok self' method uri' parameters _ (dated_date _ _ _)) as [a Ha].
  exists a. split; [done|].
  unfold S3_call. unfold bind at 1. rewrite (s3_this_run _ _ _ Hself). cbv beta iota.
  rewrite Hplain. unfold bind at 1. rewrite ret_run. cbv beta iota.
  unfold bind at 1. rewrite next_reply_run. cbv beta iota.
  erewrite call_dates by exact Hself.
  cbn [fst snd].
  erewrite (call_tail this method url uri' data parameters decode (pending w) id (ret tt) self' a);
    [|apply lookup_insert_eq|exact Ha|].
  2: { intros W' HW'. rewrite ret_run. f_equal. destruct W'. unfold set_s3. simpl in *.
       f_equal. symmetry. by apply insert_id. }
  cbv zeta. f_equal.
  unfold sent, set_s3, set_wire, set_net. cbn [w_fs w_s3 w_heap w_net w_wire w_trace].
  rewrite ?insert_insert_eq. destruct (response (pending w)); [|done].
  cbn [w_fs w_s3 w_heap w_net w_wire w_trace]. by rewrite ?insert_insert_eq.
Qed.

Lemma MinIO_call_run this method uri data parameters decode w self endpoint host :
  w_s3 w !! this = Some self →
  endpointUrl self = Some endpoint →
  Obj.get "host" (headers self) = Some host →
  let base :=
    with_headers (Obj.set Obj.str_idx "host" (Js.join "." (tl (Js.split "."%char host)))) self in
  let self' := dated (pending w) data base in
  let uri' := "/" +:+ hd "" (Js.split "."%char host) +:+ getAbsolutePath uri in
  let url := endpoint +:+ uri' +:+ query_string parameters in
  ∃ authorization,
    S3_getSignatureV4 self' method uri' parameters = Ok authorization
    ∧ S3_call this method uri data parameters decode w
      = (answer decode (pending w),
         sent this
           (match response (pending w) with
            | None => self'
            | Some _ => with_headers (Obj.set Obj.str_idx "host" host) self'
            end)
           (signed_request self' method url uri' data parameters authorization) w).
Proof.
  intros Hself Hminio Hhost base self' uri' url.
  destruct (getSignatureV4_ok self' method uri' parameters _ (dated_date _ _ _)) as [a Ha].
  exists a. split; [done|].
  unfold S3_call. unfold bind at 1. rewrite (s3_this_run _ _ _ Hself). cbv beta iota.
  rewrite Hminio, Hhost. unfold bind at 1. unfold bind at 1. unfold set_header at 1.
  erewrite s3_update_run by exact Hself. cbv beta iota. rewrite ret_run. cbv beta iota.
  unfold bind at 1. rewrite next_reply_run. cbv beta iota.
  erewrite call_dates by apply lookup_insert_eq.
  cbn [fst snd].
  erewrite (call_tail this method url uri' data parameters decode (pending w)
              (with_headers (Obj.set Obj.str_idx "host" host))
              (set_header this "host" (js_string_of (Some host))) self' a);
    [|apply lookup_insert_eq|exact Ha|].
  2: { intros W' HW'. unfold set_header. by erewrite s3_update_run. }
  cbv zeta. f_equal.
  unfold sent, set_s3, set_wire, set_net. cbn [w_fs w_s3 w_heap w_net w_wire w_trace].
  rewrite ?insert_insert_eq. destruct (response (pending w)); [|done].
  cbn [w_fs w_s3 w_heap w_net w_wire w_trace]. by rewrite ?insert_insert_eq.
Qed.

(** ** Devices that can call *)

Lemma callable_amz f self : callable (with_amzHeaders f self) ↔ callable self.
Proof. done. Qed.

Lemma callable_set k v self :
  k ≠ "host" → callable (with_headers (Obj.set Obj.str_idx k v) self) ↔ callable self.
Proof.
  intros Hk. unfold callable. simpl. by rewrite obj_get_set_ne.
Qed.

Lemma callable_host v self : callable (with_headers (Obj.set Obj.str_idx "host" v) self).
Proof. right. simpl. rewrite obj_get_set_eq. by eexists. Qed.

Lemma callable_dated reply data self : callable (dated reply data self) ↔ callable self.
Proof. unfold dated. cbv zeta. rewrite callable_set by done. apply callable_amz. Qed.

(** One call of a device that can call: the outcome is the answer to the
    one request it sends. *)
Lemma S3_call_any this method uri data parameters decode w self :
  w_s3 w !! this = Some self →
  callable self →
  ∃ self' q,
    S3_call this method uri data parameters decode w
    = (answer decode (pending w), sent this self' q w)
    ∧ callable self'
    ∧ q_method q = method
    ∧ q_body q = (if String.eqb method "PUT" || String.eqb method "POST"
                  then Some data else None)
    ∧ ∃ base, q_url q = base +:+ query_string parameters.
Proof.
  intros Hself Hcall.
  destruct (endpointUrl self) as [endpoint|] eqn:Hend.
  - destruct Hcall as [Hcall|[host Hhost]]; [congruence|].
    destruct (MinIO_call_run this method uri data parameters decode w self endpoint host
                Hself Hend Hhost) as (a & _ & Hrun).
    eexists _, _. split; [exact Hrun|]. split.
    { destruct (response (pending w)); [apply callable_host|].
      apply callable_dated, callable_host. }
    split; [done|]. split; [done|].
    eexists (endpoint +:+ "/" +:+ hd "" (Js.split "."%char host) +:+ getAbsolutePath uri).
    cbn [q_url signed_request]. by rewrite <-!string_app_assoc.
  - destruct (S3_call_run this method uri data parameters decode w self Hself Hend)
      as (a & _ & Hrun).
    eexists _, _. split; [exact Hrun|]. split; [by apply callable_dated|].
    split; [done|]. split; [done|].
    eexists ("https://" +:+ js_string_of (Obj.get "host" (headers self))
             +:+ getAbsolutePath uri).
    cbn [q_url signed_request]. by rewrite <-!string_app_assoc.
Qed.

(** A call that returns was made by a device that can call. *)
Lemma S3_call_ready this method uri data parameters decode w cr w' :
  S3_call this method uri data parameters decode w = (Ok cr, w') →
  ∃ self, w_s3 w !! this = Some self ∧ callable self.
Proof.
  unfold S3_call. unfold bind at 1. unfold s3_this at 1.
  destruct (w_s3 w !! this) as [self|] eqn:Hself; [|done].
  intros Hrun. exists self. split; [done|].
  destruct (endpointUrl self) as [endpoint|] eqn:Hend; [|by left].
  destruct (Obj.get "host" (headers self)) as [host|] eqn:Hhost; [right; by eexists|].
  cbv zeta in Hrun. unfold bind at 1 in Hrun. by rewrite ?Hend, ?Hhost in Hrun.
Qed.

(** ** The requests of the methods of [S3] *)

Lemma obj_get_delete_ne (k k' : string) (o : list (string * string)) :
  k' ≠ k → Obj.get k' (Obj.delete k o) = Obj.get k' o.
Proof.
  intros Hne. induction o as [|[k2 v2] o IH]; simpl; [done|].
  destruct (decide (k2 = k)) as [->|Hk2]; simpl.
  - by rewrite decide_False by done.
  - destruct (decide (k2 = k')); [done|exact IH].
Qed.

Lemma callable_delete k self :
  k ≠ "host" → callable (with_headers (Obj.delete k) self) ↔ callable self.
Proof. intros Hk. unfold callable. simpl. by rewrite obj_get_delete_ne. Qed.

Lemma sent_over this self' q d w :
  sent this self' q (set_s3 (<[this := d]> (w_s3 w)) w) = sent this self' q w.
Proof. unfold sent, set_s3. simpl. by rewrite insert_insert_eq. Qed.

Lemma pending_set_s3 s w : pending (set_s3 s w) = pending w.
Proof. done. Qed.

(** The headers are set, then the request goes out. *)
Ltac s3_prelude H :=
  unfold set_header, delete_header, set_amzHeader, delete_amzHeader;
  erewrite s3_update_bind by exact H;
  repeat first [ erewrite s3_update_bind by apply lookup_insert_eq
               | erewrite s3_this_bind by apply lookup_insert_eq ].

Ltac callable_step :=
  repeat first [ assumption
               | apply callable_amz
               | apply callable_set; [discriminate|]
               | apply callable_delete; [discriminate|] ].

(** [abort]: one [DELETE], and [true] when it is answered well. *)
Lemma S3_abort_run this path extra w self :
  w_s3 w !! this = Some self →
  callable self →
  ∃ self' q,
    S3_abort this path extra w
    = (match answer true (pending w) with Ok _ => Ok true | Throw e => Throw e end,
       sent this self' q w)
    ∧ callable self'
    ∧ q_method q = "DELETE"
    ∧ q_body q = None
    ∧ ∃ base, q_url q = base +:+ query_string [("uploadId", extra)].
Proof.
  intros Hself Hcall. unfold S3_abort. s3_prelude Hself.
  unfold bind.
  match goal with |- context [S3_call _ _ _ _ _ _ ?W] => set (W0 := W) end.
  edestruct (S3_call_any this "DELETE" (object_uri path false) (Text "") [("uploadId", extra)]
               true W0) as (self' & q & Hrun & Hc & Hm & Hb & Hu);
    [apply lookup_insert_eq|callable_step|].
  exists self', q. split; [|done].
  rewrite Hrun. unfold W0. rewrite !sent_over, !pending_set_s3.
  by destruct (answer true (pending w)).
Qed.

(** [getInfo]: one [HEAD]. *)
Lemma S3_getInfo_run this path w self :
  w_s3 w !! this = Some self →
  callable self →
  ∃ self' q,
    S3_getInfo this path w
    = (match answer true (pending w) with
       | Ok cr => Ok (c_headers cr)
       | Throw e => Throw e
       end, sent this self' q w)
    ∧ callable self'
    ∧ q_method q = "HEAD"
    ∧ q_body q = None.
Proof.
  intros Hself Hcall. unfold S3_getInfo. s3_prelude Hself.
  unfold bind.
  match goal with |- context [S3_call _ _ _ _ _ _ ?W] => set (W0 := W) end.
  edestruct (S3_call_any this "HEAD" (object_uri path false) (Text "") [] true W0)
    as (self' & q & Hrun & Hc & Hm & Hb & Hu); [apply lookup_insert_eq|callable_step|].
  exists self', q. split; [|done].
  rewrite Hrun. unfold W0. rewrite !sent_over, !pending_set_s3.
  by destruct (answer true (pending w)).
Qed.

(** [createMultipartUpload]: one [POST] with an empty body. *)
Lemma S3_createMultipartUpload_run this path ct w self :
  w_s3 w !! this = Some self →
  callable self →
  ∃ self' q,
    S3_createMultipartUpload this path ct w
    = (match answer true (pending w) with
       | Ok _ => Ok (reply_uploadId (pending w))
       | Throw e => Throw e
       end, sent this self' q w)
    ∧ callable self'
    ∧ q_method q = "POST"
    ∧ q_body q = Some (Text "")
    ∧ ∃ base, q_url q = base +:+ query_string [("uploads", "")].
Proof.
  intros Hself Hcall. unfold S3_createMultipartUpload. s3_prelude Hself.
  unfold bind.
  match goal with |- context [S3_call _ _ _ _ _ _ ?W] => set (W0 := W) end.
  edestruct (S3_call_any this "POST" (object_uri path true) (Text "") [("uploads", "")]
               true W0) as (self' & q & Hrun & Hc & Hm & Hb & Hu);
    [apply lookup_insert_eq|callable_step|].
  exists self', q. split; [|done].
  rewrite Hrun. unfold W0. rewrite !sent_over, !pending_set_s3.
  unfold reply_uploadId. destruct (answer true (pending w)) as [[[] ? ?]|]; done.
Qed.

(** [uploadPart]: one [PUT] that carries the data. *)
Lemma S3_uploadPart_run this data path ct c uploadId w self :
  w_s3 w !! this = Some self →
  callable self →
  ∃ self' q,
    S3_uploadPart this data path ct c uploadId w
    = (match answer true (pending w) with
       | Ok _ => Ok (reply_etag (pending w))
       | Throw e => Throw e
       end, sent this self' q w)
    ∧ callable self'
    ∧ q_method q = "PUT"
    ∧ q_body q = Some data
    ∧ ∃ base, q_url q = base +:+ query_string [("partNumber", Js.str c);
                                               ("uploadId", js_string_of uploadId)].
Proof.
  intros Hself Hcall. unfold S3_uploadPart. s3_prelude Hself.
  unfold bind.
  match goal with |- context [S3_call _ _ _ _ _ _ ?W] => set (W0 := W) end.
  edestruct (S3_call_any this "PUT" (object_uri path true) data
               [("partNumber", Js.str c); ("uploadId", js_string_of uploadId)]
               true W0) as (self' & q & Hrun & Hc & Hm & Hb & Hu);
    [apply lookup_insert_eq|callable_step|].
  exists self', q. split; [|done].
  rewrite Hrun. unfold W0. rewrite !sent_over, !pending_set_s3.
  unfold reply_etag. by destruct (answer true (pending w)).
Qed.

(** [completeMultipartUpload]: one [POST] that lists the parts. *)
Lemma S3_completeMultipartUpload_run this path uploadId parts w self :
  w_s3 w !! this = Some self →
  callable self →
  ∃ self' q,
    S3_completeMultipartUpload this path uploadId parts w
    = (match answer true (pending w) with Ok _ => Ok true | Throw e => Throw e end,
       sent this self' q (set_trace (w_trace w ++ [EvComplete this path uploadId parts]) w))
    ∧ callable self'
    ∧ q_method q = "POST"
    ∧ q_body q = Some (Text (complete_body parts))
    ∧ ∃ base, q_url q = base +:+ query_string [("uploadId", js_string_of uploadId)].
Proof.
  intros Hself Hcall. unfold S3_completeMultipartUpload.
  unfold bind at 1. rewrite emit_run. cbv beta iota.
  set (w1 := set_trace _ w).
  assert (w_s3 w1 !! this = Some self) as Hself1 by done.
  s3_prelude Hself1.
  unfold bind.
  match goal with |- context [S3_call _ _ _ _ _ _ ?W] => set (W0 := W) end.
  edestruct (S3_call_any this "POST" (object_uri path true) (Text (complete_body parts))
               [("uploadId", js_string_of uploadId)]
               true W0) as (self' & q & Hrun & Hc & Hm & Hb & Hu);
    [apply lookup_insert_eq|callable_step|].
  exists self', q. split; [|done].
  rewrite Hrun. unfold W0. rewrite !sent_over, !pending_set_s3.
  change (pending w1) with (pending w). by destruct (answer true (pending w)).
Qed.

(** A method that returns was called on a device that can call. *)
Lemma s3_update_ready {B} this f (k : M B) w b w' :
  (do* s3_update this f in k) w = (Ok b, w') → ∃ self, w_s3 w !! this = Some self.
Proof.
  unfold bind, s3_update. destruct (w_s3 w !! this) as [self|]; [by exists self|done].
Qed.

Lemma S3_uploadPart_ready this data path ct c uploadId w o w' :
  S3_uploadPart this data path ct c uploadId w = (Ok o, w') →
  ∃ self, w_s3 w !! this = Some self ∧ callable self.
Proof.
  intros Hrun. pose proof Hrun as Hrun'. unfold S3_uploadPart, set_header in Hrun'.
  apply s3_update_ready in Hrun' as [self Hself].
  exists self. split; [done|].
  revert Hrun. unfold S3_uploadPart. s3_prelude Hself. unfold bind.
  match goal with |- context [S3_call ?t ?m ?u ?d ?p ?dec ?W] =>
    destruct (S3_call t m u d p dec W) as [[cr|e] W1] eqn:Hcall end; [|done].
  intros _. apply S3_call_ready in Hcall as (self1 & Hself1 & Hc).
  cbn [w_s3 set_s3] in Hself1. rewrite lookup_insert_eq in Hself1. injection Hself1 as <-.
  revert Hc. rewrite callable_amz, callable_amz, callable_set, callable_set by done. done.
Qed.

Lemma S3_createMultipartUpload_ready this path ct w o w' :
  S3_createMultipartUpload this path ct w = (Ok o, w') →
  ∃ self, w_s3 w !! this = Some self ∧ callable self.
Proof.
  intros Hrun. pose proof Hrun as Hrun'. unfold S3_createMultipartUpload, set_header in Hrun'.
  apply s3_update_ready in Hrun' as [self Hself].
  exists self. split; [done|].
  revert Hrun. unfold S3_createMultipartUpload. s3_prelude Hself. unfold bind.
  match goal with |- context [S3_call ?t ?m ?u ?d ?p ?dec ?W] =>
    destruct (S3_call t m u d p dec W) as [[cr|e] W1] eqn:Hcall end; [|done].
  intros _. apply S3_call_ready in Hcall as (self1 & Hself1 & Hc).
  cbn [w_s3 set_s3] in Hself1. rewrite lookup_insert_eq in Hself1. injection Hself1 as <-.
  revert Hc. rewrite callable_amz, callable_set, callable_amz, callable_set by done. done.
Qed.

(** ** One call of [S3.uploadData], request by request *)

Lemma with_parts_twice parts n parts0 n0 m :
  with_parts parts n (with_parts parts0 n0 m) = with_parts parts n m.
Proof. done. Qed.

(** From the upload id on: the part goes out, the bag records its tag, and the
    last part is followed by the request that completes the upload. *)
Lemma uploadData_tail this data path ct c chunks md uploadId w self etag :
  w_s3 w !! this = Some self →
  callable self →
  reply_etag (pending w) = Some etag →
  let m := md_at w md in
  let parts0 := default [] (md_parts m) in
  let count0 := default 0 (md_chunks m) in
  let parts := Obj.set Obj.num_idx c (Js.strip_quotes etag) parts0 in
  let n := if Obj.has c parts0 then count0 else count0 + 1 in
  ∃ w' self' q,
    (let* md0 := md_read md in
     do* md_write md
           (with_parts (default [] (md_parts md0)) (default 0 (md_chunks md0)) md0) in
     let* etag := S3_uploadPart this data path ct c uploadId in
     match etag with
     | None => throw "TypeError: Cannot read properties of undefined (reading 'replace')"
     | Some etag =>
         let cleanETag := Js.strip_quotes etag in
         let* md0 := md_read md in
         let parts := default [] (md_parts md0) in
         let received :=
           if Obj.has c parts then default 0 (md_chunks md0)
           else default 0 (md_chunks md0) + 1 in
         let parts := Obj.set Obj.num_idx c cleanETag parts in
         do* md_write md (with_parts parts received md0) in
         do* (if received =? chunks then
                do* S3_completeMultipartUpload this path uploadId parts in ret tt
              else ret tt) in
         ret received
     end) w
    = (if n =? chunks then
         match answer true (hd offline (tl (w_net w))) with
         | Ok _ => Ok n
         | Throw e => Throw e
         end
       else Ok n, w')
    ∧ w_fs w' = w_fs w
    ∧ w_s3 w' !! this = Some self'
    ∧ callable self'
    ∧ w_heap w' = <[md := with_parts parts n m]> (w_heap w)
    ∧ q_method q = "PUT"
    ∧ q_body q = Some data
    ∧ (∃ base, q_url q = base +:+ query_string [("partNumber", Js.str c);
                                                ("uploadId", js_string_of uploadId)])
    ∧ if n =? chunks then
        w_net w' = tl (tl (w_net w))
        ∧ w_trace w' = w_trace w ++ [EvComplete this path uploadId parts]
        ∧ ∃ qc, w_wire w' = w_wire w ++ [q; qc]
                ∧ q_method qc = "POST"
                ∧ q_body qc = Some (Text (complete_body parts))
                ∧ ∃ base, q_url qc = base +:+ query_string [("uploadId", js_string_of uploadId)]
      else
        w_net w' = tl (w_net w) ∧ w_trace w' = w_trace w ∧ w_wire w' = w_wire w ++ [q].
Proof.
  intros Hself Hcall Hetag m parts0 count0 parts n.
  unfold bind at 1. rewrite md_read_run. cbv beta iota.
  unfold bind at 1. rewrite md_write_run. cbv beta iota.
  fold m parts0 count0.
  set (w1 := set_heap _ w).
  destruct (S3_uploadPart_run this data path ct c uploadId w1 self)
    as (self1 & q & Hrun & Hcall1 & Hm & Hb & Hu); [done|done|].
  change (pending w1) with (pending w) in Hrun. rewrite Hetag in Hrun.
  assert (∃ cr, answer true (pending w) = Ok cr) as [cr Hcr].
  { unfold reply_etag in Hetag. destruct (answer true (pending w)); [by eexists|done]. }
  rewrite Hcr in Hrun.
  unfold bind at 1. rewrite Hrun. cbv beta iota zeta.
  set (w2 := sent this self1 q w1).
  unfold bind at 1. rewrite md_read_run. cbv beta iota.
  assert (md_at w2 md = with_parts parts0 count0 m) as Hmd2.
  { unfold md_at, w2, w1. cbn [w_heap sent set_heap]. by rewrite lookup_insert_eq. }
  rewrite Hmd2.
  cbn [md_parts md_chunks with_parts default from_option id].
  fold parts n.
  unfold bind at 1. rewrite md_write_run. cbv beta iota.
  rewrite with_parts_twice.
  set (w3 := set_heap _ w2).
  assert (w_heap w3 = <[md := with_parts parts n m]> (w_heap w)) as Hheap.
  { unfold w3, w2, w1. cbn [w_heap sent set_heap]. by rewrite insert_insert_eq. }
  destruct (n =? chunks) eqn:En.
  - destruct (S3_completeMultipartUpload_run this path uploadId parts w3 self1)
      as (self2 & qc & Hrunc & Hcall2 & Hmc & Hbc & Huc);
      [unfold w3, w2; cbn [w_s3 sent set_heap]; apply lookup_insert_eq|done|].
    change (pending w3) with (hd offline (tl (w_net w))) in Hrunc.
    unfold bind at 1. unfold bind at 1. rewrite Hrunc.
    set (Wc := sent this self2 qc _).
    exists Wc, self2, q. split.
    { destruct (answer true (hd offline (tl (w_net w)))); reflexivity. }
    split; [done|]. split; [apply lookup_insert_eq|]. split; [done|].
    split; [done|]. split; [done|]. split; [done|]. split; [done|].
    split; [done|]. split; [done|].
    exists qc. split; [|done]. unfold Wc. cbn. by rewrite <-app_assoc.
  - unfold bind at 1. rewrite ret_run. cbv beta iota. rewrite ret_run.
    eexists w3, self1, q. split; [done|]. split; [done|]. split.
    { unfold w3, w2. cbn [w_s3 sent set_heap]. apply lookup_insert_eq. }
    done.
Qed.

(** A call on a bag that holds an upload id. *)
Lemma S3_uploadData_open this data path ct c chunks md w self a id etag :
  (c =? 1) && (chunks =? 1) = false →
  w_s3 w !! this = Some self →
  callable self →
  md_uploadId (md_at w md) = Some (String a id) →
  reply_etag (pending w) = Some etag →
  let m := md_at w md in
  let parts0 := default [] (md_parts m) in
  let count0 := default 0 (md_chunks m) in
  let parts := Obj.set Obj.num_idx c (Js.strip_quotes etag) parts0 in
  let n := if Obj.has c parts0 then count0 else count0 + 1 in
  let ev := EvUploadData (OfS3 this) data path ct c chunks md in
  ∃ w' self' q,
    S3_uploadData this data path ct c chunks md w
    = (if n =? chunks then
         match answer true (hd offline (tl (w_net w))) with
         | Ok _ => Ok n
         | Throw e => Throw e
         end
       else Ok n, w')
    ∧ w_fs w' = w_fs w
    ∧ w_s3 w' !! this = Some self'
    ∧ callable self'
    ∧ w_heap w' = <[md := with_parts parts n m]> (w_heap w)
    ∧ q_method q = "PUT"
    ∧ q_body q = Some data
    ∧ (∃ base, q_url q = base +:+ query_string [("partNumber", Js.str c);
                                                ("uploadId", String a id)])
    ∧ if n =? chunks then
        w_net w' = tl (tl (w_net w))
        ∧ w_trace w' = w_trace w ++ [ev; EvComplete this path (Some (String a id)) parts]
        ∧ ∃ qc, w_wire w' = w_wire w ++ [q; qc]
                ∧ q_method qc = "POST"
                ∧ q_body qc = Some (Text (complete_body parts))
                ∧ ∃ base, q_url qc = base +:+ query_string [("uploadId", String a id)]
      else
        w_net w' = tl (w_net w) ∧ w_trace w' = w_trace w ++ [ev] ∧ w_wire w' = w_wire w ++ [q].
Proof.
  intros Hmode Hself Hcall Hopen Hetag m parts0 count0 parts n ev.
  unfold S3_uploadData. unfold bind at 1. rewrite emit_run. cbv beta iota.
  rewrite Hmode. unfold bind at 1. rewrite md_read_run. cbv beta iota.
  set (w0 := set_trace _ w).
  change (md_at w0 md) with (md_at w md). rewrite Hopen.
  unfold bind at 1. rewrite ret_run. cbv beta iota.
  destruct (uploadData_tail this data path ct c chunks md (Some (String a id)) w0 self etag
              Hself Hcall Hetag)
    as (w' & self' & q & Hrun & Hfs & Hs3 & Hc' & Hheap & Hm & Hb & Hu & Hrest).
  exists w', self', q. split; [exact Hrun|]. split; [done|]. split; [done|].
  split; [done|]. split; [done|]. split; [done|]. split; [done|]. split; [done|].
  change (md_at w0 md) with m in Hrest. fold parts0 count0 parts n in Hrest.
  destruct (n =? chunks).
  - destruct Hrest as (Hn & Ht & Hw). split; [done|]. split; [|done].
    rewrite Ht. unfold w0. cbn. by rewrite <-app_assoc.
  - done.
Qed.

(** The first call of a session: the upload id is asked for first. *)
Lemma S3_uploadData_fresh this data path ct c chunks md w self cr etag :
  (c =? 1) && (chunks =? 1) = false →
  w_s3 w !! this = Some self →
  callable self →
  md_uploadId (md_at w md) = None →
  answer true (pending w) = Ok cr →
  reply_etag (hd offline (tl (w_net w))) = Some etag →
  let uploadId := reply_uploadId (pending w) in
  let m := md_at w md in
  let parts0 := default [] (md_parts m) in
  let count0 := default 0 (md_chunks m) in
  let parts := Obj.set Obj.num_idx c (Js.strip_quotes etag) parts0 in
  let n := if Obj.has c parts0 then count0 else count0 + 1 in
  let ev := EvUploadData (OfS3 this) data path ct c chunks md in
  ∃ w' self' q0 q,
    S3_uploadData this data path ct c chunks md w
    = (if n =? chunks then
         match answer true (hd offline (tl (tl (w_net w)))) with
         | Ok _ => Ok n
         | Throw e => Throw e
         end
       else Ok n, w')
    ∧ w_fs w' = w_fs w
    ∧ w_s3 w' !! this = Some self'
    ∧ callable self'
    ∧ w_heap w' = <[md := with_parts parts n (with_uploadId uploadId m)]> (w_heap w)
    ∧ q_method q0 = "POST"
    ∧ q_body q0 = Some (Text "")
    ∧ (∃ base, q_url q0 = base +:+ query_string [("uploads", "")])
    ∧ q_method q = "PUT"
    ∧ q_body q = Some data
    ∧ (∃ base, q_url q = base +:+ query_string [("partNumber", Js.str c);
                                                ("uploadId", js_string_of uploadId)])
    ∧ if n =? chunks then
        w_net w' = tl (tl (tl (w_net w)))
        ∧ w_trace w' = w_trace w ++ [ev; EvComplete this path uploadId parts]
        ∧ ∃ qc, w_wire w' = w_wire w ++ [q0; q; qc]
                ∧ q_method qc = "POST"
                ∧ q_body qc = Some (Text (complete_body parts))
                ∧ ∃ base, q_url qc = base +:+ query_string [("uploadId", js_string_of uploadId)]
      else
        w_net w' = tl (tl (w_net w)) ∧ w_trace w' = w_trace w ++ [ev]
        ∧ w_wire w' = w_wire w ++ [q0; q].
Proof.
  intros Hmode Hself Hcall Hnew Hcr Hetag uploadId m parts0 count0 parts n ev.
  unfold S3_uploadData. unfold bind at 1. rewrite emit_run. cbv beta iota.
  rewrite Hmode. unfold bind at 1. rewrite md_read_run. cbv beta iota.
  set (w0 := set_trace _ w).
  change (md_at w0 md) with (md_at w md). rewrite Hnew.
  destruct (S3_createMultipartUpload_run this path ct w0 self Hself Hcall)
    as (self0 & q0 & Hrun0 & Hcall0 & Hm0 & Hb0 & Hu0).
  change (pending w0) with (pending w) in Hrun0. rewrite Hcr in Hrun0.
  unfold bind at 1. unfold bind at 1. rewrite Hrun0. cbv beta iota.
  unfold bind at 1. rewrite md_read_run. cbv beta iota.
  unfold bind at 1. rewrite md_write_run. cbv beta iota. rewrite ret_run. cbv beta iota.
  fold uploadId.
  set (w1 := sent this self0 q0 w0).
  change (md_at w1 md) with m.
  set (w2 := set_heap _ w1).
  assert (md_at w2 md = with_uploadId uploadId m) as Hmd2.
  { unfold md_at, w2. cbn [w_heap set_heap]. by rewrite lookup_insert_eq. }
  destruct (uploadData_tail this data path ct c chunks md uploadId w2 self0 etag)
    as (w' & self' & q & Hrun & Hfs & Hs3 & Hc' & Hheap & Hm & Hb & Hu & Hrest);
    [apply lookup_insert_eq|done|done|].
  rewrite Hmd2 in Hrun, Hheap, Hrest.
  cbn [md_parts md_chunks with_uploadId] in Hrun, Hheap, Hrest.
  fold parts0 count0 parts n in Hrun, Hheap, Hrest.
  exists w', self', q0, q. split; [exact Hrun|]. split; [done|]. split; [done|].
  split; [done|]. split.
  { rewrite Hheap. unfold w2, w1, w0. cbn [w_heap set_heap sent set_trace].
    by rewrite insert_insert_eq. }
  split; [done|]. split; [done|]. split; [done|].
  split; [done|]. split; [done|]. split; [done|].
  destruct (n =? chunks).
  - destruct Hrest as (Hn & Ht & qc & Hw & Hqc). split; [done|]. split.
    { rewrite Ht. unfold w2, w1, w0. cbn. by rewrite <-app_assoc. }
    exists qc. split; [|done]. rewrite Hw. unfold w2, w1, w0. cbn. by rewrite <-app_assoc.
  - destruct Hrest as (Hn & Ht & Hw). split; [done|]. split.
    { rewrite Ht. done. }
    rewrite Hw. unfold w2, w1, w0. cbn. by rewrite <-app_assoc.
Qed.

(** ** The parts that the completing request lists *)

Section obj_entries.
Context {K V : Type} `{EqDecision K} (idx : K → option N) (Q : K * V → Prop).

Lemma Forall_obj_update k v (o : list (K * V)) :
  Forall Q o → Q (k, v) → Forall Q (Obj.update k v o).
Proof.
  intros Ho Hkv. induction Ho as [|[k' v'] o Hx Ho IH]; simpl; [done|].
  destruct (decide (k' = k)); by constructor.
Qed.

Lemma Forall_obj_insert_index n k v (o : list (K * V)) :
  Forall Q o → Q (k, v) → Forall Q (Obj.insert_index idx n k v o).
Proof.
  intros Ho Hkv. induction Ho as [|[k' v'] o Hx Ho IH]; simpl; [by constructor|].
  destruct (idx k') as [n'|]; [destruct (n' <? n)%N|]; repeat constructor; done.
Qed.

Lemma Forall_obj_set k v (o : list (K * V)) :
  Forall Q o → Q (k, v) → Forall Q (Obj.set idx k v o).
Proof.
  intros Ho Hkv. unfold Obj.set. destruct (Obj.has k o); [by apply Forall_obj_update|].
  destruct (idx k); [by apply Forall_obj_insert_index|].
  apply Forall_app. split; [done|by constructor].
Qed.

End obj_entries.

Lemma complete_body_fold (tag : Z → string) (parts : list (Z * string)) : ∀ acc closing,
  Forall (λ e, e.2 = tag e.1) parts →
  fold_left (λ body e, body +:+ part_xml e) parts acc +:+ closing
  = acc +:+ foldr (λ c rest, "<Part><ETag>" +:+ tag c +:+ "</ETag><PartNumber>" +:+ Js.str c
                             +:+ "</PartNumber></Part>" +:+ rest)
              closing (Obj.keys parts).
Proof.
  induction parts as [|[c t] parts IH]; intros acc closing Hall; [done|].
  apply Forall_cons in Hall as [Ht Hall]. simpl in Ht. subst t.
  simpl. rewrite IH by done. unfold part_xml. simpl.
  by rewrite <-!string_app_assoc.
Qed.

Lemma complete_body_list (tag : Z → string) (parts : list (Z * string)) :
  Forall (λ e, e.2 = tag e.1) parts →
  complete_body parts = part_list tag (Obj.keys parts).
Proof. intros H. unfold complete_body, part_list. by apply complete_body_fold. Qed.

(** ** A session of [S3.uploadData], request by request *)

Lemma upload_all_s3_cons this path ct k md P c rest w :
  upload_all (OfS3 this) path ct k md P (c :: rest) w
  = match S3_uploadData this (P c) path ct c k md w with
    | (Ok n, w1) =>
        match upload_all (OfS3 this) path ct k md P rest w1 with
        | (Ok ns, w2) => (Ok (n :: ns), w2)
        | (Throw e, w2) => (Throw e, w2)
        end
    | (Throw e, w1) => (Throw e, w1)
    end.
Proof. done. Qed.

Section s3_wire.
Variables (this : nat) (path ct : string) (k : Z) (md : nat) (P : Z → Data).
Variables (tag : Z → string) (a : ascii) (id : string).
Hypothesis Hk : 2 ≤ k.
Hypothesis Hmax : k < Z.of_N Obj.max_index.

Lemma s3_session_wire order : ∀ arrived rs w self rl rest cr,
  w_s3 w !! this = Some self →
  callable self →
  md_uploadId (md_at w md) = Some (String a id) →
  s3_inv md arrived w →
  Forall (λ e, e.2 = tag e.1) (default [] (md_parts (md_at w md))) →
  NoDup (arrived ++ order) →
  arrived ++ order ≡ₚ seqZ 1 k →
  order ≠ [] →
  Forall2 (tagged_by tag) order rs →
  w_net w = rs ++ rl :: rest →
  answer true rl = Ok cr →
  ∃ w' puts qc,
    upload_all (OfS3 this) path ct k md P order w
    = (Ok (seqZ (Z.of_nat (length arrived) + 1) (Z.of_nat (length order))), w')
    ∧ w_fs w' = w_fs w
    ∧ w_net w' = rest
    ∧ w_wire w' = w_wire w ++ puts ++ [qc]
    ∧ Forall2 (λ c, carries_part (String a id) c (P c)) order puts
    ∧ q_method qc = "POST"
    ∧ q_body qc = Some (Text (part_list tag (seqZ 1 k)))
    ∧ ∃ base, q_url qc = base +:+ query_string [("uploadId", String a id)].
Proof.
  induction order as [|c order IH];
    intros arrived rs w self rl rest cr Hself Hcall Hopen Hinv Htags Hnd Hperm Hne Hrs Hnet Hrl;
    [done|].
  clear Hne.
  apply Forall2_cons_inv_l in Hrs as (r & rs' & (etag & Hetag & Htag) & Hrs & ->).
  assert (Z.of_nat (length arrived) + Z.of_nat (length (c :: order)) = k) as Hlen.
  { apply Permutation_length in Hperm. rewrite length_app, length_seqZ in Hperm. lia. }
  assert (∀ j, j ∈ arrived ++ c :: order ↔ 1 ≤ j ≤ k) as Hmem.
  { intros j. rewrite Hperm, elem_of_seqZ. lia. }
  assert (c ∉ arrived) as Hfresh.
  { intros Hc. apply NoDup_app in Hnd as (_ & Hd & _). apply (Hd c Hc). left. }
  destruct Hinv as (Hs & Hp & Hc0).
  set (m := md_at w md) in *.
  set (parts0 := default [] (md_parts m)) in *.
  assert (Obj.has c parts0 = false) as Hhas.
  { apply obj_has_false. by rewrite Hp. }
  assert (in_range c) as Hrc.
  { assert (1 ≤ c ≤ k) by (apply Hmem, elem_of_app; right; left). unfold in_range. lia. }
  destruct (keys_set_new c (Js.strip_quotes etag) parts0) as [Hs' Hp']; [done|..].
  { rewrite Hp. apply Forall_forall. intros j Hj.
    assert (1 ≤ j ≤ k) by (apply Hmem, elem_of_app; by left). unfold in_range. lia. }
  { done. }
  { by apply obj_has_false. }
  destruct (S3_uploadData_open this (P c) path ct c k md w self a id etag)
    as (w1 & self1 & q & Hrun & Hfs & Hs3 & Hcall1 & Hheap & Hq1 & Hq2 & Hq3 & Hrest);
    [apply andb_false_intro2; lia|done|done|done|by unfold pending; rewrite Hnet|].
  fold m parts0 in Hrun, Hheap, Hrest. rewrite Hhas in Hrun, Hheap, Hrest.
  rewrite Hc0 in Hrun, Hheap, Hrest.
  set (parts := Obj.set Obj.num_idx c (Js.strip_quotes etag) parts0) in *.
  set (n := Z.of_nat (length arrived) + 1) in *.
  assert (md_at w1 md = with_parts parts n m) as Hmd1.
  { unfold md_at. by rewrite Hheap, lookup_insert_eq. }
  assert (Forall (λ e, e.2 = tag e.1) parts) as Htags1.
  { apply Forall_obj_set; [done|]. by simpl. }
  rewrite upload_all_s3_cons, Hrun.
  destruct order as [|c2 order].
  - (* the last part: the upload is completed *)
    simpl in Hlen. apply Forall2_nil_inv_l in Hrs as ->.
    assert ((n =? k) = true) as Hnk by (apply Z.eqb_eq; unfold n; lia).
    rewrite Hnk in *. rewrite Hnet in *. simpl tl in *. simpl hd. rewrite Hrl.
    destruct Hrest as (Hnet1 & Htr1 & qc & Hwire1 & Hqc1 & Hqc2 & Hqc3).
    cbn [upload_all]. unfold ret. cbv beta iota.
    eexists w1, [q], qc. split.
    { do 2 f_equal. }
    split; [done|]. split; [done|]. split; [done|]. split.
    { constructor; [|constructor]. done. }
    split; [done|]. split; [|done].
    rewrite Hqc2. do 2 f_equal. rewrite (complete_body_list tag) by done. f_equal.
    apply sorted_lt_unique; [done|apply sorted_seqZ|].
    rewrite Hp'. rewrite Hp, <-Hperm. by rewrite Permutation_cons_append.
  - assert ((n =? k) = false) as Hnk.
    { apply Z.eqb_neq. unfold n. simpl in Hlen. lia. }
    rewrite Hnk in *. destruct Hrest as (Hnet1 & Htr1 & Hwire1).
    destruct (IH (arrived ++ [c]) rs' w1 self1 rl rest cr)
      as (w2 & puts & qc & Hrun2 & Hfs2 & Hnet2 & Hwire2 & Hputs & Hqc);
      [done|done|by rewrite Hmd1|..|done|done| |done|].
    { unfold s3_inv. rewrite Hmd1. simpl. split; [done|]. split.
      - rewrite Hp', Hp. by rewrite Permutation_cons_append.
      - rewrite length_app. simpl. unfold n. lia. }
    { by rewrite Hmd1. }
    { by rewrite <-app_assoc. }
    { by rewrite <-app_assoc. }
    { rewrite Hnet1, Hnet. done. }
    rewrite Hrun2. eexists w2, (q :: puts), qc. split.
    { do 2 f_equal. rewrite length_app. simpl length.
      rewrite (seqZ_cons (Z.of_nat (length arrived) + 1)) by lia.
      f_equal. f_equal; lia. }
    split; [congruence|]. split; [done|]. split.
    { rewrite Hwire2, Hwire1, <-app_assoc. done. }
    split; [|done]. constructor; [|done]. done.
Qed.

End s3_wire.

(** The whole session, from an empty bag. *)
Lemma s3_session_start this path ct k md P tag a id order w self r0 rs rl rest :
  2 ≤ k < Z.of_N Obj.max_index →
  order ≡ₚ seqZ 1 k →
  w_s3 w !! this = Some self →
  callable self →
  md_uploadId (md_at w md) = None →
  default [] (md_parts (md_at w md)) = [] →
  default 0 (md_chunks (md_at w md)) = 0 →
  w_net w = r0 :: rs ++ rl :: rest →
  reply_uploadId r0 = Some (String a id) →
  Forall2 (tagged_by tag) order rs →
  (∃ cr, answer true rl = Ok cr) →
  ∃ w' create puts complete,
    upload_all (OfS3 this) path ct k md P order w = (Ok (seqZ 1 k), w')
    ∧ w_fs w' = w_fs w
    ∧ w_net w' = rest
    ∧ w_wire w' = w_wire w ++ create :: puts ++ [complete]
    ∧ q_method create = "POST"
    ∧ q_body create = Some (Text "")
    ∧ (∃ base, q_url create = base +:+ query_string [("uploads", "")])
    ∧ Forall2 (λ c, carries_part (String a id) c (P c)) order puts
    ∧ q_method complete = "POST"
    ∧ q_body complete = Some (Text (part_list tag (seqZ 1 k)))
    ∧ ∃ base, q_url complete = base +:+ query_string [("uploadId", String a id)].
Proof.
  intros [Hk Hmax] Hperm Hself Hcall Hnew Hparts Hcount Hnet Hid Hrs [crl Hrl].
  assert (length order = Z.to_nat k) as Hlen.
  { apply Permutation_length in Hperm. rewrite length_seqZ in Hperm. lia. }
  destruct order as [|c order]; [simpl in Hlen; lia|].
  destruct order as [|c2 order]; [simpl in Hlen; lia|].
  apply Forall2_cons_inv_l in Hrs as (r & rs' & (etag & Hetag & Htag) & Hrs & ->).
  assert (NoDup (c :: c2 :: order)) as Hnd by (rewrite Hperm; apply NoDup_seqZ).
  assert (∃ cr0, answer true r0 = Ok cr0) as [cr0 Hcr0].
  { unfold reply_uploadId in Hid. destruct (answer true r0); [by eexists|done]. }
  destruct (S3_uploadData_fresh this (P c) path ct c k md w self cr0 etag)
    as (w1 & self1 & q0 & q & Hrun & Hfs & Hs3 & Hcall1 & Hheap & Hq0m & Hq0b & Hq0u
        & Hqm & Hqb & Hqu & Hrest);
    [apply andb_false_intro2; lia|done|done|done|by unfold pending; rewrite Hnet
    |by rewrite Hnet|].
  rewrite Hparts, Hcount in Hrun, Hheap, Hrest.
  change (Obj.has c []) with false in Hrun, Hheap, Hrest. cbv iota in Hrun, Hheap, Hrest.
  assert ((0 + 1 =? k) = false) as Hnk by (apply Z.eqb_neq; lia).
  rewrite Hnk in Hrun, Hrest. destruct Hrest as (Hnet1 & _ & Hwire1).
  unfold pending in Hheap, Hqu. rewrite Hnet in Hheap, Hqu, Hnet1. simpl hd in Hheap, Hqu.
  rewrite Hid in Hheap, Hqu. simpl in Hnet1.
  set (parts := Obj.set Obj.num_idx c (Js.strip_quotes etag) []) in *.
  assert (md_at w1 md
          = with_parts parts (0 + 1) (with_uploadId (Some (String a id)) (md_at w md)))
    as Hmd1.
  { unfold md_at at 1. by rewrite Hheap, lookup_insert_eq. }
  assert (in_range c) as Hrc.
  { assert (c ∈ seqZ 1 k) as Hc by (rewrite <-Hperm; left).
    apply elem_of_seqZ in Hc. unfold in_range. lia. }
  destruct (keys_set_new c (Js.strip_quotes etag) []) as [Hs' Hp'];
    [done|constructor|constructor|by apply obj_has_false|].
  fold parts in Hs', Hp'.
  destruct (s3_session_wire this path ct k md P tag a id Hk Hmax (c2 :: order) [c] rs' w1
              self1 rl rest crl)
    as (w2 & puts & qc & Hrun2 & Hfs2 & Hnet2 & Hwire2 & Hputs & Hqc);
    [done|done|by rewrite Hmd1|..|done|done|done|done|done|].
  { unfold s3_inv. rewrite Hmd1. simpl. split; [done|]. split; [by rewrite Hp'|done]. }
  { rewrite Hmd1. simpl. apply (Forall_obj_set Obj.num_idx); [constructor|by simpl]. }
  { done. }
  rewrite upload_all_s3_cons, Hrun, Hrun2.
  exists w2, q0, (q :: puts), qc. split.
  { do 2 f_equal. simpl length in *. rewrite (seqZ_cons 1 k) by lia.
    f_equal. f_equal; lia. }
  split; [congruence|]. split; [done|]. split.
  { rewrite Hwire2, Hwire1, <-app_assoc. done. }
  split; [done|]. split; [done|]. split; [done|]. split; [|done].
  constructor; [|done]. done.
Qed.

(** ** The tag that a call of [S3.uploadData] records *)

Lemma S3_uploadPart_ok this data path ct c uploadId w o w' :
  S3_uploadPart this data path ct c uploadId w = (Ok o, w') →
  o = reply_etag (pending w) ∧ w_heap w' = w_heap w ∧ w_net w' = tl (w_net w).
Proof.
  intros Hrun. destruct (S3_uploadPart_ready _ _ _ _ _ _ _ _ _ Hrun) as (self & Hself & Hcall).
  destruct (S3_uploadPart_run this data path ct c uploadId w self Hself Hcall)
    as (self' & q & Hrun' & _).
  rewrite Hrun in Hrun'. destruct (answer true (pending w)); [|done].
  by injection Hrun' as -> ->.
Qed.

Lemma S3_createMultipartUpload_ok this path ct w o w' :
  S3_createMultipartUpload this path ct w = (Ok o, w') →
  w_heap w' = w_heap w ∧ w_net w' = tl (w_net w).
Proof.
  intros Hrun.
  destruct (S3_createMultipartUpload_ready _ _ _ _ _ _ Hrun) as (self & Hself & Hcall).
  destruct (S3_createMultipartUpload_run this path ct w self Hself Hcall)
    as (self' & q & Hrun' & _).
  rewrite Hrun in Hrun'. destruct (answer true (pending w)); [|done].
  by injection Hrun' as _ ->.
Qed.

Lemma S3_uploadData_tag this data path ct c chunks md w n w' :
  (c =? 1) && (chunks =? 1) = false →
  S3_uploadData this data path ct c chunks md w = (Ok n, w') →
  ∃ etag,
    reply_etag (part_reply w md) = Some etag
    ∧ md_parts (md_at w' md)
      = Some (Obj.set Obj.num_idx c (Js.strip_quotes etag) (default [] (md_parts (md_at w md)))).
Proof.
  intros Hmode Hrun. unfold S3_uploadData in Hrun.
  apply bind_ok in Hrun as ([] & w0 & He & Hrun). rewrite emit_run in He. injection He as <-.
  rewrite Hmode in Hrun.
  apply bind_ok in Hrun as (m0 & w0' & Hm0 & Hrun). rewrite md_read_run in Hm0.
  injection Hm0 as <- <-.
  apply bind_ok in Hrun as (uploadId & w1 & Hid & Hrun).
  set (w0 := set_trace _ w) in *.
  assert (md_parts (md_at w1 md) = md_parts (md_at w md)
          ∧ md_chunks (md_at w1 md) = md_chunks (md_at w md)
          ∧ pending w1 = part_reply w md) as (Hp1 & Hc1 & Hpend).
  { unfold part_reply. change (md_at w0 md) with (md_at w md) in Hid.
    destruct (md_uploadId (md_at w md)) as [[|a id]|] eqn:Eu.
    2: { rewrite ret_run in Hid. by injection Hid as _ <-. }
    all: apply bind_ok in Hid as (u & wc & Hcreate & Hid);
      apply S3_createMultipartUpload_ok in Hcreate as [Hh Hn];
      apply bind_ok in Hid as (mc & wc' & Hmc & Hid); rewrite md_read_run in Hmc;
      injection Hmc as <- <-;
      apply bind_ok in Hid as ([] & w1' & Hw & Hid); rewrite md_write_run in Hw;
      injection Hw as <-; rewrite ret_run in Hid; injection Hid as _ <-;
      rewrite md_at_set_heap; rewrite (md_at_heap _ _ md Hh);
      (split; [done|]); (split; [done|]); unfold pending; cbn [w_net set_heap];
      by rewrite Hn. }
  apply bind_ok in Hrun as (m1 & w1' & Hm1 & Hrun). rewrite md_read_run in Hm1.
  injection Hm1 as <- <-.
  apply bind_ok in Hrun as ([] & w2 & Hw2 & Hrun). rewrite md_write_run in Hw2.
  injection Hw2 as <-.
  set (w2 := set_heap _ w1) in *.
  apply bind_ok in Hrun as (o & w3 & Hpart & Hrun).
  apply S3_uploadPart_ok in Hpart as (-> & Hh3 & _).
  change (pending w2) with (pending w1) in Hrun. rewrite Hpend in Hrun.
  destruct (reply_etag (part_reply w md)) as [etag|]; [|done].
  exists etag. split; [done|]. cbv zeta in Hrun.
  apply bind_ok in Hrun as (m3 & w3' & Hm3 & Hrun). rewrite md_read_run in Hm3.
  injection Hm3 as <- <-.
  apply bind_ok in Hrun as ([] & w4 & Hw4 & Hrun). rewrite md_write_run in Hw4.
  injection Hw4 as <-.
  set (w4 := set_heap _ w3) in *.
  apply bind_ok in Hrun as ([] & w5 & Hfin & Hrun). rewrite ret_run in Hrun.
  injection Hrun as _ <-.
  assert (w_heap w5 = w_heap w4) as Hh5.
  { destruct (_ =? chunks); [|rewrite ret_run in Hfin; by injection Hfin as <-].
    apply bind_ok in Hfin as (b & w5' & Hcomp & Hfin). rewrite ret_run in Hfin.
    injection Hfin as <-.
    destruct (S3_complete_run this path uploadId
                (Obj.set Obj.num_idx c (Js.strip_quotes etag)
                   (default [] (md_parts (md_at w3 md)))) w4)
      as (r & w'' & Hr & _ & Hh & _).
    rewrite Hcomp in Hr. by injection Hr as _ <-. }
  rewrite (md_at_heap _ _ md Hh5). unfold w4. rewrite md_at_set_heap.
  cbn [md_parts with_parts]. do 2 f_equal.
  rewrite (md_at_heap _ _ md Hh3). unfold w2. rewrite md_at_set_heap.
  cbn [md_parts with_parts default from_option id]. by rewrite Hp1.
Qed.

(** ** Single-shot writes *)

Lemma Local_write_run this p data ct w :
  p ≠ [] →
  (Fs.mkdir (Path.dirname p) (w_fs w)).1 = true →
  (Fs.mkdir (Path.dirname p) (w_fs w)).2 !! p ≠ Some Dir →
  Local_write this p data ct w
  = (Ok true,
     set_fs (<[p := File (to_buffer data)]> (Fs.mkdir (Path.dirname p) (w_fs w)).2)
       (set_trace (w_trace w ++ [EvWrite (OfLocal this) (Path.show p) data ct]) w)).
Proof.
  intros Hp Hmk Hnd. unfold Local_write.
  unfold bind at 1. rewrite emit_run. cbv beta iota.
  unfold try_catch. unfold bind at 1. rewrite createDirectory_run. cbv beta iota.
  unfold bind at 1. unfold fs_writeFile.
  erewrite fs_update_ok; [by autorewrite with world|].
  autorewrite with world. unfold Fs.writeFile.
  rewrite dirs_ok_is_dir by by apply mkdir_dirs_ok.
  rewrite lookup_nonempty by done.
  by destruct ((Fs.mkdir (Path.dirname p) (w_fs w)).2 !! p) as [[]|].
Qed.

Lemma prepared_frame fs p q :
  (Fs.mkdir (Path.dirname p) fs).1 = true →
  q ≠ tmp_dir p →
  prepared fs p !! q = (Fs.mkdir (Path.dirname p) fs).2 !! q.
Proof.
  intros Hmk Hq. unfold prepared.
  set (fsd := (Fs.mkdir (Path.dirname p) fs).2).
  assert (dirs_ok fsd (Path.dirname p)) as Hok by by apply mkdir_dirs_ok.
  unfold Fs.mkdir, tmp_dir. rewrite mkdir_go_app.
  pose proof (mkdir_id _ _ Hok) as Hid. unfold Fs.mkdir in Hid. rewrite Hid. simpl.
  destruct (fsd !! (Path.dirname p ++ ["tmp_" +:+ Path.basename p])) as [[]|]; simpl; try done.
  by rewrite lookup_insert_ne.
Qed.

Lemma Local_uploadData_single this p data ct c md w :
  p ≠ [] →
  (Fs.mkdir (Path.dirname p) (w_fs w)).1 = true →
  (Fs.mkdir (Path.dirname p) (w_fs w)).2 !! p ≠ Some Dir →
  Local_uploadData this data p ct c 1 md w
  = (Ok 1,
     set_fs (<[p := File (to_buffer data)]> (Fs.mkdir (Path.dirname p) (w_fs w)).2)
       (set_trace (w_trace w ++ [EvUploadData (OfLocal this) data (Path.show p) ct c 1 md]) w)).
Proof.
  intros Hp Hmk Hnd. unfold Local_uploadData.
  unfold bind at 1. rewrite emit_run. cbv beta iota.
  unfold bind at 1. rewrite createDirectory_run. cbv beta iota.
  change (1 =? 1) with true. cbv beta iota.
  unfold try_catch. unfold bind at 1. unfold fs_writeFile.
  erewrite fs_update_ok; [by autorewrite with world|].
  autorewrite with world. unfold Fs.writeFile.
  rewrite dirs_ok_is_dir by by apply mkdir_dirs_ok.
  rewrite lookup_nonempty by done.
  by destruct ((Fs.mkdir (Path.dirname p) (w_fs w)).2 !! p) as [[]|].
Qed.

Lemma dirname_frame (fs : gmap (list string) node) p q :
  (length (Path.dirname p) < length q)%nat →
  (Fs.mkdir (Path.dirname p) fs).2 !! q = fs !! q.
Proof. intros Hl. apply mkdir_frame. by apply longer_not_prefix. Qed.

Lemma session_paths_long p k q :
  session_paths p k q → (length (Path.dirname p) < length q)%nat.
Proof.
  intros [->|[->|Hq]].
  - rewrite chunk_log_eq, length_app, length_tmp_dir. simpl. lia.
  - rewrite length_tmp_dir. lia.
  - apply in_parts in Hq as (j & _ & ->).
    rewrite chunk_part_eq, length_app, length_tmp_dir. simpl. lia.
Qed.

Lemma session_paths_absent (fs : gmap (list string) node) p k q :
  fs !! tmp_dir p = None →
  Fs.children fs (tmp_dir p) = [] →
  session_paths p k q → fs !! q = None.
Proof.
  intros Ht Hch [->|[->|Hq]].
  - eapply children_nil_inv; [done|apply is_child_tmp_log].
  - done.
  - apply in_parts in Hq as (j & _ & ->).
    eapply children_nil_inv; [done|apply is_child_tmp_part].
Qed.

Lemma local_join_order this p ct k md P w order :
  let content := joined (λ j, to_buffer (P j)) 1 k in
  1 ≤ k →
  order ≡ₚ seqZ 1 k →
  p ≠ [] →
  (Fs.mkdir (tmp_dir p) (w_fs w)).1 = true →
  w_fs w !! tmp_dir p = None →
  Fs.children (w_fs w) (tmp_dir p) = [] →
  w_fs w !! p = None →
  ∃ w1 w2,
    upload_all (OfLocal this) p ct k md P order w = (Ok (seqZ 1 k), w1)
    ∧ Device_write (OfLocal this) p (Buf content) ct w = (Ok true, w2)
    ∧ w_fs w1 = w_fs w2
    ∧ w_fs w1 !! p = Some (File content).
Proof.
  intros content Hk Hperm Hp Hmk Htmp Hch Hnone.
  destruct (prepared_eq _ _ Hmk) as [Hprep Hmkd].
  assert ((Fs.mkdir (Path.dirname p) (w_fs w)).2 !! p = None) as Hpd.
  { rewrite mkdir_frame; [done|]. apply longer_not_prefix. rewrite (length_dirname p Hp). lia. }
  unfold Device_write.
  rewrite Local_write_run; [|done|done|by rewrite Hpd].
  destruct (decide (k = 1)) as [->|Hk1].
  - (* one chunk: the upload is the write itself *)
    apply Permutation_singleton_r in Hperm. subst order.
    unfold upload_all, Device_uploadData.
    unfold bind at 1. rewrite Local_uploadData_single; [|done|done|by rewrite Hpd].
    cbv beta iota. eexists _, _. split; [reflexivity|]. split; [reflexivity|].
    autorewrite with world. unfold content, joined. simpl.
    rewrite string_app_nil_r.
    split; [done|]. by rewrite lookup_insert_eq.
  - destruct (local_session_fresh this p ct k md P w "" order)
      as (w1 & Hrun & Htgt & Hrest); [lia|done|done|done|by rewrite Hnone|done|].
    rewrite string_app_nil_l in Htgt.
    exists w1. eexists. split; [done|]. split; [reflexivity|].
    autorewrite with world. split; [|done].
    apply map_eq. intros q. destruct (decide (q = p)) as [->|Hq].
    { by rewrite Htgt, lookup_insert_eq. }
    rewrite lookup_insert_ne by done. rewrite Hrest by done.
    case_decide as Hs.
    + rewrite dirname_frame by by eapply session_paths_long.
      symmetry. by eapply session_paths_absent.
    + apply prepared_frame; [done|]. intros ->. apply Hs. right. by left.
Qed.

(** ** [move], join order and the appending join *)

(** C9: for every device and every path [x], [move(x, x)] returns [false]
    and leaves the whole state (files, device fields, metadata, network,
    call log) as it was. *)
Theorem move_same_path (device : Dev) (x : Place device) (w : World) :
  Device_move device x x w = (Ok false, w).
Proof.
  destruct device as [l|s]; unfold Device_move, Local_move, Device_move_base;
    by rewrite String.eqb_refl.
Qed.

(** C4, as the code has it: chunks [1..k] uploaded once each, in any order.
    On [Local], in a session that starts with no temporary directory and no
    file at the target, the file system ends exactly as a single [write] of
    the payloads concatenated in ascending index order leaves it.  On [S3],
    with fewer than [2^32 - 1] parts and an empty bag, a session whose
    requests are all answered returns the counts [1..k] and sends, in this
    order: one [POST] that opens the upload; for each chunk in arrival order
    one [PUT] that carries the payload of that chunk under its part number
    and the upload id; one [POST] that completes the upload, whose body lists
    the parts [1..k] by ascending part number, each with the tag that the
    [PUT] of that part was answered with. *)
Theorem join_order_ascending (k : Z) (order : list Z) (P : Z → Data) :
  1 ≤ k →
  order ≡ₚ seqZ 1 k →
  (∀ this p ct md w,
     let content := joined (λ j, to_buffer (P j)) 1 k in
     p ≠ [] →
     (Fs.mkdir (tmp_dir p) (w_fs w)).1 = true →
     w_fs w !! tmp_dir p = None →
     Fs.children (w_fs w) (tmp_dir p) = [] →
     w_fs w !! p = None →
     ∃ w1 w2,
       upload_all (OfLocal this) p ct k md P order w = (Ok (seqZ 1 k), w1)
       ∧ Device_write (OfLocal this) p (Buf content) ct w = (Ok true, w2)
       ∧ w_fs w1 = w_fs w2
       ∧ w_fs w1 !! p = Some (File content))
  ∧ (∀ this path ct md w self tag a id r0 rs rl rest,
       2 ≤ k < Z.of_N Obj.max_index →
       w_s3 w !! this = Some self →
       callable self →
       md_uploadId (md_at w md) = None →
       default [] (md_parts (md_at w md)) = [] →
       default 0 (md_chunks (md_at w md)) = 0 →
       w_net w = r0 :: rs ++ rl :: rest →
       reply_uploadId r0 = Some (String a id) →
       Forall2 (tagged_by tag) order rs →
       (∃ cr, answer true rl = Ok cr) →
       ∃ w' create puts complete,
         upload_all (OfS3 this) path ct k md P order w = (Ok (seqZ 1 k), w')
         ∧ w_fs w' = w_fs w
         ∧ w_net w' = rest
         ∧ w_wire w' = w_wire w ++ create :: puts ++ [complete]
         ∧ q_method create = "POST"
         ∧ q_body create = Some (Text "")
         ∧ (∃ base, q_url create = base +:+ query_string [("uploads", "")])
         ∧ Forall2 (λ c, carries_part (String a id) c (P c)) order puts
         ∧ q_method complete = "POST"
         ∧ q_body complete = Some (Text (part_list tag (seqZ 1 k)))
         ∧ ∃ base, q_url complete = base +:+ query_string [("uploadId", String a id)]).
Proof.
  intros Hk Hperm. split.
  - intros this p ct md w content. by apply local_join_order.
  - intros this path ct md w self tag a id r0 rs rl rest Hk2.
    by apply s3_session_start.
Qed.

Lemma join_order_ascending_witness :
  (∃ w1 w2,
     upload_all (OfLocal disk) ["up"; "f.txt"] "text/plain" 3 0 piece [3; 1; 2] empty_world
     = (Ok (seqZ 1 3), w1)
     ∧ Device_write (OfLocal disk) ["up"; "f.txt"]
         (Buf (joined (λ j, to_buffer (piece j)) 1 3)) "text/plain" empty_world
       = (Ok true, w2)
     ∧ w_fs w1 = w_fs w2
     ∧ w_fs w1 !! ["up"; "f.txt"]
       = Some (File (joined (λ j, to_buffer (piece j)) 1 3)))
  ∧ ∃ w' create puts complete,
      upload_all (OfS3 0) "k/obj" "text/plain" 3 0 piece [3; 1; 2]
        (cloud [accepted; tagged "t3"; tagged "t1"; tagged "t2"; accepted])
      = (Ok (seqZ 1 3), w')
      ∧ w_fs w' = w_fs (cloud [accepted; tagged "t3"; tagged "t1"; tagged "t2"; accepted])
      ∧ w_net w' = []
      ∧ w_wire w'
        = w_wire (cloud [accepted; tagged "t3"; tagged "t1"; tagged "t2"; accepted])
          ++ create :: puts ++ [complete]
      ∧ q_method create = "POST"
      ∧ q_body create = Some (Text "")
      ∧ (∃ base, q_url create = base +:+ query_string [("uploads", "")])
      ∧ Forall2 (λ c, carries_part "u-1" c (piece c)) [3; 1; 2] puts
      ∧ q_method complete = "POST"
      ∧ q_body complete = Some (Text (part_list (λ c, "t" +:+ Js.str c) (seqZ 1 3)))
      ∧ ∃ base, q_url complete = base +:+ query_string [("uploadId", "u-1")].
Proof.
  assert ([3; 1; 2] ≡ₚ seqZ 1 3) as Hperm.
  { change (seqZ 1 3) with [1; 2; 3]. apply (bool_decide_unpack _). by vm_compute. }
  destruct (join_order_ascending 3 [3; 1; 2] piece ltac:(lia) Hperm) as [HL HS]. split.
  - apply (HL disk ["up"; "f.txt"] "text/plain" 0%nat empty_world); by vm_compute.
  - apply (HS 0%nat "k/obj" "text/plain" 0%nat
             (cloud [accepted; tagged "t3"; tagged "t1"; tagged "t2"; accepted]) bucket0
             (λ c, "t" +:+ Js.str c) "u"%char "-1" accepted
             [tagged "t3"; tagged "t1"; tagged "t2"] accepted []).
    + by vm_compute.
    + reflexivity.
    + left. reflexivity.
    + reflexivity.
    + reflexivity.
    + reflexivity.
    + reflexivity.
    + by vm_compute.
    + repeat (apply Forall2_cons; split; [eexists; split; by vm_compute|]).
      apply Forall2_nil_2.
    + vm_compute. by eexists.
Defined.

(** C4 as stated fails on [Local] when a file is already at the target: the
    session of chunks 1 and 2, in ascending order, leaves the old bytes in
    front of the two payloads, where the single [write] of their
    concatenation leaves the payloads alone. *)
Lemma join_differs_from_write :
  let start := with_files {[ ["up"] := Dir; ["up"; "f.txt"] := File "old" ]} in
  let session := upload_all (OfLocal disk) ["up"; "f.txt"] "text/plain" 2 0 piece [1; 2]
                   start in
  let single := Device_write (OfLocal disk) ["up"; "f.txt"]
                  (Buf (joined (λ j, to_buffer (piece j)) 1 2)) "text/plain" start in
  session.1 = Ok [1; 2]
  ∧ single.1 = Ok true
  ∧ w_fs session.2 !! ["up"; "f.txt"] = Some (File "old<1><2>")
  ∧ w_fs single.2 !! ["up"; "f.txt"] = Some (File "<1><2>").
Proof. by vm_compute. Qed.

(** C10: [joinChunks] appends to the target without truncating it: when a
    file is already at the target path, the session that the last chunk
    completes leaves the old bytes followed by the joined chunks. *)
Theorem join_appends_to_existing this p ct k md P w old order :
  2 ≤ k →
  order ≡ₚ seqZ 1 k →
  p ≠ [] →
  (Fs.mkdir (tmp_dir p) (w_fs w)).1 = true →
  Fs.children (w_fs w) (tmp_dir p) = [] →
  w_fs w !! p = Some (File old) →
  ∃ w',
    upload_all (OfLocal this) p ct k md P order w = (Ok (seqZ 1 k), w')
    ∧ w_fs w' !! p = Some (File (old +:+ joined (λ j, to_buffer (P j)) 1 k)).
Proof.
  intros Hk Hperm Hp Hmk Hch Hold.
  destruct (local_session_fresh this p ct k md P w old order)
    as (w' & Hrun & Htgt & _); [done|done|done|done|by rewrite Hold|done|].
  by exists w'.
Qed.

Lemma join_appends_to_existing_witness :
  ∃ w',
    upload_all (OfLocal disk) ["up"; "f.txt"] "text/plain" 2 0 piece [2; 1]
      (with_files {[ ["up"] := Dir; ["up"; "f.txt"] := File "old" ]})
    = (Ok (seqZ 1 2), w')
    ∧ w_fs w' !! ["up"; "f.txt"]
      = Some (File ("old" +:+ joined (λ j, to_buffer (piece j)) 1 2)).
Proof.
  apply (join_appends_to_existing disk ["up"; "f.txt"] "text/plain" 2 0%nat piece
           (with_files {[ ["up"] := Dir; ["up"; "f.txt"] := File "old" ]}) "old" [2; 1]).
  - lia.
  - change (seqZ 1 2) with [1; 2]. apply Permutation_swap.
  - by vm_compute.
  - by vm_compute.
  - by vm_compute.
  - by vm_compute.
Defined.

(** ** The call log of [Local.uploadData] *)

Lemma silent_ret {A} (a : A) : silent (ret a).
Proof. by intros w. Qed.

Lemma silent_throw {A} e : silent (@throw A e).
Proof. by intros w. Qed.

Lemma silent_bind {A B} (m : M A) (k : A → M B) :
  silent m → (∀ a, silent (k a)) → silent (bind m k).
Proof.
  intros Hm Hk w. unfold bind. specialize (Hm w).
  destruct (m w) as [[a|e] w1]; simpl in *; [|done]. by rewrite Hk.
Qed.

Lemma silent_try_catch {A} (m : M A) (h : string → M A) :
  silent m → (∀ e, silent (h e)) → silent (try_catch m h).
Proof.
  intros Hm Hh w. unfold try_catch. specialize (Hm w).
  destruct (m w) as [[a|e] w1]; simpl in *; [done|]. by rewrite Hh.
Qed.

Lemma silent_fs_update op code : silent (fs_update op code).
Proof. intros w. unfold fs_update. by destruct (op (w_fs w)). Qed.

Lemma silent_fs_readFile p : silent (fs_readFile p).
Proof. intros w. unfold fs_readFile. by destruct (Fs.readFile p (w_fs w)). Qed.

Lemma silent_fs_stat p : silent (fs_stat p).
Proof. intros w. unfold fs_stat. by destruct (Fs.lookup (w_fs w) p). Qed.

Lemma silent_fs_mkdir p : silent (fs_mkdir p).
Proof. intros w. unfold fs_mkdir. by destruct (Fs.mkdir p (w_fs w)) as [[] ?]. Qed.

Lemma silent_for_range {body : Z → M unit} n : ∀ i,
  (∀ j, silent (body j)) → silent (for_range n i body).
Proof.
  induction n as [|n IH]; intros i Hb; [apply silent_ret|].
  simpl. apply silent_bind; [apply Hb|]. intros _. by apply IH.
Qed.

Lemma silent_network_only {A} (m : M A) : network_only m → silent m.
Proof. intros H w. apply H. Qed.

Lemma silent_fs_appendFile p d : silent (fs_appendFile p d).
Proof. apply silent_fs_update. Qed.

Lemma silent_fs_writeFile p d : silent (fs_writeFile p d).
Proof. apply silent_fs_update. Qed.

Lemma silent_fs_unlink p : silent (fs_unlink p).
Proof. apply silent_fs_update. Qed.

Lemma silent_fs_rmdir p : silent (fs_rmdir p).
Proof. apply silent_fs_update. Qed.

Create HintDb quiet.
#[export] Hint Resolve silent_ret silent_throw silent_fs_update silent_fs_readFile
  silent_fs_stat silent_fs_mkdir silent_fs_appendFile silent_fs_writeFile silent_fs_unlink
  silent_fs_rmdir : quiet.

Ltac quiet_step :=
  repeat lazymatch goal with
         | |- silent (bind _ _) => apply silent_bind; [|intros ?]
         | |- silent (try_catch _ _) => apply silent_try_catch; [|intros ?]
         | |- silent (for_range _ _ _) => apply silent_for_range; intros ?
         | |- silent _ => solve [auto with quiet]
         end.

Lemma silent_join_part p i : silent (join_part p i).
Proof. unfold join_part. quiet_step. Qed.

#[export] Hint Resolve silent_join_part : quiet.

Lemma joinChunks_trace this p k w :
  w_trace (Local_joinChunks this p k w).2 = w_trace w ++ [EvJoinChunks (Path.show p) k].
Proof.
  unfold Local_joinChunks. unfold bind at 1. rewrite emit_run. cbv beta iota.
  set (m := bind _ _).
  assert (silent m) as Hm by (unfold m; quiet_step).
  by rewrite Hm.
Qed.

Lemma appendFile_read fs fs' q line :
  q ≠ [] →
  Fs.appendFile q line fs = Some fs' →
  ∃ L, log_content (fs !! q) = Some L ∧ Fs.readFile q fs' = Some (L +:+ line).
Proof.
  intros Hq. unfold Fs.appendFile, Fs.readFile.
  destruct (Fs.is_dir fs (Path.dirname q)); [|done].
  rewrite !lookup_nonempty by done.
  destruct (fs !! q) as [[old|]|]; intros [= <-]; rewrite ?lookup_insert_eq.
  - by exists old.
  - by exists "".
Qed.

Lemma Local_uploadData_cases this data p ct c chunks md w r w' :
  chunks ≠ 1 →
  Local_uploadData this data p ct c chunks md w = (r, w') →
  local_outcome this data p ct c chunks md w r w'.
Proof.
  intros Hch. unfold Local_uploadData.
  unfold bind at 1. rewrite emit_run. cbv beta iota.
  unfold bind at 1. rewrite createDirectory_run. cbv beta iota.
  apply Z.eqb_neq in Hch. rewrite Hch. cbv beta iota zeta.
  unfold bind at 1. rewrite dirname_chunk_log, createDirectory_run. cbv beta iota.
  autorewrite with world. fold (prepared (w_fs w) p).
  set (w0 := set_fs _ _). unfold try_catch.
  unfold bind at 1. unfold fs_appendFile.
  destruct (Fs.appendFile (chunk_log p) (to_buffer (Text (Js.str c +:+ Js.nl))) (w_fs w0))
    as [fs1|] eqn:Happ.
  2:{ rewrite (fs_update_fail _ _ _ Happ). cbv beta iota. rewrite throw_run.
      intros [= <- <-]. apply local_failed_early; [done|]. unfold w0. by autorewrite with world. }
  rewrite (fs_update_ok _ _ _ _ Happ). cbv beta iota.
  apply appendFile_read in Happ as (L & HL & Hread); [|apply chunk_log_nonempty].
  unfold w0 in HL. autorewrite with world in HL.
  unfold bind at 1. erewrite fs_readFile_ok by (autorewrite with world; exact Hread).
  cbv beta iota.
  assert (Local_received (w_fs w) p c = Some (count_lines (L +:+ Js.str c +:+ Js.nl))) as Hrec.
  { unfold Local_received. by rewrite HL. }
  change (to_buffer (Text (Js.str c +:+ Js.nl))) with (Crypto.utf8 (Js.str c +:+ Js.nl)) in *.
  rewrite utf8_line in *.
  unfold bind at 1. unfold fs_writeFile.
  destruct (Fs.writeFile (chunk_part p c) (to_buffer data) fs1) as [fs2|] eqn:Hwr.
  2:{ rewrite fs_update_fail by (by autorewrite with world). cbv beta iota. rewrite throw_run.
      intros [= <- <-]. apply local_failed_early; [done|].
      unfold w0. by autorewrite with world. }
  erewrite fs_update_ok by (autorewrite with world; exact Hwr). cbv beta iota.
  destruct (chunks =? count_lines (L +:+ Js.str c +:+ Js.nl)) eqn:Heq.
  - apply Z.eqb_eq in Heq. rewrite <-Heq in *.
    unfold bind at 1.
    set (w2 := set_fs fs2 _).
    pose proof (joinChunks_trace this p chunks w2) as Htr.
    destruct (Local_joinChunks this p chunks w2) as [[[]|e] w3]; simpl in Htr.
    + rewrite ret_run. intros [= <- <-]. apply local_joined; [done|by left|].
      rewrite Htr. unfold w2, w0. autorewrite with world. by rewrite <-app_assoc.
    + rewrite throw_run. intros [= <- <-]. apply local_joined; [done|by right|].
      rewrite Htr. unfold w2, w0. autorewrite with world. by rewrite <-app_assoc.
  - apply Z.eqb_neq in Heq. rewrite ret_run. intros [= <- <-].
    eapply local_counted; [done|congruence|done|].
    unfold w0. by autorewrite with world.
Qed.

(** C2: a call of [uploadData] in multi-chunk mode finalises the upload
    ([joinChunks] on [Local], [completeMultipartUpload] on [S3]) exactly when
    the received-count it tracks equals the [chunks] of the caller.  Nothing
    checks which indices arrived: a session of parts 5 and 7 of 2 completes
    on [S3], and on [Local] chunk 1 sent twice of 2 starts the join. *)
Theorem finalization_trigger :
  (∀ device data path ct c chunks md w,
     chunks ≠ 1 →
     let run := Device_uploadData device data path ct c chunks md w in
     ∃ tr,
       w_trace run.2 = w_trace w ++ tr
       ∧ (∀ n, run.1 = Ok n →
               tracked device path c md w run.2 = Some n
               ∧ (finalized tr = true ↔ n = chunks))
       ∧ (finalized tr = true → tracked device path c md w run.2 = Some chunks))
  ∧ (let run := upload_all (OfS3 0) "k/obj" "text/plain" 2 0 piece [5; 7]
                  (cloud (repeat accepted 4)) in
     run.1 = Ok [1; 2]
     ∧ completed (w_trace run.2) = [[(5, "abc"); (7, "abc")]])
  ∧ (let first := Device_uploadData (OfLocal disk) (piece 1) ["up"; "f.txt"] "text/plain" 1 2 0
                    empty_world in
     let again := Device_uploadData (OfLocal disk) (piece 1) ["up"; "f.txt"] "text/plain" 1 2 0
                    first.2 in
     first.1 = Ok 1
     ∧ again.1 = Throw "Failed to write chunk 1"
     ∧ finalized (w_trace again.2) = true).
Proof.
  split; [|split; [by vm_compute|by vm_compute]].
  intros device data path ct c chunks md w Hch run.
  destruct (Device_uploadData device data path ct c chunks md w) as [r w'] eqn:E.
  subst run. simpl. destruct device as [this|this]; simpl in E.
  - apply Local_uploadData_cases in E; [|done].
    destruct E as [-> Htr|n Hrec Hne -> Htr|Hrec Hr Htr]; eexists; (split; [exact Htr|]).
    + split; [by intros n [=]|by intros [=]].
    + split; [|by intros [=]]. intros n' [= <-]. split; [done|]. split; [by intros [=]|done].
    + split; [|done]. destruct Hr as [-> | ->]; [|by intros n [=]].
      intros n [= <-]. done.
  - apply S3_uploadData_multi in E.
    2:{ apply andb_false_intro2. by apply Z.eqb_neq. }
    destruct E as [e -> Htr _ _|etag parts0 count0 parts n Hparts Hcount Hcase].
    + eexists. split; [exact Htr|]. split; [by intros n [=]|by intros [=]].
    + destruct Hcase as [(Hne & -> & Htr)|(Heq & Hr & Htr)];
        eexists; (split; [exact Htr|]).
      * split; [|by intros [=]]. intros n' [= <-]. split; [done|].
        split; [by intros [=]|done].
      * split; [|by unfold tracked; rewrite Hcount, Heq].
        destruct Hr as [-> | [e ->]]; [|by intros n' [=]].
        intros n' [= <-]. done.
Qed.

(** C1: on [Local] the claim fails.  Chunk 1 of 3 sent a second time is
    counted again (1, then 2); chunk 2 then brings the count to 3 and starts
    the join, which finds no part 3 and fails, leaving a target made of the
    second payload of chunk 1 and chunk 2.  [S3] counts the index once. *)
Theorem Local_reupload_counted_again :
  let first := Device_uploadData (OfLocal disk) (Text "a") ["up"; "f.txt"] "text/plain" 1 3 0
                 empty_world in
  let again := Device_uploadData (OfLocal disk) (Text "b") ["up"; "f.txt"] "text/plain" 1 3 0
                 first.2 in
  let other := Device_uploadData (OfLocal disk) (Text "c") ["up"; "f.txt"] "text/plain" 2 3 0
                 again.2 in
  let s_first := Device_uploadData (OfS3 0) (Text "a") "k/obj" "text/plain" 1 3 0
                   (cloud (repeat accepted 3)) in
  let s_again := Device_uploadData (OfS3 0) (Text "b") "k/obj" "text/plain" 1 3 0 s_first.2 in
  first.1 = Ok 1
  ∧ again.1 = Ok 2
  ∧ other.1 = Throw "Failed to write chunk 2"
  ∧ w_fs other.2 !! ["up"; "f.txt"] = Some (File "bc")
  ∧ s_first.1 = Ok 1
  ∧ s_again.1 = Ok 1.
Proof. by vm_compute. Qed.

(** ** [abort] *)

Lemma lookup_dirname_delete (fs : gmap (list string) node) p :
  p ≠ [] → Fs.lookup (delete p fs) (Path.dirname p) = Fs.lookup fs (Path.dirname p).
Proof.
  intros Hp. unfold Fs.lookup. destruct (Path.dirname p) eqn:E; [done|]. rewrite <-E.
  apply lookup_delete_ne. intros H. apply (f_equal length) in H.
  rewrite (length_dirname p Hp) in H. lia.
Qed.

Lemma rmdir_absent (fs : gmap (list string) node) p : fs !! p = None → Fs.rmdir p fs = None.
Proof. intros H. unfold Fs.rmdir. destruct p; [done|]. by rewrite H. Qed.

Lemma Local_abort_run this p extra w :
  Fs.lookup (w_fs w) p ≠ Some Dir →
  is_Some (Fs.lookup (w_fs w) (Path.dirname p)) →
  w_fs w !! tmp_dir p = None →
  Local_abort this p extra w = (Ok false, set_fs (delete p (w_fs w)) w).
Proof.
  intros Hnd Hparent Htmp.
  assert (p ≠ []) as Hp by (by intros ->).
  rewrite lookup_nonempty in Hnd by done.
  unfold Local_abort. unfold bind at 1. rewrite exists_run. cbv beta iota.
  rewrite lookup_nonempty by done.
  assert (∃ w1, (if bool_decide (is_Some (w_fs w !! p)) then fs_unlink p else ret tt) w
                = (Ok tt, w1) ∧ w1 = set_fs (delete p (w_fs w)) w) as (w1 & Hun & Hw1).
  { destruct (w_fs w !! p) as [[d|]|] eqn:E.
    - rewrite bool_decide_true by done. eexists. split; [|done].
      apply fs_update_ok. unfold Fs.unlink. by rewrite lookup_nonempty, E.
    - done.
    - rewrite bool_decide_false by (by intros []). eexists. split; [done|].
      rewrite delete_id by done. by rewrite set_fs_same. }
  unfold bind at 1. rewrite Hun. cbv beta iota.
  change (Path.join (Path.dirname p) ["tmp_" +:+ Path.basename p]) with (tmp_dir p).
  rewrite dirname_tmp_dir.
  unfold bind at 1. rewrite exists_run. cbv beta iota.
  assert (w_fs w1 !! tmp_dir p = None) as Htmp1.
  { subst w1. autorewrite with world. rewrite lookup_delete_ne; [done|].
    apply target_ne_tmp_dir. }
  rewrite bool_decide_true.
  2:{ subst w1. autorewrite with world. by rewrite lookup_dirname_delete. }
  cbv beta iota. unfold negb.
  unfold bind at 1. unfold Local_getFiles, try_catch, fs_readdir, Fs.is_dir.
  rewrite lookup_nonempty by apply tmp_dir_nonempty. rewrite Htmp1.
  rewrite ret_run. cbv beta iota.
  unfold for_each. unfold bind at 1. rewrite ret_run. cbv beta iota.
  unfold bind at 1. unfold fs_rmdir.
  rewrite fs_update_fail; [by rewrite ret_run, Hw1|].
  by apply rmdir_absent.
Qed.

(** C8, as the code has it.  On [Local], when the target is not a directory,
    its parent directory exists and there is no temporary directory, [abort]
    removes the target and returns [false] without throwing.  On [S3], for a
    device that can address its bucket, [abort] sends one [DELETE] for the
    upload id it is given and nothing else changes but the request headers
    of the device; it returns [true] when the request is answered with a
    success status and a body that, if it is XML, can be decoded, and throws
    the error of the request otherwise: it never returns [false]. *)
Theorem abort_nothing_to_abort (this : LocalDevice) (p : list string) (extra : string)
    (w : World) :
  Fs.lookup (w_fs w) p ≠ Some Dir →
  is_Some (Fs.lookup (w_fs w) (Path.dirname p)) →
  w_fs w !! tmp_dir p = None →
  Device_abort (OfLocal this) p extra w = (Ok false, set_fs (delete p (w_fs w)) w)
  ∧ ∀ s key id ws self,
      w_s3 ws !! s = Some self →
      callable self →
      ∃ self' q,
        Device_abort (OfS3 s) key id ws
        = (match answer true (pending ws) with
           | Ok _ => Ok true
           | Throw e => Throw e
           end, sent s self' q ws)
        ∧ q_method q = "DELETE"
        ∧ q_body q = None
        ∧ ∃ base, q_url q = base +:+ query_string [("uploadId", id)].
Proof.
  intros Hnd Hparent Htmp. split.
  - by apply Local_abort_run.
  - intros s key id ws self Hself Hcall.
    destruct (S3_abort_run s key id ws self Hself Hcall)
      as (self' & q & Hrun & _ & Hm & Hb & Hu).
    by exists self', q.
Qed.

Lemma abort_nothing_to_abort_witness :
  Device_abort (OfLocal disk) ["up"; "f.txt"] ""
    (with_files {[ ["up"] := Dir; ["up"; "f.txt"] := File "old" ]})
  = (Ok false,
     set_fs (delete (["up"; "f.txt"])
               (w_fs (with_files {[ ["up"] := Dir; ["up"; "f.txt"] := File "old" ]})))
       (with_files {[ ["up"] := Dir; ["up"; "f.txt"] := File "old" ]}))
  ∧ ∃ self' q,
      Device_abort (OfS3 0) "k/obj" "u-1" (cloud [accepted])
      = (match answer true (pending (cloud [accepted])) with
         | Ok _ => Ok true
         | Throw e => Throw e
         end, sent 0 self' q (cloud [accepted]))
      ∧ q_method q = "DELETE"
      ∧ q_body q = None
      ∧ ∃ base, q_url q = base +:+ query_string [("uploadId", "u-1")].
Proof.
  destruct (abort_nothing_to_abort disk ["up"; "f.txt"] ""
              (with_files {[ ["up"] := Dir; ["up"; "f.txt"] := File "old" ]}))
    as [HL HS].
  - vm_compute. discriminate.
  - vm_compute. by eexists.
  - by vm_compute.
  - split; [exact HL|].
    apply (HS 0%nat "k/obj" "u-1" (cloud [accepted]) bucket0); [reflexivity|].
    left. reflexivity.
Defined.

(** C8 as stated fails: with no temporary directory anywhere, [Local.abort]
    throws when the parent directory of the target is missing, and
    [S3.abort] throws when the service refuses the request. *)
Lemma abort_throws :
  w_fs empty_world !! tmp_dir (["missing"; "f.txt"]) = None
  ∧ (Device_abort (OfLocal disk) ["missing"; "f.txt"] "" empty_world).1
    = Throw "File doesn't exist: /missing"
  ∧ (Device_abort (OfS3 0) "k/obj" "" (cloud [refused])).1
    = Throw "HTTP 500: InternalError".
Proof. by vm_compute. Qed.

(** ** Failing computations *)

Lemma fails_throw {A} e : fails (@throw A e).
Proof. intros w. by exists e. Qed.

Lemma fails_bind_r {A B} (m : M A) (k : A → M B) : (∀ a, fails (k a)) → fails (bind m k).
Proof.
  intros Hk w. unfold bind. destruct (m w) as [[a|e] w1]; [apply Hk|by exists e].
Qed.

(** ** [S3.read] and [S3.transfer] *)

Lemma S3_read_run this path o l w :
  ∃ e w',
    S3_read this path o l w = (Throw e, w')
    ∧ w_trace w' = w_trace w ++ [EvRead (OfS3 this) path o l]
    ∧ w_fs w' = w_fs w
    ∧ w_heap w' = w_heap w.
Proof.
  unfold S3_read. unfold bind at 1. rewrite emit_run. cbv beta iota.
  set (m := bind _ _). set (w0 := set_trace _ w).
  assert (network_only m) as Hn by (unfold m; repeat net_step).
  assert (fails m) as Hf.
  { unfold m. do 6 (apply fails_bind_r; intros ?).
    destruct (c_body _); apply fails_throw. }
  destruct (Hn w0) as (H1 & H2 & H3). destruct (Hf w0) as [e He].
  destruct (m w0) as [r w']. simpl in *. subst r. by exists e, w'.
Qed.

Lemma md_new_run md w :
  md_new md w
  = (Ok (fresh (dom (w_heap w))), set_heap (<[fresh (dom (w_heap w)) := md]> (w_heap w)) w).
Proof. done. Qed.

Lemma at_rest_network_only {A} (m : M A) : network_only m → at_rest m.
Proof. intros H w. destruct (H w) as (? & _ & ?). done. Qed.

Lemma at_rest_reads_once {A} this path (m : M A) : at_rest m → reads_once this path m.
Proof. intros H w. destruct (H w). auto. Qed.

Lemma reads_once_bind {A B} this path (m : M A) (k : A → M B) :
  at_rest m → (∀ a, reads_once this path (k a)) → reads_once this path (bind m k).
Proof.
  intros Hm Hk w. unfold bind. destruct (Hm w) as [H1 H2].
  destruct (m w) as [[a|e] w1]; simpl in *; [|auto].
  destruct (Hk a w1) as [H3 H4]. rewrite H3, H1. split; [done|].
  by rewrite <-H2.
Qed.

Lemma reads_once_fails {A B} this path (m : M A) (k : A → M B) :
  fails m → reads_once this path m → reads_once this path (bind m k).
Proof.
  intros Hf Hm w. unfold bind. destruct (Hf w) as [e He]. specialize (Hm w).
  destruct (m w) as [r w1]. simpl in *. by subst r.
Qed.

Lemma reads_once_try_catch {A} this path (m : M A) (h : string → M A) :
  reads_once this path m → (∀ e, at_rest (h e)) → reads_once this path (try_catch m h).
Proof.
  intros Hm Hh w. unfold try_catch. specialize (Hm w).
  destruct (m w) as [[a|e] w1]; simpl in *; [done|].
  destruct (Hh e w1) as [H1 H2]. by rewrite H1, H2.
Qed.

Lemma fails_read this path o l : fails (S3_read this path o l).
Proof. intros w. destruct (S3_read_run this path o l w) as (e & w' & -> & _). by exists e. Qed.

Lemma reads_once_read this path o l : reads_once this path (S3_read this path o l).
Proof.
  intros w. destruct (S3_read_run this path o l w) as (e & w' & -> & Ht & Hf & _).
  simpl. split; [done|]. right. by exists o, l.
Qed.

Lemma fails_bind_l {A B} (m : M A) (k : A → M B) : fails m → fails (bind m k).
Proof.
  intros Hm w. unfold bind. destruct (Hm w) as [e He].
  destruct (m w) as [r w1]. simpl in *. subst r. by exists e.
Qed.

Lemma at_rest_md_new md : at_rest (md_new md).
Proof. by intros w. Qed.

Lemma at_rest_ret {A} (a : A) : at_rest (ret a).
Proof. by intros w. Qed.

Lemma at_rest_throw {A} e : at_rest (@throw A e).
Proof. by intros w. Qed.

Lemma reads_once_transfer this path device destination :
  reads_once this path (S3_transfer this path device destination).
Proof.
  unfold S3_transfer. apply reads_once_try_catch; [|intros; apply at_rest_throw].
  apply reads_once_bind; [apply at_rest_network_only, network_only_getInfo|].
  intros response. cbv zeta.
  apply reads_once_bind; [apply at_rest_network_only, network_only_s3_this|].
  intros self. match goal with |- context [if ?c then _ else _] => destruct c end.
  - apply reads_once_fails; [apply fails_read|apply reads_once_read].
  - apply reads_once_bind; [apply at_rest_md_new|]. intros metadata.
    destruct (Z.to_nat _) as [|n]; simpl for_range.
    + apply reads_once_bind; [apply at_rest_ret|]. intros _.
      apply at_rest_reads_once, at_rest_ret.
    + apply reads_once_fails.
      * apply fails_bind_l. unfold S3_transfer_chunk. apply fails_bind_l, fails_read.
      * apply reads_once_fails.
        -- unfold S3_transfer_chunk. apply fails_bind_l, fails_read.
        -- unfold S3_transfer_chunk.
           apply reads_once_fails; [apply fails_read|apply reads_once_read].
Qed.

(** C5: on [S3] the claim fails.  [S3.read] throws whenever its request has
    succeeded, so [S3.transfer] never reaches the destination: whatever the
    size, its call log gains at most one read, no [write] and no
    [uploadData], and the file system stays as it was; an object of 5 bytes
    with a chunk size of 20 MB, every request accepted, ends in
    ["File not found"] instead of a single-shot write. *)
Theorem S3_transfer_never_writes this path device destination w :
  let run := S3_transfer this path device destination w in
  w_fs run.2 = w_fs w
  ∧ (w_trace run.2 = w_trace w
     ∨ ∃ offset length, w_trace run.2 = w_trace w ++ [EvRead (OfS3 this) path offset length])
  ∧ (let small := S3_transfer 0 "k/obj" (OfLocal disk) ["dst"; "f.txt"]
                    (cloud [sized "5"; accepted]) in
     small.1 = Throw "File not found"
     ∧ w_trace small.2 = [EvRead (OfS3 0) "k/obj" 0 None]
     ∧ w_net small.2 = []).
Proof.
  intros run. destruct (reads_once_transfer this path device destination w) as [Hf Ht].
  split; [done|]. split; [done|]. by vm_compute.
Qed.

(** ** Errors of [Local.transfer] *)






Lemma Local_write_trace this p data ct w :
  w_trace (Local_write this p data ct w).2
  = w_trace w ++ [EvWrite (OfLocal this) (Path.show p) data ct].
Proof.
  unfold Local_write. unfold bind at 1. rewrite emit_run. cbv beta iota.
  set (m := try_catch _ _).
  assert (silent m) as Hm by (unfold m, Local_createDirectory; quiet_step).
  by rewrite Hm.
Qed.

Lemma ceil_div_large size chunk : 0 < chunk → chunk < size → 2 ≤ ceil_div size chunk.
Proof.
  intros Hc Hs. unfold ceil_div.
  assert (- size / chunk < -1); [|lia]. apply Z.div_lt_upper_bound; lia.
Qed.

Lemma getFileSize_run this p w n :
  Fs.lookup (w_fs w) p = Some n → Local_getFileSize this p w = (Ok (Fs.size n), w).
Proof. intros H. unfold Local_getFileSize, bind, fs_stat. by rewrite H. Qed.


(** ** The errors that [transfer] lets through *)








(** ** Digests *)

Lemma length_string_of l : String.length (Crypto.string_of l) = length l.
Proof.
  unfold Crypto.string_of. induction l as [|x l IH]; simpl; [done|]. by rewrite IH.
Qed.

Lemma length_sha256_bytes msg : length (Crypto.sha256_bytes msg) = 32%nat.
Proof.
  unfold Crypto.sha256_bytes. cbv zeta. set (st := fold_left _ _ _).
  by rewrite !length_app.
Qed.

Lemma length_hmac key data : String.length (Crypto.hmac_sha256_raw key data) = 32%nat.
Proof.
  unfold Crypto.hmac_sha256_raw. cbv zeta. by rewrite length_string_of, length_sha256_bytes.
Qed.

Lemma hex_digit_hex n : is_hex_char (Crypto.hex_digit n) = true.
Proof.
  destruct n as [|p]; [done|].
  do 5 (try (destruct p as [p|p|]; try done)).
Qed.

Lemma length_hex s : String.length (Crypto.hex s) = (2 * String.length s)%nat.
Proof. induction s as [|a s IH]; simpl; [done|]. rewrite IH. lia. Qed.

Lemma hex_chars s : all_chars is_hex_char (Crypto.hex s) = true.
Proof. induction s as [|a s IH]; [done|]. simpl. by rewrite !hex_digit_hex, IH. Qed.

Lemma hex_char_not_eq a : is_hex_char a = true → negb (Ascii.eqb a "=") = true.
Proof.
  intros H. destruct (Ascii.eqb_spec a "="); [|done]. subst a. done.
Qed.

Lemma hex_without s : without "=" (Crypto.hex s).
Proof. eapply all_chars_impl; [apply hex_char_not_eq|apply hex_chars]. Qed.


(** ** Counting occurrences *)

Lemma without_cons c a s : without c (String a s) ↔ a ≠ c ∧ without c s.
Proof.
  unfold without. simpl. rewrite andb_true_iff, negb_true_iff.
  split; intros [H1 H2]; (split; [|done]).
  - intros ->. by rewrite Ascii.eqb_refl in H1.
  - by apply Ascii.eqb_neq.
Qed.

Lemma without_app c s t : without c (s +:+ t) ↔ without c s ∧ without c t.
Proof. unfold without. by rewrite all_chars_app, andb_true_iff. Qed.

Lemma starts_marked_free (m : ascii) (X D : string) :
  without m D → starts (X +:+ String m "") D = false.
Proof.
  revert D. induction X as [|x X IH]; intros [|d D] HD; simpl; try done.
  - apply without_cons in HD as [Hd _]. rewrite andb_true_r. apply Ascii.eqb_neq. congruence.
  - apply without_cons in HD as [_ HD]. rewrite IH by done. apply andb_false_r.
Qed.

Lemma occurrences_marked_free (m : ascii) (X D : string) :
  without m D → occurrences (X +:+ String m "") D = 0%nat.
Proof.
  induction D as [|d D IH]; intros HD.
  - simpl. by destruct X.
  - change (occurrences ?n (String d D))
      with ((if starts n (String d D) then 1 else 0) + occurrences n D)%nat.
    rewrite starts_marked_free by done. apply without_cons in HD as [_ HD]. by rewrite IH.
Qed.

Lemma starts_sep_free (m c : ascii) (X B t : string) :
  c ≠ m → without m B → without c X →
  starts (X +:+ String m "") (B +:+ String c t) = false.
Proof.
  intros Hcm. revert B. induction X as [|x X IH]; intros [|b B] HB HX; simpl.
  - rewrite andb_true_r. apply Ascii.eqb_neq. congruence.
  - apply without_cons in HB as [Hb _]. rewrite andb_true_r. apply Ascii.eqb_neq. congruence.
  - apply without_cons in HX as [Hx _]. apply andb_false_intro1. by apply Ascii.eqb_neq.
  - apply without_cons in HX as [_ HX]. apply without_cons in HB as [_ HB].
    rewrite IH by done. apply andb_false_r.
Qed.

Lemma occurrences_free_prefix (m c : ascii) (X B t : string) :
  c ≠ m → without m B → without c X →
  occurrences (X +:+ String m "") (B +:+ String c t)
  = occurrences (X +:+ String m "") (String c t).
Proof.
  intros Hcm HB HX. induction B as [|b B IH]; [done|].
  change (String b B +:+ String c t) with (String b (B +:+ String c t)).
  change (occurrences ?n (String b ?h))
    with ((if starts n (String b h) then 1 else 0) + occurrences n h)%nat.
  change (String b (B +:+ String c t)) with (String b B +:+ String c t).
  rewrite starts_sep_free by done. apply without_cons in HB as [_ HB]. by rewrite IH.
Qed.

Lemma marker_count (X A C D : string) (k1 k2 k3 : nat) :
  without "=" A → without "=" C → without "=" D → without "," X →
  (∀ R, occurrences (X +:+ "=") ("AWS4-HMAC-SHA256 Credential=" +:+ R)
        = (k1 + occurrences (X +:+ "=") R)%nat) →
  (∀ R, occurrences (X +:+ "=") (",SignedHeaders=" +:+ R)
        = (k2 + occurrences (X +:+ "=") R)%nat) →
  (∀ R, occurrences (X +:+ "=") (",Signature=" +:+ R)
        = (k3 + occurrences (X +:+ "=") R)%nat) →
  occurrences (X +:+ "=")
    ("AWS4-HMAC-SHA256 Credential=" +:+ A +:+ ",SignedHeaders=" +:+ C +:+ ",Signature=" +:+ D)
  = (k1 + k2 + k3)%nat.
Proof.
  intros HA HC HD HX H1 H2 H3. rewrite H1.
  change (",SignedHeaders=" +:+ ?R) with (String "," ("SignedHeaders=" +:+ R)).
  rewrite (occurrences_free_prefix "=" "," X A) by done.
  change (String "," ("SignedHeaders=" +:+ ?R)) with (",SignedHeaders=" +:+ R).
  rewrite H2.
  change (",Signature=" +:+ ?R) with (String "," ("Signature=" +:+ R)).
  rewrite (occurrences_free_prefix "=" "," X C) by done.
  change (String "," ("Signature=" +:+ ?R)) with (",Signature=" +:+ R).
  rewrite H3, (occurrences_marked_free "=" X D) by done. lia.
Qed.

(** The three markers in a value of the shape that [getSignatureV4] returns. *)
Lemma markers_once (A C D : string) :
  without "=" A → without "=" C → without "=" D →
  let value := "AWS4-HMAC-SHA256 Credential=" +:+ A +:+ ",SignedHeaders=" +:+ C
               +:+ ",Signature=" +:+ D in
  occurrences "Credential=" value = 1%nat
  ∧ occurrences "SignedHeaders=" value = 1%nat
  ∧ occurrences "Signature=" value = 1%nat.
Proof.
  intros HA HC HD value. split; [|split].
  - apply (marker_count "Credential" A C D 1 0 0); try done; intros R; vm_compute; reflexivity.
  - apply (marker_count "SignedHeaders" A C D 0 1 0); try done; intros R; vm_compute; reflexivity.
  - apply (marker_count "Signature" A C D 0 0 1); try done; intros R; vm_compute; reflexivity.
Qed.

Lemma starts_prefix needle hay : starts needle hay = String.prefix needle hay.
Proof.
  revert hay. induction needle as [|a n IH]; intros [|b h]; simpl; try done.
  destruct (ascii_dec a b) as [->|Hne].
  - by rewrite Ascii.eqb_refl, IH.
  - by apply Ascii.eqb_neq in Hne as ->.
Qed.

(** ** The keys of an object *)

Section obj_keys.
Context {K V : Type} `{EqDecision K} (idx : K → option N).
Implicit Types (o : list (K * V)) (k : K) (v : V).

Lemma keys_insert_index_perm n k v o :
  Obj.keys (Obj.insert_index idx n k v o) ≡ₚ k :: Obj.keys o.
Proof.
  induction o as [|[k' v'] o IH]; simpl; [done|].
  destruct (idx k') as [n'|]; [destruct (n' <? n)%N|]; simpl; try done.
  rewrite IH. apply Permutation_swap.
Qed.

Lemma keys_app o1 o2 : Obj.keys (o1 ++ o2) = Obj.keys o1 ++ Obj.keys o2.
Proof. unfold Obj.keys. apply map_app. Qed.

Lemma keys_set_perm k v o :
  k ∉ Obj.keys o → Obj.keys (Obj.set idx k v o) ≡ₚ k :: Obj.keys o.
Proof.
  intros Hk. unfold Obj.set. apply obj_has_false in Hk. rewrite Hk.
  destruct (idx k).
  - apply keys_insert_index_perm.
  - rewrite keys_app. simpl. symmetry. apply Permutation_cons_append.
Qed.

Lemma keys_set_append k v o :
  idx k = None → k ∉ Obj.keys o → Obj.keys (Obj.set idx k v o) = Obj.keys o ++ [k].
Proof.
  intros Hi Hk. unfold Obj.set. apply obj_has_false in Hk. rewrite Hk, Hi.
  by rewrite keys_app.
Qed.

Lemma elem_of_keys_set k' k v o :
  k' ∈ Obj.keys (Obj.set idx k v o) ↔ k' = k ∨ k' ∈ Obj.keys o.
Proof.
  destruct (decide (k ∈ Obj.keys o)) as [Hin|Hnin].
  - rewrite obj_keys_set_has by by apply obj_has_true. split; [auto|]. by intros [->|].
  - rewrite keys_set_perm by done. apply elem_of_cons.
Qed.

Lemma NoDup_keys_set k v o : NoDup (Obj.keys o) → NoDup (Obj.keys (Obj.set idx k v o)).
Proof.
  intros Hnd. destruct (decide (k ∈ Obj.keys o)) as [Hin|Hnin].
  - by rewrite obj_keys_set_has by by apply obj_has_true.
  - rewrite keys_set_perm by done. by constructor.
Qed.

(** Filling an object key by key. *)
Lemma keys_fold_set {A} (key : A → K) (val : A → V) (l : list A) : ∀ o,
  let o' := fold_left (λ acc e, Obj.set idx (key e) (val e) acc) l o in
  (NoDup (Obj.keys o) → NoDup (Obj.keys o'))
  ∧ (∀ k, k ∈ Obj.keys o' ↔ k ∈ map key l ∨ k ∈ Obj.keys o).
Proof.
  induction l as [|e l IH]; intros o; simpl.
  { split; [done|]. intros k. split; [auto|]. intros [H|H]; [|done].
    by apply elem_of_nil in H. }
  destruct (IH (Obj.set idx (key e) (val e) o)) as [IH1 IH2]. split.
  - intros Hnd. by apply IH1, NoDup_keys_set.
  - intros k. rewrite IH2, elem_of_keys_set, elem_of_cons. tauto.
Qed.

Lemma keys_fold_append {A} (key : A → K) (val : A → V) (l : list A) : ∀ o,
  NoDup (map key l) →
  (∀ e, e ∈ l → idx (key e) = None ∧ key e ∉ Obj.keys o) →
  Obj.keys (fold_left (λ acc e, Obj.set idx (key e) (val e) acc) l o)
  = Obj.keys o ++ map key l.
Proof.
  induction l as [|e l IH]; intros o Hnd Hl; simpl.
  { by rewrite app_nil_r. }
  apply NoDup_cons in Hnd as [He Hnd].
  destruct (Hl e) as [Hi Hk]; [left|].
  rewrite IH; [|done|].
  - rewrite keys_set_append by done. by rewrite <-app_assoc.
  - intros e' He'. destruct (Hl e') as [Hi' Hk']; [by right|]. split; [done|].
    rewrite keys_set_append by done. intros [H|H%list_elem_of_singleton]%elem_of_app; [done|].
    apply He. rewrite <-H. apply list_elem_of_In, in_map, list_elem_of_In, He'.
Qed.

End obj_keys.

(** ** [Array.prototype.sort] on strings *)

Lemma insert_sorted_perm x l : Js.insert_sorted x l ≡ₚ x :: l.
Proof.
  induction l as [|y l IH]; simpl; [done|].
  destruct (String.leb x y); [done|]. rewrite IH. apply Permutation_swap.
Qed.

Lemma sort_perm l : Js.sort l ≡ₚ l.
Proof.
  unfold Js.sort. induction l as [|x l IH]; simpl; [done|].
  by rewrite insert_sorted_perm, IH.
Qed.

Lemma insert_sorted_sorted x l :
  Sorted (λ a b, String.leb a b = true) l →
  Sorted (λ a b, String.leb a b = true) (Js.insert_sorted x l).
Proof.
  induction 1 as [|y l Hs IH Hhd]; simpl.
  { by repeat constructor. }
  destruct (String.leb x y) eqn:E.
  - constructor; [by constructor|]. by constructor.
  - constructor; [done|].
    assert (String.leb y x = true) as Hyx.
    { destruct (String.leb_total x y) as [H|H]; [congruence|done]. }
    destruct Hhd as [|z l Hyz]; simpl; [by constructor|].
    destruct (String.leb x z); by constructor.
Qed.

Lemma sort_sorted l : Sorted (λ a b, String.leb a b = true) (Js.sort l).
Proof.
  unfold Js.sort. induction l as [|x l IH]; simpl; [constructor|].
  by apply insert_sorted_sorted.
Qed.

(** ** The signed header names *)

Lemma lower_char_mark a : a ≠ "="%char → Js.lower_char a ≠ "="%char.
Proof.
  destruct a as [[] [] [] [] [] [] [] []]; vm_compute; congruence.
Qed.

Lemma toLowerCase_without s : without "=" s → without "=" (Js.toLowerCase s).
Proof.
  induction s as [|a s IH]; [done|]. simpl. rewrite !without_cons.
  intros [Ha Hs]. split; [by apply lower_char_mark|by apply IH].
Qed.

Lemma join_without c sep l :
  without c sep → Forall (without c) l → without c (Js.join sep l).
Proof.
  intros Hsep. induction 1 as [|x l Hx Hl IH]; [done|].
  destruct l as [|y l]; [done|].
  change (Js.join sep (x :: y :: l)) with (x +:+ sep +:+ Js.join sep (y :: l)).
  rewrite !without_app. auto.
Qed.

Lemma combined_keys this :
  NoDup (Obj.keys (combined this)) ∧ ∀ k, k ∈ Obj.keys (combined this) ↔ k ∈ lowered this.
Proof.
  unfold combined, combine_headers, lowered.
  destruct (keys_fold_set Obj.str_idx (λ e : string * string, Js.toLowerCase e.1)
              (λ e : string * string, Js.trim e.2) (headers this) []) as [N1 E1].
  destruct (keys_fold_set Obj.str_idx (λ e : string * string, Js.toLowerCase e.1)
              (λ e : string * string, Js.trim e.2) (amzHeaders this)
              (fold_left (λ acc e, Obj.set Obj.str_idx (Js.toLowerCase e.1) (Js.trim e.2) acc)
                 (headers this) [])) as [N2 E2].
  split.
  - apply N2, N1. constructor.
  - intros k. rewrite E2, E1. unfold Obj.keys. rewrite map_app, elem_of_app, !map_map.
    simpl. split; [intros [?|[?|H]]; auto; by apply elem_of_nil in H|tauto].
Qed.

Lemma signed_names this :
  let names := Obj.keys (sort_headers (combined this)) in
  NoDup names
  ∧ (∀ k, k ∈ names ↔ k ∈ lowered this)
  ∧ (Forall (λ k, Obj.str_idx k = None) (lowered this) →
     names = Js.sort (Obj.keys (combined this))).
Proof.
  intros names. destruct (combined_keys this) as [Hnd Hin]. unfold names, sort_headers.
  destruct (keys_fold_set Obj.str_idx (λ key : string, key)
              (λ key, default "" (Obj.get key (combined this)))
              (Js.sort (Obj.keys (combined this))) [])
    as [N1 E1].
  split; [apply N1; constructor|]. split.
  - intros k. rewrite E1, map_id, sort_perm, Hin. split; [|auto].
    intros [?|H]; [done|]. by apply elem_of_nil in H.
  - intros Hidx. rewrite keys_fold_append; [by rewrite map_id| |].
    + by rewrite map_id, sort_perm.
    + intros e He. split; [|apply not_elem_of_nil].
      rewrite sort_perm in He. apply Hin in He.
      by eapply Forall_forall in Hidx.
Qed.

Lemma signature_hex (data key : Data) :
  template (S3_hmacSha256 data key hex)
  = Crypto.hex (Crypto.hmac_sha256_raw (to_buffer key) (to_buffer data)).
Proof. done. Qed.

Lemma signature_length (data key : Data) :
  String.length (template (S3_hmacSha256 data key hex)) = 64%nat.
Proof. by rewrite signature_hex, length_hex, length_hmac. Qed.

Lemma signature_chars (data key : Data) :
  all_chars is_hex_char (template (S3_hmacSha256 data key hex)) = true.
Proof. rewrite signature_hex. apply hex_chars. Qed.

Lemma value_shape (A D R C S : string) :
  "AWS4-HMAC-SHA256" +:+ " Credential=" +:+ A +:+ "/" +:+ credential_scope D R "s3"
  +:+ ",SignedHeaders=" +:+ C +:+ ",Signature=" +:+ S
  = "AWS4-HMAC-SHA256 Credential=" +:+ A +:+ "/" +:+ D +:+ "/" +:+ R +:+ "/s3/aws4_request"
    +:+ ",SignedHeaders=" +:+ C +:+ ",Signature=" +:+ S.
Proof.
  unfold credential_scope. simpl Js.join. rewrite !string_app_assoc. reflexivity.
Qed.

Lemma value_grouped (A D R C S : string) :
  "AWS4-HMAC-SHA256 Credential=" +:+ A +:+ "/" +:+ D +:+ "/" +:+ R +:+ "/s3/aws4_request"
  +:+ ",SignedHeaders=" +:+ C +:+ ",Signature=" +:+ S
  = "AWS4-HMAC-SHA256 Credential=" +:+ (A +:+ "/" +:+ D +:+ "/" +:+ R +:+ "/s3/aws4_request")
    +:+ ",SignedHeaders=" +:+ C +:+ ",Signature=" +:+ S.
Proof. rewrite !string_app_assoc. reflexivity. Qed.

(** C3, as the code has it.  With an [x-amz-date] header present,
    [getSignatureV4] derives the signing key by the chain of four HMACs and
    returns [AWS4-HMAC-SHA256 Credential=<accessKey>/<date>/<region>/s3/aws4_request,
    SignedHeaders=<names>,Signature=<s>] where [s] is 64 lower-case
    hexadecimal characters and the names are the lower-cased header names,
    each once, joined by [;].  When no name is an array index the names are
    in ascending order; when neither the access key, the date stamp, the
    region nor a header name contains [=], each of the three markers occurs
    exactly once. *)
Theorem getSignatureV4_shape (this : S3Device) (method uri : string)
    (parameters : list (string * string)) (amzDate : string) :
  Obj.get "x-amz-date" (amzHeaders this) = Some amzDate →
  let dateStamp := Js.take 8 amzDate in
  ∃ names stringToSign value,
    let kDate := S3_hmacSha256 (Text dateStamp) (Text ("AWS4" +:+ secretKey this)) binary in
    let kRegion := S3_hmacSha256 (Text (region this)) kDate binary in
    let kService := S3_hmacSha256 (Text "s3") kRegion binary in
    let kSigning := S3_hmacSha256 (Text "aws4_request") kService binary in
    let signature := template (S3_hmacSha256 (Text stringToSign) kSigning hex) in
    S3_getSignatureV4 this method uri parameters = Ok value
    ∧ value = "AWS4-HMAC-SHA256 Credential=" +:+ accessKey this +:+ "/" +:+ dateStamp +:+ "/"
              +:+ region this +:+ "/s3/aws4_request" +:+ ",SignedHeaders="
              +:+ Js.join ";" names +:+ ",Signature=" +:+ signature
    ∧ String.length signature = 64%nat
    ∧ all_chars is_hex_char signature = true
    ∧ NoDup names
    ∧ (∀ k, k ∈ names ↔ k ∈ lowered this)
    ∧ (Forall (λ k, Obj.str_idx k = None) (lowered this) →
       Sorted (λ a b, String.leb a b = true) names)
    ∧ (without "=" (accessKey this) → without "=" dateStamp → without "=" (region this) →
       Forall (without "=") (lowered this) →
       occurrences "Credential=" value = 1%nat
       ∧ occurrences "SignedHeaders=" value = 1%nat
       ∧ occurrences "Signature=" value = 1%nat).
Proof.
  intros Hdate dateStamp.
  destruct (signed_names this) as (Hnd & Hin & Hsort).
  exists (Obj.keys (sort_headers (combined this))).
  exists (Js.join Js.nl
            ["AWS4-HMAC-SHA256"; amzDate; credential_scope dateStamp (region this) "s3";
             S3_sha256 (Text (canonical_request method uri parameters
                                (sort_headers (combined this))
                                (Obj.get "x-amz-content-sha256" (amzHeaders this))))]).
  eexists. cbv zeta.
  split; [unfold S3_getSignatureV4; rewrite Hdate; reflexivity|].
  split; [apply value_shape|].
  split; [apply signature_length|].
  split; [apply signature_chars|].
  split; [done|]. split; [done|]. split.
  - intros Hidx. rewrite (Hsort Hidx). apply sort_sorted.
  - intros HA HD HR HN. cbv zeta. rewrite value_shape, value_grouped.
    apply markers_once.
    + rewrite !without_app. done.
    + apply join_without; [done|]. apply Forall_forall. intros k Hk%Hin.
      by eapply Forall_forall in HN.
    + rewrite signature_hex. apply hex_without.
Qed.

Lemma getSignatureV4_shape_witness :
  ∃ value,
    S3_getSignatureV4 signed0 "GET" "/test-file.txt" [] = Ok value
    ∧ occurrences "Credential=" value = 1%nat
    ∧ occurrences "SignedHeaders=" value = 1%nat
    ∧ occurrences "Signature=" value = 1%nat.
Proof.
  assert (Obj.get "x-amz-date" (amzHeaders signed0) = Some "20230101T000000Z") as Hdate
    by reflexivity.
  destruct (getSignatureV4_shape signed0 "GET" "/test-file.txt" [] "20230101T000000Z" Hdate)
    as (names & stringToSign & value & Hrun & _ & _ & _ & _ & _ & _ & Honce).
  exists value. split; [exact Hrun|]. apply Honce.
  - by vm_compute.
  - by vm_compute.
  - by vm_compute.
  - repeat (apply Forall_cons; split; [by vm_compute|]). by apply Forall_nil.
Defined.

(** C3 as stated fails: with the access key [Signature=] the marker
    [Signature=] occurs twice in the value, and header names that are array
    indices come first in numeric order, ["9"] before ["10"], which is not
    the order of [sort]. *)
Lemma markers_not_once :
  S3_getSignatureV4 forged "GET" "/test-file.txt" []
  = Ok ("AWS4-HMAC-SHA256 Credential=Signature=/20230101/us-east-1/s3/aws4_request,"
        +:+ "SignedHeaders=9;10;content-md5;content-type;date;host;x-amz-content-sha256;"
        +:+ "x-amz-date,"
        +:+ "Signature=cb18fb4f5ebeb66be7c174651659000e2ff6b4060eb7091b4507a6a7f569e3c9")
  ∧ occurrences "Signature="
      ("AWS4-HMAC-SHA256 Credential=Signature=/20230101/us-east-1/s3/aws4_request,"
       +:+ "SignedHeaders=9;10;content-md5;content-type;date;host;x-amz-content-sha256;"
       +:+ "x-amz-date,"
       +:+ "Signature=cb18fb4f5ebeb66be7c174651659000e2ff6b4060eb7091b4507a6a7f569e3c9")
    = 2%nat
  ∧ String.leb "9" "10" = false
  ∧ Js.sort ["9"; "10"] = ["10"; "9"].
Proof. by vm_compute. Qed.

(** ** The calls that [Local.transfer] makes *)

Lemma plan_app tr1 tr2 : plan (tr1 ++ tr2) = plan tr1 ++ plan tr2.
Proof. unfold plan. apply List.filter_app. Qed.

Lemma S3_write_trace this path data ct w :
  w_trace (S3_write this path data ct w).2 = w_trace w ++ [EvWrite (OfS3 this) path data ct].
Proof.
  unfold S3_write. unfold bind at 1. rewrite emit_run. cbv beta iota.
  set (m := bind _ _).
  assert (network_only m) as Hm by (unfold m; repeat net_step).
  destruct (Hm (set_trace (w_trace w ++ [EvWrite (OfS3 this) path data ct]) w)) as (_ & _ & Ht).
  by rewrite Ht.
Qed.

Lemma Device_write_trace device destination data ct w :
  w_trace (Device_write device destination data ct w).2
  = w_trace w ++ [EvWrite device (device_path device destination) data ct].
Proof. destruct device; [apply Local_write_trace|apply S3_write_trace]. Qed.

Lemma Device_uploadData_plan device data destination ct c chunks md w n w' :
  chunks ≠ 1 →
  Device_uploadData device data destination ct c chunks md w = (Ok n, w') →
  ∃ tr,
    w_trace w' = w_trace w ++ tr
    ∧ plan tr = [EvUploadData device data (device_path device destination) ct c chunks md].
Proof.
  intros Hch. destruct device as [this|this]; simpl; intros Hrun.
  - apply Local_uploadData_cases in Hrun; [|done].
    destruct Hrun as [[=] _|n' _ _ _ Htr|_ _ Htr]; eexists; (split; [exact Htr|done]).
  - apply S3_uploadData_multi in Hrun.
    2:{ apply andb_false_intro2. by apply Z.eqb_neq. }
    destruct Hrun as [e [=] _ _ _|etag parts0 count0 parts n' _ _ Hcase].
    destruct Hcase as [(_ & _ & Htr)|(_ & _ & Htr)]; eexists; (split; [exact Htr|done]).
Qed.

(** ** What [Local.read] returns *)

Lemma js_take_all s : Js.take (String.length s) s = s.
Proof. induction s as [|a s IH]; simpl; [done|]. by rewrite IH. Qed.

Lemma read_at_all d : Fs.read_at d 0 (Z.of_nat (String.length d)) = d.
Proof.
  unfold Fs.read_at. rewrite Nat2Z.id. simpl. rewrite js_take_all, Nat.sub_diag. simpl.
  apply string_app_nil_r.
Qed.

Lemma Local_read_run this p offset length w d :
  Fs.lookup (w_fs w) p = Some (File d) →
  let size := default (Z.of_nat (String.length d) - offset) length in
  Local_read this p offset length w
  = (if (size <? 0) || (offset <? 0) then Throw "ERR_OUT_OF_RANGE"
     else Ok (Fs.read_at d offset size),
     set_trace (w_trace w ++ [EvRead (OfLocal this) (Path.show p) offset length]) w).
Proof.
  intros Hp size. unfold Local_read. unfold bind at 1. rewrite emit_run. cbv beta iota.
  unfold bind at 1. rewrite exists_run. cbv beta iota.
  autorewrite with world. rewrite Hp, bool_decide_true by done. unfold negb. cbv iota.
  unfold bind at 1. unfold fs_stat. autorewrite with world. rewrite Hp. cbv beta iota.
  change (Fs.size (File d)) with (Z.of_nat (String.length d)). fold size.
  by destruct ((size <? 0) || (offset <? 0)).
Qed.

(** ** Entries that a computation leaves alone *)

Lemma keeps_ret {A} q n (a : A) : keeps q n (ret a).
Proof. by intros w H. Qed.

Lemma keeps_throw {A} q n e : keeps q n (@throw A e).
Proof. by intros w H. Qed.

Lemma keeps_emit q n e : keeps q n (emit e).
Proof. by intros w H. Qed.

Lemma keeps_bind {A B} q n (m : M A) (k : A → M B) :
  keeps q n m → (∀ a, keeps q n (k a)) → keeps q n (bind m k).
Proof.
  intros Hm Hk w Hw. unfold bind. specialize (Hm w Hw).
  destruct (m w) as [[a|e] w1]; simpl in *; [by apply Hk|done].
Qed.

Lemma keeps_try_catch {A} q n (m : M A) (h : string → M A) :
  keeps q n m → (∀ e, keeps q n (h e)) → keeps q n (try_catch m h).
Proof.
  intros Hm Hh w Hw. unfold try_catch. specialize (Hm w Hw).
  destruct (m w) as [[a|e] w1]; simpl in *; [done|by apply Hh].
Qed.

Lemma keeps_fs_stat q n p : keeps q n (fs_stat p).
Proof. intros w H. unfold fs_stat. by destruct (Fs.lookup _ _). Qed.

Lemma keeps_fs_readFile q n p : keeps q n (fs_readFile p).
Proof. intros w H. unfold fs_readFile. by destruct (Fs.readFile _ _). Qed.

Lemma keeps_fs_mkdir q n p : keeps q n (fs_mkdir p).
Proof.
  intros w H. unfold fs_mkdir. pose proof (mkdir_mono (w_fs w) p q n H) as Hm.
  by destruct (Fs.mkdir p (w_fs w)) as [[] fs'].
Qed.

Lemma keeps_fs_writeFile q n p d : p ≠ q → keeps q n (fs_writeFile p d).
Proof.
  intros Hne w H. unfold fs_writeFile, fs_update, Fs.writeFile.
  destruct (Fs.is_dir _ _); [|done].
  destruct (Fs.lookup (w_fs w) p) as [[]|]; simpl; try done.
  all: by rewrite lookup_insert_ne.
Qed.

Lemma keeps_fs_appendFile q n p d : p ≠ q → keeps q n (fs_appendFile p d).
Proof.
  intros Hne w H. unfold fs_appendFile, fs_update, Fs.appendFile.
  destruct (Fs.is_dir _ _); [|done].
  destruct (Fs.lookup (w_fs w) p) as [[]|]; simpl; try done.
  all: by rewrite lookup_insert_ne.
Qed.

Lemma keeps_fs_unlink q n p : p ≠ q → keeps q n (fs_unlink p).
Proof.
  intros Hne w H. unfold fs_unlink, fs_update, Fs.unlink.
  destruct (Fs.lookup (w_fs w) p) as [[]|]; simpl; try done.
  by rewrite lookup_delete_ne.
Qed.

Lemma keeps_fs_rmdir q n p : p ≠ q → keeps q n (fs_rmdir p).
Proof.
  intros Hne w H. unfold fs_rmdir, fs_update, Fs.rmdir.
  destruct p as [|x p]; simpl; [done|].
  destruct (w_fs w !! (x :: p)) as [[]|]; simpl; try done.
  destruct (Fs.children _ _); simpl; [|done]. by rewrite lookup_delete_ne.
Qed.

Lemma keeps_for_range q n (body : Z → M unit) k : ∀ i,
  (∀ j, keeps q n (body j)) → keeps q n (for_range k i body).
Proof.
  induction k as [|k IH]; intros i Hb; simpl; [apply keeps_ret|].
  apply keeps_bind; [apply Hb|]. intros _. by apply IH.
Qed.

Lemma keeps_uploadData this data p ct c chunks md q n :
  q ≠ p → q ≠ chunk_log p → q ≠ tmp_dir p → (∀ i, q ≠ chunk_part p i) →
  keeps q n (Local_uploadData this data p ct c chunks md).
Proof.
  intros H1 H2 H3 H4. unfold Local_uploadData.
  apply keeps_bind; [apply keeps_emit|intros _].
  apply keeps_bind.
  { apply keeps_try_catch; [|intros; apply keeps_ret].
    apply keeps_bind; [apply keeps_fs_mkdir|intros; apply keeps_ret]. }
  intros _. destruct (chunks =? 1).
  { apply keeps_try_catch; [|intros; apply keeps_throw].
    apply keeps_bind; [by apply keeps_fs_writeFile|intros; apply keeps_ret]. }
  apply keeps_bind.
  { apply keeps_try_catch; [|intros; apply keeps_ret].
    apply keeps_bind; [apply keeps_fs_mkdir|intros; apply keeps_ret]. }
  intros _. apply keeps_try_catch; [|intros; apply keeps_throw].
  apply keeps_bind; [by apply keeps_fs_appendFile|intros _].
  apply keeps_bind; [apply keeps_fs_readFile|intros L].
  apply keeps_bind; [apply keeps_fs_writeFile; by apply not_eq_sym|intros _].
  destruct (chunks =? _); [|apply keeps_ret].
  apply keeps_bind; [|intros; apply keeps_ret].
  unfold Local_joinChunks.
  apply keeps_bind; [apply keeps_emit|intros _].
  apply keeps_bind.
  { apply keeps_for_range. intros j. unfold join_part.
    apply keeps_try_catch; [|intros; apply keeps_throw].
    apply keeps_bind; [apply keeps_fs_readFile|intros d].
    apply keeps_bind; [by apply keeps_fs_appendFile|intros _].
    apply keeps_fs_unlink. by apply not_eq_sym. }
  intros _. apply keeps_bind; [by apply keeps_fs_unlink|intros _].
  rewrite dirname_chunk_log. by apply keeps_fs_rmdir.
Qed.

Lemma keeps_files {A} q n (m : M A) : (∀ w, w_fs (m w).2 = w_fs w) → keeps q n m.
Proof. intros H w Hw. by rewrite H. Qed.

Lemma keeps_network_only {A} q n (m : M A) : network_only m → keeps q n m.
Proof. intros H. apply keeps_files. intros w. by destruct (H w). Qed.

Lemma keeps_S3_uploadData this data path ct c chunks md q n :
  keeps q n (S3_uploadData this data path ct c chunks md).
Proof.
  unfold S3_uploadData.
  apply keeps_bind; [apply keeps_emit|intros _].
  destruct ((c =? 1) && (chunks =? 1)).
  { apply keeps_bind; [|intros; apply keeps_ret]. unfold S3_write.
    apply keeps_bind; [apply keeps_emit|intros _].
    apply keeps_network_only. repeat net_step. }
  apply keeps_bind; [by apply keeps_files|intros m].
  apply keeps_bind.
  { destruct (md_uploadId m) as [[|a id]|]; try apply keeps_ret.
    all: apply keeps_bind; [apply keeps_network_only; auto with net|intros u].
    all: apply keeps_bind; [by apply keeps_files|intros m1].
    all: apply keeps_bind; [by apply keeps_files|intros _; apply keeps_ret]. }
  intros uploadId.
  apply keeps_bind; [by apply keeps_files|intros m1].
  apply keeps_bind; [by apply keeps_files|intros _].
  apply keeps_bind; [apply keeps_network_only; auto with net|intros [etag|]];
    [|apply keeps_throw].
  cbv zeta.
  apply keeps_bind; [by apply keeps_files|intros m2].
  apply keeps_bind; [by apply keeps_files|intros _].
  apply keeps_bind; [|intros; apply keeps_ret].
  destruct (_ =? chunks); [|apply keeps_ret].
  apply keeps_bind; [|intros; apply keeps_ret].
  apply keeps_files. intros w.
  destruct (S3_complete_run this path uploadId
              (Obj.set Obj.num_idx c (Js.strip_quotes etag) (default [] (md_parts m2))) w)
    as (r & w' & Hr & Hfs & _). by rewrite Hr.
Qed.

Lemma keeps_Device_uploadData device data destination ct c chunks md p n :
  clear_of device destination p →
  keeps p n (Device_uploadData device data destination ct c chunks md).
Proof.
  destruct device as [dest|s]; simpl; [|intros _; apply keeps_S3_uploadData].
  intros (H1 & H2 & H3). apply keeps_uploadData; [done|..|done|].
  - intros ->. by rewrite is_child_tmp_log in H3.
  - intros i ->. by rewrite is_child_tmp_part in H3.
Qed.

(** ** The bytes that [Local.transfer] hands on *)

Lemma file_nonempty (fs : gmap (list string) node) p d :
  Fs.lookup fs p = Some (File d) → p ≠ [] ∧ fs !! p = Some (File d).
Proof. destruct p; [done|]. by intros H. Qed.

Lemma Local_transfer_chunk_data this p device destination ct total md d counter w w' :
  total ≠ 1 →
  0 < l_transferChunkSize this →
  0 ≤ counter →
  Fs.lookup (w_fs w) p = Some (File d) →
  clear_of device destination p →
  Local_transfer_chunk this p device destination ct total md counter w = (Ok tt, w') →
  Fs.lookup (w_fs w') p = Some (File d)
  ∧ ∃ tr,
      w_trace w' = w_trace w ++ tr
      ∧ plan tr
        = turn this p device destination ct total md counter
            (Fs.read_at d (counter * l_transferChunkSize this) (l_transferChunkSize this)).
Proof.
  intros Htotal Hchunk Hcounter Hfile Hclear. unfold Local_transfer_chunk.
  destruct (file_nonempty _ _ _ Hfile) as [Hp Hget].
  unfold bind at 1. rewrite (Local_read_run _ _ _ _ _ _ Hfile). cbn [default from_option id].
  assert ((l_transferChunkSize this <? 0) || (counter * l_transferChunkSize this <? 0) = false)
    as ->.
  { apply orb_false_intro; apply Z.ltb_ge; nia. }
  cbv beta iota.
  set (data := Fs.read_at d _ _). set (w1 := set_trace _ w).
  unfold bind at 1.
  destruct (Device_uploadData device (Buf data) destination ct (counter + 1) total md w1)
    as [[n|e] w2] eqn:Hup; [|done].
  rewrite ret_run. intros [= <-].
  pose proof (keeps_Device_uploadData device (Buf data) destination ct (counter + 1) total md
                p (File d) Hclear w1 Hget) as Hkept.
  rewrite Hup in Hkept. simpl in Hkept.
  split; [by rewrite lookup_nonempty|].
  apply Device_uploadData_plan in Hup as (tr & Htr & Hplan); [|done].
  exists (EvRead (OfLocal this) (Path.show p) (counter * l_transferChunkSize this)
            (Some (l_transferChunkSize this)) :: tr).
  split.
  - rewrite Htr. unfold w1. cbn. by rewrite <-app_assoc.
  - unfold turn. change (plan (?e :: tr)) with (e :: plan tr). by rewrite Hplan.
Qed.

Lemma Local_transfer_loop_data this p device destination ct total md d n : ∀ i w w',
  total ≠ 1 →
  0 < l_transferChunkSize this →
  0 ≤ i →
  Fs.lookup (w_fs w) p = Some (File d) →
  clear_of device destination p →
  for_range n i (Local_transfer_chunk this p device destination ct total md) w = (Ok tt, w') →
  ∃ tr,
    w_trace w' = w_trace w ++ tr
    ∧ plan tr
      = concat (map (λ counter,
                       turn this p device destination ct total md counter
                         (Fs.read_at d (counter * l_transferChunkSize this)
                            (l_transferChunkSize this)))
                  (seqZ i (Z.of_nat n))).
Proof.
  induction n as [|n IH]; intros i w w' Htotal Hchunk Hi Hfile Hclear.
  { simpl. rewrite ret_run. intros [= <-]. exists []. by rewrite app_nil_r. }
  simpl for_range. unfold bind at 1.
  destruct (Local_transfer_chunk this p device destination ct total md i w)
    as [[[]|e] w1] eqn:E1; [|done].
  apply Local_transfer_chunk_data with (d := d) in E1 as (Hfile1 & tr1 & Htr1 & Hplan1);
    [|done..].
  intros Hrest. apply IH in Hrest as (tr2 & Htr2 & Hplan2); [|done|done|lia|done|done].
  exists (tr1 ++ tr2). split.
  - by rewrite Htr2, Htr1, <-app_assoc.
  - rewrite plan_app, Hplan1, Hplan2. rewrite (seqZ_cons i) by lia.
    replace (Z.succ i) with (i + 1) by lia.
    replace (Z.pred (Z.of_nat (S n))) with (Z.of_nat n) by lia. done.
Qed.

(** X1: [Local.transfer] of a file that holds the bytes [d], on a device with a
    positive [transferChunkSize], when it returns.  A source of at most
    [transferChunkSize] bytes is read whole (offset 0, no length) and [write]
    is handed exactly [d].  A larger one, which is neither the destination
    nor inside the temporary directory of its upload, is read in
    [ceil(size / transferChunkSize)] turns: turn [counter] reads at offset
    [counter * transferChunkSize] with length [transferChunkSize] and hands
    [uploadData] the bytes of [d] from that offset, filled up with zeros to
    that length, as chunk [counter + 1] of the total, with one metadata
    object made for this transfer. *)
Theorem Local_transfer_plan this p device destination w d done w' :
  0 < l_transferChunkSize this →
  Fs.lookup (w_fs w) p = Some (File d) →
  (l_transferChunkSize this < Z.of_nat (String.length d) → clear_of device destination p) →
  Local_transfer this p device destination w = (Ok done, w') →
  let ct := getMimeType this (Path.show p) in
  let size := Z.of_nat (String.length d) in
  let total := ceil_div size (l_transferChunkSize this) in
  ∃ tr,
    w_trace w' = w_trace w ++ tr
    ∧ if size <=? l_transferChunkSize this
      then plan tr = [EvRead (OfLocal this) (Path.show p) 0 None;
                      EvWrite device (device_path device destination) (Buf d) ct]
      else plan tr
           = concat (map (λ counter,
                            turn this p device destination ct total (fresh (dom (w_heap w)))
                              counter
                              (Fs.read_at d (counter * l_transferChunkSize this)
                                 (l_transferChunkSize this)))
                       (seqZ 0 total)).
Proof.
  intros Hchunk Hstats Hclear. unfold Local_transfer. unfold bind at 1. rewrite exists_run.
  cbv beta iota. rewrite Hstats, bool_decide_true by done. unfold negb. cbv iota.
  unfold bind at 1. rewrite (getFileSize_run _ _ _ _ Hstats). cbv beta iota.
  unfold bind at 1. unfold Local_getFileMimeType. rewrite ret_run. cbv beta iota.
  change (Fs.size (File d)) with (Z.of_nat (String.length d)).
  intros Hrun. set (ct := getMimeType this (Path.show p)) in *.
  set (size := Z.of_nat (String.length d)) in *.
  set (total := ceil_div size (l_transferChunkSize this)) in *.
  destruct (size <=? l_transferChunkSize this) eqn:Hsize.
  - unfold bind at 1 in Hrun. rewrite (Local_read_run _ _ _ _ _ _ Hstats) in Hrun.
    cbn [default from_option id] in Hrun. rewrite Z.sub_0_r in Hrun.
    assert ((Z.of_nat (String.length d) <? 0) || (0 <? 0) = false) as Hok.
    { apply orb_false_intro; apply Z.ltb_ge; lia. }
    rewrite Hok, read_at_all in Hrun. cbv beta iota in Hrun.
    pose proof (Device_write_trace device destination (Buf d) ct
                  (set_trace (w_trace w ++ [EvRead (OfLocal this) (Path.show p) 0 None]) w))
      as Hwt.
    rewrite Hrun in Hwt. simpl in Hwt. rewrite <-app_assoc in Hwt.
    eexists. split; [exact Hwt|]. done.
  - apply Z.leb_gt in Hsize. pose proof (ceil_div_large _ _ Hchunk Hsize) as Htotal.
    unfold bind at 1 in Hrun. rewrite md_new_run in Hrun. cbv beta iota in Hrun.
    unfold bind at 1 in Hrun.
    destruct (for_range (Z.to_nat total) 0 _ _) as [[[]|e] w2] eqn:Hloop; [|done].
    rewrite ret_run in Hrun. injection Hrun as _ <-.
    apply Local_transfer_loop_data with (d := d) in Hloop as (tr & Htr & Hplan);
      [|fold total; lia|done|done|done|by apply Hclear].
    exists tr. split; [done|].
    rewrite Hplan. by rewrite Z2Nat.id by (fold total; lia).
Qed.

Lemma Local_transfer_plan_witness :
  let run := Local_transfer small_disk ["src"; "a.txt"] (OfLocal disk) ["dst"; "b.txt"]
               (mixed ∅ []) in
  ∃ tr,
    w_trace run.2 = w_trace (mixed ∅ []) ++ tr
    ∧ plan tr
      = concat (map (λ counter,
                       turn small_disk ["src"; "a.txt"] (OfLocal disk) ["dst"; "b.txt"]
                         "text/plain" 3 (fresh (dom (w_heap (mixed ∅ [])))) counter
                         (Fs.read_at "abcde" (counter * 2) 2))
                  (seqZ 0 3)).
Proof.
  intros run.
  apply (Local_transfer_plan small_disk ["src"; "a.txt"] (OfLocal disk) ["dst"; "b.txt"]
           (mixed ∅ []) "abcde" true run.2).
  - simpl. lia.
  - by vm_compute.
  - intros _. by vm_compute.
  - by vm_compute.
Defined.

(** ** Uploading an index again *)

(** X2: on [S3] an index that the bag already lists is not counted again: the
    call, when it returns, returns the count as it was, keeps the keys of
    [parts] and every other tag, and puts at that index the tag that the
    reply to the [PUT] of this call carries, without its quotes. *)
Theorem S3_reupload_idempotent this data path ct c chunks md w n w' :
  (c =? 1) && (chunks =? 1) = false →
  Obj.has c (default [] (md_parts (md_at w md))) = true →
  S3_uploadData this data path ct c chunks md w = (Ok n, w') →
  let parts0 := default [] (md_parts (md_at w md)) in
  n = default 0 (md_chunks (md_at w md))
  ∧ md_chunks (md_at w' md) = Some n
  ∧ ∃ etag,
      reply_etag (part_reply w md) = Some etag
      ∧ md_parts (md_at w' md)
        = Some (Obj.set Obj.num_idx c (Js.strip_quotes etag) parts0)
      ∧ Obj.keys (Obj.set Obj.num_idx c (Js.strip_quotes etag) parts0) = Obj.keys parts0
      ∧ Obj.get c (Obj.set Obj.num_idx c (Js.strip_quotes etag) parts0)
        = Some (Js.strip_quotes etag)
      ∧ ∀ c', c' ≠ c →
              Obj.get c' (Obj.set Obj.num_idx c (Js.strip_quotes etag) parts0)
              = Obj.get c' parts0.
Proof.
  intros Hmode Hhas Hrun parts0.
  destruct (S3_uploadData_tag _ _ _ _ _ _ _ _ _ _ Hmode Hrun) as (etag & Hetag & Hparts).
  apply S3_uploadData_multi in Hrun; [|done].
  destruct Hrun as [e He|etag' parts0' count0 parts n' _ Hcount Hcase]; [done|].
  assert (n' = count0) as Hn' by (unfold n'; fold parts0' in Hhas; by rewrite Hhas).
  assert (n = n') as ->.
  { destruct Hcase as [(_ & [= ->] & _)|(_ & [[= ->]|[e [=]]] & _)]; done. }
  split; [done|]. split; [done|].
  exists etag. split; [done|]. split; [done|]. split; [|split].
  - by apply obj_keys_set_has.
  - apply obj_get_set_eq.
  - intros c' Hc'. by apply obj_get_set_ne.
Qed.

Lemma S3_reupload_idempotent_witness :
  let first := S3_uploadData 0 (Text "a") "k/obj" "text/plain" 1 3 0
                 (cloud [accepted; tagged "first"; tagged "second"]) in
  let again := S3_uploadData 0 (Text "b") "k/obj" "text/plain" 1 3 0 first.2 in
  let parts0 := default [] (md_parts (md_at first.2 0)) in
  (1 = default 0 (md_chunks (md_at first.2 0))
   ∧ md_chunks (md_at again.2 0) = Some 1
   ∧ ∃ etag,
       reply_etag (part_reply first.2 0) = Some etag
       ∧ md_parts (md_at again.2 0)
         = Some (Obj.set Obj.num_idx 1 (Js.strip_quotes etag) parts0)
       ∧ Obj.keys (Obj.set Obj.num_idx 1 (Js.strip_quotes etag) parts0) = Obj.keys parts0
       ∧ Obj.get 1 (Obj.set Obj.num_idx 1 (Js.strip_quotes etag) parts0)
         = Some (Js.strip_quotes etag)
       ∧ ∀ c', c' ≠ 1 →
               Obj.get c' (Obj.set Obj.num_idx 1 (Js.strip_quotes etag) parts0)
               = Obj.get c' parts0)
  ∧ md_parts (md_at first.2 0) = Some [(1, "first")]
  ∧ md_parts (md_at again.2 0) = Some [(1, "second")].
Proof.
  intros first again parts0. split; [|by vm_compute].
  apply (S3_reupload_idempotent 0 (Text "b") "k/obj" "text/plain" 1 3 0 first.2 1 again.2).
  - reflexivity.
  - by vm_compute.
  - by vm_compute.
Defined.

(** X3: on [Local] every call adds a line to the log and returns the number of
    lines, whether or not the index [c] is among those that [arrived]. *)
Theorem Local_reupload_increments this data p ct c chunks md w arrived n :
  chunks ≠ 1 →
  log_content (prepared (w_fs w) p !! chunk_log p) = Some (log_text (map Js.str arrived)) →
  (Local_uploadData this data p ct c chunks md w).1 = Ok n →
  n = Z.of_nat (length arrived) + 1.
Proof.
  intros Hch Hlog Hrun.
  destruct (Local_uploadData this data p ct c chunks md w) as [r w'] eqn:E.
  simpl in Hrun. subst r.
  assert (Local_received (w_fs w) p c = Some (Z.of_nat (length arrived) + 1)) as Hrec.
  { unfold Local_received. rewrite Hlog. simpl. f_equal.
    replace (log_text (map Js.str arrived) +:+ Js.str c +:+ Js.nl)
      with (log_text (map Js.str (arrived ++ [c]))).
    - rewrite count_lines_log_text.
      + rewrite length_map, length_app. simpl. lia.
      + by destruct arrived.
      + apply Forall_forall. intros s (c' & <- & _)%list_elem_of_In%in_map_iff.
        apply str_solid.
    - rewrite map_app, log_text_app. simpl. by rewrite string_app_nil_r. }
  apply Local_uploadData_cases in E; [|done].
  destruct E as [[=]|n' Hn' _ [= ->] _|Hn' [[= ->]|[=]] _]; congruence.
Qed.

Lemma Local_reupload_increments_witness :
  let first := Local_uploadData disk (Text "a") ["up"; "f.txt"] "text/plain" 1 3 0 empty_world in
  2 = Z.of_nat (length [1]) + 1.
Proof.
  intros first.
  apply (Local_reupload_increments disk (Text "b") ["up"; "f.txt"] "text/plain" 1 3 0
           first.2 [1] 2).
  - lia.
  - by vm_compute.
  - by vm_compute.
Defined.

(** ** Resolving a resolved path *)

Lemma split_any_nonempty s : PathSpec.split_any s ≠ [].
Proof.
  destruct s as [|a s]; simpl; [done|].
  destruct (Js.is_slash a); [done|]. by destruct (PathSpec.split_any s).
Qed.

Lemma split_any_app a b :
  PathSpec.split_any (a +:+ String "/" b) = PathSpec.split_any a ++ PathSpec.split_any b.
Proof.
  induction a as [|x a IH]; simpl; [done|].
  destruct (Js.is_slash x); simpl; [by rewrite IH|].
  rewrite IH. pose proof (split_any_nonempty a). by destruct (PathSpec.split_any a).
Qed.

Lemma foldl_resolve_app segs1 segs2 kept :
  foldl PathSpec.resolve_segment kept (segs1 ++ segs2)
  = foldl PathSpec.resolve_segment (foldl PathSpec.resolve_segment kept segs1) segs2.
Proof. apply foldl_app. Qed.

Lemma split_any_plain s : all_chars (λ a, negb (Js.is_slash a)) s = true → PathSpec.split_any s = [s].
Proof.
  induction s as [|a s IH]; simpl; [done|].
  intros [Ha Hs]%andb_true_iff. apply negb_true_iff in Ha as ->. by rewrite IH.
Qed.

Lemma split_any_segments s :
  Forall (λ seg, all_chars (λ a, negb (Js.is_slash a)) seg = true) (PathSpec.split_any s).
Proof.
  induction s as [|a s IH]; simpl; [by apply Forall_singleton|].
  destruct (Js.is_slash a) eqn:Ha; [by apply Forall_cons|].
  destruct (PathSpec.split_any s) as [|h t]; [apply Forall_singleton; simpl; by rewrite Ha|].
  apply Forall_cons in IH as [Hh Ht]. apply Forall_cons. split; [|done].
  simpl. by rewrite Ha.
Qed.

Lemma plain_removelast (l : list string) :
  Forall plain_segment l → Forall plain_segment (removelast l).
Proof.
  induction 1 as [|x l Hx Hl IH]; simpl; [constructor|].
  destruct l; [constructor|]. by constructor.
Qed.

Lemma foldl_resolve_plain segs : ∀ kept,
  Forall (λ seg, all_chars (λ a, negb (Js.is_slash a)) seg = true) segs →
  Forall plain_segment kept →
  Forall plain_segment (foldl PathSpec.resolve_segment kept segs).
Proof.
  induction segs as [|seg segs IH]; intros kept Hsegs Hk; [done|].
  inversion Hsegs; subst. simpl. apply IH; [done|].
  unfold PathSpec.resolve_segment.
  destruct (decide (seg = "" ∨ seg = ".")) as [|Hn]; [done|].
  destruct (decide (seg = "..")) as [|Hdd].
  - destruct kept; [done|]. by apply plain_removelast.
  - apply Forall_app. split; [done|]. constructor; [|constructor].
    split; [|done]. unfold clean_segment. naive_solver.
Qed.

(** Rejoined segments split into themselves. *)
Lemma split_any_show segs :
  Forall plain_segment segs →
  foldl PathSpec.resolve_segment [] (PathSpec.split_any ("/" +:+ Js.join "/" segs)) = segs.
Proof.
  intros Hsegs.
  assert (∀ kept, Forall plain_segment segs → segs ≠ [] →
            foldl PathSpec.resolve_segment kept (PathSpec.split_any (Js.join "/" segs))
            = kept ++ segs) as Hgo.
  { clear Hsegs. induction segs as [|s segs IH]; intros kept Hs Hne; [done|].
    apply Forall_cons in Hs as [[Hc Hp] Hs'].
    assert (PathSpec.resolve_segment kept s = kept ++ [s]) as Hstep.
    { unfold PathSpec.resolve_segment. destruct Hc as (H1 & H2 & H3).
      rewrite decide_False by (by intros [?|?]). by rewrite decide_False. }
    destruct segs as [|t segs].
    - simpl. rewrite split_any_plain by done. simpl. by rewrite Hstep.
    - change (Js.join "/" (s :: t :: segs)) with (s +:+ "/" +:+ Js.join "/" (t :: segs)).
      change ("/" +:+ Js.join "/" (t :: segs)) with (String "/" (Js.join "/" (t :: segs))).
      rewrite split_any_app, foldl_app, split_any_plain by done. simpl.
      rewrite Hstep, IH by done. by rewrite <-app_assoc. }
  destruct segs as [|s segs]; [done|].
  change ("/" +:+ Js.join "/" (s :: segs)) with ("" +:+ String "/" (Js.join "/" (s :: segs))).
  rewrite split_any_app, foldl_app. simpl.
  change (PathSpec.resolve_segment [] "") with (@nil string). by rewrite Hgo.
Qed.

Lemma absolutePath_plain path :
  ∃ segs, PathSpec.absolutePath path = "/" +:+ Js.join "/" segs ∧ Forall plain_segment segs
          ∧ segs = foldl PathSpec.resolve_segment [] (PathSpec.split_any path).
Proof.
  eexists. split; [reflexivity|]. split; [|done].
  apply foldl_resolve_plain; [apply split_any_segments|constructor].
Qed.

Lemma getAbsolutePath_absolutePath path : getAbsolutePath path = PathSpec.absolutePath path.
Proof.
  unfold getAbsolutePath, PathSpec.absolutePath.
  by rewrite fold_resolve_filter, split_replace_slashes.
Qed.

(** X4: [getAbsolutePath] is idempotent: a resolved path resolves to itself. *)
Theorem getAbsolutePath_idempotent path :
  getAbsolutePath (getAbsolutePath path) = getAbsolutePath path.
Proof.
  rewrite !getAbsolutePath_absolutePath.
  destruct (absolutePath_plain path) as (segs & Heq & Hsegs & _).
  rewrite Heq. unfold PathSpec.absolutePath at 1. by rewrite split_any_show.
Qed.

(** X5: resolving [a], appending a separator and [b] and resolving again
    gives what resolving [a/b] at once gives. *)
Theorem getAbsolutePath_prefix a b :
  getAbsolutePath (getAbsolutePath a +:+ "/" +:+ b) = getAbsolutePath (a +:+ "/" +:+ b).
Proof.
  rewrite !getAbsolutePath_absolutePath.
  destruct (absolutePath_plain a) as (segs & Heq & Hsegs & Hdef).
  rewrite Heq. unfold PathSpec.absolutePath.
  change ("/" +:+ b) with (String "/" b).
  rewrite !split_any_app, !foldl_app.
  rewrite split_any_show by done. by rewrite Hdef.
Qed.

(** X6: the root is its own parent: any number of leading [../] segments
    is dropped. *)
Theorem getAbsolutePath_root n path :
  getAbsolutePath (climbs n +:+ path) = getAbsolutePath path.
Proof.
  rewrite !getAbsolutePath_absolutePath. unfold PathSpec.absolutePath. f_equal. f_equal.
  induction n as [|n IH]; [done|].
  change (climbs (S n) +:+ path) with (".." +:+ String "/" (climbs n +:+ path)).
  rewrite split_any_app, foldl_app. exact IH.
Qed.

(** ** The path of a request *)

Lemma all_chars_replace_go f pat by_ s : ∀ skip,
  all_chars f by_ = true → all_chars f s = true →
  all_chars f (Js.replace_go pat by_ skip s) = true.
Proof.
  induction s as [|a s IH]; intros skip Hby Hs; [done|].
  simpl in Hs. apply andb_true_iff in Hs as [Ha Hs]. cbn [Js.replace_go].
  destruct skip; [|by apply IH].
  destruct (String.prefix pat (String a s)).
  - rewrite all_chars_app, Hby. by apply IH.
  - cbn [all_chars]. rewrite Ha. by apply IH.
Qed.

Lemma HEX_digit_unreserved n : Js.is_unreserved (Js.HEX_digit n) = true.
Proof.
  destruct n as [|p]; [done|].
  do 5 (try (destruct p as [p|p|]; try done)).
Qed.

Lemma encodeURIComponent_chars s :
  all_chars (λ a, Js.is_unreserved a || Ascii.eqb a "%") (Js.encodeURIComponent s) = true.
Proof.
  induction s as [|a s IH]; [done|]. simpl. rewrite all_chars_app, IH, andb_true_r.
  destruct (Js.is_unreserved a) eqn:Ha; [simpl; by rewrite Ha|].
  destruct (_ <? 128)%N; unfold Js.percent; simpl; by rewrite !HEX_digit_unreserved.
Qed.

Lemma replace_go_free pat0 pat by_ s :
  all_chars (λ a, negb (Ascii.eqb a pat0)) s = true →
  Js.replace_go (String pat0 pat) by_ 0 s = s.
Proof.
  induction s as [|a s IH]; [done|]. cbn [all_chars Js.replace_go String.prefix].
  intros [Ha Hs]%andb_true_iff. apply negb_true_iff in Ha.
  destruct (ascii_dec pat0 a) as [->|Hne]; [by rewrite Ascii.eqb_refl in Ha|].
  by rewrite IH.
Qed.

Lemma unreserved_not_percent a : Js.is_unreserved a = true → Ascii.eqb a "%" = false.
Proof. intros H. destruct (Ascii.eqb_spec a "%") as [->|]; [done|done]. Qed.

Lemma key_char_not_percent a : is_key_char a = true → negb (Ascii.eqb a "%") = true.
Proof.
  unfold is_key_char. intros [H|H]%orb_true_iff.
  - by rewrite unreserved_not_percent.
  - apply Ascii.eqb_eq in H as ->. done.
Qed.

Lemma string_prefix_nil s : String.prefix "" s = true.
Proof. by destruct s. Qed.

Lemma encode_key s :
  all_chars is_key_char s = true →
  Js.replaceAll "%2F" "/" (Js.encodeURIComponent s) = s.
Proof.
  unfold Js.replaceAll. induction s as [|a s IH]; [done|].
  cbn [all_chars Js.encodeURIComponent]. intros [Ha Hs]%andb_true_iff.
  destruct (Js.is_unreserved a) eqn:Hu.
  - rewrite string_app_cons, string_app_nil_l. cbn [Js.replace_go String.prefix].
    destruct (ascii_dec "%" a) as [<-|Hne]; [done|]. by rewrite IH.
  - unfold is_key_char in Ha. rewrite Hu in Ha. simpl in Ha.
    apply Ascii.eqb_eq in Ha as ->. simpl.
    rewrite !string_app_nil_l, string_prefix_nil, IH by done.
    by rewrite string_app_cons, string_app_nil_l.
Qed.

(** X7: the path of a request, as [write], [read], [delete] and the
    multipart methods build it from a key: it holds only unreserved
    characters, [/], [%] and, where the method puts question marks back,
    [?]; a key made of unreserved characters and [/] is prefixed with [/]
    and otherwise sent as it is. *)
Theorem object_uri_spec path question :
  all_chars (is_uri_char question) (object_uri path question) = true
  ∧ (all_chars is_key_char path = true → object_uri path question = "/" +:+ path).
Proof.
  unfold object_uri. destruct (String.eqb_spec path "") as [->|Hne]; [done|]. split.
  - assert (∀ b, all_chars (is_uri_char b)
                   (Js.replaceAll "%2F" "/" (Js.encodeURIComponent path)) = true) as H.
    { intros b. apply all_chars_replace_go; [done|].
      eapply all_chars_impl; [|apply encodeURIComponent_chars].
      intros a Ha. unfold is_uri_char. apply orb_true_iff in Ha as [Hx|Hx]; rewrite Hx;
        [done|]. by rewrite !orb_true_r. }
    simpl. destruct question; [|apply H]. by apply all_chars_replace_go.
  - intros Hkey. rewrite encode_key by done. destruct question; [|done].
    unfold Js.replaceAll. rewrite replace_go_free; [done|].
    eapply all_chars_impl; [|exact Hkey]. apply key_char_not_percent.
Qed.

(** ** Reading what was written *)

Lemma length_js_take n s : String.length (Js.take n s) = (n `min` String.length s)%nat.
Proof.
  revert s. induction n as [|n IH]; intros [|a s]; simpl; try done. by rewrite IH.
Qed.

Lemma length_fs_zeros n : String.length (Fs.zeros n) = n.
Proof. induction n as [|n IH]; simpl; [done|]. by rewrite IH. Qed.

Lemma length_read_at d offset size :
  String.length (Fs.read_at d offset size) = Z.to_nat size.
Proof.
  unfold Fs.read_at. rewrite string_length_app, length_fs_zeros, length_js_take. lia.
Qed.

Lemma string_get_app_l (s t : string) i :
  (i < String.length s)%nat → String.get i (s +:+ t) = String.get i s.
Proof.
  revert i. induction s as [|a s IH]; intros i Hi; simpl in *; [lia|].
  destruct i; [done|]. apply IH. lia.
Qed.

Lemma string_get_app_r (s t : string) i :
  String.get (String.length s + i) (s +:+ t) = String.get i t.
Proof. induction s as [|a s IH]; simpl; [done|]. exact IH. Qed.

Lemma string_get_zeros n i : (i < n)%nat → String.get i (Fs.zeros n) = Some zero.
Proof.
  revert i. induction n as [|n IH]; intros i Hi; [lia|]. simpl.
  destruct i; [done|]. apply IH. lia.
Qed.

Lemma string_get_take n s i : (i < n)%nat → String.get i (Js.take n s) = String.get i s.
Proof.
  revert s i. induction n as [|n IH]; intros s i Hi; [lia|].
  destruct s as [|a s]; [done|]. simpl. destruct i; [done|]. apply IH. lia.
Qed.

Lemma string_get_skip n s i : String.get i (Fs.skip n s) = String.get (n + i) s.
Proof.
  revert s. induction n as [|n IH]; intros s; [done|].
  destruct s as [|a s]; simpl; [by destruct i|]. apply IH.
Qed.

Lemma string_get_none s i : (String.length s ≤ i)%nat → String.get i s = None.
Proof.
  revert i. induction s as [|a s IH]; intros i Hi; simpl in *; [done|].
  destruct i; [lia|]. apply IH. lia.
Qed.

Lemma string_get_some s i : (i < String.length s)%nat → is_Some (String.get i s).
Proof.
  revert i. induction s as [|a s IH]; intros i Hi; simpl in *; [lia|].
  destruct i; [by eexists|]. apply IH. lia.
Qed.

Lemma string_get_read_at d offset size i :
  (i < Z.to_nat size)%nat →
  String.get i (Fs.read_at d offset size)
  = Some (default zero (String.get (Z.to_nat offset + i) d)).
Proof.
  intros Hi. unfold Fs.read_at.
  set (got := Js.take (Z.to_nat size) (Fs.skip (Z.to_nat offset) d)).
  destruct (decide (i < String.length got)%nat) as [Hlt|Hge].
  - rewrite string_get_app_l by done. unfold got. rewrite string_get_take, string_get_skip by done.
    pose proof (string_get_some got i Hlt) as [a Ha]. unfold got in Ha.
    rewrite string_get_take, string_get_skip in Ha by done. by rewrite Ha.
  - replace i with (String.length got + (i - String.length got))%nat at 1 by lia.
    rewrite string_get_app_r, string_get_zeros by lia.
    assert (String.get (Z.to_nat offset + i) d = None) as ->; [|done].
    rewrite <-string_get_skip. apply string_get_none.
    unfold got in Hge. rewrite length_js_take in Hge. lia.
Qed.

Lemma Local_write_ok this p data ct w b w' :
  Local_write this p data ct w = (Ok b, w') →
  b = true ∧ p ≠ []
  ∧ w' = set_fs (<[p := File (to_buffer data)]> (Fs.mkdir (Path.dirname p) (w_fs w)).2)
           (set_trace (w_trace w ++ [EvWrite (OfLocal this) (Path.show p) data ct]) w).
Proof.
  unfold Local_write. unfold bind at 1. rewrite emit_run. cbv beta iota.
  unfold try_catch. unfold bind at 1. rewrite createDirectory_run. cbv beta iota.
  unfold bind at 1. unfold fs_writeFile, fs_update. autorewrite with world.
  unfold Fs.writeFile, throw, ret.
  destruct (Fs.is_dir _ (Path.dirname p)); [|done].
  destruct p as [|x p]; [done|].
  rewrite lookup_nonempty by done.
  destruct (_ !! (x :: p)) as [[]|]; try done.
  all: autorewrite with world; by intros [= <- <-].
Qed.

(** X8: what [write] has written is there: after a [write] that returns,
    [exists] is [true], [getFileSize] is the number of bytes of the data,
    [getFileHash] is the hexadecimal MD5 digest of these bytes and a [read]
    of the whole file returns them. *)
Theorem Local_write_read this p data ct w b w' :
  Local_write this p data ct w = (Ok b, w') →
  (Local_exists this p w').1 = Ok true
  ∧ (Local_getFileSize this p w').1 = Ok (Z.of_nat (String.length (to_buffer data)))
  ∧ (Local_getFileHash this p w').1 = Ok (Crypto.hex (S3_md5 data))
  ∧ (Local_read this p 0 None w').1 = Ok (to_buffer data).
Proof.
  intros (_ & Hp & ->)%Local_write_ok.
  set (w1 := set_fs _ _).
  assert (Fs.lookup (w_fs w1) p = Some (File (to_buffer data))) as Hfile.
  { unfold w1. autorewrite with world. rewrite lookup_nonempty by done.
    apply lookup_insert_eq. }
  split; [|split; [|split]].
  - rewrite exists_run, Hfile. by rewrite bool_decide_true.
  - unfold Local_getFileSize, bind, fs_stat. by rewrite Hfile.
  - unfold Local_getFileHash, bind, fs_readFile, Fs.readFile. by rewrite Hfile.
  - rewrite (Local_read_run _ _ _ _ _ _ Hfile). simpl.
    rewrite Z.sub_0_r.
    assert ((Z.of_nat (String.length (to_buffer data)) <? 0) = false) as ->
      by (apply Z.ltb_ge; lia).
    simpl. by rewrite read_at_all.
Qed.

Lemma Local_write_read_witness :
  let run := Local_write disk ["up"; "f.txt"] (Text "hello") "text/plain" empty_world in
  (Local_exists disk ["up"; "f.txt"] run.2).1 = Ok true
  ∧ (Local_getFileSize disk ["up"; "f.txt"] run.2).1
    = Ok (Z.of_nat (String.length (to_buffer (Text "hello"))))
  ∧ (Local_getFileHash disk ["up"; "f.txt"] run.2).1 = Ok (Crypto.hex (S3_md5 (Text "hello")))
  ∧ (Local_read disk ["up"; "f.txt"] 0 None run.2).1 = Ok (to_buffer (Text "hello")).
Proof.
  intros run.
  apply (Local_write_read disk ["up"; "f.txt"] (Text "hello") "text/plain" empty_world
           true run.2).
  by vm_compute.
Defined.

(** X9: [read] of a file with an offset and a length that are not negative
    returns exactly [len] bytes: byte [i] is byte [offset + i] of the file,
    and zero from the end of the file on. *)
Theorem Local_read_padded this p d offset len w :
  Fs.lookup (w_fs w) p = Some (File d) →
  0 ≤ offset → 0 ≤ len →
  ∃ r, (Local_read this p offset (Some len) w).1 = Ok r
       ∧ String.length r = Z.to_nat len
       ∧ ∀ i, (i < Z.to_nat len)%nat →
              String.get i r = Some (default zero (String.get (Z.to_nat offset + i) d)).
Proof.
  intros Hp Ho Hl. rewrite (Local_read_run _ _ _ _ _ _ Hp). simpl.
  assert ((len <? 0) = false) as -> by (apply Z.ltb_ge; lia).
  assert ((offset <? 0) = false) as -> by (apply Z.ltb_ge; lia).
  simpl. eexists. split; [done|]. split; [apply length_read_at|].
  intros i Hi. by apply string_get_read_at.
Qed.

Lemma Local_read_padded_witness :
  ∃ r, (Local_read disk ["src"; "a.txt"] 4 (Some 3) (mixed ∅ [])).1 = Ok r
       ∧ String.length r = Z.to_nat 3
       ∧ ∀ i, (i < Z.to_nat 3)%nat →
              String.get i r = Some (default zero (String.get (Z.to_nat 4 + i) "abcde")).
Proof.
  apply (Local_read_padded disk ["src"; "a.txt"] "abcde" 4 3 (mixed ∅ [])).
  - by vm_compute.
  - lia.
  - lia.
Defined.

(** ** [Local.createDirectory] and [Local.move] *)

(** What [mkdir] adds is a directory on the way to its path. *)
Lemma mkdir_go_new (rest pre : list string) (fs : gmap (list string) node) q n :
  (Fs.mkdir_go pre rest fs).2 !! q = Some n →
  fs !! q = Some n
  ∨ n = Dir ∧ fs !! q = None ∧ ∃ j, (0 < j ≤ length rest)%nat ∧ q = pre ++ take j rest.
Proof.
  revert pre fs. induction rest as [|x rest IH]; intros pre fs; simpl; [by left|].
  destruct (fs !! (pre ++ [x])) as [[d|]|] eqn:E; simpl; [by left| |].
  - intros [H|(-> & Hq & j & Hj & ->)]%IH; [by left|right].
    split; [done|]. split; [done|]. exists (S j). split; [lia|]. simpl.
    by rewrite <-app_assoc.
  - intros [H|(-> & Hq & j & Hj & ->)]%IH.
    + destruct (decide (q = pre ++ [x])) as [->|Hne].
      * rewrite lookup_insert_eq in H. injection H as <-. right.
        split; [done|]. split; [done|]. exists 1%nat. split; [lia|]. simpl. by rewrite take_0.
      * rewrite lookup_insert_ne in H by done. by left.
    + right. split; [done|]. split.
      * destruct (decide (pre ++ [x] = (pre ++ [x]) ++ take j rest)) as [Heq|Hne].
        -- by rewrite <-Heq, lookup_insert_eq in Hq.
        -- by rewrite lookup_insert_ne in Hq.
      * exists (S j). split; [lia|]. simpl. by rewrite <-app_assoc.
Qed.

Lemma mkdir_new fs p q n :
  (Fs.mkdir p fs).2 !! q = Some n →
  fs !! q = Some n ∨ n = Dir ∧ fs !! q = None ∧ q ≠ [] ∧ q `prefix_of` p.
Proof.
  intros [H|(-> & Hq & j & Hj & ->)]%mkdir_go_new; [by left|right].
  split; [done|]. split; [done|]. simpl. split; [|apply prefix_take].
  destruct p; simpl in *; [lia|]. by destruct j; [lia|].
Qed.

(** [mkdir] fails at a file in the way. *)
Lemma mkdir_go_false (rest pre : list string) (fs : gmap (list string) node) :
  (Fs.mkdir_go pre rest fs).1 = false →
  ∃ j d, (0 < j ≤ length rest)%nat ∧ fs !! (pre ++ take j rest) = Some (File d).
Proof.
  revert pre fs. induction rest as [|x rest IH]; intros pre fs; simpl; [done|].
  destruct (fs !! (pre ++ [x])) as [[d|]|] eqn:E; simpl.
  - intros _. exists 1%nat, d. split; [lia|]. simpl. by rewrite take_0.
  - intros (j & d & Hj & Hd)%IH. exists (S j), d. split; [lia|]. simpl.
    by rewrite <-app_assoc in Hd.
  - intros (j & d & Hj & Hd)%IH. exists (S j), d. split; [lia|]. simpl.
    rewrite <-app_assoc in Hd. simpl in Hd.
    rewrite lookup_insert_ne in Hd; [done|].
    intros Heq%(f_equal length). rewrite !length_app in Heq. simpl in Heq.
    rewrite length_take in Heq. lia.
Qed.

(** X10: [createDirectory] never throws.  It returns [true] with every
    directory on the way to the path in place, or [false] because a file is
    in the way; either way it only adds directories on the way to the path
    and leaves what was there. *)
Theorem createDirectory_spec this p w :
  ∃ b fs',
    Local_createDirectory this p w = (Ok b, set_fs fs' w)
    ∧ (if b then dirs_ok fs' p
       else ∃ j d, (0 < j ≤ length p)%nat ∧ w_fs w !! take j p = Some (File d))
    ∧ (∀ q n, w_fs w !! q = Some n → fs' !! q = Some n)
    ∧ (∀ q n, fs' !! q = Some n → w_fs w !! q = None → n = Dir ∧ q `prefix_of` p).
Proof.
  rewrite createDirectory_run. eexists _, _. split; [done|]. split; [|split].
  - destruct (Fs.mkdir p (w_fs w)).1 eqn:E; [by apply mkdir_dirs_ok|].
    by apply mkdir_go_false in E.
  - intros q n. apply mkdir_mono.
  - intros q n [H|(-> & _ & _ & Hpre)]%mkdir_new Hnone; [congruence|done].
Qed.

Lemma show_ne (p q : list string) : Path.show p ≠ Path.show q → p ≠ q.
Proof. by intros H ->. Qed.

Lemma Local_move_run this source target w :
  Path.show source ≠ Path.show target →
  let fs1 := (Fs.mkdir (Path.dirname target) (w_fs w)).2 in
  Local_move this source target w
  = match Fs.rename source target fs1 with
    | Some fs2 => (Ok true, set_fs fs2 w)
    | None => (Ok false, set_fs fs1 w)
    end.
Proof.
  intros Hne fs1. unfold Local_move.
  destruct (String.eqb_spec (Path.show source) (Path.show target)) as [|_]; [done|].
  unfold try_catch. unfold bind at 1. rewrite createDirectory_run. cbv beta iota.
  unfold bind at 1. unfold fs_rename, fs_update. autorewrite with world. fold fs1.
  destruct (Fs.rename _ _ fs1); [|done]. rewrite ret_run. by autorewrite with world.
Qed.

(** X11: [move] of a file to another path never throws.  When it returns
    [true] the target holds the bytes of the source, the source is gone and
    every other path is as the creation of the target's directories left
    it; when it returns [false] only those directories were made, and the
    target's directory could not be made or the target is a directory. *)
Theorem Local_move_file this source target d w :
  Path.show source ≠ Path.show target →
  Fs.lookup (w_fs w) source = Some (File d) →
  let fs1 := (Fs.mkdir (Path.dirname target) (w_fs w)).2 in
  ∃ b fs',
    Local_move this source target w = (Ok b, set_fs fs' w)
    ∧ if b then
        fs' !! target = Some (File d)
        ∧ fs' !! source = None
        ∧ ∀ q, q ≠ source → q ≠ target → fs' !! q = fs1 !! q
      else
        fs' = fs1
        ∧ (Fs.is_dir fs1 (Path.dirname target) = false ∨ Fs.lookup fs1 target = Some Dir).
Proof.
  intros Hne Hsrc fs1. rewrite Local_move_run by done. fold fs1.
  apply show_ne in Hne.
  assert (source ≠ []) as HS by (by intros ->).
  assert (fs1 !! source = Some (File d)) as Hfile.
  { apply mkdir_mono. by rewrite <-lookup_nonempty. }
  unfold Fs.rename. destruct source as [|x S'] eqn:ES; [done|]. rewrite Hfile.
  destruct (Fs.is_dir fs1 (Path.dirname target)) eqn:Hdir; [|exists false, fs1; auto].
  destruct (Fs.lookup fs1 target) as [[d'|]|] eqn:Hdst.
  2: { exists false, fs1; auto. }
  all: eexists true, _; (split; [done|]); (split; [apply lookup_insert_eq|]); split.
  all: try (rewrite lookup_insert_ne by done; apply lookup_delete_eq).
  all: intros q Hq1 Hq2; rewrite lookup_insert_ne by done; by rewrite lookup_delete_ne.
Qed.

Lemma Local_move_file_witness :
  let fs1 := (Fs.mkdir (Path.dirname ["out"; "deep"; "a"]) (w_fs (with_files inbox))).2 in
  ∃ b fs',
    Local_move disk ["in"; "a"] ["out"; "deep"; "a"] (with_files inbox)
    = (Ok b, set_fs fs' (with_files inbox))
    ∧ if b then
        fs' !! ["out"; "deep"; "a"] = Some (File "x")
        ∧ fs' !! ["in"; "a"] = None
        ∧ ∀ q, q ≠ ["in"; "a"] → q ≠ ["out"; "deep"; "a"] → fs' !! q = fs1 !! q
      else
        fs' = fs1
        ∧ (Fs.is_dir fs1 (Path.dirname ["out"; "deep"; "a"]) = false
           ∨ Fs.lookup fs1 ["out"; "deep"; "a"] = Some Dir).
Proof.
  apply (Local_move_file disk ["in"; "a"] ["out"; "deep"; "a"] "x" (with_files inbox)).
  - by vm_compute.
  - by vm_compute.
Defined.

(** X12: [move] of a path that does not exist returns [false], and still
    leaves behind the directories it made for the target. *)
Theorem Local_move_missing this source target w :
  Path.show source ≠ Path.show target →
  Fs.lookup (w_fs w) source = None →
  Local_move this source target w
  = (Ok false, set_fs (Fs.mkdir (Path.dirname target) (w_fs w)).2 w).
Proof.
  intros Hne Hsrc. rewrite Local_move_run by done.
  set (S := source) in *. set (T := target).
  set (fs1 := (Fs.mkdir (Path.dirname T) (w_fs w)).2).
  assert (Fs.rename S T fs1 = None) as ->; [|done].
  unfold Fs.rename. destruct S as [|x S'] eqn:ES; [done|]. rewrite <-ES in *.
  assert (w_fs w !! S = None) as Hnone by (by rewrite <-lookup_nonempty by (by rewrite ES)).
  destruct (fs1 !! S) as [n|] eqn:E; [|done].
  apply mkdir_new in E as [E|(-> & _ & _ & Hpre)]; [congruence|].
  destruct (Fs.is_dir fs1 (Path.dirname T)); [simpl|done].
  assert (S `prefix_of` T) as HT.
  { etrans; [exact Hpre|]. unfold Path.dirname.
    destruct (decide (T = [])) as [->|HT]; [done|].
    destruct (exists_last HT) as (l & y & ->). rewrite removelast_snoc.
    by apply prefix_app_r. }
  rewrite bool_decide_false; last first.
  { intros ->. unfold Path.dirname in Hpre.
    apply prefix_length in Hpre.
    destruct (decide (T = [])) as [E0|HT0]; [by rewrite E0 in ES|].
    destruct (exists_last HT0) as (l & y & El). rewrite El, removelast_snoc in Hpre.
    rewrite length_app in Hpre. simpl in Hpre. lia. }
  by rewrite bool_decide_true.
Qed.

Lemma Local_move_missing_witness :
  Local_move disk ["nowhere"] ["out"; "deep"; "a"] (with_files inbox)
  = (Ok false,
     set_fs (Fs.mkdir (Path.dirname ["out"; "deep"; "a"]) (w_fs (with_files inbox))).2
       (with_files inbox)).
Proof.
  apply (Local_move_missing disk ["nowhere"] ["out"; "deep"; "a"] (with_files inbox)).
  - by vm_compute.
  - by vm_compute.
Defined.

(** ** [Local.delete] *)

Lemma elem_of_children (fs : gmap (list string) node) p q :
  q ∈ Fs.children fs p ↔ Fs.is_child p q = true ∧ is_Some (fs !! q).
Proof.
  unfold Fs.children. rewrite list_elem_of_In, filter_In, <-list_elem_of_In, list_elem_of_fmap.
  split.
  - intros [([q' n] & -> & Hin%elem_of_map_to_list) Hc]. split; [done|]. by exists n.
  - intros [Hc [n Hn]]. split; [|done]. exists (q, n). split; [done|].
    by apply elem_of_map_to_list.
Qed.

Lemma is_child_prefix p q : Fs.is_child p q = true → p `prefix_of` q ∧ p ≠ q.
Proof.
  unfold Fs.is_child. intros [Hq <-]%bool_decide_eq_true.
  destruct (exists_last Hq) as (l & x & ->). rewrite removelast_snoc. split.
  - by apply prefix_app_r.
  - intros E%(f_equal length). rewrite length_app in E. simpl in E. lia.
Qed.

Lemma children_delete_self (fs : gmap (list string) node) p :
  Fs.children fs p = [] → Fs.children (delete p fs) p = [].
Proof.
  intros H. apply children_nil. intros q Hq.
  destruct (is_child_prefix _ _ Hq) as [_ Hne].
  rewrite lookup_delete_ne by done.
  destruct (fs !! q) as [n|] eqn:E; [|done].
  assert (q ∈ Fs.children fs p) as Hin by (apply elem_of_children; eauto).
  rewrite H in Hin. by apply elem_of_nil in Hin.
Qed.

Section delete.
Variable this : LocalDevice.

Lemma delete_loop (fuel : nat) (p : list string) :
  (∀ q recursive w, ∃ b fs',
      Local_delete_go fuel this q recursive w = (Ok b, set_fs fs' w)
      ∧ deleted (w_fs w) q recursive b fs') →
  ∀ files w,
    Forall (λ file, p `prefix_of` file) files →
    ∃ fs',
      for_each files (λ file, do* Local_delete_go fuel this file true in ret tt) w
      = (Ok tt, set_fs fs' w)
      ∧ ∀ q, ¬ p `prefix_of` q → fs' !! q = w_fs w !! q.
Proof.
  intros IH files. induction files as [|file files IHf]; intros w Hfiles.
  { exists (w_fs w). by rewrite set_fs_same. }
  apply Forall_cons in Hfiles as [Hfile Hfiles]. simpl.
  destruct (IH file true w) as (b & fs1 & Hrun & Hframe & _).
  unfold bind at 1. unfold bind at 1. rewrite Hrun. cbv beta iota. rewrite ret_run.
  cbv beta iota.
  destruct (IHf (set_fs fs1 w) Hfiles) as (fs2 & Hrun2 & Hframe2).
  exists fs2. rewrite Hrun2. autorewrite with world. split; [done|].
  intros q Hq. rewrite Hframe2 by done. autorewrite with world. apply Hframe.
  intros Hpre. apply Hq. by etrans.
Qed.

Lemma delete_go_spec (fuel : nat) : ∀ p recursive w,
  ∃ b fs',
    Local_delete_go fuel this p recursive w = (Ok b, set_fs fs' w)
    ∧ deleted (w_fs w) p recursive b fs'.
Proof.
  induction fuel as [|fuel IH]; intros p recursive w.
  - simpl. unfold try_catch. unfold bind at 1. unfold fs_stat.
    destruct (Fs.lookup (w_fs w) p) as [[d|]|] eqn:E.
    + unfold bind at 1. unfold fs_unlink, fs_update, Fs.unlink. rewrite E.
      rewrite ret_run. eexists true, _. split; [done|]. split.
      * intros q Hq. apply lookup_delete_ne. by intros ->.
      * by rewrite E.
    + destruct recursive.
      * unfold bind at 1. rewrite throw_run, ret_run. exists false, (w_fs w).
        rewrite set_fs_same. split; [done|]. unfold deleted. by rewrite E.
      * unfold bind at 1. rewrite !ret_run. exists true, (w_fs w).
        rewrite set_fs_same. split; [done|]. split; [done|]. unfold deleted. by rewrite E.
    + rewrite ret_run. exists false, (w_fs w). rewrite set_fs_same. split; [done|].
      unfold deleted. by rewrite E.
  - simpl. unfold try_catch. unfold bind at 1. unfold fs_stat.
    destruct (Fs.lookup (w_fs w) p) as [[d|]|] eqn:E.
    + unfold bind at 1. unfold fs_unlink, fs_update, Fs.unlink. rewrite E.
      rewrite ret_run. eexists true, _. split; [done|]. split.
      * intros q Hq. apply lookup_delete_ne. by intros ->.
      * by rewrite E.
    + destruct recursive.
      * unfold bind at 1. unfold bind at 1.
        unfold Local_getFiles, try_catch, fs_readdir, Fs.is_dir. rewrite E.
        cbv beta iota.
        destruct (delete_loop fuel p IH (Fs.children (w_fs w) p) w) as (fs1 & Hrun & Hframe).
        { apply Forall_forall. intros q [Hq _]%elem_of_children.
          by apply is_child_prefix in Hq as [? _]. }
        unfold bind at 1. rewrite Hrun. cbv beta iota.
        unfold fs_rmdir, fs_update. autorewrite with world.
        unfold Fs.rmdir. destruct p as [|x p'] eqn:Ep.
        { rewrite ret_run. exists false, fs1. split; [done|]. unfold deleted. by rewrite E. }
        rewrite <-Ep in *.
        destruct (fs1 !! p) as [[d|]|] eqn:E1.
        1,3: rewrite ret_run; exists false, fs1; split; [done|]; unfold deleted; by rewrite E.
        destruct (Fs.children fs1 p) eqn:Ec.
        2: { rewrite ret_run. exists false, fs1. split; [done|]. unfold deleted. by rewrite E. }
        rewrite ret_run. autorewrite with world. eexists true, _. split; [done|]. split.
        -- intros q Hq. rewrite lookup_delete_ne by (by intros ->). by apply Hframe.
        -- rewrite E. intros _. split; [apply lookup_delete_eq|].
           by apply children_delete_self.
      * unfold bind at 1. rewrite !ret_run. exists true, (w_fs w).
        rewrite set_fs_same. split; [done|]. split; [done|]. unfold deleted. by rewrite E.
    + rewrite ret_run. exists false, (w_fs w). rewrite set_fs_same. split; [done|].
      unfold deleted. by rewrite E.
Qed.

End delete.

(** X13: [delete] never throws and touches nothing outside the subtree of
    its path.  A file is removed and the result is [true]; a path that does
    not exist gives [false]; a directory without [recursive] is left as it
    is, with the result [true]; with [recursive], when the result is [true]
    the directory is gone and nothing is left directly under it. *)
Theorem Local_delete_subtree this p recursive w :
  ∃ b fs',
    Local_delete this p recursive w = (Ok b, set_fs fs' w)
    ∧ (∀ q, ¬ p `prefix_of` q → fs' !! q = w_fs w !! q)
    ∧ match Fs.lookup (w_fs w) p with
      | Some (File _) => b = true ∧ fs' = delete p (w_fs w)
      | Some Dir =>
          if recursive then b = true → fs' !! p = None ∧ Fs.children fs' p = []
          else b = true ∧ fs' = w_fs w
      | None => b = false ∧ fs' = w_fs w
      end.
Proof. unfold Local_delete. apply delete_go_spec. Qed.

(** ** [Local.abort] in the middle of an upload *)

Lemma Local_delete_entry this q w :
  Fs.lookup (w_fs w) q ≠ Some Dir →
  ∃ b, Local_delete this q true w = (Ok b, set_fs (delete q (w_fs w)) w).
Proof.
  intros Hq. unfold Local_delete.
  destruct (delete_go_spec this (S (size (w_fs w))) q true w) as (b & fs' & Hrun & _ & Hcase).
  exists b. rewrite Hrun. f_equal. f_equal.
  destruct (Fs.lookup (w_fs w) q) as [[d|]|] eqn:E; [by destruct Hcase|done|].
  destruct Hcase as [_ ->]. symmetry. apply delete_id.
  destruct q; [done|]. by rewrite <-lookup_nonempty.
Qed.

Lemma delete_entries this files : ∀ w,
  (∀ q, q ∈ files → Fs.lookup (w_fs w) q ≠ Some Dir) →
  ∃ fs',
    for_each files (λ file, do* Local_delete this file true in ret tt) w
    = (Ok tt, set_fs fs' w)
    ∧ ∀ q, fs' !! q = if bool_decide (q ∈ files) then None else w_fs w !! q.
Proof.
  induction files as [|file files IH]; intros w Hfiles.
  { exists (w_fs w). rewrite set_fs_same. split; [done|]. intros q.
    rewrite bool_decide_false; [done|]. apply not_elem_of_nil. }
  destruct (Local_delete_entry this file w) as [b Hrun].
  { apply Hfiles. by left. }
  simpl. unfold bind at 1. unfold bind at 1. rewrite Hrun. cbv beta iota.
  rewrite ret_run. cbv beta iota.
  destruct (IH (set_fs (delete file (w_fs w)) w)) as (fs' & Hloop & Hfs').
  { intros q Hq. autorewrite with world. intros Hdir.
    assert (q ≠ []) as Hne.
    { intros ->. apply (Hfiles []); [by right|done]. }
    rewrite lookup_nonempty in Hdir by done.
    destruct (decide (q = file)) as [->|Hqf]; [by rewrite lookup_delete_eq in Hdir|].
    rewrite lookup_delete_ne in Hdir by done.
    apply (Hfiles q); [by right|]. by rewrite lookup_nonempty. }
  exists fs'. rewrite Hloop. autorewrite with world. split; [done|].
  intros q. rewrite Hfs'. autorewrite with world.
  destruct (decide (q = file)) as [->|Hqf].
  - rewrite (bool_decide_true (file ∈ file :: files)) by by left.
    rewrite lookup_delete_eq. by destruct (bool_decide (_ ∈ _)).
  - rewrite lookup_delete_ne by done.
    destruct (decide (q ∈ files)) as [Hin|Hnin].
    + rewrite !bool_decide_true; [done|by right|done].
    + rewrite !bool_decide_false; [done| |done]. by intros [?|?]%elem_of_cons.
Qed.

(** X14: [abort] in the middle of a chunked upload.  When the target is not
    a directory, its parent directory exists and the temporary directory
    holds no directory, [abort] returns [true] and removes the target, the
    temporary directory and everything directly in it, and nothing else. *)
Theorem Local_abort_session this p extra w :
  Fs.lookup (w_fs w) p ≠ Some Dir →
  is_Some (Fs.lookup (w_fs w) (Path.dirname p)) →
  w_fs w !! tmp_dir p = Some Dir →
  Forall (λ q, w_fs w !! q ≠ Some Dir) (Fs.children (w_fs w) (tmp_dir p)) →
  ∃ fs',
    Local_abort this p extra w = (Ok true, set_fs fs' w)
    ∧ ∀ q, fs' !! q
           = if bool_decide (q = p ∨ q = tmp_dir p ∨ Fs.is_child (tmp_dir p) q = true)
             then None else w_fs w !! q.
Proof.
  intros Hnd Hparent Htmp Hfiles.
  assert (∀ q, Fs.is_child (tmp_dir p) q = true → w_fs w !! q ≠ Some Dir) as Hflat.
  { intros q Hq Hdir. rewrite Forall_forall in Hfiles. apply (Hfiles q); [|done].
    apply elem_of_children. split; [done|]. by rewrite Hdir. }
  assert (p ≠ []) as Hp by (by intros ->).
  rewrite lookup_nonempty in Hnd by done.
  unfold Local_abort. unfold bind at 1. rewrite exists_run. cbv beta iota.
  rewrite lookup_nonempty by done.
  assert (∃ w1, (if bool_decide (is_Some (w_fs w !! p)) then fs_unlink p else ret tt) w
                = (Ok tt, w1) ∧ w1 = set_fs (delete p (w_fs w)) w) as (w1 & Hun & Hw1).
  { destruct (w_fs w !! p) as [[d|]|] eqn:E.
    - rewrite bool_decide_true by done. eexists. split; [|done].
      apply fs_update_ok. unfold Fs.unlink. by rewrite lookup_nonempty, E.
    - done.
    - rewrite bool_decide_false by (by intros []). eexists. split; [done|].
      rewrite delete_id by done. by rewrite set_fs_same. }
  unfold bind at 1. rewrite Hun. cbv beta iota.
  change (Path.join (Path.dirname p) ["tmp_" +:+ Path.basename p]) with (tmp_dir p).
  rewrite dirname_tmp_dir.
  unfold bind at 1. rewrite exists_run. cbv beta iota.
  assert (w_fs w1 !! tmp_dir p = Some Dir) as Htmp1.
  { subst w1. autorewrite with world. rewrite lookup_delete_ne; [done|].
    apply target_ne_tmp_dir. }
  rewrite bool_decide_true.
  2:{ subst w1. autorewrite with world. by rewrite lookup_dirname_delete. }
  cbv beta iota. unfold negb.
  unfold bind at 1. unfold Local_getFiles, try_catch, fs_readdir, Fs.is_dir.
  rewrite lookup_nonempty by apply tmp_dir_nonempty. rewrite Htmp1.
  cbv beta iota.
  destruct (delete_entries this (Fs.children (w_fs w1) (tmp_dir p)) w1) as (fs2 & Hloop & Hfs2).
  { intros q [Hq [n Hn]]%elem_of_children.
    assert (q ≠ []) as Hne by (intros ->; by apply bool_decide_eq_true in Hq as [? _]).
    rewrite lookup_nonempty by done. subst w1. revert Hn. autorewrite with world.
    destruct (decide (q = p)) as [->|Hqp]; [by rewrite lookup_delete_eq|].
    rewrite lookup_delete_ne by done. intros _. by apply Hflat. }
  unfold bind at 1. rewrite Hloop. cbv beta iota.
  unfold try_catch. unfold bind at 1. unfold fs_rmdir, fs_update. autorewrite with world.
  assert (∀ q, fs2 !! q
               = if bool_decide (q = p ∨ Fs.is_child (tmp_dir p) q = true)
                 then None else w_fs w !! q) as Hall.
  { intros q. rewrite Hfs2. subst w1. autorewrite with world.
    destruct (decide (q = p)) as [->|Hqp].
    - rewrite (bool_decide_true (_ ∨ _)) by by left.
      rewrite lookup_delete_eq. by destruct (bool_decide (_ ∈ _)).
    - rewrite lookup_delete_ne by done.
      destruct (Fs.is_child (tmp_dir p) q) eqn:Hc.
      + rewrite (bool_decide_true (_ ∨ _)) by by right.
        destruct (w_fs w !! q) as [n|] eqn:E; [|by destruct (bool_decide (_ ∈ _))].
        rewrite bool_decide_true; [done|]. apply elem_of_children. split; [done|].
        autorewrite with world. rewrite lookup_delete_ne by done. by exists n.
      + rewrite (bool_decide_false (_ ∨ _)) by (by intros [?|?]).
        rewrite bool_decide_false; [done|]. intros [? _]%elem_of_children. congruence. }
  assert (Fs.rmdir (tmp_dir p) fs2 = Some (delete (tmp_dir p) fs2)) as ->.
  { unfold Fs.rmdir. pose proof (tmp_dir_nonempty p) as Hne.
    destruct (tmp_dir p) as [|x t] eqn:Et; [done|]. rewrite <-Et in *.
    rewrite Hall. rewrite bool_decide_false, Htmp.
    - rewrite children_nil; [done|]. intros q Hq. rewrite Hall.
      by rewrite bool_decide_true by by right.
    - intros [E|E]; [by apply (target_ne_tmp_dir p)|].
      by apply is_child_prefix in E as [_ ?]. }
  rewrite ret_run. autorewrite with world. subst w1. autorewrite with world.
  eexists. split; [done|]. intros q.
  destruct (decide (q = tmp_dir p)) as [->|Hqt].
  - rewrite lookup_delete_eq. by rewrite bool_decide_true by auto.
  - rewrite lookup_delete_ne by done. rewrite Hall.
    destruct (decide (q = p ∨ Fs.is_child (tmp_dir p) q = true)) as [Hyes|Hno].
    + rewrite !bool_decide_true; [done| |done]. destruct Hyes; auto.
    + rewrite !bool_decide_false; [done| |done]. intros [?|[?|?]]; auto.
Qed.

Lemma Local_abort_session_witness :
  let first := Local_uploadData disk (Text "a") ["up"; "f.txt"] "text/plain" 1 3 0 empty_world in
  ∃ fs',
    Local_abort disk ["up"; "f.txt"] "" first.2 = (Ok true, set_fs fs' first.2)
    ∧ ∀ q, fs' !! q
           = if bool_decide (q = ["up"; "f.txt"] ∨ q = tmp_dir ["up"; "f.txt"]
                             ∨ Fs.is_child (tmp_dir ["up"; "f.txt"]) q = true)
             then None else w_fs first.2 !! q.
Proof.
  intros first.
  apply (Local_abort_session disk ["up"; "f.txt"] "" first.2).
  - vm_compute. discriminate.
  - vm_compute. by eexists.
  - by vm_compute.
  - match goal with
    | |- Forall _ ?l =>
        let l' := eval vm_compute in l in replace l with l' by (by vm_compute)
    end.
    repeat (apply Forall_cons; split; [vm_compute; discriminate|]). by apply Forall_nil.
Defined.

(** ** [Local.upload] and a part that is there already *)

(** X15: [Local.upload] does not count a part twice: when the part file of
    chunk [c] is there already and the log lists the chunks that [arrived],
    a call that returns, returns the number of these entries and adds none. *)
Theorem Local_upload_counts_once this source p c chunks md w arrived n :
  chunks ≠ 1 →
  arrived ≠ [] →
  prepared (w_fs w) p !! chunk_log p = Some (File (log_text (map Js.str arrived))) →
  is_Some (prepared (w_fs w) p !! chunk_part p c) →
  (Local_upload this source p c chunks md w).1 = Ok n →
  n = Z.of_nat (length arrived).
Proof.
  intros Hch Hne Hlog Hpart. unfold Local_upload.
  unfold bind at 1. rewrite createDirectory_run. cbv beta iota.
  assert ((chunks =? 1) = false) as -> by lia.
  unfold bind at 1. rewrite createDirectory_run. cbv beta iota.
  rewrite dirname_chunk_log. autorewrite with world.
  change (Fs.mkdir (tmp_dir p) (Fs.mkdir (Path.dirname p) (w_fs w)).2).2
    with (prepared (w_fs w) p).
  set (F := prepared (w_fs w) p) in *.
  unfold bind at 1. rewrite exists_run. cbv beta iota. autorewrite with world.
  rewrite lookup_nonempty by apply chunk_part_nonempty.
  rewrite bool_decide_true by done. unfold negb. cbv iota.
  unfold bind at 1. rewrite ret_run. cbv beta iota.
  unfold try_catch. unfold bind at 1.
  erewrite fs_readFile_ok; last first.
  { autorewrite with world. unfold Fs.readFile.
    rewrite lookup_nonempty by apply chunk_log_nonempty. by rewrite Hlog. }
  cbv beta iota.
  assert (count_lines (log_text (map Js.str arrived)) = Z.of_nat (length arrived)) as ->.
  { rewrite count_lines_log_text.
    - by rewrite length_map.
    - by destruct arrived.
    - apply Forall_forall. intros s (c' & <- & _)%list_elem_of_In%in_map_iff.
      apply str_solid. }
  unfold bind at 1.
  destruct (fs_rename source (chunk_part p c) _) as [[[]|e] w1]; [|done].
  destruct (chunks =? Z.of_nat (length arrived)).
  - unfold bind at 1.
    destruct (Local_joinChunks this p chunks w1) as [[[]|e] w2]; [|done].
    rewrite ret_run. by intros [= <-].
  - rewrite ret_run. by intros [= <-].
Qed.

Lemma Local_upload_counts_once_witness :
  let first := Local_upload disk ["in"; "a"] ["up"; "f.txt"] 1 3 0 (with_files inbox) in
  1 = Z.of_nat (length [1]).
Proof.
  intros first.
  apply (Local_upload_counts_once disk ["in"; "b"] ["up"; "f.txt"] 1 3 0 first.2 [1] 1).
  - lia.
  - done.
  - by vm_compute.
  - vm_compute. by eexists.
  - by vm_compute.
Defined.

(** ** The headers of a request *)

Lemma fold_request_skip (k : string) (l : list (string * string)) : ∀ acc,
  k ∉ Obj.keys l →
  Obj.get k (fold_left (λ (acc : list (string * string)) (e : string * string),
                          if Js.nonempty e.2 then Obj.set Obj.str_idx e.1 e.2 acc else acc)
               l acc)
  = Obj.get k acc.
Proof.
  induction l as [|[k' v'] l IH]; intros acc Hk; [done|].
  apply not_elem_of_cons in Hk as [Hne Hk]. simpl. rewrite IH by done.
  destruct (Js.nonempty v'); [|done]. by apply obj_get_set_ne.
Qed.

Lemma fold_request_get (k v : string) (l : list (string * string)) : ∀ acc,
  NoDup (Obj.keys l) →
  Obj.get k l = Some v →
  Js.nonempty v = true →
  Obj.get k (fold_left (λ (acc : list (string * string)) (e : string * string),
                          if Js.nonempty e.2 then Obj.set Obj.str_idx e.1 e.2 acc else acc)
               l acc)
  = Some v.
Proof.
  induction l as [|[k' v'] l IH]; intros acc Hnd Hget Hv; [done|].
  apply NoDup_cons in Hnd as [Hk' Hnd]. simpl in *.
  destruct (decide (k' = k)) as [->|Hne].
  - injection Hget as ->. rewrite fold_request_skip by done. rewrite Hv.
    apply obj_get_set_eq.
  - by apply IH.
Qed.

Lemma request_headers_own (k v : string) amz hs :
  NoDup (Obj.keys hs) → Obj.get k hs = Some v → Js.nonempty v = true →
  Obj.get k (request_headers amz hs) = Some v.
Proof. intros. by apply fold_request_get. Qed.

Lemma request_headers_amz (k v : string) amz hs :
  NoDup (Obj.keys amz) → Obj.get k hs = None → Obj.get k amz = Some v →
  Js.nonempty v = true →
  Obj.get k (request_headers amz hs) = Some v.
Proof.
  intros Hnd Hhs Hamz Hv. unfold request_headers.
  rewrite fold_request_skip by by apply obj_get_None.
  by apply fold_request_get.
Qed.

Lemma NoDup_keys_delete (k : string) (o : list (string * string)) :
  NoDup (Obj.keys o) → NoDup (Obj.keys (Obj.delete k o)).
Proof.
  induction o as [|[k' v'] o IH]; simpl; [done|].
  intros [Hk' Hnd]%NoDup_cons. destruct (decide (k' = k)); [done|].
  simpl. apply NoDup_cons. split; [|by apply IH].
  intros Hin. apply Hk'. clear -Hin. induction o as [|[k2 v2] o IH]; simpl in *; [done|].
  destruct (decide (k2 = k)); [by right|]. simpl in Hin.
  apply elem_of_cons in Hin as [->|Hin]; [by left|right; by apply IH].
Qed.

Lemma obj_get_delete_eq (k : string) (o : list (string * string)) :
  NoDup (Obj.keys o) → Obj.get k (Obj.delete k o) = None.
Proof.
  induction o as [|[k2 v2] o IH]; simpl; [done|].
  intros [Hk2 Hnd]%NoDup_cons. destruct (decide (k2 = k)) as [->|Hne]; simpl.
  - by apply obj_get_None.
  - rewrite decide_False by done. by apply IH.
Qed.

(** ** Digests are not empty *)

Lemma sha256_shape data : ∃ c s, S3_sha256 data = String c s.
Proof.
  pose proof (length_hex (Crypto.sha256_raw (to_buffer data))) as H.
  unfold Crypto.sha256_raw in H. rewrite length_string_of, length_sha256_bytes in H.
  unfold S3_sha256, Crypto.sha256_raw.
  destruct (Crypto.hex _) as [|c s]; [done|by exists c, s].
Qed.

Lemma length_md5_bytes msg : length (Crypto.md5_bytes msg) = 16%nat.
Proof.
  unfold Crypto.md5_bytes. cbv zeta. set (st := fold_left _ _ _).
  by rewrite !length_app.
Qed.

Lemma length_bytes_of s : length (Crypto.bytes_of s) = String.length s.
Proof.
  unfold Crypto.bytes_of. rewrite length_map.
  induction s as [|a s IH]; simpl; [done|]. by rewrite IH.
Qed.

Lemma content_md5_shape data : Js.nonempty (content_md5 data) = true.
Proof.
  unfold content_md5, Crypto.base64, S3_md5, Crypto.md5_raw.
  pose proof (length_bytes_of (Crypto.string_of (Crypto.md5_bytes (Crypto.bytes_of (to_buffer data)))))
    as H.
  rewrite length_string_of, length_md5_bytes in H.
  destruct (Crypto.bytes_of _) as [|a [|b [|c l]]]; done.
Qed.

Lemma sha256_nonempty data : Js.nonempty (S3_sha256 data) = true.
Proof. by destruct (sha256_shape data) as (c & s & ->). Qed.

(** ** One call, one request *)

(** X16: [call] on a plain [S3] device sends exactly one request and never
    retries.  The request has the method it is given, the URL made of the
    host header, the resolved path and the query, a body for [PUT] and
    [POST] only, and the headers of the device once the two dates and,
    unless the device holds one, the hash of the payload are set, together
    with the [Authorization] that [getSignatureV4] computes from them.  The
    outcome is the answer to that request, and one reply is used up. *)
Theorem S3_call_once this method uri data parameters decode w self :
  w_s3 w !! this = Some self →
  endpointUrl self = None →
  let self' := dated (pending w) data self in
  let uri' := getAbsolutePath uri in
  ∃ authorization q,
    S3_getSignatureV4 self' method uri' parameters = Ok authorization
    ∧ S3_call this method uri data parameters decode w
      = (answer decode (pending w), sent this self' q w)
    ∧ q_method q = method
    ∧ q_url q = "https://" +:+ js_string_of (Obj.get "host" (headers self)) +:+ uri'
                +:+ query_string parameters
    ∧ q_body q = (if String.eqb method "PUT" || String.eqb method "POST"
                  then Some data else None)
    ∧ q_headers q = Obj.set Obj.str_idx "Authorization" authorization
                      (request_headers (amzHeaders self') (headers self')).
Proof.
  intros Hself Hplain self' uri'.
  destruct (S3_call_run this method uri data parameters decode w self Hself Hplain)
    as (a & Ha & Hrun).
  by eexists a, _.
Qed.

Lemma S3_call_once_witness :
  let self' := dated (pending (cloud [refused])) (Text "") bucket0 in
  let uri' := getAbsolutePath "/k" in
  ∃ authorization q,
    S3_getSignatureV4 self' "GET" uri' [] = Ok authorization
    ∧ S3_call 0 "GET" "/k" (Text "") [] true (cloud [refused])
      = (answer true (pending (cloud [refused])), sent 0 self' q (cloud [refused]))
    ∧ q_method q = "GET"
    ∧ q_url q = "https://" +:+ js_string_of (Obj.get "host" (headers bucket0)) +:+ uri'
                +:+ query_string []
    ∧ q_body q = (if String.eqb "GET" "PUT" || String.eqb "GET" "POST"
                  then Some (Text "") else None)
    ∧ q_headers q = Obj.set Obj.str_idx "Authorization" authorization
                      (request_headers (amzHeaders self') (headers self')).
Proof.
  apply (S3_call_once 0 "GET" "/k" (Text "") [] true (cloud [refused]) bucket0);
    reflexivity.
Defined.

(** ** What [write], [delete] and [abort] send *)

(** X17: the request of [write] carries the integrity headers of the data it
    sends: one [PUT] with the data as its body, with [content-md5] the
    base64 MD5 digest and [x-amz-content-sha256] the hexadecimal SHA-256
    digest of that data. *)
Theorem S3_write_integrity this path data ct w self :
  w_s3 w !! this = Some self →
  endpointUrl self = None →
  NoDup (Obj.keys (headers self)) →
  NoDup (Obj.keys (amzHeaders self)) →
  Obj.get "x-amz-content-sha256" (headers self) = None →
  ∃ q,
    w_wire (S3_write this path data ct w).2 = w_wire w ++ [q]
    ∧ q_method q = "PUT"
    ∧ q_body q = Some data
    ∧ Obj.get "content-md5" (q_headers q) = Some (content_md5 data)
    ∧ Obj.get "x-amz-content-sha256" (q_headers q) = Some (S3_sha256 data).
Proof.
  intros Hself Hplain Hnd1 Hnd2 Hsha.
  unfold S3_write. unfold bind at 1. rewrite emit_run. cbv beta iota.
  unfold set_header, set_amzHeader.
  erewrite s3_update_bind by exact Hself.
  erewrite s3_update_bind by apply lookup_insert_eq.
  erewrite s3_update_bind by apply lookup_insert_eq.
  erewrite s3_this_bind by apply lookup_insert_eq.
  erewrite s3_update_bind by apply lookup_insert_eq.
  cbn [w_s3 set_s3 set_trace acl with_headers with_amzHeaders].
  rewrite !insert_insert_eq.
  set (base := with_amzHeaders _ _). set (W := set_s3 _ _).
  destruct (S3_call_run this "PUT" (object_uri path true) data [] true W base)
    as (a & Ha & Hrun); [apply lookup_insert_eq|done|].
  unfold bind at 1. rewrite Hrun.
  set (self' := dated (pending W) data base) in *.
  set (q := signed_request _ _ _ _ _ _ _) in *.
  exists q.
  assert (∀ r : result CallResult,
            w_wire (match r with
                    | Ok a0 => ret true (sent this self' q W)
                    | Throw e => (Throw e, sent this self' q W)
                    end).2 = w_wire w ++ [q]) as Hwire by (by intros []).
  split; [apply Hwire|]. split; [done|]. split; [done|].
  unfold q, signed_request. cbn [q_headers].
  rewrite !obj_get_set_ne by done.
  assert (headers self' = Obj.set Obj.str_idx "date" (now_utc (pending W))
                            (Obj.set Obj.str_idx "content-md5" (content_md5 data)
                               (Obj.set Obj.str_idx "content-type" ct (headers self))))
    as Hhs by done.
  destruct (sha256_shape data) as (c & s & Hshape).
  assert (amzHeaders self'
          = Obj.set Obj.str_idx "x-amz-date" (Js.strip_date (now_iso (pending W)))
              (Obj.set Obj.str_idx "x-amz-acl" (acl self)
                 (Obj.set Obj.str_idx "x-amz-content-sha256" (S3_sha256 data)
                    (amzHeaders self)))) as Hamz.
  { unfold self', dated. cbn [amzHeaders with_headers with_amzHeaders base].
    rewrite !obj_get_set_ne by done. rewrite obj_get_set_eq. by rewrite Hshape. }
  split.
  - apply request_headers_own.
    + rewrite Hhs. by do 3 apply NoDup_keys_set.
    + rewrite Hhs. rewrite obj_get_set_ne by done. apply obj_get_set_eq.
    + apply content_md5_shape.
  - apply request_headers_amz.
    + rewrite Hamz. by do 3 apply NoDup_keys_set.
    + rewrite Hhs. by rewrite !obj_get_set_ne.
    + rewrite Hamz. rewrite !obj_get_set_ne by done. apply obj_get_set_eq.
    + apply sha256_nonempty.
Qed.


Lemma S3_write_integrity_witness :
  ∃ q,
    w_wire (S3_write 0 "k/obj" (Text "a") "text/plain" (cloud [accepted])).2
    = w_wire (cloud [accepted]) ++ [q]
    ∧ q_method q = "PUT"
    ∧ q_body q = Some (Text "a")
    ∧ Obj.get "content-md5" (q_headers q) = Some (content_md5 (Text "a"))
    ∧ Obj.get "x-amz-content-sha256" (q_headers q) = Some (S3_sha256 (Text "a")).
Proof.
  apply (S3_write_integrity 0 "k/obj" (Text "a") "text/plain" (cloud [accepted]) bucket0).
  - reflexivity.
  - reflexivity.
  - apply (bool_decide_unpack _). by vm_compute.
  - apply (bool_decide_unpack _). by vm_compute.
  - reflexivity.
Defined.

(** X18: the hash of the payload on requests without a body.  [call] fills
    [x-amz-content-sha256] only when the device holds none.  [delete]
    removes the one of the request before, so its request carries the hash
    of the empty payload; [abort] does not, so its request carries whatever
    hash the request before left. *)
Theorem payload_hash_without_body this path recursive extra w self c h :
  w_s3 w !! this = Some self →
  endpointUrl self = None →
  NoDup (Obj.keys (amzHeaders self)) →
  Obj.get "x-amz-content-sha256" (headers self) = None →
  Obj.get "x-amz-content-sha256" (amzHeaders self) = Some (String c h) →
  (∃ q, w_wire (S3_delete this path recursive w).2 = w_wire w ++ [q]
        ∧ q_method q = "DELETE" ∧ q_body q = None
        ∧ Obj.get "x-amz-content-sha256" (q_headers q) = Some (S3_sha256 (Text "")))
  ∧ (∃ q, w_wire (S3_abort this path extra w).2 = w_wire w ++ [q]
          ∧ q_method q = "DELETE" ∧ q_body q = None
          ∧ Obj.get "x-amz-content-sha256" (q_headers q) = Some (String c h)).
Proof.
  intros Hself Hplain Hnd Hsha Hheld. split.
  - unfold S3_delete, delete_header, delete_amzHeader, set_header.
    erewrite s3_update_bind by exact Hself.
    erewrite s3_update_bind by apply lookup_insert_eq.
    erewrite s3_update_bind by apply lookup_insert_eq.
    erewrite s3_update_bind by apply lookup_insert_eq.
    cbn [w_s3 set_s3 with_headers with_amzHeaders headers amzHeaders].
    rewrite !insert_insert_eq.
    set (base := with_headers _ _). set (W := set_s3 _ _).
    destruct (S3_call_run this "DELETE" (object_uri path false) (Text "") [] true W base)
      as (a & Ha & Hrun); [apply lookup_insert_eq|done|].
    unfold bind at 1. rewrite Hrun.
    set (self' := dated (pending W) (Text "") base) in *.
    set (q := signed_request _ _ _ _ _ _ _) in *.
    exists q.
    assert (∀ r : result CallResult,
              w_wire (match r with
                      | Ok a0 => ret true (sent this self' q W)
                      | Throw e => (Throw e, sent this self' q W)
                      end).2 = w_wire w ++ [q]) as Hwire by (by intros []).
    split; [apply Hwire|]. split; [done|]. split; [done|].
    unfold q, signed_request. cbn [q_headers]. rewrite obj_get_set_ne by done.
    set (amz0 := Obj.delete "x-amz-content-sha256" (Obj.delete "x-amz-acl" (amzHeaders self))).
    assert (NoDup (Obj.keys amz0)) as Hnd0 by (by do 2 apply NoDup_keys_delete).
    assert (amzHeaders self'
            = Obj.set Obj.str_idx "x-amz-content-sha256" (S3_sha256 (Text ""))
                (Obj.set Obj.str_idx "x-amz-date" (Js.strip_date (now_iso (pending W))) amz0))
      as Hamz.
    { unfold self', dated. cbn [amzHeaders with_headers with_amzHeaders base]. fold amz0.
      rewrite obj_get_set_ne by done. unfold amz0. rewrite obj_get_delete_eq; [done|].
      by apply NoDup_keys_delete. }
    apply request_headers_amz.
    + rewrite Hamz. by do 2 apply NoDup_keys_set.
    + unfold self', dated, base. cbn [headers with_headers with_amzHeaders].
      rewrite !obj_get_set_ne by done. by rewrite obj_get_delete_ne.
    + rewrite Hamz. apply obj_get_set_eq.
    + apply sha256_nonempty.
  - unfold S3_abort, delete_header, set_header.
    erewrite s3_update_bind by exact Hself.
    erewrite s3_update_bind by apply lookup_insert_eq.
    cbn [w_s3 set_s3 with_headers with_amzHeaders headers amzHeaders].
    rewrite !insert_insert_eq.
    set (base := with_headers _ _). set (W := set_s3 _ _).
    destruct (S3_call_run this "DELETE" (object_uri path false) (Text "") [("uploadId", extra)]
                true W base) as (a & Ha & Hrun); [apply lookup_insert_eq|done|].
    unfold bind at 1. rewrite Hrun.
    set (self' := dated (pending W) (Text "") base) in *.
    set (q := signed_request _ _ _ _ _ _ _) in *.
    exists q.
    assert (∀ r : result CallResult,
              w_wire (match r with
                      | Ok a0 => ret true (sent this self' q W)
                      | Throw e => (Throw e, sent this self' q W)
                      end).2 = w_wire w ++ [q]) as Hwire by (by intros []).
    split; [apply Hwire|]. split; [done|]. split; [done|].
    unfold q, signed_request. cbn [q_headers]. rewrite obj_get_set_ne by done.
    assert (amzHeaders self'
            = Obj.set Obj.str_idx "x-amz-date" (Js.strip_date (now_iso (pending W)))
                (amzHeaders self)) as Hamz.
    { unfold self', dated. cbn [amzHeaders with_headers with_amzHeaders base].
      rewrite obj_get_set_ne by done. by rewrite Hheld. }
    apply request_headers_amz.
    + rewrite Hamz. by apply NoDup_keys_set.
    + unfold self', dated, base. cbn [headers with_headers with_amzHeaders].
      rewrite !obj_get_set_ne by done. by rewrite obj_get_delete_ne.
    + rewrite Hamz. by rewrite obj_get_set_ne.
    + done.
Qed.

Lemma payload_hash_without_body_witness :
  let w := (S3_write 0 "k/obj" (Text "a") "text/plain" (cloud [accepted])).2 in
  (∃ q, w_wire (S3_delete 0 "k/obj" false w).2 = w_wire w ++ [q]
        ∧ q_method q = "DELETE" ∧ q_body q = None
        ∧ Obj.get "x-amz-content-sha256" (q_headers q) = Some (S3_sha256 (Text "")))
  ∧ (∃ q, w_wire (S3_abort 0 "k/obj" "u-1" w).2 = w_wire w ++ [q]
          ∧ q_method q = "DELETE" ∧ q_body q = None
          ∧ Obj.get "x-amz-content-sha256" (q_headers q)
            = Some (String "c"
                      "a978112ca1bbdcafac231b39a23dc4da786eff8147c4e72b9807785afee48bb")).
Proof.
  intros w.
  apply (payload_hash_without_body 0 "k/obj" false "u-1" w
           (default bucket0 (w_s3 w !! 0%nat))).
  - by vm_compute.
  - by vm_compute.
  - apply (bool_decide_unpack _). by vm_compute.
  - by vm_compute.
  - by vm_compute.
Defined.

(** ** [MinIO.call] *)

(** X19: [MinIO.call] swaps the host header around the request and puts it
    back only when the request is answered: after a failed [fetch] the
    device is left with the host without its bucket. *)
Theorem MinIO_call_host this method uri data parameters decode w self endpoint host :
  w_s3 w !! this = Some self →
  endpointUrl self = Some endpoint →
  Obj.get "host" (headers self) = Some host →
  ∃ self',
    w_s3 (S3_call this method uri data parameters decode w).2 !! this = Some self'
    ∧ Obj.get "host" (headers self')
      = Some (match response (pending w) with
              | Some _ => host
              | None => Js.join "." (tl (Js.split "."%char host))
              end).
Proof.
  intros Hself Hminio Hhost.
  destruct (MinIO_call_run this method uri data parameters decode w self endpoint host
              Hself Hminio Hhost) as (a & _ & ->).
  cbn [snd sent w_s3]. eexists. split; [apply lookup_insert_eq|].
  destruct (response (pending w)).
  - apply obj_get_set_eq.
  - unfold dated. cbn [headers with_headers with_amzHeaders].
    rewrite obj_get_set_ne by done. apply obj_get_set_eq.
Qed.

Lemma MinIO_call_host_witness :
  ∃ self',
    w_s3 (S3_call 0 "GET" "/k" (Text "") [] true (online minio0 [offline])).2 !! 0%nat
    = Some self'
    ∧ Obj.get "host" (headers self')
      = Some (match response (pending (online minio0 [offline])) with
              | Some _ => "bucket.localhost:9000"
              | None => Js.join "." (tl (Js.split "."%char "bucket.localhost:9000"))
              end).
Proof.
  apply (MinIO_call_host 0 "GET" "/k" (Text "") [] true (online minio0 [offline]) minio0
           "http://localhost:9000" "bucket.localhost:9000"); reflexivity.
Defined.

Lemma js_join_split sep s : Js.join (String sep "") (Js.split sep s) = s.
Proof.
  induction s as [|a s IH]; [done|]. simpl.
  destruct (Ascii.eqb_spec a sep) as [->|Hne].
  - destruct (Js.split sep s) as [|h t] eqn:E; [by destruct s; simpl in *; repeat case_match|].
    change (Js.join (String sep "") ("" :: h :: t)) with (String sep (Js.join (String sep "") (h :: t))).
    by rewrite IH.
  - destruct (Js.split sep s) as [|h t] eqn:E; [by destruct s; simpl in *; repeat case_match|].
    destruct t as [|h2 t]; simpl in *; by rewrite <-IH.
Qed.

(** X20: a [MinIO] device addresses its bucket in the path: for a bucket
    name without a dot, the request goes to
    [<protocol>://<endpoint>/<bucket><path><query>], and its host header is
    the endpoint. *)
Theorem MinIO_path_style this method uri data parameters decode w
    root accessKey secretKey bucket endpoint acl useSSL :
  w_s3 w !! this = Some (MinIO_new root accessKey secretKey bucket endpoint acl useSSL) →
  without "." bucket →
  ∃ q,
    w_wire (S3_call this method uri data parameters decode w).2 = w_wire w ++ [q]
    ∧ q_url q = (if useSSL then "https" else "http") +:+ "://" +:+ strip_protocol endpoint
                +:+ "/" +:+ bucket +:+ getAbsolutePath uri +:+ query_string parameters
    ∧ (strip_protocol endpoint ≠ "" →
       Obj.get "host" (q_headers q) = Some (strip_protocol endpoint)).
Proof.
  intros Hself Hbucket.
  set (self := MinIO_new _ _ _ _ _ _ _) in *.
  destruct (MinIO_call_run this method uri data parameters decode w self
              ((if useSSL then "https" else "http") +:+ "://" +:+ strip_protocol endpoint)
              (bucket +:+ "." +:+ strip_protocol endpoint) Hself)
    as (a & _ & ->); [done|done|].
  eexists. split; [done|]. cbn [q_url q_headers signed_request].
  change ("." +:+ strip_protocol endpoint) with (String "." (strip_protocol endpoint)).
  rewrite split_no_sep by done. cbn [hd tl]. split.
  - by rewrite !string_app_assoc.
  - intros Hne. rewrite obj_get_set_ne by done.
    change "." with (String "."%char "") at 1. rewrite js_join_split.
    apply request_headers_own.
    + unfold dated. cbn [headers with_headers with_amzHeaders].
      do 2 apply NoDup_keys_set. unfold self, MinIO_new.
      cbn [headers with_headers with_endpointUrl]. apply NoDup_keys_set.
      apply (bool_decide_unpack _). by vm_compute.
    + unfold dated. cbn [headers with_headers with_amzHeaders].
      rewrite obj_get_set_ne by done. apply obj_get_set_eq.
    + by destruct (strip_protocol endpoint).
Qed.


Lemma MinIO_path_style_witness :
  ∃ q,
    w_wire (S3_call 0 "GET" "/k" (Text "") [] true (online minio0 [accepted])).2
    = w_wire (online minio0 [accepted]) ++ [q]
    ∧ q_url q = (if false then "https" else "http") +:+ "://"
                +:+ strip_protocol "http://localhost:9000"
                +:+ "/" +:+ "bucket" +:+ getAbsolutePath "/k" +:+ query_string []
    ∧ (strip_protocol "http://localhost:9000" ≠ "" →
       Obj.get "host" (q_headers q) = Some (strip_protocol "http://localhost:9000")).
Proof.
  apply (MinIO_path_style 0 "GET" "/k" (Text "") [] true (online minio0 [accepted])
           "root" "access" "secret" "bucket" "http://localhost:9000" "private" false).
  - reflexivity.
  - reflexivity.
Defined.

(** ** [S3.exists] *)

(** X21: [exists] never throws: it sends one [HEAD] request and returns
    [true] when the request is answered well, [false] when it fails in any
    way. *)
Theorem S3_exists_spec this path w self :
  w_s3 w !! this = Some self →
  callable self →
  ∃ self' q,
    S3_exists this path w
    = (Ok (match answer true (pending w) with Ok _ => true | Throw _ => false end),
       sent this self' q w)
    ∧ q_method q = "HEAD"
    ∧ q_body q = None.
Proof.
  intros Hself Hcall.
  destruct (S3_getInfo_run this path w self Hself Hcall) as (self' & q & Hrun & _ & Hm & Hb).
  exists self', q. split; [|done].
  unfold S3_exists, try_catch. unfold bind at 1. rewrite Hrun.
  by destruct (answer true (pending w)).
Qed.

Lemma S3_exists_spec_witness :
  ∃ self' q,
    S3_exists 0 "k/obj" (cloud [refused])
    = (Ok (match answer true (pending (cloud [refused])) with
           | Ok _ => true
           | Throw _ => false
           end),
       sent 0 self' q (cloud [refused]))
    ∧ q_method q = "HEAD"
    ∧ q_body q = None.
Proof.
  apply (S3_exists_spec 0 "k/obj" (cloud [refused]) bucket0); [reflexivity|].
  left. reflexivity.
Defined.

(** ** The count of a multipart upload *)

Section obj_length.
Context {K V : Type} `{EqDecision K} (idx : K → option N).
Implicit Types (o : list (K * V)) (k : K) (v : V).

Lemma length_obj_update k v o : length (Obj.update k v o) = length o.
Proof.
  induction o as [|[k' v'] o IH]; simpl; [done|].
  destruct (decide (k' = k)); simpl; [done|]. by rewrite IH.
Qed.

Lemma length_obj_insert_index n k v o : length (Obj.insert_index idx n k v o) = S (length o).
Proof.
  induction o as [|[k' v'] o IH]; simpl; [done|].
  destruct (idx k') as [n'|]; [destruct (n' <? n)%N|]; simpl; try done. by rewrite IH.
Qed.

Lemma length_obj_set k v o :
  length (Obj.set idx k v o) = if Obj.has k o then length o else S (length o).
Proof.
  unfold Obj.set. destruct (Obj.has k o); [apply length_obj_update|].
  destruct (idx k); [apply length_obj_insert_index|].
  rewrite length_app. simpl. lia.
Qed.

End obj_length.

Lemma S3_write_heap this path data ct w : w_heap (S3_write this path data ct w).2 = w_heap w.
Proof.
  unfold S3_write. unfold bind at 1. rewrite emit_run. cbv beta iota.
  set (m := bind _ _).
  assert (network_only m) as Hm by (unfold m; repeat net_step).
  destruct (Hm (set_trace (w_trace w ++ [EvWrite (OfS3 this) path data ct]) w)) as (_ & Hh & _).
  by rewrite Hh.
Qed.

(** X22: the count of a bag stays the number of its parts: when [chunks] is
    the number of entries of [parts] before a call of [S3.uploadData], it is
    so after the call, whatever the call returns or throws. *)
Theorem S3_uploadData_counted this data path ct c chunks md w :
  counted (md_at w md) →
  counted (md_at (S3_uploadData this data path ct c chunks md w).2 md).
Proof.
  intros [Hcount Hnd].
  destruct ((c =? 1) && (chunks =? 1)) eqn:Hmode.
  - unfold S3_uploadData. unfold bind at 1. rewrite emit_run. cbv beta iota. rewrite Hmode.
    set (W := set_trace _ w).
    assert (w_heap (bind (S3_write this path data ct) (λ _, ret 1) W).2 = w_heap w) as Hheap.
    { unfold bind. pose proof (S3_write_heap this path data ct W) as H.
      by destruct (S3_write this path data ct W) as [[]]. }
    by rewrite (md_at_heap _ _ md Hheap).
  - destruct (S3_uploadData this data path ct c chunks md w) as [r w'] eqn:Hrun.
    apply S3_uploadData_multi in Hrun; [|done]. simpl.
    destruct Hrun as [e _ _ Hparts Hchunks|etag parts0 count0 parts n Hparts Hchunks _].
    + unfold counted. by rewrite Hparts, Hchunks.
    + unfold counted. rewrite Hparts, Hchunks. simpl. split.
      * unfold parts, n. rewrite length_obj_set. fold parts0 count0 in Hcount.
        destruct (Obj.has c parts0); lia.
      * by apply NoDup_keys_set.
Qed.

Lemma S3_uploadData_counted_witness :
  counted (md_at (S3_uploadData 0 (Text "a") "k/obj" "text/plain" 1 3 0
                    (cloud [accepted; tagged "t1"])).2 0).
Proof.
  apply (S3_uploadData_counted 0 (Text "a") "k/obj" "text/plain" 1 3 0
           (cloud [accepted; tagged "t1"])).
  split; [reflexivity|]. apply NoDup_nil_2.
Defined.

(** ** Computations that do the same to the files *)

Lemma same_files_ret {A} (a : A) : same_files (ret a) (ret a).
Proof. by intros w1 w2 H. Qed.

Lemma same_files_throw {A} e : same_files (@throw A e) (throw e).
Proof. by intros w1 w2 H. Qed.

Lemma same_files_bind {A B} (m1 m2 : M A) (k1 k2 : A → M B) :
  same_files m1 m2 → (∀ a, same_files (k1 a) (k2 a)) → same_files (bind m1 k1) (bind m2 k2).
Proof.
  intros Hm Hk w1 w2 Hw. unfold bind. destruct (Hm w1 w2 Hw) as [Hr Hfs].
  destruct (m1 w1) as [[a1|e1] u1], (m2 w2) as [[a2|e2] u2]; simpl in *; try done.
  - injection Hr as ->. by apply Hk.
  - by injection Hr as ->.
Qed.

Lemma same_files_try_catch {A} (m1 m2 : M A) (h1 h2 : string → M A) :
  same_files m1 m2 → (∀ e, same_files (h1 e) (h2 e)) →
  same_files (try_catch m1 h1) (try_catch m2 h2).
Proof.
  intros Hm Hh w1 w2 Hw. unfold try_catch. destruct (Hm w1 w2 Hw) as [Hr Hfs].
  destruct (m1 w1) as [[a1|e1] u1], (m2 w2) as [[a2|e2] u2]; simpl in *; try done.
  injection Hr as ->. by apply Hh.
Qed.

Lemma same_files_emit e1 e2 : same_files (emit e1) (emit e2).
Proof. by intros w1 w2 H. Qed.

Lemma same_files_fs_stat p : same_files (fs_stat p) (fs_stat p).
Proof. intros w1 w2 H. unfold fs_stat. rewrite H. by destruct (Fs.lookup _ _). Qed.

Lemma same_files_fs_mkdir p : same_files (fs_mkdir p) (fs_mkdir p).
Proof. intros w1 w2 H. unfold fs_mkdir. rewrite H. by destruct (Fs.mkdir _ _) as [[] ?]. Qed.

Lemma same_files_fs_update op code : same_files (fs_update op code) (fs_update op code).
Proof. intros w1 w2 H. unfold fs_update. rewrite H. by destruct (op _). Qed.

Lemma same_files_fs_readFile p : same_files (fs_readFile p) (fs_readFile p).
Proof. intros w1 w2 H. unfold fs_readFile. rewrite H. by destruct (Fs.readFile _ _). Qed.

Lemma same_files_for_range (body1 body2 : Z → M unit) n : ∀ i,
  (∀ j, same_files (body1 j) (body2 j)) →
  same_files (for_range n i body1) (for_range n i body2).
Proof.
  induction n as [|n IH]; intros i Hb; simpl; [apply same_files_ret|].
  apply same_files_bind; [apply Hb|]. intros _. by apply IH.
Qed.

Create HintDb files.
#[export] Hint Resolve same_files_ret same_files_throw same_files_emit same_files_fs_stat
  same_files_fs_mkdir same_files_fs_update same_files_fs_readFile : files.

Ltac files_step :=
  repeat lazymatch goal with
         | |- same_files (bind _ _) (bind _ _) => apply same_files_bind; [|intros ?]
         | |- same_files (try_catch _ _) (try_catch _ _) =>
             apply same_files_try_catch; [|intros ?]
         | |- same_files (for_range _ _ _) (for_range _ _ _) =>
             apply same_files_for_range; intros ?
         | |- same_files (if ?x then _ else _) (if ?x then _ else _) => destruct x
         | |- same_files (match ?x with _ => _ end) (match ?x with _ => _ end) => destruct x
         | |- same_files (fs_writeFile _ _) _ => unfold fs_writeFile
         | |- same_files (fs_appendFile _ _) _ => unfold fs_appendFile
         | |- same_files (fs_unlink _) _ => unfold fs_unlink
         | |- same_files (fs_rmdir _) _ => unfold fs_rmdir
         | |- same_files (Local_createDirectory _ _) _ => unfold Local_createDirectory
         | |- same_files (Local_exists _ _) _ => unfold Local_exists
         | |- same_files (join_part _ _) _ => unfold join_part
         | |- same_files (Local_joinChunks _ _ _) _ => unfold Local_joinChunks
         | |- same_files _ _ => solve [auto with files]
         end.

Lemma same_files_uploadData this data p ct c chunks md1 md2 :
  same_files (Local_uploadData this data p ct c chunks md1)
    (Local_uploadData this data p ct c chunks md2).
Proof. unfold Local_uploadData. files_step. Qed.

(** ** Computations that leave an entry alone *)

(** ** What [Local.transfer] leaves at a local destination *)

Lemma fs_zeros_app a b : Fs.zeros (a + b) = Fs.zeros a +:+ Fs.zeros b.
Proof. induction a as [|a IH]; simpl; [done|]. by rewrite IH. Qed.

Lemma fs_skip_skip a b s : Fs.skip a (Fs.skip b s) = Fs.skip (b + a) s.
Proof.
  revert s. induction b as [|b IH]; intros s; [done|].
  destruct s as [|c s]; simpl; [by destruct a|]. apply IH.
Qed.

Lemma fs_skip_nil a : Fs.skip a "" = "".
Proof. by destruct a. Qed.

(** Reading [a + b] bytes is reading [a] bytes and then [b] more. *)
Lemma read_app (x : string) (a b : nat) :
  Js.take (a + b) x +:+ Fs.zeros (a + b - String.length (Js.take (a + b) x))
  = (Js.take a x +:+ Fs.zeros (a - String.length (Js.take a x)))
    +:+ (Js.take b (Fs.skip a x)
         +:+ Fs.zeros (b - String.length (Js.take b (Fs.skip a x)))).
Proof.
  revert x. induction a as [|a IH]; intros x.
  { simpl. by destruct x. }
  destruct x as [|c x].
  - simpl. replace (Js.take b "") with "" by (by destruct b). simpl.
    rewrite Nat.sub_0_r. change (String zero (Fs.zeros (a + b))) with (Fs.zeros (S a + b)).
    change (String zero (Fs.zeros a +:+ Fs.zeros b)) with (Fs.zeros (S a) +:+ Fs.zeros b).
    apply fs_zeros_app.
  - cbn [Js.take Nat.add String.length Nat.sub Fs.skip]. rewrite !string_app_cons.
    f_equal. apply IH.
Qed.

Lemma read_at_app d offset a b :
  0 ≤ offset → 0 ≤ a → 0 ≤ b →
  Fs.read_at d offset (a + b) = Fs.read_at d offset a +:+ Fs.read_at d (offset + a) b.
Proof.
  intros Ho Ha Hb. unfold Fs.read_at.
  rewrite !Z2Nat.inj_add by done. rewrite <-fs_skip_skip. apply read_app.
Qed.

Lemma read_at_empty d offset : Fs.read_at d offset 0 = "".
Proof. done. Qed.

Lemma joined_slices d size n : ∀ i,
  0 < size → 0 ≤ i →
  joined (λ j, to_buffer (slice d size j)) (i + 1) (Z.of_nat n)
  = Fs.read_at d (i * size) (Z.of_nat n * size).
Proof.
  induction n as [|n IH]; intros i Hs Hi.
  { by rewrite joined_nil. }
  rewrite joined_cons by lia.
  replace (Z.of_nat (S n) - 1) with (Z.of_nat n) by lia.
  rewrite IH by lia.
  replace (Z.of_nat (S n) * size) with (size + Z.of_nat n * size) by lia.
  rewrite read_at_app by nia. cbn [to_buffer slice].
  replace (i + 1 - 1) with i by lia. do 2 f_equal. lia.
Qed.

Lemma read_at_whole d size :
  Z.of_nat (String.length d) ≤ size →
  Fs.read_at d 0 size = d +:+ Fs.zeros (Z.to_nat size - String.length d).
Proof.
  intros Hs. unfold Fs.read_at. simpl.
  assert (∀ n s, (String.length s ≤ n)%nat → Js.take n s = s) as Htake.
  { induction n as [|n IHn]; intros [|c s] Hl; simpl in *; try done; [lia|].
    f_equal. apply IHn. lia. }
  by rewrite Htake by lia.
Qed.

(** The loop of [transfer] does to the files what the uploads of its chunks do. *)
Lemma transfer_loop_files this dest p q ct total md md' d n : ∀ i w u ns u',
  0 < l_transferChunkSize this → 0 ≤ i →
  p ≠ q → p ≠ chunk_log q → p ≠ tmp_dir q → (∀ j, p ≠ chunk_part q j) →
  w_fs w = w_fs u →
  Fs.lookup (w_fs w) p = Some (File d) →
  upload_all (OfLocal dest) q ct total md (slice d (l_transferChunkSize this))
    (seqZ (i + 1) (Z.of_nat n)) u = (Ok ns, u') →
  ∃ w',
    for_range n i (Local_transfer_chunk this p (OfLocal dest) q ct total md') w = (Ok tt, w')
    ∧ w_fs w' = w_fs u'.
Proof.
  induction n as [|n IH]; intros i w u ns u' Hs Hi H1 H2 H3 H4 Hfs Hsrc.
  { simpl. rewrite !ret_run. intros [= _ <-]. by exists w. }
  rewrite seqZ_cons by lia. cbn [upload_all Device_uploadData].
  replace (Z.pred (Z.of_nat (S n))) with (Z.of_nat n) by lia.
  replace (Z.succ (i + 1)) with ((i + 1) + 1) by lia.
  intros Hrun. apply bind_ok in Hrun as (n0 & u1 & Hup & Hrun).
  apply bind_ok in Hrun as (ns' & u2 & Hrest & Hret).
  rewrite ret_run in Hret. injection Hret as _ <-.
  cbn [for_range]. unfold bind at 1. unfold Local_transfer_chunk at 1.
  unfold bind at 1.
  rewrite (Local_read_run _ _ _ _ _ _ Hsrc). cbv zeta. unfold default. cbn [from_option id].
  assert ((l_transferChunkSize this <? 0) = false) as -> by (apply Z.ltb_ge; lia).
  assert ((i * l_transferChunkSize this <? 0) = false) as -> by (apply Z.ltb_ge; nia).
  cbn [orb]. cbv beta iota.
  set (w0 := set_trace _ w).
  unfold bind at 1. cbn [Device_uploadData].
  destruct (same_files_uploadData dest
              (Buf (Fs.read_at d (i * l_transferChunkSize this) (l_transferChunkSize this)))
              q ct (i + 1) total md' md w0 u) as [Hr Hf]; [done|].
  unfold slice in Hup. replace (i + 1 - 1) with i in Hup by lia.
  rewrite Hup in Hr, Hf. simpl in Hr, Hf.
  pose proof (keeps_uploadData dest
                (Buf (Fs.read_at d (i * l_transferChunkSize this) (l_transferChunkSize this)))
                q ct (i + 1) total md' p (File d) H1 H2 H3 H4 w0) as Hkeep.
  destruct (Local_uploadData dest _ q ct (i + 1) total md' w0) as [r w1]. simpl in *.
  subst r. rewrite ret_run. cbv beta iota.
  assert (p ≠ []) as Hp by (intros ->; done).
  destruct (IH (i + 1) w1 u1 ns' u2) as (w' & Hloop & Hfs'); try done; [lia| |].
  { rewrite lookup_nonempty by done. apply Hkeep. by rewrite <-lookup_nonempty. }
  by exists w'.
Qed.

Lemma ceil_div_covers a b : 0 < b → a ≤ ceil_div a b * b.
Proof.
  intros Hb. unfold ceil_div. pose proof (Z.mul_div_le (- a) b Hb). lia.
Qed.

(** X23: a [Local.transfer] to a local device of a file [d] larger than a
    positive [transferChunkSize], to a destination [q] that is not the source,
    does not exist yet, and whose temporary directory can be made and holds
    nothing: the transfer returns [true], the source still holds [d], and the
    destination holds [d] followed by zero bytes up to
    [ceil(size / transferChunkSize) * transferChunkSize] bytes: every chunk is
    read with the full length, so the last one is filled up. *)
Theorem Local_transfer_padded this dest p q d w :
  let size := l_transferChunkSize this in
  let total := ceil_div (Z.of_nat (String.length d)) size in
  0 < size →
  size < Z.of_nat (String.length d) →
  Fs.lookup (w_fs w) p = Some (File d) →
  p ≠ q →
  q ≠ [] →
  (Fs.mkdir (tmp_dir q) (w_fs w)).1 = true →
  Fs.children (w_fs w) (tmp_dir q) = [] →
  w_fs w !! q = None →
  ∃ w',
    Local_transfer this p (OfLocal dest) q w = (Ok true, w')
    ∧ w_fs w' !! q
      = Some (File (d +:+ Fs.zeros (Z.to_nat (total * size) - String.length d)))
    ∧ w_fs w' !! p = Some (File d).
Proof.
  intros size total Hsize Hlarge Hsrc Hpq Hq Hmk Hch Hnone.
  assert (p ≠ []) as Hp by (intros ->; done).
  assert (w_fs w !! p = Some (File d)) as Hsrc' by (by rewrite <-lookup_nonempty).
  assert (2 ≤ total) as Htotal by (by apply ceil_div_large).
  assert (p ≠ tmp_dir q) as H3.
  { intros E. pose proof (mkdir_dirs_ok _ _ Hmk) as Hok.
    apply dirs_ok_self in Hok; [|apply tmp_dir_nonempty].
    rewrite <-E in Hok. by rewrite (mkdir_mono _ _ _ _ Hsrc') in Hok. }
  assert (p ≠ chunk_log q) as H2.
  { intros E. rewrite (children_nil_inv _ _ p Hch) in Hsrc'; [done|].
    rewrite E. apply is_child_tmp_log. }
  assert (∀ j, p ≠ chunk_part q j) as H4.
  { intros j E. rewrite (children_nil_inv _ _ p Hch) in Hsrc'; [done|].
    rewrite E. apply is_child_tmp_part. }
  destruct (local_session_fresh dest q (getMimeType this (Path.show p)) total 0%nat
              (slice d size) w "" (seqZ 1 total))
    as (u' & Hall & Htgt & Hrest); try done.
  { by rewrite Hnone. }
  unfold Local_transfer. unfold bind at 1. rewrite exists_run. cbv beta iota.
  rewrite Hsrc, bool_decide_true by done. unfold negb. cbv iota.
  unfold bind at 1. rewrite (getFileSize_run _ _ _ _ Hsrc). cbv beta iota.
  unfold bind at 1. unfold Local_getFileMimeType. rewrite ret_run. cbv beta iota.
  change (Fs.size (File d)) with (Z.of_nat (String.length d)). fold size.
  assert ((Z.of_nat (String.length d) <=? size) = false) as -> by (apply Z.leb_gt; lia).
  unfold bind at 1. rewrite md_new_run. cbv beta iota. fold total.
  set (W := set_heap _ w).
  destruct (transfer_loop_files this dest p q (getMimeType this (Path.show p)) total
              0%nat (fresh (dom (w_heap w))) d (Z.to_nat total) 0 W w (seqZ 1 total) u')
    as (w' & Hloop & Hfs); try done.
  { by rewrite Z2Nat.id by lia. }
  unfold bind at 1. rewrite Hloop. rewrite ret_run.
  exists w'. split; [done|]. rewrite Hfs. split.
  - rewrite Htgt. rewrite string_app_nil_l. do 2 f_equal.
    pose proof (joined_slices d size (Z.to_nat total) 0 Hsize) as Hj.
    rewrite Z2Nat.id in Hj by lia. change (0 + 1) with 1 in Hj.
    change (0 * size) with 0 in Hj. rewrite Hj by lia.
    apply read_at_whole. by apply ceil_div_covers.
  - rewrite Hrest by done. rewrite decide_False.
    + unfold prepared. by do 2 apply mkdir_mono.
    + intros [E|[E|E]]; [done|done|].
      apply list_elem_of_In, in_map_iff in E as (j & E & _). by apply (H4 j).
Qed.

(** X24: a [Local.transfer] to a local device of a file [d] of at most
    [transferChunkSize] bytes, to a destination [q] that is not a directory
    and whose parent directories can be made: the transfer returns [true] and
    the files are those with the parents of [q] made and [q] holding exactly
    [d]. *)
Theorem Local_transfer_copy this dest p q d w :
  let fs1 := (Fs.mkdir (Path.dirname q) (w_fs w)).2 in
  Fs.lookup (w_fs w) p = Some (File d) →
  Z.of_nat (String.length d) ≤ l_transferChunkSize this →
  q ≠ [] →
  (Fs.mkdir (Path.dirname q) (w_fs w)).1 = true →
  fs1 !! q ≠ Some Dir →
  ∃ w',
    Local_transfer this p (OfLocal dest) q w = (Ok true, w')
    ∧ w_fs w' = <[q := File d]> fs1.
Proof.
  intros fs1 Hsrc Hsmall Hq Hmk Hnd.
  unfold Local_transfer. unfold bind at 1. rewrite exists_run. cbv beta iota.
  rewrite Hsrc, bool_decide_true by done. unfold negb. cbv iota.
  unfold bind at 1. rewrite (getFileSize_run _ _ _ _ Hsrc). cbv beta iota.
  unfold bind at 1. unfold Local_getFileMimeType. rewrite ret_run. cbv beta iota.
  change (Fs.size (File d)) with (Z.of_nat (String.length d)).
  assert ((Z.of_nat (String.length d) <=? l_transferChunkSize this) = true) as ->
    by (apply Z.leb_le; lia).
  unfold bind at 1. rewrite (Local_read_run _ _ _ _ _ _ Hsrc). cbv zeta.
  unfold default. cbn [from_option id]. rewrite Z.sub_0_r.
  assert ((Z.of_nat (String.length d) <? 0) = false) as -> by (apply Z.ltb_ge; lia).
  cbn [orb Z.ltb Z.compare]. cbv beta iota. rewrite read_at_all.
  cbn [Device_write].
  rewrite Local_write_run; [|done|by autorewrite with world|by autorewrite with world].
  eexists. split; [done|]. by autorewrite with world.
Qed.

Lemma Local_transfer_padded_witness :
  ∃ w',
    Local_transfer small_disk ["src"; "a.txt"] (OfLocal disk) ["dst"; "b.txt"] (mixed ∅ [])
    = (Ok true, w')
    ∧ w_fs w' !! ["dst"; "b.txt"]
      = Some (File ("abcde" +:+ Fs.zeros (Z.to_nat (ceil_div 5 2 * 2) - 5)))
    ∧ w_fs w' !! ["src"; "a.txt"] = Some (File "abcde").
Proof.
  apply (Local_transfer_padded small_disk disk ["src"; "a.txt"] ["dst"; "b.txt"] "abcde"
           (mixed ∅ [])).
  - simpl. lia.
  - simpl. lia.
  - by vm_compute.
  - discriminate.
  - discriminate.
  - by vm_compute.
  - by vm_compute.
  - by vm_compute.
Defined.

Lemma Local_transfer_copy_witness :
  ∃ w',
    Local_transfer disk ["src"; "a.txt"] (OfLocal small_disk) ["dst"; "b.txt"] (mixed ∅ [])
    = (Ok true, w')
    ∧ w_fs w'
      = <[["dst"; "b.txt"] := File "abcde"]>
          (Fs.mkdir (Path.dirname ["dst"; "b.txt"]) (w_fs (mixed ∅ []))).2.
Proof.
  apply (Local_transfer_copy disk small_disk ["src"; "a.txt"] ["dst"; "b.txt"] "abcde"
           (mixed ∅ [])).
  - by vm_compute.
  - vm_compute. discriminate.
  - discriminate.
  - by vm_compute.
  - vm_compute. discriminate.
Defined.

(** ** What the queries of [S3] ask and return *)

(** X25: [getFileSize], [getFileMimeType] and [getFileHash] of [S3] each send
    one [HEAD] request without a body and read their result off the headers
    of the answer, with their names in lower case: the size is [parseInt] of
    [content-length], or of ["0"] when that header is missing or empty; the
    type is [content-type], or the empty string; the hash is [etag] without
    its first and its last character, or the empty string, and is not
    computed from the content. *)
Theorem S3_head_queries this path w self :
  w_s3 w !! this = Some self →
  callable self →
  ∃ self' q,
    q_method q = "HEAD"
    ∧ q_body q = None
    ∧ S3_getFileSize this path w
      = (match answer true (pending w) with
         | Ok cr => Ok (Js.parseInt (or_else (Obj.get "content-length" (c_headers cr)) "0"))
         | Throw e => Throw e
         end, sent this self' q w)
    ∧ S3_getFileMimeType this path w
      = (match answer true (pending w) with
         | Ok cr => Ok (or_else (Obj.get "content-type" (c_headers cr)) "")
         | Throw e => Throw e
         end, sent this self' q w)
    ∧ S3_getFileHash this path w
      = (match answer true (pending w) with
         | Ok cr => Ok (Js.slice_inner (or_else (Obj.get "etag" (c_headers cr)) ""))
         | Throw e => Throw e
         end, sent this self' q w).
Proof.
  intros Hself Hcall.
  destruct (S3_getInfo_run this path w self Hself Hcall) as (self' & q & Hrun & _ & Hm & Hb).
  exists self', q. split; [done|]. split; [done|].
  unfold S3_getFileSize, S3_getFileMimeType, S3_getFileHash, bind. rewrite Hrun.
  destruct (answer true (pending w)) as [cr|e]; [|done].
  split; [done|]. split; [done|]. unfold ret. do 2 f_equal.
  by destruct (or_else (Obj.get "etag" (c_headers cr)) "").
Qed.

Lemma S3_head_queries_witness :
  ∃ self' q,
    q_method q = "HEAD"
    ∧ q_body q = None
    ∧ S3_getFileSize 0 "k/obj" (cloud [tagged "abc"])
      = (Ok (Some 0), sent 0 self' q (cloud [tagged "abc"]))
    ∧ S3_getFileMimeType 0 "k/obj" (cloud [tagged "abc"])
      = (Ok "", sent 0 self' q (cloud [tagged "abc"]))
    ∧ S3_getFileHash 0 "k/obj" (cloud [tagged "abc"])
      = (Ok "abc", sent 0 self' q (cloud [tagged "abc"])).
Proof.
  apply (S3_head_queries 0 "k/obj" (cloud [tagged "abc"]) bucket0).
  - reflexivity.
  - by left.
Defined.


Lemma request_headers_none (k : string) amz hs :
  Obj.get k amz = None → Obj.get k hs = None → Obj.get k (request_headers amz hs) = None.
Proof.
  intros Hamz Hhs. unfold request_headers.
  rewrite fold_request_skip by by apply obj_get_None.
  by rewrite fold_request_skip by by apply obj_get_None.
Qed.

(** X26: [S3.read] sends one [GET] without a body and never returns the
    bytes: when the request is answered well it throws a [TypeError], as the
    body that [call] returns is a string and has no [arrayBuffer]; otherwise
    it throws the error of [call].  With a length the request carries the
    header [range: bytes=<offset>-<offset + length - 1>]; without one it
    carries no [range] header. *)
Theorem S3_read_request this path offset length w self :
  w_s3 w !! this = Some self →
  endpointUrl self = None →
  NoDup (Obj.keys (headers self)) →
  Obj.get "range" (amzHeaders self) = None →
  ∃ self' q,
    S3_read this path offset length w
    = (Throw (match answer false (pending w) with
              | Ok _ => "TypeError: response.body.arrayBuffer is not a function"
              | Throw e => e
              end),
       sent this self' q (set_trace (w_trace w ++ [EvRead (OfS3 this) path offset length]) w))
    ∧ q_method q = "GET"
    ∧ q_body q = None
    ∧ Obj.get "range" (q_headers q)
      = match length with
        | Some len => Some ("bytes=" +:+ Js.str offset +:+ "-" +:+ Js.str (offset + len - 1))
        | None => None
        end.
Proof.
  intros Hself Hplain Hnd Hamz.
  unfold S3_read. unfold bind at 1. rewrite emit_run. cbv beta iota.
  unfold set_header, delete_header, set_amzHeader, delete_amzHeader.
  erewrite s3_update_bind by exact Hself.
  erewrite s3_update_bind by apply lookup_insert_eq.
  erewrite s3_update_bind by apply lookup_insert_eq.
  erewrite s3_update_bind by apply lookup_insert_eq.
  destruct length as [len|]; erewrite s3_update_bind by apply lookup_insert_eq.
  -
    unfold bind.
    match goal with |- context [S3_call _ _ _ _ _ _ ?W0] => set (W := W0) end.
    match goal with W := set_s3 (<[_ := ?b]> _) _ |- _ => set (base := b) in * end.
    destruct (S3_call_run this "GET" (object_uri path false) (Text "") [] false W base)
      as (a & Ha & Hrun); [apply lookup_insert_eq|done|].
    rewrite Hrun.
    set (self' := dated (pending W) (Text "") base) in *.
    set (q := signed_request _ _ _ _ _ _ _) in *.
    exists self', q. split.
    { change (pending W) with (pending w). unfold W. rewrite !sent_over.
      by destruct (answer false (pending w)) as [[[] ? ?]|]. }
    split; [done|]. split; [done|].
    unfold q, signed_request. cbn [q_headers].
    rewrite obj_get_set_ne by done.
    apply request_headers_own.
    + unfold self', dated, base. cbn [headers with_headers with_amzHeaders].
      do 3 apply NoDup_keys_set. by apply NoDup_keys_delete.
    + unfold self', dated, base. cbn [headers with_headers with_amzHeaders].
      rewrite obj_get_set_ne by done. apply obj_get_set_eq.
    + done.
  -
    unfold bind.
    match goal with |- context [S3_call _ _ _ _ _ _ ?W0] => set (W := W0) end.
    match goal with W := set_s3 (<[_ := ?b]> _) _ |- _ => set (base := b) in * end.
    destruct (S3_call_run this "GET" (object_uri path false) (Text "") [] false W base)
      as (a & Ha & Hrun); [apply lookup_insert_eq|done|].
    rewrite Hrun.
    set (self' := dated (pending W) (Text "") base) in *.
    set (q := signed_request _ _ _ _ _ _ _) in *.
    exists self', q. split.
    { change (pending W) with (pending w). unfold W. rewrite !sent_over.
      by destruct (answer false (pending w)) as [[[] ? ?]|]. }
    split; [done|]. split; [done|].
    unfold q, signed_request. cbn [q_headers].
    rewrite obj_get_set_ne by done.
    apply request_headers_none.
    + unfold self', dated, base. cbn [amzHeaders headers with_headers with_amzHeaders].
      destruct (Obj.get "x-amz-content-sha256" _) as [[|? ?]|];
        rewrite ?obj_get_set_ne by done; by rewrite !obj_get_delete_ne.
    + unfold self', dated, base. cbn [headers with_headers with_amzHeaders].
      rewrite obj_get_set_ne by done. apply obj_get_delete_eq.
      apply NoDup_keys_set. by apply NoDup_keys_delete.
Qed.

Lemma S3_read_request_witness :
  ∃ self' q,
    S3_read 0 "k/obj" 4 (Some 2) (cloud [accepted])
    = (Throw "TypeError: response.body.arrayBuffer is not a function",
       sent 0 self' q
         (set_trace (w_trace (cloud [accepted]) ++ [EvRead (OfS3 0) "k/obj" 4 (Some 2)])
            (cloud [accepted])))
    ∧ q_method q = "GET"
    ∧ q_body q = None
    ∧ Obj.get "range" (q_headers q) = Some "bytes=4-5".
Proof.
  apply (S3_read_request 0 "k/obj" 4 (Some 2) (cloud [accepted]) bucket0).
  - reflexivity.
  - reflexivity.
  - apply (bool_decide_unpack _). by vm_compute.
  - reflexivity.
Defined.

(** X27: [listObjects] refuses more than [MAX_PAGE_SIZE] keys before it
    touches the device or the network.  Otherwise it sends one [GET] without
    a body, whose query holds, in this order, [list-type=2], the prefix
    without one leading slash, [max-keys], and [continuation-token] only when
    the token is not empty; it returns the body of the answer. *)
Theorem S3_listObjects_spec this prefix maxKeys continuationToken w :
  (S3_MAX_PAGE_SIZE < maxKeys →
   S3_listObjects this prefix maxKeys continuationToken w
   = (Throw "Cannot list more than 1000 objects", w))
  ∧ (∀ self,
       maxKeys ≤ S3_MAX_PAGE_SIZE →
       w_s3 w !! this = Some self →
       callable self →
       ∃ self' q,
         S3_listObjects this prefix maxKeys continuationToken w
         = (match answer true (pending w) with
            | Ok cr => Ok (c_body cr)
            | Throw e => Throw e
            end, sent this self' q w)
         ∧ q_method q = "GET"
         ∧ q_body q = None
         ∧ ∃ base,
             q_url q
             = base +:+ query_string
                          ([("list-type", "2");
                            ("prefix", match prefix with String "/" s => s | _ => prefix end);
                            ("max-keys", Js.str maxKeys)]
                           ++ match continuationToken with
                              | "" => []
                              | _ => [("continuation-token", continuationToken)]
                              end)).
Proof.
  split.
  - intros Hmax. unfold S3_listObjects.
    by assert ((S3_MAX_PAGE_SIZE <? maxKeys) = true) as -> by (by apply Z.ltb_lt).
  - intros self Hmax Hself Hcall. unfold S3_listObjects.
    assert ((S3_MAX_PAGE_SIZE <? maxKeys) = false) as -> by (by apply Z.ltb_ge).
    cbv zeta. s3_prelude Hself. unfold bind.
    match goal with |- context [S3_call _ _ _ _ ?ps _ ?W] => set (W0 := W); set (Ps := ps) end.
    edestruct (S3_call_any this "GET" "/" (Text "") Ps true W0)
      as (self' & q & Hrun & Hc & Hm & Hb & base & Hu);
      [apply lookup_insert_eq|callable_step|].
    exists self', q. split; [|split; [done|split; [done|]]].
    + rewrite Hrun. unfold W0. rewrite !sent_over, !pending_set_s3.
      by destruct (answer true (pending w)).
    + exists base. rewrite Hu. unfold Ps. by destruct continuationToken.
Qed.

Lemma S3_listObjects_spec_witness :
  S3_listObjects 0 "/logs" 1001 "" (cloud [accepted])
  = (Throw "Cannot list more than 1000 objects", cloud [accepted])
  ∧ ∃ self' q,
      S3_listObjects 0 "/logs" 2 "next" (cloud [accepted])
      = (Ok (BXml [("UploadId", "u-1")]), sent 0 self' q (cloud [accepted]))
      ∧ q_method q = "GET"
      ∧ q_body q = None
      ∧ ∃ base,
          q_url q = base +:+ "?list-type=2&prefix=logs&max-keys=2&continuation-token=next".
Proof.
  split.
  - apply (S3_listObjects_spec 0 "/logs" 1001 "" (cloud [accepted])). by vm_compute.
  - apply (proj2 (S3_listObjects_spec 0 "/logs" 2 "next" (cloud [accepted])) bucket0).
    + by vm_compute.
    + reflexivity.
    + by left.
Defined.
